(* ===== verification/_CoqProject ===== *)
-Q . S2P
Prelude.v
Bson.v
BsonModel.v
HonkWire.v
HonkSize.v
VecDeque.v
Maps.v
Str.v
NetAddr.v
NetAddrTheory.v
Regexes.v
HonkSession.v
HonkRead.v
HonkScript.v
HonkWrite.v
HonkChannel.v
HonkUpdate.v
HonkProps.v
Crypto.v
TorCrypto.v
CryptoModel.v
GoslingProto.v
IdentityServer.v
IdentityClient.v
EndpointServer.v
EndpointClient.v
Handshake.v
GoslingProps.v
TorProvider.v
TorAddr.v
MockTorClient.v
MockProps.v
TorConfig.v
TorProcess.v
Hashes.v
ArtiClient.v
Context.v
ContextTheory.v
ContextLife.v
TorScript.v
ContextProps.v
ArtiProps.v
TorVersion.v
ControlStream.v
ControlTheory.v
ControlReplies.v
TorController.v
LegacyTorClient.v
LegacyClientTheory.v
ControlScript.v
ControllerTheory.v
ControlProps.v
TorProps.v
ObjectRegistry.v
SourceTests.v
ProviderTests.v
CFfi.v
CObjects.v
CUtils.v
CTorProvider.v
CCallbacks.v
CContext.v
CEvents.v
CLocks.v
CFfiProps.v
CContextProps.v
CProviderProps.v
