(* ===== verification/Prelude.v ===== *)
(** * Gosling: Honk-RPC, Tor, the Gosling handshakes and their C interface

    Gosling builds peer-to-peer connections over Tor onion services.  Its crates
    (src/source/gosling/crates/) are: honk-rpc, a remote procedure call protocol whose
    messages are BSON documents on a byte stream; tor-interface, the keys and addresses of
    onion services and the drivers of tor daemons; gosling, the handshakes by which a client
    proves to an identity server who it is, obtains an endpoint of its own, and opens a
    channel on that endpoint, and the context that runs them; cgosling, the C interface.

    ** Conventions

    A Rust method is a function of the monad [M] of this file: it takes the state of
    [self] and gives [Done (state, result)], [Panicked] (assert!, unwrap on an error,
    unreachable!, indexing) or [OutOfFuel].  A [Result] is [result]; [?] is the bind.  A
    call of the C interface is a function of the monad [F] of CFfi: its state are the
    registries of the library behind their locks, and a panic is a value, because the call
    catches it; calls that run code of the application use the monad [E] of CEvents.
    Machine integers are [Z] with the width written out where it matters ([wrap_i32],
    [is_i32]); sizes are [nat]; bytes are [list Byte.byte]; strings are [string] with their
    bytes [as_bytes], and byte lists where they are parsed.  Loops whose end depends on a
    peer take fuel; theorems that promise a result prove that some amount of fuel gives it,
    and more gives the same ([settles]).  Third-party crates and the operating system are
    classes, with their documented behaviour as laws and an executable instance.

    ** Files

    Shared: Prelude (the monad, its triples [triple], [keeps], [preserves], fuel lemmas,
    integers, bytes, lists, automation); Bson and BsonModel (the bson crate, [BsonLib] with
    [BsonLaws], and an instance); VecDeque (the ring buffer of the standard library); Maps
    (BTreeMap, HashMap); Str, NetAddr, NetAddrTheory (strings, socket addresses and their
    texts); Regexes (the regex crate and the patterns of the source).

    honk-rpc: HonkWire (messages and their documents), HonkSize (size functions),
    HonkSession (the session and all its methods), HonkRead, HonkWrite, HonkChannel,
    HonkUpdate (what the reader, the writer, two joined sessions and a whole turn do),
    HonkScript (a scripted stream), HonkProps.

    tor-interface: Crypto, CryptoModel, TorCrypto (keys, signatures, service ids; the
    primitives are the class [CryptoLib]); TorProvider (the trait, as the class
    [TorProvider]), TorAddr (addresses); TorConfig (proxy.rs, censorship_circumvention.rs);
    TorVersion; ControlStream, ControlTheory, ControlReplies, TorController,
    ControllerTheory (the control port); TorProcess (the daemon's files, password and log);
    Hashes (SHA-1 and SHA3-256, and instances of the classes with them); LegacyTorClient, LegacyClientTheory (the bundled or system daemon as a provider);
    MockTorClient, MockProps (the in-process network as a provider); ArtiClient (the
    provider over the arti crates, its tasks and pumps); ControlScript, ControlProps,
    TorProps.

    gosling: GoslingProto (the shared part of the handshakes), IdentityServer,
    IdentityClient, EndpointServer, EndpointClient (one file each; the two servers are
    instances of [ApiSet]), Handshake (both ends together), GoslingProps; Context (the
    context over any [TorProvider]), ContextTheory, ContextLife, TorScript (a scripted
    provider), ContextProps; ArtiProps (the arti provider, also under a context).

    cgosling: ObjectRegistry (handles), CFfi (locks, errors, the library and the keys),
    CObjects (the types behind the other handles, the boxed provider), CUtils (addresses),
    CTorProvider (settings and providers), CCallbacks (the callback table and the calls of
    function pointers), CContext (the calls on contexts), CEvents (the event handlers and
    polling), CLocks (the locks of the calls, and threads that run them); CFfiProps,
    CContextProps, CProviderProps.

    SourceTests and ProviderTests run tests of the source on the models: versions,
    addresses, keys and hashes, handles, sessions, both handshakes, and the mock provider
    give what the tests assert.

    ** What the theorems show

    Honk-RPC: what one session sends the other receives, whatever way the stream cuts the
    bytes (C1); a turn never panics and ends (C2), output is conserved (C3), the reader and
    the packer are correct on every branch (C6, C7), size checks are exact (C8), messages
    and codes survive the wire (C9), requests reach their apiset and are answered, and
    the cookies of calls are fresh (C12).  C4 proves the ways in which the assertions of the source can
    fail: these are the inputs the conditions of C2 exclude.

    Keys and addresses: target addresses round-trip (C5), service ids are in bijection with
    public keys (C15), keys survive their conversions (C17), the client proof binds all it
    is made of (C18).

    Handshakes: a server completes only with a client whose signatures it verified and whom
    the application accepted, in every reachable state (C20, C24); turns end (C21), honest
    clients are accepted (C22) and whole handshakes complete (C29); the size checks made
    when the application supplies a document suffice for the message sent later (C31); the
    client completes only on the answer of the server (C33); data is lost when the stream
    is handed over (C26).  A context lets in only whom the application accepted (C35), its
    events account for its handshakes (C36), and C37 says what its failures leave behind.

    Tor: versions (C14), the texts of bridge lines and of configuration commands (C16), the
    password hash and the lines of the log (C19), replies of the control port delivered whole, and the lines on
    which reading them fails (C39), synchronous and asynchronous replies kept apart (C40);
    services follow their listeners and connections wait for tor in the legacy client (C27,
    C34); the mock network serves what is listened on (C38); the pumps of the arti provider
    forward what they read and end (C25), and what a context can and cannot do over that
    provider (C32).

    C interface: handles identify their objects (C23) for as long as these live (C30);
    settings reach the provider and the provider its context (C10); events reach the
    application in order and an error costs one event (C11); a panic costs more (C28).  Threads whose calls nest
    their locks in one order do not deadlock, and one call that does not keep to it can (C13).

    ** Bounds and fuel

    [read_sections] and [write_loop] need fuel in the number of bytes the stream can still
    give or take: the class [FiniteStream] of HonkRead has a capacity that every progress
    consumes, and the scripted stream is an instance.  [drain_results] needs the number of
    results an apiset has ready, which [ApiSetLaws] bounds.  [serialize_messages] gets one
    unit per queued section, which C7 proves enough.  The password hash gets its byte count.
    The loops of the control port and of the daemon's start take fuel for the replies and
    the time they wait.  Tasks of the arti provider take one step per wake, so their loops
    are runs of steps.  Everything else is structural.

    ** Not modelled

    The arti crates are a class whose errors carry no detail.  Calls of the C interface
    take and release their locks as in the source but are atomic; only CLocks interleaves
    them, and it knows of a call no more than its locks.  Left out for good: bindings,
    examples, fuzzers, build scripts and tests that need a network (none of them state of
    the library); Display and Debug texts and the payload strings of errors; the memory
    that raw pointers of the C interface point to (a buffer is its contents or its size). *)

From Stdlib Require Import ZArith Lia.
From Stdlib Require String Strings.Byte.
From stdpp Require Import prelude strings list.
From coqutil Require Import Byte Word.LittleEndianList.

(** * Results, panics and the state monad of Rust methods *)

(** [std::result::Result]. *)
Inductive result (E A : Type) : Type :=
| Ok (a : A)
| Err (e : E).
Arguments Ok {E A} a.
Arguments Err {E A} e.

(** How a call ends: it returns, it panics (a failed [assert!], an [unwrap()]
    of an error, [unreachable!()]), or the model's fuel is used up, which
    stands for a loop of the source that has not finished. *)
Inductive outcome (A : Type) : Type :=
| Done (a : A)
| Panicked
| OutOfFuel.
Arguments Done {A} a.
Arguments Panicked {A}.
Arguments OutOfFuel {A}.

(** A fallible method on [&mut self] with state [S].  The state is returned
    with an [Err] as well: what was assigned before the [?] stays assigned. *)
Definition M (S E A : Type) : Type := S → outcome (S * result E A).

#[export] Instance M_ret {S E} : MRet (M S E) := λ A a s, Done (s, Ok a).
#[export] Instance M_bind {S E} : MBind (M S E) := λ A B f m s,
  match m s with
  | Done (s', Ok a) => f a s'
  | Done (s', Err e) => Done (s', Err e)
  | Panicked => Panicked
  | OutOfFuel => OutOfFuel
  end.

Definition throw {S E A} (e : E) : M S E A := λ s, Done (s, Err e).
Definition panic {S E A} : M S E A := λ _, Panicked.
Definition diverge {S E A} : M S E A := λ _, OutOfFuel.
Definition get_state {S E} : M S E S := λ s, Done (s, Ok s).
Definition gets {S E A} (f : S → A) : M S E A := λ s, Done (s, Ok (f s)).
Definition modify {S E} (f : S → S) : M S E unit := λ s, Done (f s, Ok tt).
Definition assert {S E} (b : bool) : M S E unit := if b then mret tt else panic.
(** [Ok(..)?] / [map_err(..)?] on a plain result. *)
Definition lift_result {S E A} (r : result E A) : M S E A := λ s, Done (s, r).
(** Run a method and look at its [Result] instead of propagating it. *)
Definition catch {S E E' A} (m : M S E A) : M S E' (result E A) := λ s,
  match m s with
  | Done (s', r) => Done (s', Ok r)
  | Panicked => Panicked
  | OutOfFuel => OutOfFuel
  end.

Definition map_err {E E' A} (f : E → E') (r : result E A) : result E' A :=
  match r with Ok a => Ok a | Err e => Err (f e) end.

#[export] Instance result_ret {E} : MRet (result E) := λ A a, Ok a.
#[export] Instance result_bind {E} : MBind (result E) := λ A B f m,
  match m with Ok a => f a | Err e => Err e end.

#[export] Instance result_fmap {E} : FMap (result E) := λ A B f r,
  match r with Ok a => Ok (f a) | Err e => Err e end.

Create HintDb gosling.

(** * Triples

    [triple P m Q]: run from a state with [P], the method does not panic, and when
    it returns its state and result are related by [Q]. *)
Definition triple {S E A} (P : S → Prop) (m : M S E A) (Q : S → result E A → Prop) : Prop :=
  ∀ s, P s → match m s with
             | Done (s', r) => Q s' r
             | Panicked => False
             | OutOfFuel => True
             end.

(** An invariant kept on success and on error alike. *)
Abbreviation keeps P m := (triple P m (λ s _, P s)).

Section triples.
Context {S E : Type}.

Lemma triple_bind {A B} P (m : M S E A) (f : A → M S E B) Q R :
  triple P m Q → (∀ s e, Q s (Err e) → R s (Err e)) →
  (∀ a, triple (λ s, Q s (Ok a)) (f a) R) → triple P (mbind f m) R.
Proof.
  intros Hm He Hf s Hs. unfold mbind, M_bind. specialize (Hm s Hs).
  destruct (m s) as [[s' [a|e]]| |]; [by apply Hf|by apply He|done|done].
Qed.

Lemma keeps_bind {A B} P (m : M S E A) (f : A → M S E B) :
  keeps P m → (∀ a, keeps P (f a)) → keeps P (mbind f m).
Proof. intros Hm Hf. by eapply triple_bind; [exact Hm|..]. Qed.

Lemma keeps_ret {A} P (a : A) : keeps P (mret a : M S E A).
Proof. by intros s Hs. Qed.

Lemma keeps_get P : keeps P (get_state : M S E S).
Proof. by intros s Hs. Qed.

Lemma keeps_modify P f : (∀ s, P s → P (f s)) → keeps P (modify f : M S E unit).
Proof. intros Hf s Hs. by apply Hf. Qed.

Lemma keeps_throw {A} P e : keeps P (throw e : M S E A).
Proof. by intros s Hs. Qed.

Lemma triple_conseq {A} (P P' : S → Prop) (m : M S E A) (Q Q' : S → result E A → Prop) :
  triple P' m Q' → (∀ s, P s → P' s) → (∀ s r, Q' s r → Q s r) → triple P m Q.
Proof.
  intros Hm HP HQ s Hs. specialize (Hm s (HP s Hs)).
  destruct (m s) as [[s' r]| |]; auto.
Qed.
End triples.

#[export] Hint Resolve keeps_ret keeps_get keeps_modify keeps_throw : gosling.

(** What every call that returns keeps, whether or not it may also panic. *)
Definition preserves {S E A} (P : S → Prop) (m : M S E A) : Prop :=
  ∀ s s' r, P s → m s = Done (s', r) → P s'.

Section preserves.
Context {S E : Type} (P : S → Prop).

Lemma preserves_bind {A B} (m : M S E A) (f : A → M S E B) :
  preserves P m → (∀ a, preserves P (f a)) → preserves P (mbind f m).
Proof.
  intros Hm Hf s s' r Hs. unfold mbind, M_bind. specialize (Hm s).
  destruct (m s) as [[s1 [a|e]]| |]; [|intros [= <- _]; by eapply Hm|done..].
  intros Hr. eapply Hf; [by eapply Hm|done].
Qed.

Lemma preserves_ret {A} (a : A) : preserves P (mret a : M S E A).
Proof. intros s s' r Hs. unfold mret, M_ret. by intros [= <- _]. Qed.

Lemma preserves_get : preserves P (get_state : M S E S).
Proof. intros s s' r Hs. by intros [= <- _]. Qed.

Lemma preserves_diverge {A} : preserves P (diverge : M S E A).
Proof. by intros s s' r Hs. Qed.

Lemma preserves_panic {A} : preserves P (panic : M S E A).
Proof. by intros s s' r Hs. Qed.

Lemma preserves_throw {A} (e : E) : preserves P (throw e : M S E A).
Proof. intros s s' r Hs. by intros [= <- _]. Qed.

Lemma preserves_gets {A} (f : S → A) : preserves P (gets f : M S E A).
Proof. intros s s' r Hs. by intros [= <- _]. Qed.

Lemma preserves_modify f : (∀ s, P s → P (f s)) → preserves P (modify f : M S E unit).
Proof. intros Hf s s' r Hs. intros [= <- _]. by apply Hf. Qed.
End preserves.

#[export] Hint Resolve preserves_ret preserves_get preserves_diverge preserves_panic preserves_throw
  preserves_gets preserves_modify : gosling.

(** * Fuel

    [settles m s]: with enough fuel the loops of [m] finish, and more fuel does not
    change the outcome. *)
Definition settles {S E A} (m : nat → M S E A) (s : S) : Prop :=
  ∃ n o, o ≠ OutOfFuel ∧ ∀ fuel, n ≤ fuel → m fuel s = o.

Section settles.
Context {S E : Type}.

Lemma settles_const {A} (m : M S E A) s : m s ≠ OutOfFuel → settles (λ _, m) s.
Proof. intros H. by exists 0, (m s). Qed.

Lemma settles_bind {A B} (m : nat → M S E A) (f : nat → A → M S E B) P Q s :
  (∀ n, triple P (m n) Q) → P s → settles m s →
  (∀ a s', Q s' (Ok a) → settles (λ n, f n a) s') →
  settles (λ n, mbind (f n) (m n)) s.
Proof.
  intros Ht HP (n & o & Ho & Hm) Hf. pose proof (Ht n s HP) as Hq. rewrite (Hm n) in Hq by done.
  destruct o as [[s' [a|e]]| |]; [|..|done].
  - destruct (Hf a s' Hq) as (n' & o' & Ho' & Hf'). exists (Nat.max n n'), o'.
    split; [done|]. intros fuel Hfuel. unfold mbind, M_bind. rewrite Hm by lia. apply Hf'. lia.
  - exists n, (Done (s', Err e)). split; [done|]. intros. unfold mbind, M_bind. by rewrite Hm.
  - exists n, Panicked. split; [done|]. intros. unfold mbind, M_bind. by rewrite Hm.
Qed.

(** The same for a first step that uses no fuel. *)
Lemma settles_bind_const {A B} (m : M S E A) (f : nat → A → M S E B) P Q s :
  triple P m Q → P s → m s ≠ OutOfFuel →
  (∀ a s', Q s' (Ok a) → settles (λ n, f n a) s') →
  settles (λ n, mbind (f n) m) s.
Proof.
  intros Ht HP Hm. apply (settles_bind (λ _, m) f P Q); [done..|]. by apply settles_const.
Qed.

(** A loop that finishes for some fuel and is stable under more settles. *)
Lemma settles_mono {A} (m : nat → M S E A) s n :
  m n s ≠ OutOfFuel → (∀ k, m k s ≠ OutOfFuel → m (Datatypes.S k) s = m k s) → settles m s.
Proof.
  intros Hn Hmono. exists n, (m n s). split; [done|]. intros fuel Hle.
  induction Hle as [|fuel Hle IH]; [done|]. rewrite <- IH. apply Hmono. by rewrite IH.
Qed.

Lemma settles_triple {A} (m : nat → M S E A) P Q s :
  (∀ n, triple P (m n) Q) → P s → settles m s →
  ∃ n s' r, Q s' r ∧ ∀ fuel, n ≤ fuel → m fuel s = Done (s', r).
Proof.
  intros Ht HP (n & o & Ho & Hm). pose proof (Ht n s HP) as Hq. rewrite (Hm n) in Hq by done.
  destruct o as [[s' r]| |]; [|done..]. by exists n, s', r.
Qed.
End settles.

(** * Machine integers *)

Declare Scope gosling_scope.
Delimit Scope gosling_scope with gosling.
Open Scope gosling_scope.

Definition i32_min : Z := -2147483648.
Definition i32_max : Z := 2147483647.
Definition i64_min : Z := -9223372036854775808.
Definition i64_max : Z := 9223372036854775807.

(** [usize::MAX] on the 64-bit targets *)
Definition usize_max : Z := 18446744073709551615.

Definition is_i32 (z : Z) : bool := (i32_min <=? z)%Z && (z <=? i32_max)%Z.
Definition is_i64 (z : Z) : bool := (i64_min <=? z)%Z && (z <=? i64_max)%Z.

(** Two's complement truncation ([as i32], [as u8], wrapping addition). *)
Definition wrap_i32 (z : Z) : Z := ((z + 2 ^ 31) `mod` 2 ^ 32 - 2 ^ 31)%Z.
Definition wrap_i64 (z : Z) : Z := ((z + 2 ^ 63) `mod` 2 ^ 64 - 2 ^ 63)%Z.
Definition wrap_u8 (z : Z) : Z := (z `mod` 256)%Z.

Lemma wrap_i32_small z : is_i32 z = true → wrap_i32 z = z.
Proof.
  unfold is_i32, wrap_i32, i32_min, i32_max. intros H.
  rewrite Z.mod_small; lia.
Qed.

Lemma wrap_i64_small z : is_i64 z = true → wrap_i64 z = z.
Proof.
  unfold is_i64, wrap_i64, i64_min, i64_max. intros H.
  rewrite Z.mod_small; lia.
Qed.

Lemma wrap_i32_is_i32 z : is_i32 (wrap_i32 z) = true.
Proof.
  unfold is_i32, wrap_i32, i32_min, i32_max.
  pose proof (Z.mod_pos_bound (z + 2 ^ 31) (2 ^ 32) ltac:(lia)). lia.
Qed.

Lemma wrap_i64_is_i64 z : is_i64 (wrap_i64 z) = true.
Proof.
  unfold is_i64, wrap_i64, i64_min, i64_max.
  pose proof (Z.mod_pos_bound (z + 2 ^ 63) (2 ^ 64) ltac:(lia)). lia.
Qed.

(** [|] of a shifted value and one that fits under the shift is their sum. *)
Lemma lor_shiftl_add a c n :
  (0 ≤ n)%Z → (0 ≤ c < 2 ^ n)%Z → Z.lor (Z.shiftl a n) c = (a * 2 ^ n + c)%Z.
Proof.
  intros Hn Hc. rewrite <- Z.shiftl_mul_pow2 by done.
  enough (Z.land (Z.shiftl a n) c = 0)%Z by (pose proof (Z.add_lor_land (Z.shiftl a n) c); lia).
  apply Z.bits_inj'. intros i Hi. rewrite Z.land_spec, Z.bits_0.
  destruct (Z.ltb_spec i n); [by rewrite Z.shiftl_spec_low by lia|].
  enough (Z.testbit c i = false) as -> by apply andb_false_r.
  destruct (decide (c = 0)%Z) as [->|]; [apply Z.bits_0|].
  apply Z.bits_above_log2; [lia|]. apply Z.log2_lt_pow2; [lia|].
  apply Z.lt_le_trans with (2 ^ n)%Z; [lia|]. apply Z.pow_le_mono_r; lia.
Qed.

(** * Byte strings *)

Abbreviation bytes := (list Init.Byte.byte).

#[export] Instance byte_eq_decision : EqDecision Init.Byte.byte := Stdlib.Strings.Byte.byte_eq_dec.

(** [str::as_bytes]: a Rust [String] is modelled by its bytes. *)
Definition as_bytes (s : string) : bytes := String.list_byte_of_string s.

Lemma length_as_bytes s : length (as_bytes s) = String.length s.
Proof.
  unfold as_bytes, String.list_byte_of_string. rewrite length_map.
  induction s; simpl; auto.
Qed.

Lemma as_bytes_inj s t : as_bytes s = as_bytes t → s = t.
Proof.
  intros H. rewrite <- (String.string_of_list_byte_of_string s),
    <- (String.string_of_list_byte_of_string t).
  by unfold as_bytes in H; rewrite H.
Qed.

(** A fixed-size array conversion, [Vec<u8>::try_into::<[u8; n]>()]. *)
Definition try_into_array (n : nat) (v : bytes) : option bytes :=
  if decide (length v = n) then Some v else None.

Lemma try_into_array_Some n v a :
  try_into_array n v = Some a ↔ a = v ∧ length v = n.
Proof. unfold try_into_array. case_decide; naive_solver. Qed.

(** * Proof automation *)

(** Symbolic execution of the monad: unfold the combinators and split every
    match on an outcome, a result or an option that blocks evaluation. *)
Ltac monad_unfold :=
  unfold mbind, M_bind, mret, M_ret, throw, panic, diverge, get_state, gets,
    modify, assert, lift_result, catch, map_err, result_ret, result_bind in *.

Ltac monad_step :=
  match goal with
  | H : Done _ = Done _ |- _ => injection H as H; subst
  | H : (_, _) = (_, _) |- _ => injection H as H; subst
  | H : Ok _ = Ok _ |- _ => injection H as H; subst
  | H : Err _ = Err _ |- _ => injection H as H; subst
  | H : Some _ = Some _ |- _ => injection H as H; subst
  | H : Done _ = Panicked |- _ => discriminate H
  | H : Done _ = OutOfFuel |- _ => discriminate H
  | H : Panicked = _ |- _ => discriminate H
  | H : OutOfFuel = _ |- _ => discriminate H
  | H : Ok _ = Err _ |- _ => discriminate H
  | H : Err _ = Ok _ |- _ => discriminate H
  | H : Some _ = None |- _ => discriminate H
  | H : None = Some _ |- _ => discriminate H
  | p : (_ * _)%type |- _ => destruct p
  | u : unit |- _ => destruct u
  end.

(** Case analysis of every match in a hypothesis. *)
Ltac inv_monad H :=
  monad_unfold; simpl in H;
  repeat (monad_step ||
    match type of H with
    | context [match ?x with _ => _ end] =>
        let E := fresh "E" in destruct x eqn:E; simpl in H
    end).

(** Split the matches on option variables in a goal [m s = Done _ -> _], dropping the
    branches that return the state as it was. *)
Ltac split_options :=
  repeat match goal with
  | |- context [match ?o with Some _ => _ | None => _ end] =>
      is_var o; destruct o; simpl; try (by intros [= <- _])
  end.

(** Both sides of an equation evaluate to the same value. *)
Ltac by_eval := lazymatch goal with |- ?x = _ => vm_cast_no_check (eq_refl x) end.

(** A computation that succeeds with a state and a value of which [p] holds: evaluated
    without printing either. *)
Definition succeeds {S E A} (o : outcome (S * result E A)) (p : S → A → bool) : bool :=
  match o with Done (s, Ok a) => p s a | _ => false end.
Lemma succeeds_spec {S E A} (o : outcome (S * result E A)) p :
  succeeds o p = true → ∃ s a, o = Done (s, Ok a) ∧ p s a = true.
Proof. destruct o as [[s [a|]]| |]; [|done..]. intros Hp. by exists s, a. Qed.

(** * Lists *)

Section lists.
Context {A B : Type}.

Fixpoint sum_with (f : A → nat) (l : list A) : nat :=
  match l with
  | [] => 0
  | x :: l => f x + sum_with f l
  end.

Lemma sum_with_app f (l k : list A) : sum_with f (l ++ k) = sum_with f l + sum_with f k.
Proof. induction l; simpl; lia. Qed.

Lemma Forall_take_drop (P : A → Prop) n (l : list A) :
  Forall P l → Forall P (take n l) ∧ Forall P (drop n l).
Proof. intros; split; [by apply Forall_take | by apply Forall_drop]. Qed.

(** [iter().map(f).collect::<Result<_, _>>()]: the first error wins. *)
Fixpoint map_result {E} (f : A → result E B) (l : list A) : result E (list B) :=
  match l with
  | [] => Ok []
  | x :: l => y ← f x; ys ← map_result f l; mret (y :: ys)
  end.

Lemma map_result_Ok {E} (f : A → result E B) (g : B → A) l :
  (∀ x, x ∈ l → f (g x) = Ok x) → map_result f (map g l) = Ok l.
Proof.
  induction l as [|x l IH]; intros H; simpl; [done|].
  rewrite H by set_solver. simpl. rewrite IH by set_solver. done.
Qed.

End lists.
