(* ===== verification/Bson.v ===== *)
(** The [bson] crate as an interface.

    The crate is not part of the repository, so documents are an abstract type
    and its functions are the operations of the class [BsonLib].  The laws of
    [BsonLaws] are the behaviour the crate and the BSON specification document:
    a document is a map from keys to values, [get_i32] and the like look a key
    up and check the variant, the encoding of a document has the size the BSON
    grammar gives it, begins with that size and decodes back to the document.
    [BsonModel.v] gives an instance of both classes. *)

From Stdlib Require Import ZArith Lia.
From Stdlib Require DecimalString.
From S2P Require Import Prelude.
From stdpp Require Import prelude strings list.
From coqutil Require Import Byte Word.LittleEndianList.

(** [bson::spec::BinarySubtype]; the source only tells [Generic] from the rest. *)
Inductive BinarySubtype := Generic | OtherSubtype (code : Z).

(** [bson::Bson], over the type [D] of documents and a type [O] for the variants
    the source never names. *)
Inductive BsonOf (D O : Type) : Type :=
| BString (s : string)
| BArray (vs : list (BsonOf D O))
| BDocument (d : D)
| BBoolean (b : bool)
| BNull
| BInt32 (z : Z)
| BInt64 (z : Z)
| BBinary (subtype : BinarySubtype) (data : bytes)
| BOther (o : O).
Arguments BString {D O} s.
Arguments BArray {D O} vs.
Arguments BDocument {D O} d.
Arguments BBoolean {D O} b.
Arguments BNull {D O}.
Arguments BInt32 {D O} z.
Arguments BInt64 {D O} z.
Arguments BBinary {D O} subtype data.
Arguments BOther {D O} o.

(** [bson::document::ValueAccessError]. *)
Inductive ValueAccessError := NotPresent | UnexpectedType.

Class BsonLib : Type := {
  Document : Type;
  OtherBson : Type;
  ser_error : Type;
  de_error : Type;
  doc_new : Document;
  doc_get : Document → string → option (BsonOf Document OtherBson);
  doc_insert : Document → string → BsonOf Document OtherBson → Document;
  doc_remove : Document → string → option (BsonOf Document OtherBson) * Document;
  doc_is_empty : Document → bool;
  get_i32 : Document → string → result ValueAccessError Z;
  get_i64 : Document → string → result ValueAccessError Z;
  get_str : Document → string → result ValueAccessError string;
  get_document_mut : Document → string → result ValueAccessError Document;
  get_array_mut : Document → string → result ValueAccessError (list (BsonOf Document OtherBson));
  (** [Document::to_writer]: the bytes it hands to the writer *)
  to_writer : Document → result ser_error bytes;
  (** [Document::from_reader] on a cursor over the bytes *)
  from_reader : bytes → result de_error Document;
}.

Abbreviation Bson := (BsonOf Document OtherBson).

(** The shape every typed getter of the crate documents. *)
Definition access {V A} (o : option V) (f : V → option A) : result ValueAccessError A :=
  match o with
  | None => Err NotPresent
  | Some v => match f v with Some a => Ok a | None => Err UnexpectedType end
  end.

(** [doc! { k1 : v1, ... }]: a new document with the pairs inserted in order. *)
Definition doc `{BsonLib} (kvs : list (string * Bson)) : Document :=
  fold_left (λ d '(k, v), doc_insert d k v) kvs doc_new.

(** The key of the [i]-th array element: [i] in decimal. *)
Definition index_key (i : nat) : string := DecimalString.NilEmpty.string_of_uint (Nat.to_uint i).
Definition index_key_length (i : nat) : nat := String.length (index_key i).

(** Encoded size of a value in the BSON grammar, given the sizes of documents
    and of the other variants. *)
Section sizes.
Context {D O : Type} (dsize : D → nat) (osize : O → nat).

Definition elems_size (f : BsonOf D O → nat) : nat → list (BsonOf D O) → nat :=
  fix go (i : nat) (vs : list (BsonOf D O)) : nat :=
    match vs with
    | [] => 0
    | v :: vs => 1 + index_key_length i + 1 + f v + go (S i) vs
    end.

Fixpoint value_size (v : BsonOf D O) : nat :=
  match v with
  | BString s => 4 + String.length s + 1
  | BArray vs => 5 + elems_size value_size 0 vs
  | BDocument d => dsize d
  | BBoolean _ => 1
  | BNull => 0
  | BInt32 _ => 4
  | BInt64 _ => 8
  | BBinary _ data => 4 + 1 + length data
  | BOther o => osize o
  end.
End sizes.

Class BsonLaws (BL : BsonLib) : Type := {
  doc_size : Document → nat;
  other_size : OtherBson → nat;
  get_new k : doc_get doc_new k = None;
  get_insert_eq d k v : doc_get (doc_insert d k v) k = Some v;
  get_insert_ne d k k' v : k ≠ k' → doc_get (doc_insert d k v) k' = doc_get d k';
  remove_fst d k : (doc_remove d k).1 = doc_get d k;
  remove_ne d k k' : k ≠ k' → doc_get (doc_remove d k).2 k' = doc_get d k';
  is_empty_new : doc_is_empty doc_new = true;
  get_i32_access d k :
    get_i32 d k = access (doc_get d k) (λ v, if v is BInt32 z then Some z else None);
  get_i64_access d k :
    get_i64 d k = access (doc_get d k) (λ v, if v is BInt64 z then Some z else None);
  get_str_access d k :
    get_str d k = access (doc_get d k) (λ v, if v is BString s then Some s else None);
  get_document_access d k :
    get_document_mut d k = access (doc_get d k) (λ v, if v is BDocument x then Some x else None);
  get_array_access d k :
    get_array_mut d k = access (doc_get d k) (λ v, if v is BArray x then Some x else None);
  (** sizes: [int32 size, elements, 0x00]; an element is a tag byte, the key as
      a C string and the value *)
  size_new : doc_size doc_new = 5;
  size_insert_new d k v :
    doc_get d k = None →
    doc_size (doc_insert d k v) =
      doc_size d + (1 + String.length k + 1 + value_size doc_size other_size v);
  size_insert_old d k v w :
    doc_get d k = Some w →
    doc_size (doc_insert d k v) + value_size doc_size other_size w =
      doc_size d + value_size doc_size other_size v;
  to_writer_size d b : to_writer d = Ok b → length b = doc_size d;
  to_writer_header d b :
    to_writer d = Ok b →
    (5 ≤ Z.of_nat (length b) ≤ i32_max)%Z ∧ le_combine (take 4 b) = Z.of_nat (length b);
  from_reader_to_writer d b : to_writer d = Ok b → from_reader b = Ok d;
}.

Abbreviation bson_size := (value_size doc_size other_size).

#[export] Hint Rewrite @get_new @get_insert_eq @get_i32_access @get_i64_access
  @get_str_access @get_document_access @get_array_access @remove_fst
  @size_new @is_empty_new : bson.

(** Evaluate lookups in a document built by insertions of literal keys. *)
Ltac bson_simpl :=
  repeat ((progress autorewrite with bson) ||
          (rewrite get_insert_ne by discriminate) ||
          (rewrite remove_ne by discriminate));
  cbn [access fst snd].

Section derived.
Context `{BL : BsonLaws}.

(** Sizes of whole documents, by folding the insertions. *)
Lemma size_insert_fresh d k v n :
  doc_size d = n → doc_get d k = None →
  doc_size (doc_insert d k v) = n + (2 + String.length k + bson_size v).
Proof. intros <- Hk. rewrite size_insert_new by done. lia. Qed.

(** Replacing a value moves the size by the difference of the values. *)
Lemma size_insert_replace d k v w n :
  doc_size d = n → doc_get d k = Some w →
  doc_size (doc_insert d k v) = n + bson_size v - bson_size w.
Proof. intros <- Hk. pose proof (size_insert_old d k v w Hk). lia. Qed.

End derived.

(** Compute [doc_size] of a document given by insertions of literal keys. *)
Ltac bson_size_simpl :=
  repeat (erewrite size_insert_fresh; [|reflexivity|by bson_simpl]);
  rewrite ?size_new.
