(* ===== verification/BsonModel.v ===== *)
(** A model of the [BsonLib] interface: documents as association lists in
    insertion order, with the binary encoding of the BSON specification for the
    variants the program uses.  It shows the laws of [BsonLaws] can hold
    together, and it is what the concrete executions in the other files run on. *)

From Stdlib Require Import ZArith Lia.
From S2P Require Import Prelude Bson.
From stdpp Require Import prelude strings list.
From coqutil Require Import Byte Word.LittleEndianList.

Inductive sval :=
| SString (s : string)
| SArray (vs : list sval)
| SDoc (kvs : list (string * sval))
| SBool (b : bool)
| SNull
| SInt32 (z : Z)
| SInt64 (z : Z)
| SBinary (subtype : BinarySubtype) (data : bytes).

Section sval_induction.
Context (P : sval → Prop).
Hypothesis Pstring : ∀ s, P (SString s).
Hypothesis Parray : ∀ vs, Forall P vs → P (SArray vs).
Hypothesis Pdoc : ∀ kvs, Forall (λ kv, P kv.2) kvs → P (SDoc kvs).
Hypothesis Pbool : ∀ b, P (SBool b).
Hypothesis Pnull : P SNull.
Hypothesis Pint32 : ∀ z, P (SInt32 z).
Hypothesis Pint64 : ∀ z, P (SInt64 z).
Hypothesis Pbinary : ∀ t d, P (SBinary t d).

Fixpoint sval_rect_strong (v : sval) : P v :=
  match v with
  | SString s => Pstring s
  | SArray vs =>
      Parray vs ((fix go vs : Forall P vs :=
        match vs with
        | [] => Forall_nil_2 _
        | v :: vs => Forall_cons_2 _ _ _ (sval_rect_strong v) (go vs)
        end) vs)
  | SDoc kvs =>
      Pdoc kvs ((fix go kvs : Forall (λ kv, P kv.2) kvs :=
        match kvs with
        | [] => Forall_nil_2 _
        | kv :: kvs => Forall_cons_2 _ _ _ (sval_rect_strong kv.2) (go kvs)
        end) kvs)
  | SBool b => Pbool b
  | SNull => Pnull
  | SInt32 z => Pint32 z
  | SInt64 z => Pint64 z
  | SBinary t d => Pbinary t d
  end.
End sval_induction.

(** * Values of the interface and values of the model *)

Abbreviation sdocument := (list (string * sval)).
Abbreviation sbson := (BsonOf sdocument Empty_set).

Fixpoint to_bson (v : sval) : sbson :=
  match v with
  | SString s => BString s
  | SArray vs => BArray (map to_bson vs)
  | SDoc kvs => BDocument kvs
  | SBool b => BBoolean b
  | SNull => BNull
  | SInt32 z => BInt32 z
  | SInt64 z => BInt64 z
  | SBinary t d => BBinary t d
  end.

Fixpoint of_bson (v : sbson) : sval :=
  match v with
  | BString s => SString s
  | BArray vs => SArray (map of_bson vs)
  | BDocument kvs => SDoc kvs
  | BBoolean b => SBool b
  | BNull => SNull
  | BInt32 z => SInt32 z
  | BInt64 z => SInt64 z
  | BBinary t d => SBinary t d
  | BOther o => match o with end
  end.

Fixpoint to_of_bson (v : sbson) : to_bson (of_bson v) = v.
Proof.
  destruct v as [|vs|d| | | | | |[]]; simpl; try reflexivity.
  f_equal. induction vs as [|v vs IH]; simpl; [reflexivity|].
  rewrite IH, to_of_bson. reflexivity.
Qed.

(** * Association lists *)

Fixpoint alist_get (d : sdocument) (k : string) : option sval :=
  match d with
  | [] => None
  | (k', v) :: d => if String.eqb k' k then Some v else alist_get d k
  end.

Fixpoint alist_insert (d : sdocument) (k : string) (v : sval) : sdocument :=
  match d with
  | [] => [(k, v)]
  | (k', v') :: d => if String.eqb k' k then (k', v) :: d else (k', v') :: alist_insert d k v
  end.

Definition alist_remove (d : sdocument) (k : string) : sdocument :=
  List.filter (λ kv, negb (String.eqb kv.1 k)) d.

Lemma alist_get_insert_eq d k v : alist_get (alist_insert d k v) k = Some v.
Proof.
  induction d as [|[k' v'] d IH]; simpl; [by rewrite String.eqb_refl|].
  destruct (String.eqb k' k) eqn:E; simpl; rewrite E; done.
Qed.

Lemma alist_get_insert_ne d k k' v : k ≠ k' → alist_get (alist_insert d k v) k' = alist_get d k'.
Proof.
  intros Hne. induction d as [|[j w] d IH]; simpl.
  - by destruct (String.eqb_spec k k').
  - destruct (String.eqb_spec j k); simpl; [subst; by destruct (String.eqb_spec k k')|].
    by rewrite IH.
Qed.

Lemma alist_get_remove_ne d k k' : k ≠ k' → alist_get (alist_remove d k) k' = alist_get d k'.
Proof.
  intros Hne. unfold alist_remove. induction d as [|[j w] d IH]; simpl; [done|].
  destruct (String.eqb_spec j k); simpl; rewrite IH; [|done].
  subst. by destruct (String.eqb_spec k k').
Qed.

(** * Encoded sizes *)

Definition kv_size (f : sval → nat) (kv : string * sval) : nat :=
  1 + String.length kv.1 + 1 + f kv.2.

Definition selems_size (f : sval → nat) : nat → list sval → nat :=
  fix go i vs :=
    match vs with
    | [] => 0
    | v :: vs => 1 + index_key_length i + 1 + f v + go (S i) vs
    end.

Fixpoint sval_size (v : sval) : nat :=
  match v with
  | SString s => 4 + String.length s + 1
  | SArray vs => 5 + selems_size sval_size 0 vs
  | SDoc kvs => 5 + sum_with (kv_size sval_size) kvs
  | SBool _ => 1
  | SNull => 0
  | SInt32 _ => 4
  | SInt64 _ => 8
  | SBinary _ data => 4 + 1 + length data
  end.

Definition sdoc_size (d : sdocument) : nat := 5 + sum_with (kv_size sval_size) d.
Definition no_size (o : Empty_set) : nat := match o with end.

Fixpoint value_size_of_bson (v : sbson) :
  value_size sdoc_size no_size v = sval_size (of_bson v).
Proof.
  destruct v as [|vs|d| | | | | |[]]; simpl; try reflexivity.
  do 5 f_equal. set (i := 0). clearbody i. revert i.
  induction vs as [|v vs IH]; intros i; simpl; [reflexivity|].
  rewrite IH, value_size_of_bson. reflexivity.
Qed.

Lemma sum_with_insert_new d k v :
  alist_get d k = None →
  sum_with (kv_size sval_size) (alist_insert d k v) =
    sum_with (kv_size sval_size) d + kv_size sval_size (k, v).
Proof.
  induction d as [|[j w] d IH]; cbn [alist_get alist_insert sum_with]; [lia|].
  destruct (String.eqb j k); [done|]. intros. cbn [sum_with]. rewrite IH by done. lia.
Qed.

Lemma sum_with_insert_old d k v w :
  alist_get d k = Some w →
  sum_with (kv_size sval_size) (alist_insert d k v) + sval_size w =
    sum_with (kv_size sval_size) d + sval_size v.
Proof.
  induction d as [|[j u] d IH]; cbn [alist_get alist_insert sum_with]; [done|].
  destruct (String.eqb j k); intros H; cbn [sum_with].
  - simplify_eq. unfold kv_size; simpl. lia.
  - specialize (IH H). lia.
Qed.

(** * The encoding *)

Definition tag_of (v : sval) : Init.Byte.byte :=
  match v with
  | SString _ => Byte.x02
  | SDoc _ => Byte.x03
  | SArray _ => Byte.x04
  | SBinary _ _ => Byte.x05
  | SBool _ => Byte.x08
  | SNull => Byte.x0a
  | SInt32 _ => Byte.x10
  | SInt64 _ => Byte.x12
  end.

Definition is_nul (b : Init.Byte.byte) : bool :=
  match b with Byte.x00 => true | _ => false end.

(** A C string: no byte of it is NUL. *)
Definition cstring (s : string) : option bytes :=
  if forallb (λ b, negb (is_nul b)) (as_bytes s) then Some (as_bytes s ++ [Byte.x00]) else None.

Definition enc_len (n : nat) : option bytes :=
  if (Z.of_nat n <=? i32_max)%Z then Some (le_split 4 (Z.of_nat n)) else None.

Definition enc_frame (body : bytes) : option bytes :=
  h ← enc_len (4 + length body + 1); Some (h ++ body ++ [Byte.x00]).

Definition enc_subtype (t : BinarySubtype) : option Init.Byte.byte :=
  match t with
  | Generic => Some Byte.x00
  | OtherSubtype c => if (0 <? c)%Z && (c <? 256)%Z then Some (byte.of_Z c) else None
  end.

Definition enc_kvs (f : sval → option bytes) : sdocument → option bytes :=
  fix go kvs :=
    match kvs with
    | [] => Some []
    | (k, v) :: kvs =>
        k ← cstring k; p ← f v; r ← go kvs; Some (tag_of v :: k ++ p ++ r)
    end.

Definition enc_elems (f : sval → option bytes) : nat → list sval → option bytes :=
  fix go i vs :=
    match vs with
    | [] => Some []
    | v :: vs =>
        k ← cstring (index_key i); p ← f v; r ← go (S i) vs; Some (tag_of v :: k ++ p ++ r)
    end.

Fixpoint enc (v : sval) : option bytes :=
  match v with
  | SString s => h ← enc_len (String.length s + 1); Some (h ++ as_bytes s ++ [Byte.x00])
  | SArray vs => body ← enc_elems enc 0 vs; enc_frame body
  | SDoc kvs => body ← enc_kvs enc kvs; enc_frame body
  | SBool b => Some [if b then Byte.x01 else Byte.x00]
  | SNull => Some []
  | SInt32 z => if is_i32 z then Some (le_split 4 z) else None
  | SInt64 z => if is_i64 z then Some (le_split 8 z) else None
  | SBinary t data =>
      h ← enc_len (length data); t ← enc_subtype t; Some (h ++ t :: data)
  end.

Fixpoint dec_cstring (bs : bytes) : option (bytes * bytes) :=
  match bs with
  | [] => None
  | b :: bs => if is_nul b then Some ([], bs)
               else '(s, rest) ← dec_cstring bs; Some (b :: s, rest)
  end.

Definition split_at (n : nat) (bs : bytes) : option (bytes * bytes) :=
  if decide (n ≤ length bs) then Some (take n bs, drop n bs) else None.

#[global] Arguments split_at : simpl never.

Definition dec_len (bs : bytes) : option (nat * bytes) :=
  '(h, rest) ← split_at 4 bs; Some (Z.to_nat (le_combine h), rest).

Definition dec_subtype (b : Init.Byte.byte) : BinarySubtype :=
  if is_nul b then Generic else OtherSubtype (byte.unsigned b).

(** [dec_val] reads one value with the given tag, [dec_elems] the elements of a
    document up to and including the closing NUL. *)
Fixpoint dec_val (fuel : nat) (tag : Init.Byte.byte) (bs : bytes) : option (sval * bytes) :=
  match fuel with
  | 0 => None
  | S fuel =>
      match tag with
      | Byte.x02 =>
          '(n, bs) ← dec_len bs; '(s, bs) ← split_at (n - 1) bs; '(_, bs) ← split_at 1 bs;
          Some (SString (String.string_of_list_byte s), bs)
      | Byte.x03 =>
          '(_, bs) ← dec_len bs; '(kvs, bs) ← dec_elems fuel bs; Some (SDoc kvs, bs)
      | Byte.x04 =>
          '(_, bs) ← dec_len bs; '(kvs, bs) ← dec_elems fuel bs; Some (SArray (map snd kvs), bs)
      | Byte.x05 =>
          '(n, bs) ← dec_len bs; '(t, bs) ← split_at 1 bs; '(data, bs) ← split_at n bs;
          Some (SBinary (dec_subtype (default Byte.x00 (head t))) data, bs)
      | Byte.x08 =>
          '(b, bs) ← split_at 1 bs; Some (SBool (negb (is_nul (default Byte.x00 (head b)))), bs)
      | Byte.x0a => Some (SNull, bs)
      | Byte.x10 => '(z, bs) ← split_at 4 bs; Some (SInt32 (wrap_i32 (le_combine z)), bs)
      | Byte.x12 => '(z, bs) ← split_at 8 bs; Some (SInt64 (wrap_i64 (le_combine z)), bs)
      | _ => None
      end
  end
with dec_elems (fuel : nat) (bs : bytes) : option (sdocument * bytes) :=
  match fuel, bs with
  | S fuel, tag :: bs =>
      if is_nul tag then Some ([], bs)
      else
        '(k, bs) ← dec_cstring bs; '(v, bs) ← dec_val fuel tag bs; '(kvs, bs) ← dec_elems fuel bs;
        Some ((String.string_of_list_byte k, v) :: kvs, bs)
  | _, _ => None
  end.

(** * Decoding inverts encoding *)

Lemma split_at_app n (a b : bytes) : length a = n → split_at n (a ++ b) = Some (a, b).
Proof.
  intros <-. unfold split_at. rewrite length_app.
  rewrite decide_True by lia. by rewrite take_app_length, drop_app_length.
Qed.

Lemma enc_len_Some n h :
  enc_len n = Some h →
  h = le_split 4 (Z.of_nat n) ∧ (Z.of_nat n ≤ i32_max)%Z ∧ length h = 4.
Proof.
  unfold enc_len. case_match eqn:E; [|done]. intros. simplify_eq.
  rewrite length_le_split. split_and!; [done|lia|done].
Qed.

Lemma le_combine_len n : (Z.of_nat n ≤ i32_max)%Z → le_combine (le_split 4 (Z.of_nat n)) = Z.of_nat n.
Proof.
  unfold i32_max. intros H. rewrite le_combine_split. apply Z.mod_small. simpl. lia.
Qed.

Lemma dec_len_enc n h rest : enc_len n = Some h → dec_len (h ++ rest) = Some (n, rest).
Proof.
  intros (-> & Hn & Hl)%enc_len_Some. unfold dec_len. rewrite split_at_app by done. simpl.
  by rewrite le_combine_len, Nat2Z.id.
Qed.

Lemma wrap_i32_le_combine z : is_i32 z = true → wrap_i32 (le_combine (le_split 4 z)) = z.
Proof.
  intros H. rewrite le_combine_split. change (Z.of_nat 4 * 8)%Z with 32%Z.
  unfold wrap_i32. rewrite Zplus_mod_idemp_l. by apply wrap_i32_small.
Qed.

Lemma wrap_i64_le_combine z : is_i64 z = true → wrap_i64 (le_combine (le_split 8 z)) = z.
Proof.
  intros H. rewrite le_combine_split. change (Z.of_nat 8 * 8)%Z with 64%Z.
  unfold wrap_i64. rewrite Zplus_mod_idemp_l. by apply wrap_i64_small.
Qed.

Lemma cstring_dec s k rest :
  cstring s = Some k →
  dec_cstring (k ++ rest) = Some (as_bytes s, rest) ∧ length k = String.length s + 1.
Proof.
  unfold cstring. case_match eqn:E; [|done]. intros. simplify_eq.
  rewrite length_app, length_as_bytes. split; [|done]. revert E.
  induction (as_bytes s) as [|b l IH]; simpl; [done|].
  destruct (is_nul b); simpl; [done|]. intros H. by rewrite IH.
Qed.

Lemma tag_not_nul v : is_nul (tag_of v) = false.
Proof. by destruct v. Qed.

Lemma dec_enc_subtype t b : enc_subtype t = Some b → dec_subtype b = t.
Proof.
  destruct t as [|c]; simpl; intros; simplify_eq; [done|].
  case_match eqn:E; [|done]. simplify_eq. unfold dec_subtype.
  assert (Hu : byte.unsigned (byte.of_Z c) = c).
  { rewrite byte.unsigned_of_Z. apply Z.mod_small. lia. }
  rewrite Hu. assert (is_nul (byte.of_Z c) = false) as ->; [|done].
  destruct (is_nul (byte.of_Z c)) eqn:En; [|done].
  destruct (byte.of_Z c); try discriminate En. vm_compute in Hu. lia.
Qed.

Lemma enc_frame_Some body p :
  enc_frame body = Some p →
  ∃ h, enc_len (4 + length body + 1) = Some h ∧ p = h ++ body ++ [Byte.x00] ∧
       length p = 5 + length body.
Proof.
  unfold enc_frame. destruct (enc_len _) as [h|] eqn:E; [|done]. simpl. intros. simplify_eq.
  exists h. split_and!; [done..|]. apply enc_len_Some in E as (_ & _ & Hl).
  rewrite !length_app, Hl. simpl. lia.
Qed.

Lemma enc_array vs : enc (SArray vs) = (body ← enc_elems enc 0 vs; enc_frame body).
Proof. reflexivity. Qed.

Lemma enc_doc kvs : enc (SDoc kvs) = (body ← enc_kvs enc kvs; enc_frame body).
Proof. reflexivity. Qed.

(** One step of the decoder, by tag. *)
Section dec_val_equations.
Context (fuel : nat) (bs : bytes).

Lemma dec_val_string :
  dec_val (S fuel) Byte.x02 bs =
    ('(n, bs) ← dec_len bs; '(s, bs) ← split_at (n - 1) bs; '(_, bs) ← split_at 1 bs;
     Some (SString (String.string_of_list_byte s), bs)).
Proof. reflexivity. Qed.

Lemma dec_val_doc :
  dec_val (S fuel) Byte.x03 bs =
    ('(_, bs) ← dec_len bs; '(kvs, bs) ← dec_elems fuel bs; Some (SDoc kvs, bs)).
Proof. reflexivity. Qed.

Lemma dec_val_array :
  dec_val (S fuel) Byte.x04 bs =
    ('(_, bs) ← dec_len bs; '(kvs, bs) ← dec_elems fuel bs; Some (SArray (map snd kvs), bs)).
Proof. reflexivity. Qed.

Lemma dec_val_binary :
  dec_val (S fuel) Byte.x05 bs =
    ('(n, bs) ← dec_len bs; '(t, bs) ← split_at 1 bs; '(data, bs) ← split_at n bs;
     Some (SBinary (dec_subtype (default Byte.x00 (head t))) data, bs)).
Proof. reflexivity. Qed.

Lemma dec_val_bool :
  dec_val (S fuel) Byte.x08 bs =
    ('(b, bs) ← split_at 1 bs; Some (SBool (negb (is_nul (default Byte.x00 (head b)))), bs)).
Proof. reflexivity. Qed.

Lemma dec_val_i32 :
  dec_val (S fuel) Byte.x10 bs =
    ('(z, bs) ← split_at 4 bs; Some (SInt32 (wrap_i32 (le_combine z)), bs)).
Proof. reflexivity. Qed.

Lemma dec_val_i64 :
  dec_val (S fuel) Byte.x12 bs =
    ('(z, bs) ← split_at 8 bs; Some (SInt64 (wrap_i64 (le_combine z)), bs)).
Proof. reflexivity. Qed.

End dec_val_equations.

(** What the round trip of one value states. *)
Definition round_trips (v : sval) : Prop :=
  ∀ p fuel rest, enc v = Some p → length p < fuel →
    dec_val fuel (tag_of v) (p ++ rest) = Some (v, rest).

Lemma dec_elems_cons fuel k kb v p body rest kvs :
  cstring k = Some kb → enc v = Some p → round_trips v →
  length (tag_of v :: kb ++ p ++ body) < fuel →
  (∀ fuel', length body < fuel' →
     dec_elems fuel' (body ++ Byte.x00 :: rest) = Some (kvs, rest)) →
  dec_elems fuel ((tag_of v :: kb ++ p ++ body) ++ Byte.x00 :: rest) = Some ((k, v) :: kvs, rest).
Proof.
  intros Hk Hp Hv Hf Hb. destruct fuel as [|fuel]; [lia|].
  destruct (cstring_dec k kb (p ++ body ++ Byte.x00 :: rest) Hk) as [Hd Hl].
  simpl in Hf. rewrite !length_app in Hf. simpl. rewrite tag_not_nul, <- !app_assoc, Hd. simpl.
  rewrite (Hv p) by (try done; lia). simpl. rewrite Hb by lia. simpl.
  unfold as_bytes. by rewrite String.string_of_list_byte_of_string.
Qed.

Lemma dec_enc_kvs kvs body fuel rest :
  Forall (λ kv, round_trips kv.2) kvs → enc_kvs enc kvs = Some body → length body < fuel →
  dec_elems fuel (body ++ Byte.x00 :: rest) = Some (kvs, rest).
Proof.
  revert body fuel. induction kvs as [|[k v] kvs IH]; intros body fuel Hall He Hf.
  - simpl in He. simplify_eq. destruct fuel; [simpl in Hf; lia|done].
  - apply Forall_cons in Hall as [Hv Hall]. simpl in He.
    destruct (cstring k) as [kb|] eqn:Hk; [|done]. simpl in He.
    destruct (enc v) as [p|] eqn:Hp; [|done]. simpl in He.
    destruct (enc_kvs enc kvs) as [r|] eqn:Hr; [|done]. simpl in He. simplify_eq.
    eapply dec_elems_cons; eauto.
Qed.

Lemma dec_enc_elems vs i body fuel rest :
  Forall round_trips vs → enc_elems enc i vs = Some body → length body < fuel →
  ∃ kvs, dec_elems fuel (body ++ Byte.x00 :: rest) = Some (kvs, rest) ∧ map snd kvs = vs.
Proof.
  intros Hall He Hf.
  cut (∃ kvs, map snd kvs = vs ∧ ∀ fuel, length body < fuel →
         dec_elems fuel (body ++ Byte.x00 :: rest) = Some (kvs, rest)); [naive_solver|].
  clear fuel Hf. revert i body Hall He. induction vs as [|v vs IH]; intros i body Hall He.
  - simpl in He. simplify_eq. exists []. split; [done|]. intros [|fuel] ?; [simpl in *; lia|done].
  - apply Forall_cons in Hall as [Hv Hall]. cbn [enc_elems] in He.
    destruct (cstring (index_key i)) as [kb|] eqn:Hk; [|done]. simpl in He.
    destruct (enc v) as [p|] eqn:Hp; [|done]. simpl in He.
    destruct (enc_elems enc (S i) vs) as [r|] eqn:Hr; [|done]. simpl in He. simplify_eq.
    destruct (IH _ _ Hall Hr) as (kvs & Hm & Hd).
    exists ((index_key i, v) :: kvs). split; [by rewrite <- Hm|].
    intros fuel Hf. eapply dec_elems_cons; eauto.
Qed.

Lemma round_trips_string s : round_trips (SString s).
Proof.
  intros p [|fuel] rest He Hf; [lia|]. cbn [enc tag_of] in *.
  destruct (enc_len _) as [h|] eqn:Hh; [|done]. cbn in He. simplify_eq.
  rewrite dec_val_string, <- !app_assoc, (dec_len_enc _ _ _ Hh). cbn [mbind option_bind].
  rewrite split_at_app by (rewrite length_as_bytes; lia). cbn.
  unfold as_bytes. by rewrite String.string_of_list_byte_of_string.
Qed.

Lemma round_trips_array vs : Forall round_trips vs → round_trips (SArray vs).
Proof.
  intros Hvs p [|fuel] rest He Hf; [lia|]. rewrite enc_array in He. cbn [tag_of].
  apply bind_Some in He as (body & Hb & He).
  apply enc_frame_Some in He as (h & Hh & -> & Hl). rewrite Hl in Hf.
  rewrite dec_val_array, <- !app_assoc, (dec_len_enc _ _ _ Hh). cbn [mbind option_bind].
  destruct (dec_enc_elems vs 0 body fuel rest) as (kvs & Hd & Hm); [done|done|lia|].
  change ([Byte.x00] ++ rest) with (Byte.x00 :: rest). rewrite Hd. cbn. by rewrite Hm.
Qed.

Lemma round_trips_doc kvs : Forall (λ kv, round_trips kv.2) kvs → round_trips (SDoc kvs).
Proof.
  intros Hvs p [|fuel] rest He Hf; [lia|]. rewrite enc_doc in He. cbn [tag_of].
  apply bind_Some in He as (body & Hb & He).
  apply enc_frame_Some in He as (h & Hh & -> & Hl). rewrite Hl in Hf.
  rewrite dec_val_doc, <- !app_assoc, (dec_len_enc _ _ _ Hh). cbn [mbind option_bind].
  change ([Byte.x00] ++ rest) with (Byte.x00 :: rest).
  by rewrite (dec_enc_kvs kvs body) by (try done; lia).
Qed.

Lemma round_trips_int32 z : round_trips (SInt32 z).
Proof.
  intros p [|fuel] rest He Hf; [lia|]. cbn [enc tag_of] in *.
  destruct (is_i32 z) eqn:Hz; [|done]. simplify_eq.
  rewrite dec_val_i32, (split_at_app 4 (le_split 4 z)) by apply length_le_split.
  cbn [mbind option_bind]. rewrite (wrap_i32_le_combine z Hz). reflexivity.
Qed.

Lemma round_trips_int64 z : round_trips (SInt64 z).
Proof.
  intros p [|fuel] rest He Hf; [lia|]. cbn [enc tag_of] in *.
  destruct (is_i64 z) eqn:Hz; [|done]. simplify_eq.
  rewrite dec_val_i64, (split_at_app 8 (le_split 8 z)) by apply length_le_split.
  cbn [mbind option_bind]. rewrite (wrap_i64_le_combine z Hz). reflexivity.
Qed.

Lemma round_trips_binary t d : round_trips (SBinary t d).
Proof.
  intros p [|fuel] rest He Hf; [lia|]. cbn [enc tag_of] in *.
  destruct (enc_len _) as [h|] eqn:Hh; [|done]. cbn [mbind option_bind] in He.
  destruct (enc_subtype t) as [b|] eqn:Ht; [|done]. cbn [mbind option_bind] in He. simplify_eq.
  rewrite dec_val_binary, <- app_assoc, (dec_len_enc _ _ _ Hh). cbn [mbind option_bind].
  change ((b :: d) ++ rest) with ([b] ++ d ++ rest).
  rewrite (split_at_app 1 [b]) by done. cbn [mbind option_bind].
  rewrite (split_at_app (length d)) by reflexivity. cbn [mbind option_bind].
  change (default Byte.x00 (head [b])) with b. rewrite (dec_enc_subtype t b Ht). reflexivity.
Qed.

Lemma dec_enc v : round_trips v.
Proof.
  induction v using sval_rect_strong;
    auto using round_trips_string, round_trips_array, round_trips_doc, round_trips_int32,
      round_trips_int64, round_trips_binary.
  - intros p [|fuel] rest [= <-] Hf; [lia|]. by destruct b.
  - intros p [|fuel] rest [= <-] Hf; [lia|]. done.
Qed.

(** * Encoded lengths *)

Lemma length_enc_kvs kvs body :
  Forall (λ kv, ∀ p, enc kv.2 = Some p → length p = sval_size kv.2) kvs →
  enc_kvs enc kvs = Some body → length body = sum_with (kv_size sval_size) kvs.
Proof.
  revert body. induction kvs as [|[k v] kvs IH]; intros body Hall He;
    cbn [enc_kvs sum_with] in *; [by simplify_eq|].
  apply Forall_cons in Hall as [Hv Hall].
  destruct (cstring k) as [kb|] eqn:Hk; [|done]. simpl in He.
  destruct (enc v) as [p|] eqn:Hp; [|done]. simpl in He.
  destruct (enc_kvs enc kvs) as [r|] eqn:Hr; [|done]. simpl in He. simplify_eq.
  destruct (cstring_dec k kb [] Hk) as [_ Hl].
  simpl. rewrite !length_app, Hl, (Hv p), (IH r) by done. unfold kv_size; simpl. lia.
Qed.

Lemma length_enc_elems vs i body :
  Forall (λ v, ∀ p, enc v = Some p → length p = sval_size v) vs →
  enc_elems enc i vs = Some body → length body = selems_size sval_size i vs.
Proof.
  revert i body. induction vs as [|v vs IH]; intros i body Hall He;
    cbn [enc_elems selems_size] in *; [by simplify_eq|].
  apply Forall_cons in Hall as [Hv Hall].
  destruct (cstring (index_key i)) as [kb|] eqn:Hk; [|done]. simpl in He.
  destruct (enc v) as [p|] eqn:Hp; [|done]. simpl in He.
  destruct (enc_elems enc (S i) vs) as [r|] eqn:Hr; [|done]. simpl in He. simplify_eq.
  destruct (cstring_dec _ kb [] Hk) as [_ Hl].
  simpl. rewrite !length_app, Hl, (Hv p), (IH (S i) r) by done. unfold index_key_length. lia.
Qed.

Lemma length_enc v p : enc v = Some p → length p = sval_size v.
Proof.
  revert p. induction v using sval_rect_strong; intros p He;
    rewrite ?enc_array, ?enc_doc in He; cbn [enc] in He.
  - destruct (enc_len _) as [h|] eqn:Hh; [|done]. simpl in He. simplify_eq.
    apply enc_len_Some in Hh as (_ & _ & Hl). rewrite !length_app, Hl, length_as_bytes. simpl. lia.
  - apply bind_Some in He as (body & Hb & He).
    apply enc_frame_Some in He as (h & _ & _ & ->). by rewrite (length_enc_elems vs 0 body).
  - apply bind_Some in He as (body & Hb & He).
    apply enc_frame_Some in He as (h & _ & _ & ->). by rewrite (length_enc_kvs kvs body).
  - by simplify_eq.
  - by simplify_eq.
  - case_match; simplify_eq. apply length_le_split.
  - case_match; simplify_eq. apply length_le_split.
  - destruct (enc_len _) as [h|] eqn:Hh; [|done]. simpl in He.
    destruct (enc_subtype t) as [b|] eqn:Ht; [|done]. simpl in He. simplify_eq.
    apply enc_len_Some in Hh as (_ & _ & Hl). rewrite length_app, Hl. simpl. lia.
Qed.

(** * The instance *)

Definition sdoc_to_writer (d : sdocument) : result unit bytes :=
  match enc (SDoc d) with Some b => Ok b | None => Err tt end.

Definition sdoc_from_reader (b : bytes) : result unit sdocument :=
  match dec_val (S (length b)) Byte.x03 b with
  | Some (SDoc d, _) => Ok d
  | _ => Err tt
  end.

Definition sdoc_get (d : sdocument) (k : string) : option sbson := to_bson <$> alist_get d k.

#[export] Instance SpecBson : BsonLib := {
  Document := sdocument;
  OtherBson := Empty_set;
  ser_error := unit;
  de_error := unit;
  doc_new := [];
  doc_get := sdoc_get;
  doc_insert d k v := alist_insert d k (of_bson v);
  doc_remove d k := (sdoc_get d k, alist_remove d k);
  doc_is_empty d := match d with [] => true | _ => false end;
  get_i32 d k := access (sdoc_get d k) (λ v, if v is BInt32 z then Some z else None);
  get_i64 d k := access (sdoc_get d k) (λ v, if v is BInt64 z then Some z else None);
  get_str d k := access (sdoc_get d k) (λ v, if v is BString s then Some s else None);
  get_document_mut d k := access (sdoc_get d k) (λ v, if v is BDocument x then Some x else None);
  get_array_mut d k := access (sdoc_get d k) (λ v, if v is BArray x then Some x else None);
  to_writer := sdoc_to_writer;
  from_reader := sdoc_from_reader;
}.

Lemma sdoc_to_writer_Ok d b : sdoc_to_writer d = Ok b → enc (SDoc d) = Some b.
Proof. unfold sdoc_to_writer. case_match; congruence. Qed.

Lemma sdoc_header d b :
  sdoc_to_writer d = Ok b →
  (5 ≤ Z.of_nat (length b) ≤ i32_max)%Z ∧ le_combine (take 4 b) = Z.of_nat (length b).
Proof.
  intros He%sdoc_to_writer_Ok. rewrite enc_doc in He.
  apply bind_Some in He as (body & Hb & He).
  apply enc_frame_Some in He as (h & Hh & -> & Hl). rewrite Hl.
  apply enc_len_Some in Hh as (-> & Hn & Hh).
  rewrite take_app_length' by done. rewrite le_combine_len by done. lia.
Qed.

Lemma sdoc_round_trip d b : sdoc_to_writer d = Ok b → sdoc_from_reader b = Ok d.
Proof.
  intros He%sdoc_to_writer_Ok. unfold sdoc_from_reader.
  pose proof (dec_enc (SDoc d) b (S (length b)) [] He ltac:(lia)) as Hd.
  rewrite app_nil_r in Hd. cbn [tag_of] in Hd. by rewrite Hd.
Qed.

#[export] Instance SpecBsonLaws : BsonLaws SpecBson.
Proof.
  refine {| doc_size := sdoc_size : @Document SpecBson → nat;
            other_size := no_size : @OtherBson SpecBson → nat |};
    simpl; unfold sdoc_get; intros.
  - done.
  - rewrite alist_get_insert_eq. simpl. by rewrite to_of_bson.
  - by rewrite alist_get_insert_ne.
  - done.
  - by rewrite alist_get_remove_ne.
  - done.
  - done.
  - done.
  - done.
  - done.
  - done.
  - done.
  - apply fmap_None in H. unfold sdoc_size. rewrite sum_with_insert_new by done.
    unfold kv_size; simpl. rewrite value_size_of_bson. lia.
  - apply fmap_Some in H as (w' & Hw & ->). unfold sdoc_size.
    pose proof (sum_with_insert_old d k (of_bson v) w' Hw).
    rewrite !value_size_of_bson.
    assert (of_bson (to_bson w') = w') as ->; [|lia].
    clear. induction w' using sval_rect_strong; simpl; try done.
    f_equal. rewrite map_map. induction H; simpl; congruence.
  - apply sdoc_to_writer_Ok, length_enc in H. exact H.
  - by eapply sdoc_header.
  - by apply sdoc_round_trip.
Defined.
