(* ===== verification/HonkWire.v ===== *)
(** Honk-RPC messages (src/source/gosling/crates/honk-rpc/src/honk_rpc.rs, top
    half): error codes, the packed protocol version, the three kinds of section
    and their conversions from and to BSON documents. *)

From Stdlib Require Import ZArith Lia.
From S2P Require Import Prelude Bson.
From stdpp Require Import prelude strings list.

Open Scope Z_scope.

(** * Error codes *)

Inductive ErrorCode :=
| BsonParseFailed
| MessageTooBig
| MessageParseFailed
| MessageVersionIncompatible
| SectionIdUnknown
| SectionParseFailed
| RequestCookieInvalid
| RequestNamespaceInvalid
| RequestFunctionInvalid
| RequestVersionInvalid
| ResponseCookieInvalid
| ResponseStateInvalid
| Runtime (code : Z)
| Unknown (code : Z).

#[export] Instance ErrorCode_eq_dec : EqDecision ErrorCode.
Proof. solve_decision. Defined.

(** [impl From<i32> for ErrorCode] *)
Definition error_code_from_i32 (value : Z) : ErrorCode :=
  match value with
  | -1 => BsonParseFailed
  | -2 => MessageTooBig
  | -3 => MessageParseFailed
  | -4 => MessageVersionIncompatible
  | -5 => SectionIdUnknown
  | -6 => SectionParseFailed
  | -7 => RequestCookieInvalid
  | -8 => RequestNamespaceInvalid
  | -9 => RequestFunctionInvalid
  | -10 => RequestVersionInvalid
  | -11 => ResponseCookieInvalid
  | -12 => ResponseStateInvalid
  | value => if value >? 0 then Runtime value else Unknown value
  end.

#[global] Arguments error_code_from_i32 : simpl never.

(** [impl From<ErrorCode> for i32] *)
Definition i32_from_error_code (err : ErrorCode) : Z :=
  match err with
  | BsonParseFailed => -1
  | MessageTooBig => -2
  | MessageParseFailed => -3
  | MessageVersionIncompatible => -4
  | SectionIdUnknown => -5
  | SectionParseFailed => -6
  | RequestCookieInvalid => -7
  | RequestNamespaceInvalid => -8
  | RequestFunctionInvalid => -9
  | RequestVersionInvalid => -10
  | ResponseCookieInvalid => -11
  | ResponseStateInvalid => -12
  | Runtime val => val
  | Unknown val => val
  end.

(** The codes that have exactly one representation: [Runtime] carries a positive
    value, [Unknown] a value no other constructor stands for. *)
Definition canonical_code (c : ErrorCode) : bool :=
  match c with
  | Runtime v => v >? 0
  | Unknown v => (v =? 0) || (v <? -12)
  | _ => true
  end.

Lemma error_code_from_i32_other v :
  (v >? 0) || (v =? 0) || (v <? -12) = true →
  error_code_from_i32 v = if v >? 0 then Runtime v else Unknown v.
Proof.
  intros H. destruct v as [|p|p]; [done|done|].
  unfold error_code_from_i32.
  repeat (destruct p as [p|p|]; try done; try (vm_compute in H; discriminate)).
Qed.

Lemma error_code_canonical c :
  error_code_from_i32 (i32_from_error_code c) = c ↔ canonical_code c = true.
Proof.
  destruct c as [| | | | | | | | | | | |v|v]; cbn [i32_from_error_code canonical_code];
    try (split; done).
  - destruct (v >? 0) eqn:E.
    + rewrite error_code_from_i32_other, E; [done|by rewrite E].
    + split; [|done]. intros H. destruct v as [|p|p]; [done..|]. exfalso. revert H. clear.
      unfold error_code_from_i32. repeat (case_match; try discriminate).
  - destruct ((v =? 0) || (v <? -12)) eqn:E.
    + rewrite error_code_from_i32_other.
      * destruct (v >? 0) eqn:E'; [|done]. lia.
      * destruct (v >? 0); simpl; [done|]. done.
    + split; [|done]. intros H. exfalso.
      destruct (v >? 0) eqn:E'.
      * rewrite error_code_from_i32_other, E' in H; [done|by rewrite E'].
      * assert (v = -1 ∨ v = -2 ∨ v = -3 ∨ v = -4 ∨ v = -5 ∨ v = -6 ∨ v = -7 ∨ v = -8 ∨
          v = -9 ∨ v = -10 ∨ v = -11 ∨ v = -12) as Hv by lia.
        destruct_or!; subst; discriminate H.
Qed.

Lemma i32_of_error_code_from v : i32_from_error_code (error_code_from_i32 v) = v.
Proof.
  destruct ((v >? 0) || (v =? 0) || (v <? -12)) eqn:E.
  - rewrite error_code_from_i32_other by done. by destruct (v >? 0).
  - assert (v = -1 ∨ v = -2 ∨ v = -3 ∨ v = -4 ∨ v = -5 ∨ v = -6 ∨ v = -7 ∨ v = -8 ∨
      v = -9 ∨ v = -10 ∨ v = -11 ∨ v = -12) as Hv by lia.
    destruct_or!; subst; done.
Qed.

(** * The packed protocol version *)

(** [semver_to_i32]; the arguments are [u8]. *)
Definition semver_to_i32 (major minor patch : Z) : Z :=
  Z.lor (Z.lor (Z.shiftl major 16) (Z.shiftl minor 8)) patch.

Definition i32_to_semver (ver : Z) : option (Z * Z * Z) :=
  if (ver >=? 0) && (ver <=? 0xffffff) then
    let major := Z.shiftr (Z.land ver 0xff0000) 16 in
    let minor := Z.shiftr (Z.land ver 0xff00) 8 in
    let patch := Z.land ver 0xff in
    Some (wrap_u8 major, wrap_u8 minor, wrap_u8 patch)
  else None.

Definition HONK_RPC_VERSION : Z := semver_to_i32 0 1 0.

Lemma semver_to_i32_arith a b c :
  0 <= b < 256 → 0 <= c < 256 → semver_to_i32 a b c = a * 65536 + b * 256 + c.
Proof.
  intros Hb Hc. unfold semver_to_i32.
  rewrite (lor_shiftl_add a) by (rewrite ?Z.shiftl_mul_pow2 by lia; lia).
  rewrite Z.shiftl_mul_pow2 by lia.
  replace (a * 2 ^ 16 + b * 2 ^ 8) with (Z.shiftl (a * 256 + b) 8)
    by (rewrite Z.shiftl_mul_pow2 by lia; lia).
  rewrite lor_shiftl_add by lia. lia.
Qed.

Lemma i32_to_semver_arith v :
  0 <= v <= 0xffffff →
  i32_to_semver v = Some ((v / 65536) `mod` 256, (v / 256) `mod` 256, v `mod` 256).
Proof.
  intros Hv. unfold i32_to_semver. rewrite (proj2 (andb_true_iff _ _)) by lia.
  rewrite !Z.shiftr_land. change (Z.shiftr 0xff0000 16) with (Z.ones 8).
  change (Z.shiftr 0xff00 8) with (Z.ones 8). change 0xff with (Z.ones 8).
  rewrite !Z.land_ones, !Z.shiftr_div_pow2 by lia. unfold wrap_u8. by rewrite !Z.mod_mod by lia.
Qed.

Lemma semver_roundtrip a b c :
  0 <= a < 256 → 0 <= b < 256 → 0 <= c < 256 →
  i32_to_semver (semver_to_i32 a b c) = Some (a, b, c).
Proof.
  intros Ha Hb Hc. rewrite semver_to_i32_arith by done.
  rewrite i32_to_semver_arith by lia. repeat f_equal; Z.to_euclidean_division_equations; lia.
Qed.

(** * Sections *)

(** [RequestCookie] is an [i64]. *)
Abbreviation RequestCookie := Z.

Definition ERROR_SECTION_ID : Z := 0.
Definition REQUEST_SECTION_ID : Z := 1.
Definition RESPONSE_SECTION_ID : Z := 2.

Inductive RequestState := Pending | Complete.

#[export] Instance RequestState_eq_dec : EqDecision RequestState.
Proof. solve_decision. Defined.

(** [state as i32] *)
Definition request_state_i32 (s : RequestState) : Z :=
  match s with Pending => 0 | Complete => 1 end.

Section sections.
Context `{BL : BsonLib}.

Record ErrorSection := mkErrorSection {
  es_cookie : option RequestCookie;
  es_code : ErrorCode;
  es_message : option string;
  es_data : option Bson;
}.

Record RequestSection := mkRequestSection {
  rq_cookie : option RequestCookie;
  rq_namespace : string;
  rq_function : string;
  rq_version : Z;
  rq_arguments : Document;
}.

Record ResponseSection := mkResponseSection {
  rs_cookie : RequestCookie;
  rs_state : RequestState;
  rs_result : option Bson;
}.

Inductive Section_ :=
| SError (s : ErrorSection)
| SRequest (s : RequestSection)
| SResponse (s : ResponseSection).

Record Message := mkMessage {
  msg_honk_rpc : Z;
  msg_sections : list Section_;
}.

(** An absent field is [None], a field of the wrong type an error. *)
Definition optional {A} (r : result ValueAccessError A) : result ErrorCode (option A) :=
  match r with
  | Ok a => Ok (Some a)
  | Err NotPresent => Ok None
  | Err UnexpectedType => Err SectionParseFailed
  end.

Definition required {A} (r : result ValueAccessError A) : result ErrorCode A :=
  match r with
  | Ok a => Ok a
  | Err _ => Err SectionParseFailed
  end.

(** [impl TryFrom<Document> for ErrorSection] *)
Definition error_section_try_from (value : Document) : result ErrorCode ErrorSection :=
  cookie ← optional (get_i64 value "cookie");
  code ← required (get_i32 value "code");
  message ← optional (get_str value "message");
  let data := doc_get value "data" in
  Ok (mkErrorSection cookie (error_code_from_i32 code) message data).

(** [error_section.insert(key, v)] when there is something to insert. *)
Definition insert_opt (d : Document) (k : string) (v : option Bson) : Document :=
  match v with Some v => doc_insert d k v | None => d end.

(** [impl From<ErrorSection> for Document] *)
Definition error_section_into (value : ErrorSection) : Document :=
  let d := doc_insert doc_new "id" (BInt32 ERROR_SECTION_ID) in
  let d := insert_opt d "cookie" (BInt64 <$> es_cookie value) in
  let d := doc_insert d "code" (BInt32 (i32_from_error_code (es_code value))) in
  let d := insert_opt d "message" (BString <$> es_message value) in
  insert_opt d "data" (es_data value).

(** [impl TryFrom<Document> for RequestSection] *)
Definition request_section_try_from (value : Document) : result ErrorCode RequestSection :=
  cookie ← optional (get_i64 value "cookie");
  namespace ← optional (get_str value "namespace");
  function ← required (get_str value "function");
  if String.eqb function "" then Err RequestFunctionInvalid else
  version ← optional (get_i32 value "version");
  arguments ← optional (get_document_mut value "arguments");
  Ok (mkRequestSection cookie (default ""%string namespace) function (default 0 version)
        (default doc_new arguments)).

(** [impl From<RequestSection> for Document] *)
Definition request_section_into (value : RequestSection) : Document :=
  let d := doc_insert doc_new "id" (BInt32 REQUEST_SECTION_ID) in
  let d := insert_opt d "cookie" (BInt64 <$> rq_cookie value) in
  let d := if String.eqb (rq_namespace value) "" then d
           else doc_insert d "namespace" (BString (rq_namespace value)) in
  let d := doc_insert d "function" (BString (rq_function value)) in
  let d := if rq_version value =? 0 then d
           else doc_insert d "version" (BInt32 (rq_version value)) in
  doc_insert d "arguments" (BDocument (rq_arguments value)).

(** [impl TryFrom<Document> for ResponseSection] *)
Definition response_section_try_from (value : Document) : result ErrorCode ResponseSection :=
  cookie ← required (get_i64 value "cookie");
  state ← (match get_i32 value "state" with
           | Ok 0 => Ok Pending
           | Ok 1 => Ok Complete
           | Ok _ => Err ResponseStateInvalid
           | Err _ => Err SectionParseFailed
           end);
  let result := doc_get value "result" in
  if bool_decide (state = Pending) && bool_decide (is_Some result) then Err SectionParseFailed
  else Ok (mkResponseSection cookie state result).

(** [impl From<ResponseSection> for Document] *)
Definition response_section_into (value : ResponseSection) : Document :=
  let d := doc_insert doc_new "id" (BInt32 RESPONSE_SECTION_ID) in
  let d := doc_insert d "cookie" (BInt64 (rs_cookie value)) in
  let d := doc_insert d "state" (BInt32 (request_state_i32 (rs_state value))) in
  insert_opt d "result" (rs_result value).

(** [impl TryFrom<Document> for Section] *)
Definition section_try_from (value : Document) : result ErrorCode Section_ :=
  match get_i32 value "id" with
  | Ok id =>
      if id =? ERROR_SECTION_ID then SError <$> error_section_try_from value
      else if id =? REQUEST_SECTION_ID then SRequest <$> request_section_try_from value
      else if id =? RESPONSE_SECTION_ID then SResponse <$> response_section_try_from value
      else Err SectionIdUnknown
  | Err _ => Err SectionParseFailed
  end.

(** [impl From<Section> for Document] *)
Definition section_into (value : Section_) : Document :=
  match value with
  | SError s => error_section_into s
  | SRequest s => request_section_into s
  | SResponse s => response_section_into s
  end.

(** One iteration of the loop over the ["sections"] array. *)
Definition element_try_from (v : Bson) : result ErrorCode Section_ :=
  match v with
  | BDocument section => section_try_from section
  | _ => Err SectionParseFailed
  end.

(** [impl TryFrom<Document> for Message] *)
Definition message_try_from (value : Document) : result ErrorCode Message :=
  match get_i32 value "honk_rpc" with
  | Ok v =>
      if v =? HONK_RPC_VERSION then
        match get_array_mut value "sections" with
        | Ok [] => Err MessageParseFailed
        | Ok sections => mkMessage HONK_RPC_VERSION <$> map_result element_try_from sections
        | Err _ => Err MessageParseFailed
        end
      else match i32_to_semver v with
           | Some _ => Err MessageVersionIncompatible
           | None => Err MessageParseFailed
           end
  | Err _ => Err MessageParseFailed
  end.

(** [impl From<Message> for Document] *)
Definition message_into (value : Message) : Document :=
  let d := doc_insert doc_new "honk_rpc" (BInt32 (msg_honk_rpc value)) in
  doc_insert d "sections"
    (BArray (map (λ s, BDocument (section_into s)) (msg_sections value))).

(** The sections the wire format can represent: a canonical error code, a named
    function, and no result while a request is pending. *)
Definition wire_section (s : Section_) : bool :=
  match s with
  | SError e => canonical_code (es_code e)
  | SRequest r => negb (String.eqb (rq_function r) "")
  | SResponse r =>
      match rs_state r with Pending => negb (bool_decide (is_Some (rs_result r))) | Complete => true end
  end.

End sections.


(** * Round trips through documents *)

Section lookups.
Context `{BL : BsonLaws}.

Lemma get_insert_opt_ne d k k' v : k ≠ k' → doc_get (insert_opt d k v) k' = doc_get d k'.
Proof. intros. destruct v; simpl; [by apply get_insert_ne|done]. Qed.

Lemma get_insert_opt_eq d k v : doc_get d k = None → doc_get (insert_opt d k v) k = v.
Proof. intros. destruct v; simpl; [apply get_insert_eq|done]. Qed.

Lemma get_if_ne (b : bool) d k k' v :
  k ≠ k' → doc_get (if b then d else doc_insert d k v) k' = doc_get d k'.
Proof. intros. destruct b; [done|by apply get_insert_ne]. Qed.

Lemma get_if_eq (b : bool) d k v :
  doc_get d k = None → doc_get (if b then d else doc_insert d k v) k = if b then None else Some v.
Proof. intros. destruct b; [done|apply get_insert_eq]. Qed.

End lookups.

(** Evaluate the lookups in a document built by the conversions. *)
Ltac section_simpl :=
  rewrite ?get_i32_access, ?get_i64_access, ?get_str_access, ?get_document_access,
    ?get_array_access;
  repeat ((rewrite get_insert_opt_ne by discriminate) ||
          (rewrite get_if_ne by discriminate) ||
          (rewrite get_insert_ne by discriminate) ||
          rewrite get_insert_eq || rewrite get_new ||
          (rewrite get_insert_opt_eq by (section_simpl; reflexivity)) ||
          (rewrite get_if_eq by (section_simpl; reflexivity))).

Section roundtrip.
Context `{BL : BsonLaws}.

Lemma error_section_roundtrip s :
  canonical_code (es_code s) = true → error_section_try_from (error_section_into s) = Ok s.
Proof.
  intros Hc%error_code_canonical. unfold error_section_try_from, error_section_into.
  section_simpl. destruct s as [[c|] code [m|] data]; simpl in *; by rewrite Hc.
Qed.

Lemma request_section_roundtrip s :
  rq_function s ≠ "" → request_section_try_from (request_section_into s) = Ok s.
Proof.
  intros Hf. unfold request_section_try_from, request_section_into. section_simpl.
  destruct s as [cookie ns fn v args]; simpl in *.
  destruct cookie; simpl;
    destruct (String.eqb_spec ns ""); simpl; (destruct (String.eqb_spec fn ""); [done|]);
    simpl; destruct (Z.eqb_spec v 0); simpl; subst; done.
Qed.

Lemma response_section_roundtrip s :
  (rs_state s = Pending → rs_result s = None) →
  response_section_try_from (response_section_into s) = Ok s.
Proof.
  intros Hp. unfold response_section_try_from, response_section_into. section_simpl.
  destruct s as [cookie [] res]; simpl in *; [|done]. by rewrite Hp.
Qed.

Lemma section_id s :
  get_i32 (section_into s) "id" =
    Ok (match s with
        | SError _ => ERROR_SECTION_ID
        | SRequest _ => REQUEST_SECTION_ID
        | SResponse _ => RESPONSE_SECTION_ID
        end).
Proof.
  destruct s; simpl; unfold error_section_into, request_section_into, response_section_into;
    section_simpl; done.
Qed.

(** Every section of the wire format is read back as itself. *)
Lemma section_roundtrip s : wire_section s = true → section_try_from (section_into s) = Ok s.
Proof.
  intros Hw. unfold section_try_from. rewrite section_id.
  destruct s as [s|s|s]; simpl in *.
  - by rewrite error_section_roundtrip.
  - rewrite request_section_roundtrip; [done|]. by destruct (String.eqb_spec (rq_function s) "").
  - rewrite response_section_roundtrip; [done|]. intros Hp. rewrite Hp in Hw.
    destruct (rs_result s); [|done]. by rewrite bool_decide_true in Hw by eauto.
Qed.

Lemma element_roundtrip s : wire_section s = true → element_try_from (BDocument (section_into s)) = Ok s.
Proof. apply section_roundtrip. Qed.

Lemma sections_roundtrip ss :
  Forall (λ s, wire_section s = true) ss →
  map_result element_try_from (map (λ s, BDocument (section_into s)) ss) = Ok ss.
Proof.
  intros H. apply map_result_Ok. intros s Hs. apply element_roundtrip.
  rewrite Forall_forall in H. auto.
Qed.

Lemma message_try_from_doc d vs :
  doc_get d "honk_rpc" = Some (BInt32 HONK_RPC_VERSION) →
  doc_get d "sections" = Some (BArray vs) → vs ≠ [] →
  message_try_from d = mkMessage HONK_RPC_VERSION <$> map_result element_try_from vs.
Proof.
  intros H1 H2 Hne. unfold message_try_from. rewrite get_i32_access, get_array_access, H1, H2.
  cbn [access]. rewrite Z.eqb_refl. by destruct vs.
Qed.

Lemma message_roundtrip m :
  msg_honk_rpc m = HONK_RPC_VERSION → msg_sections m ≠ [] →
  Forall (λ s, wire_section s = true) (msg_sections m) →
  message_try_from (message_into m) = Ok m.
Proof.
  destruct m as [v ss]; simpl. intros -> Hne Hall. unfold message_into; simpl.
  erewrite message_try_from_doc; [| |by section_simpl|by destruct ss].
  - by rewrite sections_roundtrip.
  - by section_simpl.
Qed.

End roundtrip.
