(* ===== verification/HonkSize.v ===== *)
(** Sizes of Honk-RPC messages: the error type of the crate, the byte counter
    (byte_counter.rs) and the functions of honk_rpc.rs that predict how large an
    encoded message is, with the proof that the prediction is the size BSON
    really produces. *)

From Stdlib Require Import ZArith Lia.
From S2P Require Import Prelude Bson HonkWire.
From stdpp Require Import prelude strings list.

Open Scope nat_scope.

(** [std::io::ErrorKind]; an [io::Error] is modelled by its kind. *)
Inductive ErrorKind := WouldBlock | TimedOut | UnexpectedEof | OtherKind (code : nat).

#[export] Instance ErrorKind_eq_dec : EqDecision ErrorKind.
Proof. solve_decision. Defined.

(** Durations and instants are nanoseconds. *)
Abbreviation Duration := Z.
Abbreviation Instant := Z.

(** [honk_rpc::Error] *)
Inductive HonkError `{BsonLib} :=
| ReaderReadFailed (err : ErrorKind)
| BsonDocumentSizeTooSmall (size : Z)
| BsonDocumentSizeTooLarge (size max : Z)
| MessageReadTimedOut (waited : Duration)
| BsonDocumentParseFailed (err : de_error)
| MessageConversionFailed (err : ErrorCode)
| BsonWriteFailed (err : ser_error)
| WriterWriteFailed (err : ErrorKind)
| WriterFlushFailed (err : ErrorKind)
| UnknownErrorSectionReceived (code : ErrorCode)
| InvalidMaxMesageSize
| SectionTooLarge (size max : nat).

(** * byte_counter.rs *)

Record ByteCounter := mkByteCounter { counter_bytes : nat }.
Definition counter_default : ByteCounter := mkByteCounter 0.
(** [ByteCounter::write]: everything is accepted, only the length is kept. *)
Definition counter_write (c : ByteCounter) (buf : bytes) : ByteCounter :=
  mkByteCounter (counter_bytes c + length buf).

Lemma counter_write_chunks c (chunks : list bytes) :
  counter_bytes (fold_left counter_write chunks c) = counter_bytes c + length (mjoin chunks).
Proof.
  revert c. induction chunks as [|b bs IH]; intros c; simpl; [lia|].
  rewrite IH, length_app. simpl. lia.
Qed.

(** * Size constants *)

Definition DEFAULT_MAX_MESSAGE_SIZE : nat := 4 * 1024.
Definition DEFAULT_MAX_WAIT_TIME : Duration := (60 * 1000000000)%Z.

Definition HEADER_SIZE : nat := 4.
Definition HONK_RPC_SIZE : nat := 14.
Definition SECTIONS_SIZE : nat := 18.
Definition FOOTER_SIZE : nat := 1.
Definition MIN_MESSAGE_SIZE : nat := HEADER_SIZE + HONK_RPC_SIZE + SECTIONS_SIZE + FOOTER_SIZE.

Section size_functions.
Context `{BL : BsonLib}.

(** [doc.to_writer(&mut counter).map_err(BsonWriteFailed)?; counter.bytes()] *)
Definition counted_size (d : Document) : result HonkError nat :=
  b ← map_err BsonWriteFailed (to_writer d);
  Ok (counter_bytes (counter_write counter_default b)).

Definition get_message_overhead : result HonkError nat :=
  counted_size (doc [("honk_rpc", BInt32 HONK_RPC_VERSION); ("sections", BArray [BNull])]).

Definition get_error_section_size (cookie : option RequestCookie) (message : option string)
    (data : option Bson) : result HonkError nat :=
  let d := doc [("id", BInt32 ERROR_SECTION_ID);
                ("code", BInt32 (i32_from_error_code (Unknown 0)))] in
  let d := insert_opt d "cookie" (BInt64 <$> cookie) in
  let d := insert_opt d "message" (BString <$> message) in
  let d := insert_opt d "data" data in
  counted_size d.

Definition get_request_section_size (cookie : option RequestCookie) (namespace : option string)
    (function : string) (version : option Z) (arguments : option Document) :
    result HonkError nat :=
  let d := doc [("id", BInt32 REQUEST_SECTION_ID); ("function", BString function)] in
  let d := insert_opt d "cookie" (BInt64 <$> cookie) in
  let d := insert_opt d "namespace" (BString <$> namespace) in
  let d := insert_opt d "version" (BInt32 <$> version) in
  let d := insert_opt d "arguments" (BDocument <$> arguments) in
  counted_size d.

Definition get_response_section_size (result : option Bson) : Prelude.result HonkError nat :=
  let d := doc [("id", BInt32 RESPONSE_SECTION_ID); ("cookie", BInt64 0); ("state", BInt32 0)] in
  let d := insert_opt d "result" result in
  counted_size d.

End size_functions.

Section size_theory.
Context `{BL : BsonLaws}.

Lemma counted_size_Ok d n : counted_size d = Ok n → n = doc_size d.
Proof.
  unfold counted_size. destruct (to_writer d) eqn:E; simpl; [|done].
  intros [= <-]. by apply to_writer_size.
Qed.

Lemma counted_size_to_writer d b : to_writer d = Ok b → counted_size d = Ok (doc_size d).
Proof.
  unfold counted_size. intros E. rewrite E. simpl. by rewrite (to_writer_size d b E).
Qed.

Lemma size_insert_opt d k v :
  doc_get d k = None →
  doc_size (insert_opt d k v) =
    doc_size d + match v with Some v => 2 + String.length k + bson_size v | None => 0 end.
Proof.
  intros H. destruct v; simpl; [|lia]. rewrite size_insert_new by done. lia.
Qed.

(** The elements of an array, as the BSON grammar lays them out. *)
Definition elems_bytes (vs : list Bson) : nat := elems_size bson_size 0 vs.

(** A message document: the version, then the array of section documents. *)
Definition message_doc (vs : list Bson) : Document :=
  doc_insert (doc_insert doc_new "honk_rpc" (BInt32 HONK_RPC_VERSION)) "sections" (BArray vs).

Lemma size_message_doc vs : doc_size (message_doc vs) = 34 + elems_bytes vs.
Proof.
  unfold message_doc. rewrite size_insert_new by by bson_simpl.
  rewrite size_insert_new by by bson_simpl. rewrite size_new. simpl.
  unfold elems_bytes. lia.
Qed.

(** The constant [MIN_MESSAGE_SIZE] is the size of a message around one section. *)
Lemma size_one_section d : doc_size (message_doc [BDocument d]) = MIN_MESSAGE_SIZE + doc_size d.
Proof. rewrite size_message_doc. unfold elems_bytes. simpl. lia. Qed.

Lemma message_overhead_exact n : get_message_overhead = Ok n → n = MIN_MESSAGE_SIZE.
Proof.
  unfold get_message_overhead. intros ->%counted_size_Ok.
  unfold doc. simpl fold_left. fold (message_doc [BNull]). by rewrite size_message_doc.
Qed.

Ltac size_section :=
  repeat ((rewrite size_insert_opt by (section_simpl; reflexivity)) ||
          (rewrite size_insert_new by (section_simpl; reflexivity)));
  rewrite size_new.

(** ** Predicted and real section sizes *)

Lemma size_error_section s :
  doc_size (error_section_into s) =
    23 + match es_cookie s with Some _ => 16 | None => 0 end
       + match es_message s with Some m => 14 + String.length m | None => 0 end
       + match es_data s with Some v => 6 + bson_size v | None => 0 end.
Proof.
  unfold error_section_into. size_section.
  destruct s as [[] ? [] []]; simpl; lia.
Qed.

Lemma size_request_section s :
  doc_size (request_section_into s) =
    39 + match rq_cookie s with Some _ => 16 | None => 0 end
       + (if String.eqb (rq_namespace s) "" then 0 else 16 + String.length (rq_namespace s))
       + String.length (rq_function s)
       + (if (rq_version s =? 0)%Z then 0 else 13) + doc_size (rq_arguments s).
Proof.
  destruct s as [c ns fn v args]. unfold request_section_into. simpl.
  destruct (String.eqb ns ""), (v =? 0)%Z; size_section; destruct c; simpl; lia.
Qed.

Lemma size_response_section s :
  doc_size (response_section_into s) =
    40 + match rs_result s with Some v => 8 + bson_size v | None => 0 end.
Proof.
  destruct s as [c [] r]; unfold response_section_into; size_section; destruct r; simpl; lia.
Qed.

Lemma error_section_size_exact s n :
  get_error_section_size (es_cookie s) (es_message s) (es_data s) = Ok n →
  n = doc_size (error_section_into s).
Proof.
  unfold get_error_section_size, doc. intros ->%counted_size_Ok. simpl fold_left.
  rewrite size_error_section. size_section. destruct s as [[] ? [] []]; simpl; lia.
Qed.

Lemma response_section_size_exact s n :
  get_response_section_size (rs_result s) = Ok n → n = doc_size (response_section_into s).
Proof.
  unfold get_response_section_size, doc. intros ->%counted_size_Ok. simpl fold_left.
  rewrite size_response_section. size_section. destruct (rs_result s); simpl; lia.
Qed.

(** For requests the prediction is exact when no default value is spelled out,
    and never too small. *)
Lemma request_section_size_bound s ns v n :
  get_request_section_size (rq_cookie s) ns (rq_function s) v (Some (rq_arguments s)) = Ok n →
  default ""%string ns = rq_namespace s → default 0%Z v = rq_version s →
  doc_size (request_section_into s) ≤ n ∧
  (ns ≠ Some ""%string → v ≠ Some 0%Z → n = doc_size (request_section_into s)).
Proof.
  unfold get_request_section_size, doc. intros ->%counted_size_Ok Hns Hv. simpl fold_left.
  rewrite size_request_section, <- Hns, <- Hv. size_section.
  destruct s as [c ? fn ? args]; simpl in *.
  destruct c, ns as [ns|], v as [v|]; cbn [default from_option id fmap option_fmap option_map];
    try (destruct (String.eqb_spec ns "") as [->|]); try (destruct (Z.eqb_spec v 0) as [->|]);
    simpl; split; intros; try congruence; try lia.
Qed.

End size_theory.
