(* ===== verification/VecDeque.v ===== *)
(** [std::collections::VecDeque<u8>] as far as honk_rpc.rs depends on its layout.

    [Session::write_pending_data_impl] asserts that the second slice returned by
    [as_slices] is empty, so the position of the contents in the ring buffer
    matters: the model keeps the capacity and the physical index of the first
    element next to the contents. *)

From Stdlib Require Import Lia.
From S2P Require Import Prelude.
From stdpp Require Import prelude list.

Record VecDeque := mkVecDeque {
  vd_cap : nat;
  vd_head : nat;
  vd_data : bytes;
}.

(** [VecDeque::default()], then [reserve(n)]. *)
Definition vd_with_reserve (n : nat) : VecDeque := mkVecDeque n 0 [].

(** Whether the contents do not run past the end of the ring. *)
Definition vd_contiguous (d : VecDeque) : bool :=
  bool_decide (vd_head d + length (vd_data d) ≤ vd_cap d).

(** [as_slices] *)
Definition vd_as_slices (d : VecDeque) : bytes * bytes :=
  (take (vd_cap d - vd_head d) (vd_data d), drop (vd_cap d - vd_head d) (vd_data d)).

(** [reserve(additional)]: grow by doubling when needed; contents that wrapped are
    moved so that either their tail follows their head or their head ends the
    new buffer. *)
Definition vd_reserve (d : VecDeque) (additional : nat) : VecDeque :=
  let len := length (vd_data d) in
  if decide (len + additional ≤ vd_cap d) then d
  else
    let cap := Nat.max (2 * vd_cap d) (len + additional) in
    if vd_contiguous d then mkVecDeque cap (vd_head d) (vd_data d)
    else
      let head_len := vd_cap d - vd_head d in
      let tail_len := len - head_len in
      if decide (tail_len < head_len ∧ tail_len ≤ cap - vd_cap d)
      then mkVecDeque cap (vd_head d) (vd_data d)
      else mkVecDeque cap (cap - head_len) (vd_data d).

(** [append(other)] *)
Definition vd_append (d : VecDeque) (other : bytes) : VecDeque :=
  let d := vd_reserve d (length other) in
  mkVecDeque (vd_cap d) (vd_head d) (vd_data d ++ other).

(** [drain(0..n)], which resets the position when nothing is left. *)
Definition vd_drain_front (d : VecDeque) (n : nat) : VecDeque :=
  let rest := drop n (vd_data d) in
  match rest with
  | [] => mkVecDeque (vd_cap d) 0 []
  | _ => mkVecDeque (vd_cap d) ((vd_head d + n) `mod` vd_cap d) rest
  end.

(** [make_contiguous()]: contents that already are contiguous stay in place. *)
Definition vd_make_contiguous (d : VecDeque) : VecDeque :=
  if vd_contiguous d then d else mkVecDeque (vd_cap d) 0 (vd_data d).

(** The position is inside the ring and the contents fit. *)
Definition vd_wf (d : VecDeque) : Prop :=
  length (vd_data d) ≤ vd_cap d ∧ (vd_head d < vd_cap d ∨ vd_head d = 0).

Lemma vd_as_slices_contiguous d :
  vd_wf d → (vd_as_slices d = (vd_data d, []) ↔ vd_contiguous d = true).
Proof.
  intros [Hl Hh]. unfold vd_as_slices, vd_contiguous. rewrite bool_decide_eq_true.
  split.
  - intros [= _ Hd]. apply (f_equal length) in Hd. rewrite length_drop in Hd. simpl in Hd. lia.
  - intros. rewrite take_ge, drop_ge by lia. done.
Qed.

Lemma vd_append_data d other : vd_data (vd_append d other) = vd_data d ++ other.
Proof. unfold vd_append, vd_reserve; simpl. by repeat case_match; repeat case_decide. Qed.

Lemma vd_drain_data d n : vd_data (vd_drain_front d n) = drop n (vd_data d).
Proof. unfold vd_drain_front. by case_match eqn:E. Qed.

Lemma vd_make_contiguous_data d : vd_data (vd_make_contiguous d) = vd_data d.
Proof. unfold vd_make_contiguous. by case_match. Qed.

(** Contents at the start of the ring stay there. *)
Lemma vd_append_home d other :
  vd_wf d → vd_head d = 0 → vd_wf (vd_append d other) ∧ vd_head (vd_append d other) = 0.
Proof.
  intros [Hl _] H0. unfold vd_append, vd_reserve, vd_wf, vd_contiguous. simpl.
  case_decide; simpl; [rewrite length_app; lia|].
  rewrite bool_decide_true by lia. simpl. rewrite length_app. lia.
Qed.

Lemma vd_home_contiguous d : vd_wf d → vd_head d = 0 → vd_contiguous d = true.
Proof. intros [Hl _] H0. apply bool_decide_eq_true. lia. Qed.

Lemma vd_drain_wf d n : vd_wf d → vd_contiguous d = true → vd_wf (vd_drain_front d n).
Proof.
  intros [Hl Hh] Hc%bool_decide_eq_true. unfold vd_drain_front, vd_wf.
  case_match eqn:E; simpl; [lia|].
  assert (length (drop n (vd_data d)) = S (length l)) as Hd by by rewrite E.
  rewrite length_drop in Hd. split; [lia|]. left. apply Nat.mod_upper_bound. lia.
Qed.

Lemma vd_drain_contiguous d n :
  vd_wf d → vd_contiguous d = true → vd_contiguous (vd_drain_front d n) = true.
Proof.
  intros [Hl Hh] Hc%bool_decide_eq_true. unfold vd_drain_front.
  case_match eqn:E; apply bool_decide_eq_true; simpl; [lia|].
  assert (length (drop n (vd_data d)) = S (length l)) as Hd by by rewrite E.
  rewrite length_drop in Hd. rewrite Nat.mod_small by lia. lia.
Qed.

Lemma vd_make_contiguous_id d : vd_contiguous d = true → vd_make_contiguous d = d.
Proof. unfold vd_make_contiguous. by intros ->. Qed.

Lemma vd_drain_all_home d n : length (vd_data d) ≤ n → vd_drain_front d n = mkVecDeque (vd_cap d) 0 [].
Proof. intros. unfold vd_drain_front. by rewrite drop_ge by lia. Qed.

(** Once the front of the ring is free and the contents sit behind it, an append
    that fits the capacity but not the space behind the contents wraps. *)
Lemma vd_append_wraps d other :
  length (vd_data d) + length other ≤ vd_cap d →
  vd_cap d < vd_head d + length (vd_data d) + length other →
  vd_contiguous (vd_append d other) = false.
Proof.
  intros Hfit Hwrap. unfold vd_append, vd_reserve. rewrite decide_True by done.
  unfold vd_contiguous. simpl. rewrite length_app. apply bool_decide_eq_false. lia.
Qed.

Lemma vd_append_wf d other : vd_wf d → vd_wf (vd_append d other).
Proof.
  intros [Hl Hh]. unfold vd_append, vd_reserve, vd_wf.
  case_decide; simpl; [rewrite length_app; lia|].
  destruct (vd_contiguous d) eqn:Hc; simpl; [rewrite length_app; lia|].
  apply bool_decide_eq_false in Hc.
  case_decide; simpl; rewrite length_app; lia.
Qed.
