(* ===== verification/Maps.v ===== *)
(** [BTreeMap<usize, V>], [HashMap<K, V>] and [Vec::swap_remove] as far as the sources use
    them.

    A B-tree map is the list of its entries in ascending order of the keys, which is the
    order [retain] visits them in; a hash map is a list of entries without an order of its
    own: where the sources walk through one, the order is a parameter. *)

From Stdlib Require Import ZArith Lia.
From S2P Require Import Prelude.
From stdpp Require Import prelude list.

Lemma keys_Forall {K V} (P : K → Prop) (m : list (K * V)) : Forall (λ e, P e.1) m ↔ Forall P m.*1.
Proof. by rewrite Forall_fmap. Qed.

(** * [BTreeMap<usize, V>] *)

Section btree.
Context {V : Type}.
Abbreviation BTreeMap := (list (Z * V)).
Implicit Types (m : BTreeMap).

Fixpoint bt_get (m : BTreeMap) (k : Z) : option V :=
  match m with
  | [] => None
  | (k', v) :: m => if (k =? k')%Z then Some v else bt_get m k
  end.

(** [insert]: the entry goes to its place in the order and replaces one with its key. *)
Fixpoint bt_insert (m : BTreeMap) (k : Z) (v : V) : BTreeMap :=
  match m with
  | [] => [(k, v)]
  | (k', v') :: m' =>
      if (k =? k')%Z then (k, v) :: m'
      else if (k <? k')%Z then (k, v) :: m
      else (k', v') :: bt_insert m' k v
  end.

Fixpoint bt_remove (m : BTreeMap) (k : Z) : BTreeMap :=
  match m with
  | [] => []
  | (k', v) :: m => if (k =? k')%Z then m else (k', v) :: bt_remove m k
  end.

(** [*m.get_mut(&k).unwrap() = v]: the value of a key that is there. *)
Fixpoint bt_set (m : BTreeMap) (k : Z) (v : V) : BTreeMap :=
  match m with
  | [] => []
  | (k', v') :: m => if (k =? k')%Z then (k', v) :: m else (k', v') :: bt_set m k v
  end.

(** Keys in ascending order. *)
Fixpoint bt_sorted (m : BTreeMap) : Prop :=
  match m with
  | [] => True
  | (k, _) :: m => Forall (λ e, (k < e.1)%Z) m ∧ bt_sorted m
  end.

Lemma bt_get_elem m k v : bt_get m k = Some v → (k, v) ∈ m.
Proof.
  induction m as [|[k' v'] m IH]; simpl; [done|].
  destruct (Z.eqb_spec k k') as [->|]; [intros [= ->]; left|right; auto].
Qed.

Lemma bt_get_above m k : Forall (λ e, (k < e.1)%Z) m → bt_get m k = None.
Proof.
  induction 1 as [|[k' v'] m Hk _ IH]; simpl in *; [done|].
  destruct (Z.eqb_spec k k'); [lia|done].
Qed.

Lemma bt_elem_get m k v : bt_sorted m → (k, v) ∈ m → bt_get m k = Some v.
Proof.
  induction m as [|[k' v'] m IH]; [by intros _ ?%elem_of_nil|].
  intros [Hall Hs] [[= -> ->]|Hin]%elem_of_cons; simpl; [by rewrite Z.eqb_refl|].
  rewrite Forall_forall in Hall. specialize (Hall _ Hin). simpl in Hall.
  destruct (Z.eqb_spec k k'); [lia|auto].
Qed.

Lemma bt_get_None m k : bt_get m k = None ↔ k ∉ m.*1.
Proof.
  induction m as [|[k' v'] m IH]; simpl; [split; [intros _ ?%elem_of_nil|]; done|].
  destruct (Z.eqb_spec k k') as [->|]; [split; [done|]; set_solver|].
  rewrite IH. set_solver.
Qed.

Lemma bt_get_insert m k k' v :
  bt_sorted m → bt_get (bt_insert m k v) k' = if (k' =? k)%Z then Some v else bt_get m k'.
Proof.
  induction m as [|[j w] m IH]; simpl; [done|]. intros [Hall Hs].
  destruct (Z.eqb_spec k j) as [->|]; [simpl; by destruct (Z.eqb_spec k' j)|].
  destruct (Z.ltb_spec k j); simpl.
  - by destruct (Z.eqb_spec k' k).
  - rewrite IH by done. destruct (Z.eqb_spec k' j), (Z.eqb_spec k' k); congruence.
Qed.

Lemma bt_get_remove m k k' :
  bt_sorted m → bt_get (bt_remove m k) k' = if (k' =? k)%Z then None else bt_get m k'.
Proof.
  induction m as [|[j w] m IH]; simpl; [by destruct (_ =? _)%Z|]. intros [Hall Hs].
  destruct (Z.eqb_spec k j) as [->|].
  - destruct (Z.eqb_spec k' j); [|done]. subst k'. by apply bt_get_above.
  - simpl. rewrite IH by done. destruct (Z.eqb_spec k' j), (Z.eqb_spec k' k); congruence.
Qed.

Lemma bt_get_set m k k' v :
  bt_get (bt_set m k v) k' =
    if (k' =? k)%Z then match bt_get m k with Some _ => Some v | None => None end else bt_get m k'.
Proof.
  induction m as [|[j w] m IH]; simpl; [by destruct (_ =? _)%Z|].
  destruct (Z.eqb_spec k j) as [->|]; simpl; [by destruct (Z.eqb_spec k' j)|].
  rewrite IH. destruct (Z.eqb_spec k' j), (Z.eqb_spec k' k); try done; congruence.
Qed.

Lemma bt_set_keys m k v : (bt_set m k v).*1 = m.*1.
Proof. induction m as [|[j w] m IH]; simpl; [done|]. destruct (_ =? _)%Z; simpl; f_equal; done. Qed.

Lemma bt_insert_Forall (P : Z * V → Prop) m k v :
  Forall P m → P (k, v) → Forall P (bt_insert m k v).
Proof.
  induction 1 as [|[j w] m Hj Hm IH]; intros Hk; simpl; [by constructor|].
  destruct (_ =? _)%Z; [by constructor|]. destruct (_ <? _)%Z; constructor; auto.
Qed.

Lemma bt_remove_Forall (P : Z * V → Prop) m k : Forall P m → Forall P (bt_remove m k).
Proof.
  induction 1 as [|[j w] m Hj Hm IH]; simpl; [done|]. destruct (_ =? _)%Z; [done|by constructor].
Qed.

Lemma bt_set_Forall (P : Z * V → Prop) m k v :
  Forall P m → (∀ w, (k, w) ∈ m → P (k, w) → P (k, v)) → Forall P (bt_set m k v).
Proof.
  induction 1 as [|[j w] m Hj Hm IH]; intros Hk; simpl; [done|].
  destruct (Z.eqb_spec k j) as [->|]; constructor; auto.
  - apply (Hk w); [left|done].
  - apply IH. intros x Hx. apply Hk. by right.
Qed.

Lemma bt_insert_fresh m k v : k ∉ m.*1 → (bt_insert m k v).*1 ≡ₚ k :: m.*1.
Proof.
  induction m as [|[j w] m IH]; csimpl; [done|]. intros [Hk Hm]%not_elem_of_cons.
  destruct (Z.eqb_spec k j); [done|]. destruct (k <? j)%Z; csimpl; [done|].
  rewrite IH by done. apply Permutation_swap.
Qed.

Lemma bt_insert_sorted m k v : bt_sorted m → bt_sorted (bt_insert m k v).
Proof.
  induction m as [|[j w] m IH]; simpl; [by repeat constructor|]. intros [Hall Hs].
  destruct (Z.eqb_spec k j) as [->|]; [done|]. destruct (Z.ltb_spec k j); simpl.
  - split; [|done]. constructor; [done|]. eapply Forall_impl; [exact Hall|]. simpl. lia.
  - split; [|auto]. apply bt_insert_Forall; [done|simpl; lia].
Qed.

Lemma bt_remove_sorted m k : bt_sorted m → bt_sorted (bt_remove m k).
Proof.
  induction m as [|[j w] m IH]; simpl; [done|]. intros [Hall Hs].
  destruct (_ =? _)%Z; [done|]. simpl. split; [by apply bt_remove_Forall|auto].
Qed.

Lemma bt_sorted_keys m m' : m.*1 = m'.*1 → bt_sorted m → bt_sorted m'.
Proof.
  revert m'. induction m as [|[j w] m IH]; intros [|[j' w'] m'] Heq; try done.
  assert (j = j' ∧ m.*1 = m'.*1) as [<- Hm] by (by injection Heq).
  intros [Hall Hs]. split; [|by apply IH].
  apply (keys_Forall (Z.lt j)). apply (keys_Forall (Z.lt j)) in Hall. by rewrite <- Hm.
Qed.

Lemma bt_set_sorted m k v : bt_sorted m → bt_sorted (bt_set m k v).
Proof. apply bt_sorted_keys. by rewrite bt_set_keys. Qed.
End btree.

Abbreviation BTreeMap V := (list (Z * V)).

(** * [HashMap<K, V>] *)

Section hashmap.
Context {K V : Type} `{EqDecision K}.
Abbreviation HashMap := (list (K * V)).

Fixpoint hm_get (m : HashMap) (k : K) : option V :=
  match m with
  | [] => None
  | (k', v) :: m => if decide (k = k') then Some v else hm_get m k
  end.

Definition hm_contains_key (m : HashMap) (k : K) : bool :=
  match hm_get m k with Some _ => true | None => false end.

Fixpoint hm_insert (m : HashMap) (k : K) (v : V) : HashMap :=
  match m with
  | [] => [(k, v)]
  | (k', v') :: m => if decide (k = k') then (k, v) :: m else (k', v') :: hm_insert m k v
  end.

Fixpoint hm_remove (m : HashMap) (k : K) : HashMap :=
  match m with
  | [] => []
  | (k', v) :: m => if decide (k = k') then m else (k', v) :: hm_remove m k
  end.

Lemma hm_get_elem m k v : hm_get m k = Some v → (k, v) ∈ m.
Proof.
  induction m as [|[k' v'] m IH]; simpl; [done|].
  case_decide as Hk; [intros [= ->]; subst; left|right; auto].
Qed.

Lemma hm_elem_get m k v : NoDup m.*1 → (k, v) ∈ m → hm_get m k = Some v.
Proof.
  induction m as [|[k' v'] m IH]; [by intros _ ?%elem_of_nil|]. simpl.
  intros [Hn Hd]%NoDup_cons [[= -> ->]|Hin]%elem_of_cons; [by rewrite decide_True|].
  rewrite decide_False; [by apply IH|]. intros ->. apply Hn. by apply (list_elem_of_fmap_2 fst) in Hin.
Qed.

Lemma hm_get_insert m k k' v :
  hm_get (hm_insert m k v) k' = if decide (k' = k) then Some v else hm_get m k'.
Proof.
  induction m as [|[j w] m IH]; simpl; [done|]. destruct (decide (k = j)) as [->|]; simpl.
  - by destruct (decide (k' = j)).
  - rewrite IH. destruct (decide (k' = j)), (decide (k' = k)); congruence.
Qed.

Lemma hm_get_None m k : k ∉ m.*1 → hm_get m k = None.
Proof.
  induction m as [|[j w] m IH]; csimpl; [done|]. intros [Hj Hm]%not_elem_of_cons.
  rewrite decide_False by done. by apply IH.
Qed.

Lemma hm_get_remove m k k' :
  NoDup m.*1 → hm_get (hm_remove m k) k' = if decide (k' = k) then None else hm_get m k'.
Proof.
  induction m as [|[j w] m IH]; csimpl; [by destruct (decide _)|]. intros [Hj Hm]%NoDup_cons.
  destruct (decide (k = j)) as [->|]; csimpl.
  - destruct (decide (k' = j)) as [->|]; [by apply hm_get_None|done].
  - rewrite IH by done. destruct (decide (k' = j)), (decide (k' = k)); congruence.
Qed.

Lemma hm_insert_Forall (P : K * V → Prop) m k v :
  Forall P m → P (k, v) → Forall P (hm_insert m k v).
Proof.
  induction 1 as [|[j w] m Hj Hm IH]; intros Hk; simpl; [by constructor|].
  case_decide; constructor; auto.
Qed.

Lemma hm_remove_Forall (P : K * V → Prop) m k : Forall P m → Forall P (hm_remove m k).
Proof.
  induction 1 as [|[j w] m Hj Hm IH]; simpl; [done|]. case_decide; [done|by constructor].
Qed.

Lemma hm_insert_keys m k v :
  (hm_insert m k v).*1 = if decide (k ∈ m.*1) then m.*1 else m.*1 ++ [k].
Proof.
  induction m as [|[j w] m IH]; csimpl; [done|].
  destruct (decide (k = j)) as [->|]; csimpl; [rewrite decide_True by left; done|].
  rewrite IH. destruct (decide (k ∈ m.*1)), (decide (k ∈ j :: m.*1)); set_solver.
Qed.

Lemma hm_insert_NoDup m k v : NoDup m.*1 → NoDup (hm_insert m k v).*1.
Proof.
  rewrite hm_insert_keys. case_decide; [done|]. intros. apply NoDup_app. split_and!; [done| |].
  - intros x Hx ->%list_elem_of_singleton. done.
  - apply NoDup_singleton.
Qed.

Lemma hm_remove_sublist m k : sublist (hm_remove m k).*1 m.*1.
Proof.
  induction m as [|[j w] m IH]; csimpl; [done|]. case_decide; by constructor.
Qed.

Lemma hm_remove_NoDup m k : NoDup m.*1 → NoDup (hm_remove m k).*1.
Proof. intros Hd. eapply sublist_NoDup; [done|apply hm_remove_sublist]. Qed.
End hashmap.

Abbreviation HashMap K V := (list (K * V)).

(** The order in which [HashMap::iter] and [retain] visit the keys: the documentation
    leaves it open, so it is any permutation of them. *)
Class HashOrder (K : Type) : Type := {
  hash_order : list K → list K;
  hash_order_perm l : hash_order l ≡ₚ l;
}.

(** The entries in the order of a walk. *)
Definition hm_entries {K V} `{EqDecision K} `{!HashOrder K} (m : HashMap K V) : HashMap K V :=
  omap (λ k, pair k <$> hm_get m k) (hash_order m.*1).

Lemma hm_entries_perm {K V} `{EqDecision K} `{!HashOrder K} (m : HashMap K V) :
  NoDup m.*1 → hm_entries m ≡ₚ m.
Proof.
  intros Hd. unfold hm_entries. rewrite hash_order_perm.
  assert (∀ l : HashMap K V, l ⊆ m → omap (λ k, pair k <$> hm_get m k) l.*1 = l) as H; [|by rewrite H].
  induction l as [|[k v] l IH]; intros Hl; simpl; [done|].
  rewrite (hm_elem_get m k v Hd) by (apply Hl; left). simpl. f_equal. apply IH.
  intros x Hx. apply Hl. by right.
Qed.

(** * [retain] *)

(** The closure gets the key and the value, which it may change, and whatever it captures
    ([S]); entries for which it returns [false] are removed. *)
Section retain.
Context {K V S : Type} (f : K → V → S → outcome (S * (V * bool))).

Fixpoint retain (m : list (K * V)) (s : S) : outcome (S * list (K * V)) :=
  match m with
  | [] => Done (s, [])
  | (k, v) :: m =>
      match f k v s with
      | Done (s, (v, keep)) =>
          match retain m s with
          | Done (s, m) => Done (s, if (keep : bool) then (k, v) :: m else m)
          | Panicked => Panicked
          | OutOfFuel => OutOfFuel
          end
      | Panicked => Panicked
      | OutOfFuel => OutOfFuel
      end
  end.

(** An invariant of the captured state [P] and of the entries [Q], which may speak about
    both, carried through the walk. *)
Lemma retain_keeps (P : S → Prop) (Q : K → V → Prop) m s s' m' :
  (∀ k v s s' v' b, P s → Q k v → f k v s = Done (s', (v', b)) → P s' ∧ (b = true → Q k v')) →
  P s → Forall (λ e, Q e.1 e.2) m → retain m s = Done (s', m') →
  P s' ∧ Forall (λ e, Q e.1 e.2) m'.
Proof.
  intros Hf. revert s s' m'. induction m as [|[k v] m IH]; intros s s' m' Hs Hm; simpl.
  { intros [= <- <-]. by split. }
  apply Forall_cons in Hm as [Hk Hm]. simpl in Hk.
  destruct (f k v s) as [[s1 [v1 b]]| |] eqn:Hfk; [|done..].
  destruct (Hf _ _ _ _ _ _ Hs Hk Hfk) as [Hs1 Hv].
  destruct (retain m s1) as [[s2 m2]| |] eqn:Hr; [|done..]. intros [= <- <-].
  destruct (IH _ _ _ Hs1 Hm Hr) as [Hs2 Hm2]. split; [done|].
  destruct b; [|done]. constructor; [by apply Hv|done].
Qed.

Lemma retain_sublist m s s' m' : retain m s = Done (s', m') → sublist m'.*1 m.*1.
Proof.
  revert s s' m'. induction m as [|[k v] m IH]; intros s s' m'; simpl; [by intros [= <- <-]|].
  destruct (f k v s) as [[s1 [v1 b]]| |]; [|done..].
  destruct (retain m s1) as [[s2 m2]| |] eqn:Hr; [|done..]. intros [= <- <-].
  destruct b; simpl; constructor; by eapply IH.
Qed.
End retain.

Lemma bt_sorted_sublist {V W} (m : BTreeMap V) (m' : BTreeMap W) :
  sublist m'.*1 m.*1 → bt_sorted m → bt_sorted m'.
Proof.
  revert m'. induction m as [|[k v] m IH]; intros m' Hs; csimpl in *.
  { apply sublist_nil_r in Hs. by destruct m'. }
  intros [Hall Hm]. apply sublist_cons_r in Hs as [Hs|(l & Heq & Hs)]; [by apply IH|].
  destruct m' as [|[k' v'] m']; [done|]. assert (k' = k ∧ l = m'.*1) as [-> ->] by (by injection Heq).
  split; [|by apply IH].
  apply (keys_Forall (Z.lt k)). apply (keys_Forall (Z.lt k)) in Hall.
  rewrite Forall_forall in *. intros x Hx. apply Hall. by eapply elem_of_sublist.
Qed.

(** * [Vec::swap_remove] *)

Definition swap_remove {A} (i : nat) (l : list A) : list A :=
  match last l with Some x => take (length l - 1) (<[i := x]> l) | None => [] end.

Lemma insert_perm {A} (l : list A) i x y : l !! i = Some x → x :: <[i:=y]> l ≡ₚ y :: l.
Proof.
  intros Hi. rewrite <- (take_drop_middle l i x Hi) at 2. rewrite insert_take_drop by by eapply lookup_lt_Some.
  rewrite <- !Permutation_middle. constructor.
Qed.

Lemma swap_remove_perm {A} (l : list A) i x : l !! i = Some x → l ≡ₚ x :: swap_remove i l.
Proof.
  intros Hi. unfold swap_remove. destruct (last l) as [y|] eqn:Hl; [|by apply last_None in Hl as ->].
  apply last_Some in Hl as [l0 ->]. rewrite length_app, Nat.add_sub.
  destruct (decide (i < length l0)) as [Hlt|Hge].
  - rewrite insert_app_l by done. rewrite take_app_length' by by rewrite length_insert.
    rewrite lookup_app_l in Hi by done. rewrite (insert_perm _ _ _ _ Hi). apply Permutation_app_comm.
  - apply lookup_lt_Some in Hi as Hlen. rewrite length_app in Hlen. simpl in Hlen.
    assert (i = length l0) as -> by lia. rewrite list_lookup_middle in Hi by done. simplify_eq.
    rewrite insert_app_r_alt by done. rewrite take_app_length. apply Permutation_app_comm.
Qed.

Lemma swap_remove_before {A} (l : list A) i j x :
  l !! i = Some x → j < i → swap_remove i l !! j = l !! j.
Proof.
  intros Hi Hj. apply lookup_lt_Some in Hi as Hlen. unfold swap_remove.
  destruct (last l) as [y|] eqn:Hl; [|by apply last_None in Hl as ->].
  rewrite lookup_take_lt by lia. rewrite list_lookup_insert_ne by lia. done.
Qed.
