(* ===== verification/Str.v ===== *)
(** [str] and [String] of the Rust standard library, as far as the tor control code uses
    them.  A string is its UTF-8 bytes; an index that is out of range or inside a character
    makes a slice panic. *)

From Stdlib Require Import ZArith Lia.
From S2P Require Import Prelude.
From stdpp Require Import prelude strings list.
From coqutil Require Import Byte.

Open Scope Z_scope.

Abbreviation str := bytes.

(** A literal of the sources. *)
Abbreviation lit s := (as_bytes s%string).

Definition space : Init.Byte.byte := Byte.x20.
Definition dquote : Init.Byte.byte := Byte.x22.
Definition hyphen : Init.Byte.byte := Byte.x2d.
Definition dot : Init.Byte.byte := Byte.x2e.
Definition equals : Init.Byte.byte := Byte.x3d.
Definition backslash : Init.Byte.byte := Byte.x5c.
Definition newline : Init.Byte.byte := Byte.x0a.
Definition carriage_return : Init.Byte.byte := Byte.x0d.
Definition lparen : Init.Byte.byte := Byte.x28.
Definition rparen : Init.Byte.byte := Byte.x29.
Definition plus_sign : Init.Byte.byte := Byte.x2b.

(** * UTF-8 *)

Definition continuation (b : Init.Byte.byte) : bool :=
  (128 <=? byte.unsigned b) && (byte.unsigned b <=? 191).

(** The second byte of a sequence of three or four, which rules out overlong forms,
    surrogates and code points above U+10FFFF. *)
Definition second_byte (b0 b1 : Init.Byte.byte) : bool :=
  let '(x, y) := (byte.unsigned b0, byte.unsigned b1) in
  if x =? 224 then (160 <=? y) && (y <=? 191)
  else if x =? 237 then (128 <=? y) && (y <=? 159)
  else if x =? 240 then (144 <=? y) && (y <=? 191)
  else if x =? 244 then (128 <=? y) && (y <=? 143)
  else (128 <=? y) && (y <=? 191).

(** The payload bits of a continuation byte. *)
Definition low6 (b : Init.Byte.byte) : Z := Z.land (byte.unsigned b) 63.

(** The characters of a string with their bytes; [None] when the bytes are not UTF-8. *)
Fixpoint utf8_chars (s : bytes) : option (list (Z * bytes)) :=
  match s with
  | [] => Some []
  | b0 :: s0 =>
      let x := byte.unsigned b0 in
      if x <? 128 then cons (x, [b0]) <$> utf8_chars s0
      else if x <? 194 then None
      else match s0 with
      | [] => None
      | b1 :: s1 =>
          if x <? 224 then
            if continuation b1 then cons (Z.land x 31 * 64 + low6 b1, [b0; b1]) <$> utf8_chars s1 else None
          else match s1 with
          | [] => None
          | b2 :: s2 =>
              if x <? 240 then
                if second_byte b0 b1 && continuation b2 then
                  cons ((Z.land x 15 * 64 + low6 b1) * 64 + low6 b2, [b0; b1; b2]) <$> utf8_chars s2
                else None
              else match s2 with
              | [] => None
              | b3 :: s3 =>
                  if (x <? 245) && second_byte b0 b1 && continuation b2 && continuation b3 then
                    cons (((Z.land x 7 * 64 + low6 b1) * 64 + low6 b2) * 64 + low6 b3, [b0; b1; b2; b3]) <$> utf8_chars s3
                  else None
              end
          end
      end
  end.

(** [str::from_utf8] *)
Definition is_utf8 (s : bytes) : bool := bool_decide (is_Some (utf8_chars s)).

(** [char::is_whitespace]: the Unicode property White_Space *)
Definition is_whitespace (c : Z) : bool :=
  ((9 <=? c) && (c <=? 13)) || (c =? 32) || (c =? 133) || (c =? 160) || (c =? 5760) ||
  ((8192 <=? c) && (c <=? 8202)) || (c =? 8232) || (c =? 8233) || (c =? 8239) || (c =? 8287) || (c =? 12288).

(** [s.chars()] *)
Definition chars (s : str) : list Z := from_option (λ l, l.*1) [] (utf8_chars s).

Fixpoint drop_whitespace (l : list (Z * bytes)) : list (Z * bytes) :=
  match l with
  | (c, b) :: l' => if is_whitespace c then drop_whitespace l' else l
  | [] => []
  end.

(** [str::trim] *)
Definition trim (s : str) : str :=
  match utf8_chars s with
  | Some l => concat (rev (drop_whitespace (rev (drop_whitespace l)))).*2
  | None => s
  end.

(** * Slices and searches *)

Definition is_char_boundary (s : str) (i : nat) : bool :=
  bool_decide (i = length s) || match s !! i with Some b => negb (continuation b) | None => false end.

(** [&s[a..b]], [None] for the panic *)
Definition str_slice (s : str) (a b : nat) : option str :=
  if bool_decide (a ≤ b)%nat && is_char_boundary s a && is_char_boundary s b
  then Some (take (b - a) (drop a s)) else None.

Definition starts_with_byte (s : str) (b : Init.Byte.byte) : bool :=
  match s with x :: _ => bool_decide (x = b) | [] => false end.
Definition ends_with_byte (s : str) (b : Init.Byte.byte) : bool :=
  match last s with Some x => bool_decide (x = b) | None => false end.
Definition str_starts_with (s pat : str) : bool := bool_decide (take (length pat) s = pat).

(** [str::find] with a string *)
Fixpoint find_from (i : nat) (s pat : str) : option nat :=
  if str_starts_with s pat then Some i
  else match s with [] => None | _ :: s => find_from (S i) s pat end.
Definition str_find (s pat : str) : option nat := find_from 0 s pat.
Definition str_contains (s pat : str) : bool := bool_decide (is_Some (str_find s pat)).

(** [str::find] with an ASCII character *)
Fixpoint find_byte (s : str) (b : Init.Byte.byte) : option nat :=
  match s with
  | [] => None
  | x :: s => if bool_decide (x = b) then Some 0%nat else S <$> find_byte s b
  end.

(** * Splitting, joining, replacing *)

(** [str::split] with an ASCII character: at least one piece *)
Fixpoint split_byte (sep : Init.Byte.byte) (s : str) : str * list str :=
  match s with
  | [] => ([], [])
  | x :: s =>
      let '(p, ps) := split_byte sep s in
      if bool_decide (x = sep) then ([], p :: ps) else (x :: p, ps)
  end.
Definition str_split (sep : Init.Byte.byte) (s : str) : list str := let '(p, ps) := split_byte sep s in p :: ps.

(** [Vec<String>::str_join] *)
Fixpoint str_join (sep : str) (l : list str) : str :=
  match l with
  | [] => []
  | [x] => x
  | x :: l => x ++ sep ++ str_join sep l
  end.

(** [str::replace] of an ASCII character *)
Definition replace_byte (b : Init.Byte.byte) (by_ : str) (s : str) : str :=
  flat_map (λ x, if bool_decide (x = b) then by_ else [x]) s.

(** * Numbers *)

Definition digit_of (b : Init.Byte.byte) : option Z :=
  let x := byte.unsigned b in if (48 <=? x) && (x <=? 57) then Some (x - 48) else None.

Definition byte_of_digit (d : Z) : Init.Byte.byte := byte.of_Z (48 + d).

Fixpoint parse_digits (acc : Z) (s : str) : option Z :=
  match s with
  | [] => Some acc
  | b :: s => match digit_of b with Some d => parse_digits (acc * 10 + d) s | None => None end
  end.

(** [str::parse] of an unsigned integer with the given largest value: a plus sign may come
    first, and there must be digits. *)
Definition parse_uint (max : Z) (s : str) : option Z :=
  let digits := match s with b :: s' => if bool_decide (b = plus_sign) then s' else s | [] => s end in
  match digits with
  | [] => None
  | _ => match parse_digits 0 digits with Some n => if n <=? max then Some n else None | None => None end
  end.

Definition u32_max : Z := 4294967295.
Definition u16_max : Z := 65535.
Definition parse_u32 : str → option Z := parse_uint u32_max.

(** [to_string] of an unsigned integer *)
Fixpoint show_digits (fuel : nat) (n : Z) : str :=
  match fuel with
  | O => []
  | S fuel => if n <? 10 then [byte_of_digit n] else show_digits fuel (n / 10) ++ [byte_of_digit (n mod 10)]
  end.
Definition show_uint (n : Z) : str := show_digits (S (Z.to_nat (Z.log2 n))) n.

(** * Lemmas *)

(** ** Numbers *)

Lemma digit_of_byte d : 0 ≤ d < 10 → digit_of (byte_of_digit d) = Some d.
Proof.
  intros Hd. unfold digit_of, byte_of_digit. rewrite byte.unsigned_of_Z. unfold byte.wrap.
  rewrite Z.mod_small by (simpl; lia).
  destruct (Z.leb_spec 48 (48 + d)); [|lia]. destruct (Z.leb_spec (48 + d) 57); [|lia]. simpl. f_equal. lia.
Qed.

Lemma parse_digits_app acc s t :
  parse_digits acc (s ++ t) = match parse_digits acc s with Some n => parse_digits n t | None => None end.
Proof.
  revert acc. induction s as [|b s IH]; intros acc; simpl; [done|]. destruct (digit_of b); [apply IH|done].
Qed.

Lemma log2_div10 n : 10 ≤ n → (Z.to_nat (Z.log2 (n / 10)) < Z.to_nat (Z.log2 n))%nat.
Proof.
  intros Hn. assert (Z.log2 (n / 10) < Z.log2 n); [|pose proof (Z.log2_nonneg (n / 10)); lia].
  assert (1 ≤ n / 10) by (apply Z.div_le_lower_bound; lia).
  apply Z.log2_lt_pow2; [lia|]. apply Z.div_lt_upper_bound; [lia|].
  pose proof (Z.log2_spec n ltac:(lia)) as [_ Hu]. rewrite Z.pow_succ_r in Hu by apply Z.log2_nonneg. lia.
Qed.

Lemma show_digits_spec fuel n :
  0 ≤ n → (Z.to_nat (Z.log2 n) < fuel)%nat →
  parse_digits 0 (show_digits fuel n) = Some n ∧ Forall (λ b, is_Some (digit_of b)) (show_digits fuel n) ∧
  show_digits fuel n ≠ [].
Proof.
  revert n. induction fuel as [|fuel IH]; intros n Hn Hf; [lia|]. simpl.
  destruct (Z.ltb_spec n 10) as [Hs|Hs].
  - simpl. rewrite digit_of_byte by lia. simpl. split_and!; [done| |done].
    constructor; [rewrite digit_of_byte by lia; eauto|done].
  - pose proof (log2_div10 n ltac:(lia)) as Hl. pose proof (Z.div_pos n 10 Hn ltac:(lia)) as Hp.
    destruct (IH (n / 10)) as (H1 & H2 & H3); [done|lia|].
    pose proof (Z.mod_pos_bound n 10 ltac:(lia)) as Hm. split_and!.
    + rewrite parse_digits_app, H1. simpl. rewrite digit_of_byte by lia. f_equal.
      pose proof (Z.div_mod n 10 ltac:(lia)). lia.
    + apply Forall_app. split; [done|]. constructor; [rewrite digit_of_byte by lia; eauto|done].
    + by destruct (show_digits fuel (n / 10)).
Qed.

Lemma show_uint_digits n : 0 ≤ n → Forall (λ b, is_Some (digit_of b)) (show_uint n).
Proof. intros Hn. by apply show_digits_spec; [|lia]. Qed.

Lemma parse_show_uint max n : 0 ≤ n ≤ max → parse_uint max (show_uint n) = Some n.
Proof.
  intros Hn. destruct (show_digits_spec (S (Z.to_nat (Z.log2 n))) n) as (H1 & H2 & H3); [lia..|].
  unfold parse_uint, show_uint in *. destruct (show_digits _ n) as [|b s]; [done|].
  assert (b ≠ plus_sign) as Hb.
  { intros ->. apply Forall_inv in H2. vm_compute in H2. by destruct H2. }
  rewrite bool_decide_eq_false_2 by done. rewrite H1.
  destruct (Z.leb_spec n max); [done|lia].
Qed.

Lemma parse_digits_nonneg acc s n : 0 ≤ acc → parse_digits acc s = Some n → 0 ≤ n.
Proof.
  revert acc. induction s as [|b s IH]; intros acc Ha; simpl; [by intros [= <-]|].
  destruct (digit_of b) as [d|] eqn:Hd; [|done]. apply IH. unfold digit_of in Hd.
  destruct (Z.leb_spec 48 (byte.unsigned b)), (Z.leb_spec (byte.unsigned b) 57); simplify_eq/=. lia.
Qed.

Lemma parse_uint_range max s n : parse_uint max s = Some n → 0 ≤ n ≤ max.
Proof.
  unfold parse_uint. intros Hp.
  set (d := match s with b :: s' => if bool_decide (b = plus_sign) then s' else s | [] => s end) in *.
  assert (∃ n', parse_digits 0 d = Some n' ∧ n' ≤ max ∧ n' = n) as (n' & H1 & H2 & ->).
  { destruct d; [done|]. destruct (parse_digits 0 _) as [n'|]; [|done].
    destruct (Z.leb_spec n' max); [|done]. simplify_eq. eauto. }
  apply parse_digits_nonneg in H1; lia.
Qed.

(** A separator that is not a digit does not occur in a number. *)
Lemma show_uint_no n b : 0 ≤ n → digit_of b = None → b ∉ show_uint n.
Proof.
  intros Hn Hb Hin. pose proof (show_uint_digits n Hn) as Hf. rewrite Forall_forall in Hf.
  apply Hf in Hin. rewrite Hb in Hin. by destruct Hin.
Qed.

(** ** Splitting *)

Lemma split_byte_no sep s : sep ∉ s → split_byte sep s = (s, []).
Proof.
  induction s as [|x s IH]; intros Hn; simpl; [done|]. apply not_elem_of_cons in Hn as [Hx Hs].
  rewrite IH by done. by rewrite bool_decide_eq_false_2.
Qed.

Lemma split_no sep s : sep ∉ s → str_split sep s = [s].
Proof. intros Hn. unfold str_split. by rewrite split_byte_no. Qed.

Lemma split_app sep s t : sep ∉ s → str_split sep (s ++ sep :: t) = s :: str_split sep t.
Proof.
  induction s as [|x s IH]; intros Hn.
  - unfold str_split. simpl. destruct (split_byte sep t). by rewrite bool_decide_eq_true_2.
  - apply not_elem_of_cons in Hn as [Hx Hs]. specialize (IH Hs). unfold str_split in *. simpl.
    destruct (split_byte sep (s ++ sep :: t)) as [p ps]. rewrite bool_decide_eq_false_2 by done.
    destruct (split_byte sep t). by simplify_eq.
Qed.

Lemma split_pieces sep s : Forall (λ p, sep ∉ p) (str_split sep s).
Proof.
  unfold str_split. induction s as [|x s IH]; simpl; [constructor; [apply not_elem_of_nil|done]|].
  destruct (split_byte sep s) as [p ps]. case_bool_decide; [constructor; [apply not_elem_of_nil|done]|].
  apply Forall_cons in IH as [Hp Hps]. constructor; [|done]. by apply not_elem_of_cons.
Qed.

Lemma split_subset sep s p b : p ∈ str_split sep s → b ∈ p → b ∈ s.
Proof.
  unfold str_split. revert p. induction s as [|x s IH]; simpl; intros q Hq Hb.
  - apply list_elem_of_singleton in Hq as ->. done.
  - destruct (split_byte sep s) as [p ps]. case_bool_decide.
    + apply elem_of_cons in Hq as [->|Hq]; [by apply elem_of_nil in Hb|]. right. by eapply IH.
    + apply elem_of_cons in Hq as [->|Hq].
      * apply elem_of_cons in Hb as [->|Hb]; [left|right]. eapply IH; [left|done].
      * right. eapply IH; [by right|done].
Qed.

Lemma split_join sep s : str_join [sep] (str_split sep s) = s.
Proof.
  unfold str_split. induction s as [|x s IH]; simpl; [done|].
  destruct (split_byte sep s) as [p ps]. simpl in *. case_bool_decide; simpl.
  - rewrite IH. congruence.
  - destruct ps; simpl in *; congruence.
Qed.

(** ** Characters *)

(** An ASCII byte of a string is one of its characters. *)
Lemma utf8_chars_ascii s l b : utf8_chars s = Some l → b ∈ s → byte.unsigned b < 128 → byte.unsigned b ∈ l.*1.
Proof.
  assert (∀ b, continuation b = true → 128 ≤ byte.unsigned b) as Hc.
  { intros x. unfold continuation. destruct (Z.leb_spec 128 (byte.unsigned x)); [done|done]. }
  assert (∀ a b, second_byte a b = true → 128 ≤ byte.unsigned b) as H2.
  { intros x y. unfold second_byte.
    repeat case_match; rewrite andb_true_iff, !Z.leb_le; lia. }
  assert (∃ n, (length s < n)%nat) as [n Hn] by (exists (S (length s)); lia).
  revert s l Hn. induction n as [|n IH]; intros s l Hn Hl Hin Hb; [lia|].
  destruct s as [|b0 s0]; [by apply elem_of_nil in Hin|]. cbn [utf8_chars] in Hl.
  destruct (Z.ltb_spec (byte.unsigned b0) 128).
  { destruct (utf8_chars s0) as [l0|] eqn:Hrest; [|done]. simplify_eq/=. apply elem_of_cons in Hin as [->|Hin]; [left|].
    right. eapply (IH s0); simpl in *; [lia|done..]. }
  destruct (Z.ltb_spec (byte.unsigned b0) 194); [done|].
  destruct s0 as [|b1 s1]; [done|].
  destruct (Z.ltb_spec (byte.unsigned b0) 224).
  { destruct (continuation b1) eqn:C1; [|done]. apply Hc in C1.
    destruct (utf8_chars s1) as [l0|] eqn:Hrest; [|done]. simplify_eq/=.
    apply elem_of_cons in Hin as [->|Hin]; [lia|]. apply elem_of_cons in Hin as [->|Hin]; [lia|].
    right. eapply (IH s1); simpl in *; [lia|done..]. }
  destruct s1 as [|b2 s2]; [done|].
  destruct (Z.ltb_spec (byte.unsigned b0) 240).
  { destruct (second_byte b0 b1) eqn:C1; [|done]. destruct (continuation b2) eqn:C2; [|done]. apply Hc in C2. apply H2 in C1.
    destruct (utf8_chars s2) as [l0|] eqn:Hrest; [|done]. simplify_eq/=.
    do 3 (apply elem_of_cons in Hin as [->|Hin]; [lia|]). right. eapply (IH s2); simpl in *; [lia|done..]. }
  destruct s2 as [|b3 s3]; [done|].
  destruct (byte.unsigned b0 <? 245); [|done]. destruct (second_byte b0 b1) eqn:C1; [|done].
  destruct (continuation b2) eqn:C2; [|done]. destruct (continuation b3) eqn:C3; [|done].
  apply H2 in C1. apply Hc in C2, C3. simpl in Hl.
  destruct (utf8_chars s3) as [l0|] eqn:Hrest; [|done]. simplify_eq/=.
  do 4 (apply elem_of_cons in Hin as [->|Hin]; [lia|]). right. eapply (IH s3); simpl in *; [lia|done..].
Qed.

(** The first character of a string, whatever comes after it. *)
Lemma utf8_chars_inv s l :
  utf8_chars s = Some l →
  s = [] ∧ l = [] ∨
  ∃ c b s' l', s = b ++ s' ∧ b ≠ [] ∧ utf8_chars s' = Some l' ∧ l = (c, b) :: l' ∧
    ∀ t lt, utf8_chars (s' ++ t) = Some lt → utf8_chars (s ++ t) = Some ((c, b) :: lt).
Proof.
  destruct s as [|b0 s0]; cbn [utf8_chars]; [intros [= <-]; by left|]. intros Hl. right.
  destruct (byte.unsigned b0 <? 128) eqn:H0.
  { destruct (utf8_chars s0) as [l0|] eqn:Hr; [|done]. simplify_eq/=. exists (byte.unsigned b0), [b0], s0, l0.
    split_and!; [done..|]. intros t lt Ht. by rewrite H0, Ht. }
  destruct (byte.unsigned b0 <? 194) eqn:H1; [done|]. destruct s0 as [|b1 s1]; [done|].
  destruct (byte.unsigned b0 <? 224) eqn:H2.
  { destruct (continuation b1) eqn:C1; [|done]. destruct (utf8_chars s1) as [l0|] eqn:Hr; [|done]. simplify_eq/=.
    eexists _, [b0; b1], s1, l0. split_and!; [done..|]. intros t lt Ht. by rewrite H0, H1, H2, C1, Ht. }
  destruct s1 as [|b2 s2]; [done|]. destruct (byte.unsigned b0 <? 240) eqn:H3.
  { destruct (second_byte b0 b1 && continuation b2) eqn:C1; [|done]. destruct (utf8_chars s2) as [l0|] eqn:Hr; [|done]. simplify_eq/=.
    eexists _, [b0; b1; b2], s2, l0. split_and!; [done..|]. intros t lt Ht. by rewrite H0, H1, H2, H3, C1, Ht. }
  destruct s2 as [|b3 s3]; [done|]. destruct ((byte.unsigned b0 <? 245) && _ && _ && _) eqn:C1; [|done].
  destruct (utf8_chars s3) as [l0|] eqn:Hr; [|done]. simplify_eq/=.
  eexists _, [b0; b1; b2; b3], s3, l0. split_and!; [done..|]. intros t lt Ht. by rewrite H0, H1, H2, H3, C1, Ht.
Qed.

Lemma utf8_chars_app s t l lt :
  utf8_chars s = Some l → utf8_chars t = Some lt → utf8_chars (s ++ t) = Some (l ++ lt).
Proof.
  intros Hs Ht. revert s Hs. induction l as [|[c b] l IH]; intros s Hs.
  all: destruct (utf8_chars_inv _ _ Hs) as [[-> ?]|(c' & b' & s' & l' & -> & _ & Hs' & ? & Hk)]; [done|]; simplify_eq/=; try done.
  by apply Hk, IH.
Qed.

(** The characters are the string. *)
Lemma utf8_chars_concat s l : utf8_chars s = Some l → concat l.*2 = s.
Proof.
  revert s. induction l as [|[c b] l IH]; intros s Hs.
  all: destruct (utf8_chars_inv _ _ Hs) as [[-> ?]|(c' & b' & s' & l' & -> & _ & Hs' & ? & Hk)]; simplify_eq/=; try done.
  by rewrite (IH s').
Qed.
