(* ===== verification/NetAddr.v ===== *)
(** [std::net::SocketAddr]: its two forms, its parser and its text, as the addresses of
    tor_provider.rs, censorship_circumvention.rs and the control port use them. *)

From Stdlib Require Import ZArith Lia.
From S2P Require Import Prelude Str.
From stdpp Require Import prelude strings list.
From coqutil Require Import Byte.

Open Scope nat_scope.

Inductive SocketAddr :=
| SA_V4 (octets : list Z) (port : Z)
| SA_V6 (segments : list Z) (port : Z) (scope_id : Z).

#[export] Instance socket_addr_eq_dec : EqDecision SocketAddr.
Proof. solve_decision. Defined.

Definition sa_port (a : SocketAddr) : Z := match a with SA_V4 _ port | SA_V6 _ port _ => port end.

(** * Parsing *)

(** [char::to_digit] *)
Definition to_digit (radix : Z) (b : Init.Byte.byte) : option Z :=
  let x := byte.unsigned b in
  let d := if (48 <=? x)%Z && (x <=? 57)%Z then (x - 48)%Z
           else if (97 <=? x)%Z && (x <=? 122)%Z then (x - 87)%Z
           else if (65 <=? x)%Z && (x <=? 90)%Z then (x - 55)%Z else radix in
  if (d <? radix)%Z then Some d else None.

Fixpoint take_digits (radix : Z) (s : str) : list Z * str :=
  match s with
  | [] => ([], [])
  | b :: s' =>
      match to_digit radix b with
      | Some d => let '(ds, rest) := take_digits radix s' in (d :: ds, rest)
      | None => ([], s)
      end
  end.

(** The private [Parser] of [core::net]: what is read and the rest of the input. *)
Definition parser (A : Type) : Type := str → option (A * str).

Definition read_given_char (c : Init.Byte.byte) : parser unit := λ s,
  match s with b :: s => if bool_decide (b = c) then Some (tt, s) else None | [] => None end.

Definition read_number (radix : Z) (max_digits : option nat) (max : Z) (allow_zero_prefix : bool) : parser Z := λ s,
  let '(ds, rest) := take_digits radix s in
  let n := fold_left (λ acc d, acc * radix + d)%Z ds 0%Z in
  if match max_digits with Some m => m <? length ds | None => false end then None
  else if bool_decide (ds = []) then None
  else if negb allow_zero_prefix && bool_decide (head ds = Some 0%Z) && (1 <? length ds) then None
  else if (n <=? max)%Z then Some (n, rest) else None.

(** [read_separator] *)
Definition read_separator {A} (sep : Init.Byte.byte) (index : nat) (inner : parser A) : parser A := λ s,
  match index with
  | O => inner s
  | S _ => match read_given_char sep s with Some (_, s) => inner s | None => None end
  end.

Definition colon : Init.Byte.byte := Byte.x3a.
Definition percent : Init.Byte.byte := Byte.x25.
Definition lbracket : Init.Byte.byte := Byte.x5b.
Definition rbracket : Init.Byte.byte := Byte.x5d.

Fixpoint read_octets (n index : nat) : parser (list Z) := λ s,
  match n with
  | O => Some ([], s)
  | S n =>
      match read_separator dot index (read_number 10 (Some 3) 255 false) s with
      | None => None
      | Some (x, s) => match read_octets n (S index) s with Some (xs, s) => Some (x :: xs, s) | None => None end
      end
  end.
Definition read_ipv4_addr : parser (list Z) := read_octets 4 0.

(** [read_groups]: the groups read, whether an IPv4 address ended them, the rest *)
Fixpoint read_groups (limit index : nat) (s : str) : list Z * bool * str :=
  match limit with
  | O => ([], false, s)
  | S limit' =>
      match (match limit' with
             | O => None
             | S _ => read_separator colon index read_ipv4_addr s
             end) with
      | Some ([a; b; c; d], s) => ([(a * 256 + b)%Z; (c * 256 + d)%Z], true, s)
      | _ =>
          match read_separator colon index (read_number 16 (Some 4) 65535 true) s with
          | Some (g, s) => let '(gs, v4, s) := read_groups limit' (S index) s in (g :: gs, v4, s)
          | None => ([], false, s)
          end
      end
  end.

Definition read_ipv6_addr : parser (list Z) := λ s,
  let '(head, head_ipv4, s) := read_groups 8 0 s in
  if bool_decide (length head = 8) then Some (head, s)
  else if head_ipv4 then None
  else match read_given_char colon s with
  | None => None
  | Some (_, s) =>
      match read_given_char colon s with
      | None => None
      | Some (_, s) =>
          let '(tail, _, s) := read_groups (8 - (length head + 1)) 0 s in
          Some (head ++ replicate (8 - length head - length tail) 0%Z ++ tail, s)
      end
  end.

Definition read_port : parser Z := λ s,
  match read_given_char colon s with Some (_, s) => read_number 10 None u16_max true s | None => None end.

Definition read_scope_id (s : str) : Z * str :=
  match
    match read_given_char percent s with Some (_, s) => read_number 10 None u32_max true s | None => None end
  with Some r => r | None => (0%Z, s) end.

Definition read_socket_addr_v4 : parser SocketAddr := λ s,
  match read_ipv4_addr s with
  | Some (ip, s) => match read_port s with Some (port, s) => Some (SA_V4 ip port, s) | None => None end
  | None => None
  end.

Definition read_socket_addr_v6 : parser SocketAddr := λ s,
  match read_given_char lbracket s with
  | None => None
  | Some (_, s) =>
      match read_ipv6_addr s with
      | None => None
      | Some (ip, s) =>
          let '(scope_id, s) := read_scope_id s in
          match read_given_char rbracket s with
          | None => None
          | Some (_, s) => match read_port s with Some (port, s) => Some (SA_V6 ip port scope_id, s) | None => None end
          end
      end
  end.

(** [SocketAddr::from_str] *)
Definition socket_addr_from_str (s : str) : option SocketAddr :=
  match (match read_socket_addr_v4 s with Some r => Some r | None => read_socket_addr_v6 s end) with
  | Some (a, []) => Some a
  | _ => None
  end.

(** * Printing *)

Definition hex_digit (d : Z) : Init.Byte.byte := byte.of_Z (if d <? 10 then 48 + d else 87 + d)%Z.
Fixpoint show_hex_digits (fuel : nat) (n : Z) : str :=
  match fuel with
  | O => []
  | S fuel => if (n <? 16)%Z then [hex_digit n] else show_hex_digits fuel (n / 16) ++ [hex_digit (n mod 16)]
  end.
Definition show_hex (n : Z) : str := show_hex_digits 4 n.

Definition show_ipv4 (octets : list Z) : str := str_join [dot] (show_uint <$> octets).

(** The first longest run of zero segments: its start and length. *)
Fixpoint zero_run (l : list Z) : nat := match l with x :: l => if (x =? 0)%Z then S (zero_run l) else 0 | [] => 0 end.
Fixpoint longest_zeroes (start : nat) (l : list Z) : nat * nat :=
  match l with
  | [] => (start, 0)
  | _ :: l' =>
      let here := zero_run l in
      let '(s, n) := longest_zeroes (S start) l' in
      if n <=? here then (start, here) else (s, n)
  end.

Definition show_segments (segments : list Z) : str :=
  let '(start, n) := longest_zeroes 0 segments in
  if 1 <? n then
    str_join [colon] (show_hex <$> take start segments) ++ lit "::" ++
    str_join [colon] (show_hex <$> drop (start + n) segments)
  else str_join [colon] (show_hex <$> segments).
Definition show_ipv6 (segments : list Z) : str :=
  match bool_decide (take 6 segments = [0; 0; 0; 0; 0; 65535]%Z), drop 6 segments with
  | true, [ab; cd] => lit "::ffff:" ++ show_ipv4 [(ab / 256)%Z; (ab mod 256)%Z; (cd / 256)%Z; (cd mod 256)%Z]
  | _, _ => show_segments segments
  end.

(** [impl Display for SocketAddr] *)
Definition socket_addr_to_string (a : SocketAddr) : str :=
  match a with
  | SA_V4 octets port => show_ipv4 octets ++ [colon] ++ show_uint port
  | SA_V6 segments port scope_id =>
      if (scope_id =? 0)%Z then [lbracket] ++ show_ipv6 segments ++ [rbracket; colon] ++ show_uint port
      else [lbracket] ++ show_ipv6 segments ++ [percent] ++ show_uint scope_id ++ [rbracket; colon] ++ show_uint port
  end.

(** Both on a few addresses. *)
Example socket_addr_v4_text :
  socket_addr_to_string (SA_V4 [127; 0; 0; 1]%Z 9051) = lit "127.0.0.1:9051" ∧
  socket_addr_from_str (lit "127.0.0.1:9051") = Some (SA_V4 [127; 0; 0; 1]%Z 9051) ∧
  socket_addr_from_str (lit "127.0.0.01:9051") = None ∧ socket_addr_from_str (lit "256.0.0.1:1") = None.
Proof. vm_compute. done. Qed.

Example socket_addr_v6_text :
  socket_addr_to_string (SA_V6 [8193; 3512; 0; 0; 1; 0; 0; 1]%Z 443 0) = lit "[2001:db8::1:0:0:1]:443" ∧
  socket_addr_from_str (lit "[2001:db8::1:0:0:1]:443") = Some (SA_V6 [8193; 3512; 0; 0; 1; 0; 0; 1]%Z 443 0) ∧
  socket_addr_from_str (lit "[::ffff:1.2.3.4%7]:80") = Some (SA_V6 [0; 0; 0; 0; 0; 65535; 258; 772]%Z 80 7) ∧
  socket_addr_to_string (SA_V6 [0; 0; 0; 0; 0; 0; 0; 0]%Z 1 0) = lit "[::]:1".
Proof. vm_compute. done. Qed.
