(* ===== verification/NetAddrTheory.v ===== *)
(** Socket addresses are read back from their text, in both families: the numbers, the
    compression of zero segments, embedded IPv4 addresses, scopes and ports. *)

From Stdlib Require Import ZArith Lia.
From S2P Require Import Prelude Str NetAddr.
From stdpp Require Import prelude strings list.
From coqutil Require Import Byte.

Open Scope nat_scope.

(** * Numbers *)

(** The digits of a text, and where reading digits stops. *)
Definition digits_of (radix : Z) (s : str) (ds : list Z) : Prop := Forall2 (λ b d, to_digit radix b = Some d) s ds.
Definition stops (radix : Z) (t : str) : Prop := match t with [] => True | b :: _ => to_digit radix b = None end.
Definition value (radix : Z) (ds : list Z) : Z := fold_left (λ acc d, acc * radix + d)%Z ds 0%Z.

Lemma take_digits_app radix s ds t : digits_of radix s ds → stops radix t → take_digits radix (s ++ t) = (ds, t).
Proof.
  intros Hd Ht. induction Hd as [|b d s ds Hb Hd IH]; simpl.
  - destruct t as [|b t]; [done|]. simpl in *. by rewrite Ht.
  - by rewrite Hb, IH.
Qed.

(** Writing a number in a radix, most significant digit first. *)
Section radix.
Context (radix : Z) (digit : Z → Init.Byte.byte) (Hradix : (2 ≤ radix)%Z)
  (Hdigit : ∀ d, (0 ≤ d < radix)%Z → to_digit radix (digit d) = Some d).

Fixpoint show_radix (fuel : nat) (n : Z) : str :=
  match fuel with
  | O => []
  | S fuel => if (n <? radix)%Z then [digit n] else show_radix fuel (n / radix) ++ [digit (n mod radix)]
  end.

Lemma show_radix_spec fuel n :
  (0 ≤ n < radix ^ Z.of_nat fuel)%Z → 0 < fuel →
  ∃ ds, digits_of radix (show_radix fuel n) ds ∧ value radix ds = n ∧ ds ≠ [] ∧
    (head ds = Some 0%Z → ds = [0%Z]) ∧ ∀ k, 0 < k → (n < radix ^ Z.of_nat k)%Z → length ds ≤ k.
Proof.
  revert n. induction fuel as [|fuel IH]; intros n Hn Hf; [lia|]. simpl.
  destruct (Z.ltb_spec n radix) as [Hs|Hs].
  { exists [n]. split_and!; [constructor; [apply Hdigit; lia|constructor]|unfold value; simpl; lia|done|by intros [= ->]|].
    intros k Hk _. simpl. lia. }
  assert (0 < n / radix)%Z by (apply Z.div_str_pos; lia).
  pose proof (Z.mod_pos_bound n radix ltac:(lia)) as Hm. pose proof (Z.div_mod n radix ltac:(lia)) as Hdm.
  rewrite Nat2Z.inj_succ, Z.pow_succ_r in Hn by lia.
  assert (n / radix < radix ^ Z.of_nat fuel)%Z by (apply Z.div_lt_upper_bound; lia).
  destruct fuel as [|fuel]; [simpl in *; lia|].
  destruct (IH (n / radix)%Z) as (ds & Hds & Hv & Hne & Hh & Hl); [lia|lia|].
  exists (ds ++ [(n mod radix)%Z]). split_and!.
  - apply Forall2_app; [done|]. constructor; [apply Hdigit; lia|constructor].
  - unfold value in *. rewrite fold_left_app. simpl. rewrite Hv. lia.
  - by destruct ds.
  - destruct ds as [|d ds]; [done|]. simpl. intros [= ->]. specialize (Hh eq_refl). simplify_eq/=.
    unfold value in Hv. simpl in Hv. lia.
  - intros k Hk Hlt. rewrite length_app. simpl. destruct k as [|[|k]]; [lia| |].
    + rewrite Z.pow_1_r in Hlt. lia.
    + assert (length ds ≤ S k); [|lia]. apply Hl; [lia|]. apply Z.div_lt_upper_bound; [lia|].
      rewrite (Nat2Z.inj_succ (S k)), Z.pow_succ_r in Hlt by lia. done.
Qed.

(** What [read_number] does with a written number. *)
Lemma read_number_show fuel n md max az t :
  (0 ≤ n < radix ^ Z.of_nat fuel)%Z → 0 < fuel → (n ≤ max)%Z → stops radix t →
  match md with Some m => 0 < m ∧ (n < radix ^ Z.of_nat m)%Z | None => True end →
  read_number radix md max az (show_radix fuel n ++ t) = Some (n, t).
Proof.
  intros Hn Hf Hmax Ht Hmd. destruct (show_radix_spec fuel n Hn Hf) as (ds & Hds & Hv & Hne & Hh & Hl).
  unfold read_number. rewrite (take_digits_app _ _ ds) by done. cbv zeta. fold (value radix ds). rewrite Hv.
  assert (match md with Some m => m <? length ds | None => false end = false) as ->.
  { destruct md as [m|]; [|done]. apply Nat.ltb_ge, Hl; apply Hmd. }
  rewrite bool_decide_eq_false_2 by done.
  assert (bool_decide (head ds = Some 0%Z) && (1 <? length ds) = false) as Hz.
  { case_bool_decide as Hd; [|done]. by rewrite (Hh Hd). }
  rewrite <- andb_assoc, Hz, andb_false_r. destruct (Z.leb_spec n max); [done|lia].
Qed.
End radix.

Lemma show_digits_radix fuel n : show_digits fuel n = show_radix 10 byte_of_digit fuel n.
Proof. revert n. induction fuel as [|fuel IH]; intros n; simpl; [done|]. by rewrite IH. Qed.
Lemma show_hex_radix n : show_hex n = show_radix 16 hex_digit 4 n.
Proof. reflexivity. Qed.

Lemma to_digit_dec d : (0 ≤ d < 10)%Z → to_digit 10 (byte_of_digit d) = Some d.
Proof.
  intros Hd. assert (d = 0 ∨ d = 1 ∨ d = 2 ∨ d = 3 ∨ d = 4 ∨ d = 5 ∨ d = 6 ∨ d = 7 ∨ d = 8 ∨ d = 9)%Z as Hc by lia.
  destruct_or! Hc; subst d; reflexivity.
Qed.
Lemma to_digit_hex d : (0 ≤ d < 16)%Z → to_digit 16 (hex_digit d) = Some d.
Proof.
  intros Hd. assert (d = 0 ∨ d = 1 ∨ d = 2 ∨ d = 3 ∨ d = 4 ∨ d = 5 ∨ d = 6 ∨ d = 7 ∨ d = 8 ∨ d = 9 ∨ d = 10 ∨ d = 11 ∨ d = 12 ∨ d = 13 ∨ d = 14 ∨ d = 15)%Z as Hc by lia.
  destruct_or! Hc; subst d; reflexivity.
Qed.

Lemma log2_fuel n : (0 ≤ n)%Z → (0 ≤ n < 10 ^ Z.of_nat (S (Z.to_nat (Z.log2 n))))%Z.
Proof.
  intros Hn. split; [done|]. pose proof (Z.log2_nonneg n). rewrite Nat2Z.inj_succ, Z2Nat.id by done.
  apply Z.lt_le_trans with (2 ^ Z.succ (Z.log2 n))%Z; [|apply Z.pow_le_mono_l; lia].
  destruct (decide (n = 0)%Z) as [->|]; [done|]. apply Z.log2_spec. lia.
Qed.

Lemma read_decimal n md max az t :
  (0 ≤ n ≤ max)%Z → stops 10 t → match md with Some m => 0 < m ∧ (n < 10 ^ Z.of_nat m)%Z | None => True end →
  read_number 10 md max az (show_uint n ++ t) = Some (n, t).
Proof.
  intros Hn Ht Hmd. unfold show_uint. rewrite show_digits_radix.
  apply read_number_show; [lia|apply to_digit_dec|apply log2_fuel; lia|lia|lia|done|done].
Qed.

Lemma read_hex n t : (0 ≤ n ≤ 65535)%Z → stops 16 t → read_number 16 (Some 4) 65535 true (show_hex n ++ t) = Some (n, t).
Proof.
  intros Hn Ht. rewrite show_hex_radix. apply read_number_show; [lia|apply to_digit_hex|simpl; lia|lia|lia|done|simpl; lia].
Qed.

(** * IPv4 *)

(** All pieces, each after the separator. *)
Definition sep_all (sep : Init.Byte.byte) (l : list str) : str := concat ((λ x, sep :: x) <$> l).

Lemma sep_all_cons sep x l : sep_all sep (x :: l) = sep :: x ++ sep_all sep l.
Proof. reflexivity. Qed.

Lemma join_sep_all sep x l : str_join [sep] (x :: l) = x ++ sep_all sep l.
Proof.
  revert x. induction l as [|y l IH]; intros x; [symmetry; apply app_nil_r|].
  change (str_join [sep] (x :: y :: l)) with (x ++ [sep] ++ str_join [sep] (y :: l)). rewrite IH. done.
Qed.

Lemma stops_sep_all radix sep l t :
  to_digit radix sep = None → stops radix t → stops radix (sep_all sep l ++ t).
Proof. by destruct l. Qed.

Definition is_octet (x : Z) : Prop := (0 ≤ x ≤ 255)%Z.
Definition is_u16 (x : Z) : Prop := (0 ≤ x ≤ 65535)%Z.

Lemma read_octet x t : is_octet x → stops 10 t → read_number 10 (Some 3) 255 false (show_uint x ++ t) = Some (x, t).
Proof. intros Hx Ht. unfold is_octet in Hx. apply read_decimal; [lia|done|simpl; lia]. Qed.

Lemma read_octets_rest xs k t :
  Forall is_octet xs → stops 10 t → read_octets (length xs) (S k) (sep_all dot (show_uint <$> xs) ++ t) = Some (xs, t).
Proof.
  intros Hx Ht. revert k. induction Hx as [|x xs Hx Hxs IH]; intros k; [done|]. simpl.
  unfold sep_all. simpl. rewrite <- app_assoc. fold (sep_all dot (show_uint <$> xs)).
  rewrite read_octet; [|done|by apply stops_sep_all]. by rewrite IH.
Qed.

Lemma read_show_ipv4 octets t :
  length octets = 4 → Forall is_octet octets → stops 10 t → read_ipv4_addr (show_ipv4 octets ++ t) = Some (octets, t).
Proof.
  intros Hl Ho Ht. destruct octets as [|x xs]; [done|]. apply Forall_cons in Ho as [Hx Hxs]. injection Hl as Hl.
  unfold show_ipv4, read_ipv4_addr. rewrite fmap_cons, join_sep_all, <- app_assoc, <- Hl. cbn [read_octets read_separator].
  rewrite read_octet; [|done|by apply stops_sep_all]. rewrite read_octets_rest; done.
Qed.

Lemma read_char c t : read_given_char c (c :: t) = Some (tt, t).
Proof. unfold read_given_char. by rewrite bool_decide_eq_true_2. Qed.

(** * IPv6 *)

Lemma read_number_stops radix md max az t : stops radix t → read_number radix md max az t = None.
Proof.
  intros Ht. unfold read_number. pose proof (take_digits_app radix [] [] t) as Hd. simpl in Hd.
  rewrite Hd by (done || constructor). by destruct md.
Qed.

Lemma to_digit_weaken b : to_digit 16 b = None → to_digit 10 b = None.
Proof. by destruct b. Qed.
Lemma stops_weaken t : stops 16 t → stops 10 t.
Proof. destruct t; [done|]. apply to_digit_weaken. Qed.

Definition no_dot (t : str) : Prop := head t ≠ Some dot.

(** Reading decimal digits off hexadecimal ones does not lead to a dot. *)
Lemma hex_no_dot h ds t : digits_of 16 h ds → stops 16 t → no_dot t → no_dot (take_digits 10 (h ++ t)).2.
Proof.
  intros Hh Ht Hd. induction Hh as [|b d h ds Hb Hh IH].
  - pose proof (take_digits_app 10 [] [] t) as Ht'. simpl in *.
    rewrite Ht' by (apply stops_weaken in Ht; done || constructor). done.
  - simpl. destruct (to_digit 10 b); [by destruct (take_digits 10 (h ++ t))|]. intros [= ->]. done.
Qed.

Lemma read_number_rest radix md max az s n rest :
  read_number radix md max az s = Some (n, rest) → rest = (take_digits radix s).2.
Proof. unfold read_number. destruct (take_digits radix s). repeat case_match; naive_solver. Qed.

Lemma read_ipv4_hex g t : is_u16 g → stops 16 t → no_dot t → read_ipv4_addr (show_hex g ++ t) = None.
Proof.
  intros Hg Ht Hd. unfold is_u16 in Hg.
  destruct (show_radix_spec 16 hex_digit ltac:(lia) to_digit_hex 4 g) as (ds & Hds & _); [simpl; lia|lia|].
  pose proof (hex_no_dot _ _ _ Hds Ht Hd) as Hn. rewrite show_hex_radix.
  unfold read_ipv4_addr. cbn [read_octets read_separator].
  destruct (read_number 10 _ _ _ (show_radix _ _ _ _ ++ t)) as [[x rest]|] eqn:Hr; [|done].
  apply read_number_rest in Hr. rewrite <- Hr in Hn.
  assert (read_given_char dot rest = None) as ->; [|done]. unfold read_given_char.
  destruct rest as [|b rest]; [done|]. case_bool_decide; [|done]. by subst.
Qed.

(** After the groups: no digit, no dot, and no group after a colon. *)
Record closes (t : str) : Prop := {
  cl_stops : stops 16 t;
  cl_dot : no_dot t;
  cl_colon t' : t = colon :: t' → stops 16 t';
}.

Definition sep_at (index : nat) : str := match index with O => [] | S _ => [colon] end.

Lemma read_ipv4_stops t : stops 16 t → read_ipv4_addr t = None.
Proof.
  intros Ht. unfold read_ipv4_addr. cbn [read_octets read_separator]. by rewrite read_number_stops by by apply stops_weaken.
Qed.

Lemma read_groups_end limit index t : closes t → read_groups limit index t = ([], false, t).
Proof.
  intros [Hs Hd Hc]. destruct limit as [|limit]; [done|]. simpl.
  assert (∀ {A} (p : parser A), (∀ t', stops 16 t' → p t' = None) → read_separator colon index p t = None) as Hsep.
  { intros A p Hp. destruct index; simpl; [by apply Hp|]. destruct t as [|b t]; [done|]. simpl.
    case_bool_decide; [|done]. subst. by apply Hp, Hc. }
  rewrite (Hsep _ (read_number 16 (Some 4) 65535 true)) by (intros; by apply read_number_stops).
  destruct limit; [done|]. by rewrite (Hsep _ read_ipv4_addr) by apply read_ipv4_stops.
Qed.

Lemma read_groups_step limit index g t :
  is_u16 g → stops 16 t → no_dot t →
  read_groups (S limit) index (sep_at index ++ show_hex g ++ t) =
    let '(gs, v4, s) := read_groups limit (S index) t in (g :: gs, v4, s).
Proof.
  intros Hg Ht Hd. cbn [read_groups].
  assert (∀ {A} (p : parser A), read_separator colon index p (sep_at index ++ show_hex g ++ t) = p (show_hex g ++ t)) as Hsep
    by by destruct index.
  rewrite !Hsep, read_ipv4_hex, read_hex by done. by destruct limit.
Qed.

Lemma read_groups_rest gs limit k t :
  Forall is_u16 gs → length gs ≤ limit → closes t →
  read_groups limit (S k) (sep_all colon (show_hex <$> gs) ++ t) = (gs, false, t).
Proof.
  intros Hg. revert limit k. induction Hg as [|g gs Hg Hgs IH]; intros limit k Hl Ht; [by apply read_groups_end|].
  destruct limit as [|limit]; [simpl in Hl; lia|]. simpl in Hl.
  rewrite fmap_cons, sep_all_cons, <- app_comm_cons, <- app_assoc.
  pose proof (read_groups_step limit (S k) g (sep_all colon (show_hex <$> gs) ++ t)) as Hstep.
  cbn [sep_at app] in Hstep. rewrite Hstep, IH; [done|lia|done|done|apply stops_sep_all; [done|apply Ht]|]. destruct gs; [apply Ht|done].
Qed.

Lemma read_groups_show gs limit t :
  Forall is_u16 gs → length gs ≤ limit → closes t →
  read_groups limit 0 (str_join [colon] (show_hex <$> gs) ++ t) = (gs, false, t).
Proof.
  intros Hg Hl Ht. destruct gs as [|g gs]; [by apply read_groups_end|]. apply Forall_cons in Hg as [Hg Hgs].
  destruct limit as [|limit]; [simpl in Hl; lia|]. simpl in Hl. rewrite fmap_cons, join_sep_all, <- app_assoc.
  pose proof (read_groups_step limit 0 g (sep_all colon (show_hex <$> gs) ++ t)) as Hstep. cbn [sep_at app] in Hstep.
  rewrite Hstep, read_groups_rest; [done|done|lia|done|done|apply stops_sep_all; [done|apply Ht]|].
  destruct gs; [apply Ht|done].
Qed.

(** The run of zeroes that is compressed is one. *)
Lemma zero_run_spec l : take (zero_run l) l = replicate (zero_run l) 0%Z ∧ zero_run l ≤ length l.
Proof.
  induction l as [|x l [IH1 IH2]]; [done|]. simpl. destruct (Z.eqb_spec x 0); [subst; simpl|simpl; split; [done|lia]].
  split; [by f_equal|lia].
Qed.

Lemma longest_zeroes_spec k l s n :
  longest_zeroes k l = (s, n) →
  k ≤ s ∧ take n (drop (s - k) l) = replicate n 0%Z ∧ (s - k) + n ≤ length l.
Proof.
  revert k s n. induction l as [|x l IH]; intros k s n.
  { simpl. intros [= <- <-]. rewrite Nat.sub_diag. done. }
  cbn [longest_zeroes]. destruct (longest_zeroes (S k) l) as [s' n'] eqn:Hl. destruct (IH _ _ _ Hl) as (H1 & H2 & H3).
  destruct (Nat.leb_spec n' (zero_run (x :: l))); intros [= <- <-].
  - rewrite Nat.sub_diag. destruct (zero_run_spec (x :: l)) as [H4 H5]. done.
  - replace (s' - k) with (S (s' - S k)) by lia. simpl. split_and!; [lia|done|lia].
Qed.

Lemma compressed l s n :
  longest_zeroes 0 l = (s, n) →
  l = take s l ++ replicate n 0%Z ++ drop (s + n) l ∧ s + n ≤ length l.
Proof.
  intros Hl. destruct (longest_zeroes_spec _ _ _ _ Hl) as (_ & H1 & H2). rewrite Nat.sub_0_r in *. split; [|done].
  rewrite <- H1, <- drop_drop, take_drop, take_drop. done.
Qed.

Lemma closes_colons t : closes (colon :: colon :: t).
Proof. split; [done|done|by intros t' [= <-]]. Qed.

Lemma read_compressed head tail n t :
  Forall is_u16 head → Forall is_u16 tail → length head + n + length tail = 8 → 1 < n → closes t →
  read_ipv6_addr (str_join [colon] (show_hex <$> head) ++ lit "::" ++ str_join [colon] (show_hex <$> tail) ++ t) =
    Some (head ++ replicate n 0%Z ++ tail, t).
Proof.
  intros Hh Ht Hl Hn Hc. unfold read_ipv6_addr.
  rewrite read_groups_show; [|done|lia|apply closes_colons]. rewrite bool_decide_eq_false_2 by lia.
  change (lit "::") with [colon; colon]. cbn [app]. rewrite !read_char.
  rewrite read_groups_show; [|done|lia|done]. by replace (8 - length head - length tail) with n by lia.
Qed.

(** An IPv4 address mapped to IPv6 is printed with its octets. *)
Lemma read_mapped ab cd t :
  is_u16 ab → is_u16 cd → closes t →
  read_ipv6_addr (lit "::ffff:" ++ show_ipv4 [(ab / 256)%Z; (ab mod 256)%Z; (cd / 256)%Z; (cd mod 256)%Z] ++ t) =
    Some ([0; 0; 0; 0; 0; 65535; ab; cd]%Z, t).
Proof.
  intros Hab Hcd Ht. unfold is_u16 in *.
  assert (∀ x, (0 ≤ x ≤ 65535)%Z → is_octet (x / 256) ∧ is_octet (x mod 256) ∧ (x / 256 * 256 + x mod 256 = x)%Z) as Ho.
  { intros x Hx. unfold is_octet. pose proof (Z.mod_pos_bound x 256 ltac:(lia)). pose proof (Z.div_mod x 256 ltac:(lia)). lia. }
  destruct (Ho ab Hab) as (H1 & H2 & H3), (Ho cd Hcd) as (H4 & H5 & H6). set (octets := [_; _; _; _]).
  change (lit "::ffff:") with ([colon; colon] ++ show_hex 65535 ++ [colon]). rewrite <- !app_assoc.
  unfold read_ipv6_addr. rewrite read_groups_end by apply closes_colons. cbn [app length].
  rewrite bool_decide_eq_false_2, !read_char by done. cbn [length Nat.add Nat.sub].
  pose proof (read_groups_step 6 0 65535 (colon :: show_ipv4 octets ++ t)) as Hstep. cbn [sep_at app] in Hstep.
  rewrite Hstep; [|unfold is_u16; lia|done|done].
  assert (read_groups 6 1 (colon :: show_ipv4 octets ++ t) = ([ab; cd], true, t)) as ->; [|done].
  cbn [read_groups read_separator]. rewrite read_char.
  rewrite read_show_ipv4; [|done|repeat (constructor; [done|]); constructor|by apply stops_weaken, Ht]. unfold octets. by rewrite H3, H6.
Qed.

Lemma read_show_segments segments t :
  length segments = 8 → Forall is_u16 segments → closes t → read_ipv6_addr (show_segments segments ++ t) = Some (segments, t).
Proof.
  intros Hl Hs Ht. unfold show_segments.
  destruct (longest_zeroes 0 segments) as [start n] eqn:Hz. destruct (compressed _ _ _ Hz) as [Heq Hle].
  destruct (Nat.ltb_spec 1 n).
  - rewrite <- !app_assoc. rewrite read_compressed with (n := n); try done.
    + by rewrite <- Heq.
    + by apply Forall_take.
    + by apply Forall_drop.
    + rewrite length_take, length_drop. lia.
  - unfold read_ipv6_addr. rewrite read_groups_show; [|done|lia|done]. by rewrite bool_decide_eq_true_2.
Qed.

Lemma read_show_ipv6 segments t :
  length segments = 8 → Forall is_u16 segments → closes t → read_ipv6_addr (show_ipv6 segments ++ t) = Some (segments, t).
Proof.
  intros Hl Hs Ht. unfold show_ipv6. case_bool_decide as Heq; [|by apply read_show_segments].
  pose proof (take_drop 6 segments) as Htd. rewrite Heq in Htd.
  destruct (drop 6 segments) as [|ab [|cd [|]]] eqn:Hd; try by apply read_show_segments.
  rewrite <- Htd in Hs. rewrite <- (assoc_L (++)), read_mapped; [by rewrite <- Htd| | |done];
    rewrite Forall_forall in Hs; apply Hs; set_solver.
Qed.

(** * Socket addresses *)

Definition socket_addr_ok (a : SocketAddr) : Prop :=
  match a with
  | SA_V4 octets port => length octets = 4 ∧ Forall is_octet octets ∧ (0 ≤ port ≤ u16_max)%Z
  | SA_V6 segments port scope_id =>
      length segments = 8 ∧ Forall is_u16 segments ∧ (0 ≤ port ≤ u16_max)%Z ∧ (0 ≤ scope_id ≤ u32_max)%Z
  end.

Lemma read_show_port port : (0 ≤ port ≤ u16_max)%Z → read_port (colon :: show_uint port) = Some (port, []).
Proof.
  intros Hp. unfold read_port. rewrite read_char.
  rewrite <- (app_nil_r (show_uint port)). by apply read_decimal.
Qed.

Lemma socket_addr_roundtrip a : socket_addr_ok a → socket_addr_from_str (socket_addr_to_string a) = Some a.
Proof.
  destruct a as [octets port|segments port scope_id]; unfold socket_addr_from_str.
  - intros (Hl & Ho & Hp). unfold socket_addr_to_string, read_socket_addr_v4.
    rewrite read_show_ipv4 by done. cbn [app]. by rewrite read_show_port.
  - intros (Hl & Hs & Hp & Hsc).
    assert (∀ s, read_socket_addr_v4 ([lbracket] ++ s) = None) as Hv4.
    { intros s. unfold read_socket_addr_v4. by rewrite read_ipv4_stops. }
    unfold socket_addr_to_string. destruct (Z.eqb_spec scope_id 0) as [->|Hz]; rewrite Hv4; clear Hv4;
      unfold read_socket_addr_v6; cbn [app]; rewrite read_char;
      rewrite read_show_ipv6 by (done || by split).
    + unfold read_scope_id. change (read_given_char percent (rbracket :: ?s)) with (@None (unit * str)).
      cbv iota beta. by rewrite read_char, read_show_port.
    + unfold read_scope_id. rewrite read_char.
      rewrite read_decimal by (done || lia). by rewrite read_char, read_show_port.
Qed.

(** * What the parser returns is an address *)

Lemma read_number_range radix md max az s n t :
  (0 ≤ radix)%Z → read_number radix md max az s = Some (n, t) → (0 ≤ n ≤ max)%Z.
Proof.
  intros Hr. unfold read_number. destruct (take_digits radix s) as [ds rest] eqn:Hd. fold (value radix ds).
  assert (Forall (λ d, 0 ≤ d)%Z ds) as Hds.
  { revert ds rest Hd. induction s as [|b s IH]; simpl; intros ds rest; [intros [= <- <-]; constructor|].
    destruct (to_digit radix b) as [d|] eqn:Hb; [|intros [= <- <-]; constructor].
    destruct (take_digits radix s) as [ds' rest'] eqn:Hs. intros [= <- <-]. constructor; [|by eapply IH].
    unfold to_digit in Hb. repeat case_match; simplify_eq; lia. }
  assert (∀ acc, (0 ≤ acc)%Z → (0 ≤ fold_left (λ acc d, acc * radix + d) ds acc)%Z) as Hv.
  { clear Hd. induction Hds as [|d ds Hd Hds IH]; intros acc Ha; simpl; [done|]. apply IH. nia. }
  specialize (Hv 0%Z ltac:(lia)). fold (value radix ds) in Hv.
  destruct (Z.leb_spec (value radix ds) max); repeat case_match; try done; intros [= <- <-]; lia.
Qed.

Lemma read_separator_Some {A} sep index (p : parser A) s r :
  read_separator sep index p s = Some r → ∃ s', p s' = Some r.
Proof.
  unfold read_separator. destruct index; [eauto|]. destruct (read_given_char sep s) as [[[] s']|]; [eauto|done].
Qed.

Lemma read_octets_ok n index s xs t :
  read_octets n index s = Some (xs, t) → length xs = n ∧ Forall is_octet xs.
Proof.
  revert index s xs t. induction n as [|n IH]; intros index s xs t; simpl; [by intros [= <- <-]|].
  destruct (read_separator dot index _ s) as [[x s1]|] eqn:Hx; [|done].
  destruct (read_octets n (S index) s1) as [[ys s2]|] eqn:Hy; [|done]. intros [= <- <-].
  apply read_separator_Some in Hx as [s' Hx]. apply read_number_range in Hx; [|lia].
  destruct (IH _ _ _ _ Hy) as [<- ?]. split; [done|]. by constructor.
Qed.

Lemma read_groups_ok limit index s gs v4 t :
  read_groups limit index s = (gs, v4, t) → length gs ≤ limit ∧ Forall is_u16 gs.
Proof.
  revert index s gs v4 t. induction limit as [|limit IH]; intros index s gs v4 t; simpl; [intros [= <- _ _]; done|].
  assert (∀ r, (match r with
    | Some (g, s) => let '(gs, v4, s) := read_groups limit (S index) s in (g :: gs, v4, s)
    | None => ([], false, s) end) = (gs, v4, t) →
    r = read_separator colon index (read_number 16 (Some 4) 65535 true) s →
    length gs ≤ S limit ∧ Forall is_u16 gs) as Hgroup.
  { intros [[g s1]|] Hr Hs; [|simplify_eq; split; [simpl; lia|constructor]]. symmetry in Hs.
    apply read_separator_Some in Hs as [s' Hs].
    apply read_number_range in Hs; [|lia]. destruct (read_groups limit (S index) s1) as [[gs1 v1] t1] eqn:Hg.
    simplify_eq. destruct (IH _ _ _ _ _ Hg) as [H1 H2]. split; [simpl; lia|]. by constructor. }
  destruct limit as [|limit']; [by intros H; eapply Hgroup|].
  destruct (read_separator colon index read_ipv4_addr s) as [[octets s1]|] eqn:Hv4; [|by intros H; eapply Hgroup].
  apply read_separator_Some in Hv4 as [s' Hv4]. apply read_octets_ok in Hv4 as [Hl Ho].
  destruct octets as [|a [|b [|c [|d [|]]]]]; try done. intros [= <- <- <-]. split; [simpl; lia|].
  rewrite !Forall_cons in Ho. unfold is_octet, is_u16 in *. repeat constructor; unfold is_u16; lia.
Qed.

Lemma read_ipv6_ok s segments t : read_ipv6_addr s = Some (segments, t) → length segments = 8 ∧ Forall is_u16 segments.
Proof.
  unfold read_ipv6_addr. destruct (read_groups 8 0 s) as [[hd hv4] s1] eqn:Hh. apply read_groups_ok in Hh as [Hl Hf].
  case_bool_decide; [by intros [= <- <-]|]. destruct hv4; [done|].
  destruct (read_given_char colon s1) as [[[] s2]|]; [|done].
  destruct (read_given_char colon s2) as [[[] s3]|]; [|done].
  destruct (read_groups _ 0 s3) as [[tl tv4] s4] eqn:Ht. apply read_groups_ok in Ht as [Hl' Hf']. intros [= <- <-].
  rewrite !length_app, length_replicate. split; [lia|]. rewrite !Forall_app. split_and!; [done| |done].
  apply Forall_replicate. unfold is_u16. lia.
Qed.

Lemma read_port_range s p t : read_port s = Some (p, t) → (0 ≤ p ≤ u16_max)%Z.
Proof.
  unfold read_port. destruct (read_given_char colon s) as [[[] s1]|]; [|done]. apply read_number_range. lia.
Qed.

Lemma socket_addr_from_str_ok s a : socket_addr_from_str s = Some a → socket_addr_ok a.
Proof.
  unfold socket_addr_from_str. destruct (read_socket_addr_v4 s) as [r|] eqn:H4.
  - unfold read_socket_addr_v4 in H4. destruct (read_ipv4_addr s) as [[ip s1]|] eqn:Hip; [|done].
    destruct (read_port s1) as [[p s2]|] eqn:Hp; [|done]. simplify_eq. destruct s2; [|done]. intros [= <-].
    apply read_octets_ok in Hip as [??]. apply read_port_range in Hp. done.
  - destruct (read_socket_addr_v6 s) as [[a' [|]]|] eqn:H6; [|done..]. intros [= <-]. unfold read_socket_addr_v6 in H6.
    destruct (read_given_char lbracket s) as [[[] s1]|]; [|done].
    destruct (read_ipv6_addr s1) as [[ip s2]|] eqn:Hip; [|done].
    destruct (read_scope_id s2) as [scope s3] eqn:Hsc.
    destruct (read_given_char rbracket s3) as [[[] s4]|]; [|done].
    destruct (read_port s4) as [[p s5]|] eqn:Hp; [|done]. simplify_eq.
    apply read_ipv6_ok in Hip as [??]. apply read_port_range in Hp. split_and!; try done; try apply Hp.
    all: unfold read_scope_id in Hsc; destruct (read_given_char percent s2) as [[[] s']|];
      [destruct (read_number 10 None u32_max true s') as [[sc s'']|] eqn:Hn; [apply read_number_range in Hn; [|lia]|]|];
      simplify_eq; try lia; done.
Qed.
