(* ===== verification/Regexes.v ===== *)
(** The crate regex as the tor code uses it: a parameter, with what the crate documents of
    the expressions that occur in the sources as laws.

    In multi-line mode [(?m)] the anchors match at the ends of the lines of a string, so an
    expression [(?m)^..$] matches a string when it matches one of its lines. *)

From Stdlib Require Import ZArith Lia.
From S2P Require Import Prelude Str.
From stdpp Require Import prelude strings list.
From coqutil Require Import Byte.

Open Scope nat_scope.

(** [re_captures] gives the named groups that took part in the leftmost match. *)
Class RegexLib : Type := {
  Regex : Type;
  re_new : string → option Regex;
  re_is_match : Regex → str → bool;
  re_captures : Regex → str → option (list (string * str));
  re_captures_iter : Regex → str → list (list (string * str));
}.

(** [caps.name(..)] *)
Fixpoint group (caps : list (string * str)) (name : string) : option str :=
  match caps with
  | [] => None
  | (n, v) :: caps => if String.eqb n name then Some v else group caps name
  end.

(** The first line that matches. *)
Definition line_captures (m : str → option (list (string * str))) (s : str) : option (list (string * str)) :=
  head (omap m (str_split newline s)).

(** * The expressions *)

(** ** legacy_tor_control_stream.rs *)

Definition single_line_pattern : string := "^\d\d\d-.*".
Definition multi_line_pattern : string := "^\d\d\d+.*".
Definition end_reply_pattern : string := "^\d\d\d .*".

(** Three digits at the start of a string, and the character after them. *)
Definition three_digits (digit : Z → bool) (next : option Z) (s : str) : bool :=
  match chars s with
  | c1 :: c2 :: c3 :: rest =>
      digit c1 && digit c2 && digit c3 &&
      match next with
      | None => true
      | Some c => match rest with c4 :: _ => (c4 =? c)%Z | [] => false end
      end
  | _ => false
  end.

(** [\d] is the Unicode class of decimal digits, [+] repeats what is before it, and nothing
    has to match up to the end of the line. *)
Class ReplyRegexLaws (RL : RegexLib) : Type := {
  re_digit : Z → bool;
  re_digit_ascii c : (c < 128)%Z → re_digit c = ((48 <=? c) && (c <=? 57))%Z;
  re_single : ∃ r, re_new single_line_pattern = Some r ∧
    ∀ s, re_is_match r s = three_digits re_digit (Some 45%Z) s;
  re_multi : ∃ r, re_new multi_line_pattern = Some r ∧
    ∀ s, re_is_match r s = three_digits re_digit None s;
  re_end : ∃ r, re_new end_reply_pattern = Some r ∧
    ∀ s, re_is_match r s = three_digits re_digit (Some 32%Z) s;
}.

(** ** tor_provider.rs *)

Definition onion_service_pattern : string := "(?m)^(?P<service_id>[a-z2-7]{56})\.onion:(?P<port>[1-9][0-9]{0,4})$".
Definition domain_pattern : string := "(?m)^(?P<domain>.*):(?P<port>[1-9][0-9]{0,4})$".

Definition in_range (lo hi : Z) (b : Init.Byte.byte) : bool := ((lo <=? byte.unsigned b) && (byte.unsigned b <=? hi))%Z.
Definition is_base32_char (b : Init.Byte.byte) : bool := in_range 97 122 b || in_range 50 55 b.
Definition is_dec_digit (b : Init.Byte.byte) : bool := in_range 48 57 b.

(** [[1-9][0-9]{0,4}] *)
Definition is_port (s : str) : bool :=
  match s with b :: s' => in_range 49 57 b && forallb is_dec_digit s' && (length s' <=? 4) | [] => false end.

Definition onion_line (l : str) : option (list (string * str)) :=
  let service_id := take 56 l in
  let rest := drop 56 l in
  let port := drop 7 rest in
  if bool_decide (length service_id = 56) && forallb is_base32_char service_id &&
     bool_decide (take 7 rest = lit ".onion:") && is_port port
  then Some [("service_id", service_id); ("port", port)] else None.

(** The last colon of a line. *)
Fixpoint split_last_colon (l : str) : option (str * str) :=
  match l with
  | [] => None
  | b :: l' =>
      match split_last_colon l' with
      | Some (x, y) => Some (b :: x, y)
      | None => if bool_decide (b = Byte.x3a) then Some ([], l') else None
      end
  end.

Definition domain_line (l : str) : option (list (string * str)) :=
  match split_last_colon l with
  | Some (domain, port) => if is_port port then Some [("domain", domain); ("port", port)] else None
  | None => None
  end.

Class AddrRegexLaws (RL : RegexLib) : Type := {
  re_onion : ∃ r, re_new onion_service_pattern = Some r ∧ ∀ s, re_captures r s = line_captures onion_line s;
  re_domain : ∃ r, re_new domain_pattern = Some r ∧ ∀ s, re_captures r s = line_captures domain_line s;
}.

(** ** censorship_circumvention.rs *)

Definition transport_pattern : string := "(?m)^[a-zA-Z_][a-zA-Z0-9_]*$".
Definition fingerprint_pattern : string := "(?m)^[0-9a-fA-F]{40}$".
Definition bridge_option_pattern : string := "(?m)^(?<key>[^=]+)=(?<value>.*)$".

Definition is_ident_start (b : Init.Byte.byte) : bool :=
  in_range 97 122 b || in_range 65 90 b || (byte.unsigned b =? 95)%Z.
Definition is_identifier (s : str) : bool :=
  match s with b :: s => is_ident_start b && forallb (λ c, is_ident_start c || is_dec_digit c) s | [] => false end.
Definition is_hex40 (s : str) : bool :=
  bool_decide (length s = 40) && forallb (λ c, is_dec_digit c || in_range 97 102 c || in_range 65 70 c) s.

(** [key=value] cut at the first equals sign *)
Definition key_value (s : str) : option (str * str) :=
  match find_byte s equals with
  | Some (S i) => Some (take (S i) s, drop (S (S i)) s)
  | _ => None
  end.

Class BridgeRegexLaws (RL : RegexLib) : Type := {
  re_transport : ∃ r, re_new transport_pattern = Some r ∧
    ∀ s, re_is_match r s = existsb is_identifier (str_split newline s);
  re_fingerprint : ∃ r, re_new fingerprint_pattern = Some r ∧
    ∀ s, re_is_match r s = existsb is_hex40 (str_split newline s);
  (** [[^=]] matches a line end too, so this is about a single line *)
  re_option : ∃ r, re_new bridge_option_pattern = Some r ∧
    ∀ s, newline ∉ s → re_captures r s =
      match key_value s with Some (k, v) => Some [("key", k); ("value", v)] | None => None end;
}.

(** ** legacy_tor_controller.rs *)

Definition status_event_pattern : string :=
  "^STATUS_CLIENT (?P<severity>NOTICE|WARN|ERR) (?P<action>[A-Za-z]+)".
Definition hs_desc_pattern : string :=
  "HS_DESC (?P<action>REQUESTED|UPLOAD|RECEIVED|UPLOADED|IGNORE|FAILED|CREATED) (?P<hsaddress>[a-z2-7]{56})".
(** An expression with quotes in it, put together from its bytes. *)
Definition status_event_argument_pattern : string :=
  String.string_of_list_byte (lit "(?P<key>[A-Z]+)=(?P<value>[A-Za-z0-9_]+|" ++ [dquote] ++ lit "[^" ++ [dquote] ++ lit "]+" ++ [dquote] ++ lit ")").

Class EventRegexLaws (RL : RegexLib) : Type := {
  re_status : ∃ r, re_new status_event_pattern = Some r ∧
    ∀ s caps, re_captures r s = Some caps →
      is_Some (group caps "severity") ∧ is_Some (group caps "action");
  (** a value in quotes has characters between them *)
  re_argument : ∃ r, re_new status_event_argument_pattern = Some r ∧
    ∀ s, Forall (λ caps, is_Some (group caps "key") ∧
      ∃ v, group caps "value" = Some v ∧ v ≠ [dquote] ∧
      (starts_with_byte v dquote = true → is_char_boundary v 1 = true)) (re_captures_iter r s);
  re_hs_desc : ∃ r, re_new hs_desc_pattern = Some r ∧
    ∀ s caps, re_captures r s = Some caps →
      is_Some (group caps "action") ∧
      ∃ a, group caps "hsaddress" = Some a ∧ length a = 56 ∧ forallb is_base32_char a = true;
}.
