(* ===== verification/HonkSession.v ===== *)
(** The Honk-RPC session (honk_rpc.rs, bottom half): the state of [Session<RW>]
    and all of its methods.

    The stream is the class [Stream]: [Read::read], [Write::write], [Write::flush]
    and the clock.  Loops of the source take fuel; [HonkRead.v] and [HonkWrite.v]
    prove how much is enough. *)

From Stdlib Require Import ZArith Lia.
From S2P Require Import Prelude Bson HonkWire HonkSize VecDeque.
From stdpp Require Import prelude strings list.
From coqutil Require Import Byte.

Open Scope nat_scope.

(** * The environment of a session *)

Inductive io_result (A : Type) := IoOk (a : A) | IoErr (kind : ErrorKind).
Arguments IoOk {A} a.
Arguments IoErr {A} kind.

(** [RW: Read + Write], with [Instant::now()].  [rw_read n] returns the bytes that
    a read into a buffer of [n] bytes puts there. *)
Class Stream (RW : Type) : Type := {
  rw_read : nat → RW → io_result bytes * RW;
  rw_write : bytes → RW → io_result nat * RW;
  rw_flush : RW → io_result unit * RW;
  rw_now : RW → Instant * RW;
}.

(** What [std::io] documents of a stream: a read fills at most the buffer, a write
    accepts at most the buffer.  [sent] is what the peer will be given, [received]
    what the stream has delivered. *)
Class StreamLaws (RW : Type) `{Stream RW} : Type := {
  sent : RW → bytes;
  received : RW → bytes;
  read_ok n st bs st' :
    rw_read n st = (IoOk bs, st') → length bs ≤ n ∧ received st' = received st ++ bs;
  read_err n st k st' : rw_read n st = (IoErr k, st') → received st' = received st;
  read_sent n st : sent (rw_read n st).2 = sent st;
  now_sent st : sent (rw_now st).2 = sent st;
  now_received st : received (rw_now st).2 = received st;
  write_ok b st n st' :
    rw_write b st = (IoOk n, st') → n ≤ length b ∧ sent st' = sent st ++ take n b;
  write_err b st k st' : rw_write b st = (IoErr k, st') → sent st' = sent st;
  write_received b st : received (rw_write b st).2 = received st;
  flush_sent st : sent (rw_flush st).2 = sent st;
  flush_received st : received (rw_flush st).2 = received st;
}.

(** [kind == WouldBlock || kind == TimedOut] *)
Definition is_blocking (k : ErrorKind) : bool :=
  match k with WouldBlock | TimedOut => true | _ => false end.

(** [trait ApiSet].  [next_result] may panic; [api_update] defaults to a no-op and
    [next_result] to [None] in the source. *)
Class ApiSet `{BsonLib} (A : Type) : Type := {
  namespace : A → string;
  exec_function :
    A → string → Z → Document → option RequestCookie →
    option (result ErrorCode (option Bson)) * A;
  api_update : A → A;
  next_result : A → outcome (option (RequestCookie * result ErrorCode (option Bson)) * A);
}.

(** [enum Response] *)
Inductive Response `{BsonLib} :=
| RespPending (cookie : RequestCookie)
| RespSuccess (cookie : RequestCookie) (result : option Bson)
| RespError (cookie : RequestCookie) (error_code : ErrorCode).

(** * The state *)

Section session.
Context `{BL : BsonLib} {RW : Type} `{!Stream RW}.

Record Session := mkSession {
  stream : RW;
  message_write_buffer : VecDeque;
  remaining_byte_count : option nat;
  message_read_buffer : bytes;
  pending_sections : list Section_;
  inbound_requests : list RequestSection;
  inbound_responses : list Response;
  message_serialization_buffer : bytes;
  next_cookie : RequestCookie;
  outbound_sections : list Document;
  max_message_size : nat;
  max_wait_time : Duration;
  read_timestamp : Instant;
}.

Definition set_stream x s := let 'mkSession _ b c d e f g h i j k l m := s in mkSession x b c d e f g h i j k l m.
Definition set_write_buffer x s := let 'mkSession a _ c d e f g h i j k l m := s in mkSession a x c d e f g h i j k l m.
Definition set_remaining x s := let 'mkSession a b _ d e f g h i j k l m := s in mkSession a b x d e f g h i j k l m.
Definition set_read_buffer x s := let 'mkSession a b c _ e f g h i j k l m := s in mkSession a b c x e f g h i j k l m.
Definition set_pending x s := let 'mkSession a b c d _ f g h i j k l m := s in mkSession a b c d x f g h i j k l m.
Definition set_requests x s := let 'mkSession a b c d e _ g h i j k l m := s in mkSession a b c d e x g h i j k l m.
Definition set_responses x s := let 'mkSession a b c d e f _ h i j k l m := s in mkSession a b c d e f x h i j k l m.
Definition set_serialization x s := let 'mkSession a b c d e f g _ i j k l m := s in mkSession a b c d e f g x i j k l m.
Definition set_next_cookie x s := let 'mkSession a b c d e f g h _ j k l m := s in mkSession a b c d e f g h x j k l m.
Definition set_outbound x s := let 'mkSession a b c d e f g h i _ k l m := s in mkSession a b c d e f g h i x k l m.
Definition set_max_size x s := let 'mkSession a b c d e f g h i j _ l m := s in mkSession a b c d e f g h i j x l m.
Definition set_wait_time x s := let 'mkSession a b c d e f g h i j k _ m := s in mkSession a b c d e f g h i j k x m.
Definition set_timestamp x s := let 'mkSession a b c d e f g h i j k l _ := s in mkSession a b c d e f g h i j k l x.

Abbreviation S_ := (M Session HonkError).

(** [Session::new] *)
Definition session_new (st : RW) : Session :=
  let '(now, st) := rw_now st in
  {| stream := st;
     message_write_buffer := vd_with_reserve DEFAULT_MAX_MESSAGE_SIZE;
     remaining_byte_count := None;
     message_read_buffer := [];
     pending_sections := [];
     inbound_requests := [];
     inbound_responses := [];
     message_serialization_buffer := [];
     next_cookie := 0;
     outbound_sections := [];
     max_message_size := DEFAULT_MAX_MESSAGE_SIZE;
     max_wait_time := DEFAULT_MAX_WAIT_TIME;
     read_timestamp := now |}.

Definition set_max_message_size (max : Z) : S_ unit :=
  if (max <? Z.of_nat MIN_MESSAGE_SIZE)%Z then throw InvalidMaxMesageSize
  else modify (set_max_size (Z.to_nat max)).

Definition get_max_message_size (s : Session) : nat := max_message_size s.
Definition set_max_wait_time (d : Duration) (s : Session) : Session := set_wait_time d s.
Definition get_max_wait_time (s : Session) : Duration := max_wait_time s.
Definition into_stream (s : Session) : RW := stream s.

(** * Reading *)

(** The calls on the stream and the clock. *)
Definition do_read (n : nat) : S_ (io_result bytes) := λ s,
  let '(r, st) := rw_read n (stream s) in Done (set_stream st s, Ok r).
Definition do_now : S_ Instant := λ s,
  let '(t, st) := rw_now (stream s) in Done (set_stream st s, Ok t).
Definition do_write (b : bytes) : S_ (io_result nat) := λ s,
  let '(r, st) := rw_write b (stream s) in Done (set_stream st s, Ok r).
Definition do_flush : S_ (io_result unit) := λ s,
  let '(r, st) := rw_flush (stream s) in Done (set_stream st s, Ok r).

(** [stream_read]: the bytes read, none when the stream would block. *)
Definition stream_read (n : nat) : S_ bytes :=
  r ← do_read n;
  match r with
  | IoErr kind =>
      if is_blocking kind then
        now ← do_now;
        s ← get_state;
        if (Z.max 0 (now - read_timestamp s) >? max_wait_time s)%Z
        then throw (MessageReadTimedOut (max_wait_time s))
        else mret []
      else throw (ReaderReadFailed kind)
  | IoOk [] => throw (ReaderReadFailed UnexpectedEof)
  | IoOk bs =>
      now ← do_now;
      _ ← modify (set_timestamp now);
      mret bs
  end.

(** [(size[0] as i32) | (size[1] as i32) << 8 | ...] *)
Definition header_i32 (size : bytes) : Z :=
  let b i := byte.unsigned (nth i size Byte.x00) in
  wrap_i32 (Z.lor (Z.lor (Z.lor (b 0) (Z.shiftl (b 1) 8)) (Z.shiftl (b 2) 16)) (Z.shiftl (b 3) 24)).

Definition read_message_size : S_ unit :=
  s ← get_state;
  match remaining_byte_count s with
  | Some _ => mret tt
  | None =>
      _ ← assert (bool_decide (length (message_read_buffer s) < 4));
      buffer ← stream_read (4 - length (message_read_buffer s));
      match buffer with
      | [] => mret tt
      | _ =>
          _ ← modify (λ s, set_read_buffer (message_read_buffer s ++ buffer) s);
          s ← get_state;
          if decide (length (message_read_buffer s) = 4) then
            let size := header_i32 (message_read_buffer s) in
            if (size <=? 4)%Z then throw (BsonDocumentSizeTooSmall size)
            else if (Z.of_nat (max_message_size s) <? size)%Z then
              throw (BsonDocumentSizeTooLarge size (wrap_i32 (Z.of_nat (max_message_size s))))
            else modify (set_remaining (Some (Z.to_nat size - 4)))
          else mret tt
      end
  end.

(** [read_message] *)
Definition read_message : S_ (option Message) :=
  _ ← read_message_size;
  s ← get_state;
  match remaining_byte_count s with
  | Some remaining =>
      buffer ← stream_read remaining;
      match buffer with
      | [] => mret None
      | _ =>
          _ ← modify (λ s, set_read_buffer (message_read_buffer s ++ buffer) s);
          if decide (remaining = length buffer) then
            _ ← modify (set_remaining None);
            s ← get_state;
            let data := message_read_buffer s in
            _ ← modify (set_read_buffer []);
            bson ← lift_result (map_err BsonDocumentParseFailed (from_reader data));
            message ← lift_result (map_err MessageConversionFailed (message_try_from bson));
            mret (Some message)
          else
            _ ← modify (set_remaining (Some (remaining - length buffer)));
            mret None
      end
  | None => mret None
  end.

(** [read_sections]: the loop runs once per message received. *)
Fixpoint read_sections (fuel : nat) : S_ unit :=
  match fuel with
  | 0 => diverge
  | S fuel =>
      r ← catch read_message;
      match r with
      | Ok (Some message) =>
          _ ← modify (λ s, set_pending (pending_sections s ++ msg_sections message) s);
          read_sections fuel
      | Ok None => mret tt
      | Err ((MessageReadTimedOut _ | ReaderReadFailed _) as err) =>
          s ← get_state;
          match pending_sections s, inbound_responses s with
          | [], [] => throw err
          | _, _ => mret tt
          end
      | Err err => throw err
      end
  end.

(** One iteration of [process_sections]. *)
Definition process_section (section : Section_) : S_ unit :=
  match section with
  | SError error =>
      match es_cookie error with
      | Some cookie =>
          modify (λ s, set_responses (inbound_responses s ++ [RespError cookie (es_code error)]) s)
      | None => throw (UnknownErrorSectionReceived (es_code error))
      end
  | SRequest request =>
      modify (λ s, set_requests (inbound_requests s ++ [request]) s)
  | SResponse response =>
      match rs_state response with
      | Complete =>
          modify (λ s, set_responses
            (inbound_responses s ++ [RespSuccess (rs_cookie response) (rs_result response)]) s)
      | Pending =>
          modify (λ s, set_responses (inbound_responses s ++ [RespPending (rs_cookie response)]) s)
      end
  end.

(** [while let Some(section) = self.pending_sections.pop_front()]; nothing is
    pushed to the queue while it is drained. *)
Fixpoint process_queue (queue : list Section_) : S_ unit :=
  match queue with
  | [] => mret tt
  | section :: queue =>
      _ ← modify (set_pending queue);
      _ ← process_section section;
      process_queue queue
  end.

Definition process_sections : S_ unit :=
  s ← get_state; process_queue (pending_sections s).

(** * Writing *)

Definition push_outbound_section (section : Section_) : S_ unit :=
  s ← get_state;
  let max_section_size := max_message_size s - MIN_MESSAGE_SIZE in
  let d := section_into section in
  section_size ← lift_result (counted_size d);
  if bool_decide (section_size ≤ max_section_size)
  then modify (λ s, set_outbound (outbound_sections s ++ [d]) s)
  else throw (SectionTooLarge section_size max_section_size).

(** [serialize_messages_impl]: the fuel bounds the depth of the splitting. *)
Fixpoint serialize_messages_impl (fuel : nat) (message : Document) : S_ unit :=
  match fuel with
  | 0 => diverge
  | S fuel =>
      _ ← modify (set_serialization []);
      b ← lift_result (map_err BsonWriteFailed (to_writer message));
      _ ← modify (set_serialization b);
      s ← get_state;
      if bool_decide (max_message_size s < length b) then
        match get_array_mut message "sections" with
        | Err _ => panic
        | Ok sections =>
            _ ← assert (bool_decide (1 < length sections));
            let k := length sections / 2 in
            let right := doc [("honk_rpc", BInt32 HONK_RPC_VERSION);
                              ("sections", BArray (drop k sections))] in
            let left := doc_insert message "sections" (BArray (take k sections)) in
            _ ← serialize_messages_impl fuel left;
            serialize_messages_impl fuel right
        end
      else
        modify (λ s, set_serialization []
          (set_write_buffer (vd_append (message_write_buffer s) (message_serialization_buffer s)) s))
  end.

Definition serialize_messages : S_ unit :=
  s ← get_state;
  match outbound_sections s with
  | [] => mret tt
  | sections =>
      let message := message_into (mkMessage HONK_RPC_VERSION []) in
      _ ← modify (set_outbound []);
      let message := doc_insert message "sections" (BArray (map BDocument sections)) in
      serialize_messages_impl (length sections) message
  end.

(** The loop of [write_pending_data_impl]. *)
Fixpoint write_loop (fuel : nat) (pending_data : bytes) (bytes_written pending_bytes : nat) : S_ nat :=
  if decide (bytes_written = pending_bytes) then mret bytes_written
  else
    match fuel with
    | 0 => diverge
    | S fuel =>
        r ← do_write pending_data;
        match r with
        | IoErr kind =>
            if is_blocking kind then mret bytes_written else throw (WriterWriteFailed kind)
        | IoOk count =>
            _ ← assert (bool_decide (count ≤ length pending_data));
            write_loop fuel (drop count pending_data) (bytes_written + count) pending_bytes
        end
    end.

Definition write_pending_data_impl (fuel : nat) : S_ nat :=
  s ← get_state;
  let '(pending_data, empty) := vd_as_slices (message_write_buffer s) in
  _ ← assert (bool_decide (empty = []));
  write_loop fuel pending_data 0 (length pending_data).

Definition write_pending_data (fuel : nat) : S_ unit :=
  bytes_written ← write_pending_data_impl fuel;
  r ← do_flush;
  match r with
  | IoErr kind => throw (WriterWriteFailed kind)
  | IoOk _ =>
      modify (λ s, set_write_buffer
        (vd_make_contiguous (vd_drain_front (message_write_buffer s) bytes_written)) s)
  end.

(** * Client side *)

Definition client_call (namespace function : string) (version : Z) (arguments : Document) :
    S_ RequestCookie :=
  s ← get_state;
  let cookie := next_cookie s in
  _ ← modify (set_next_cookie (wrap_i64 (cookie + 1)));
  _ ← push_outbound_section
        (SRequest (mkRequestSection (Some cookie) namespace function version arguments));
  mret cookie.

Definition client_drain_responses (s : Session) : list Response * Session :=
  (inbound_responses s, set_responses [] s).

Definition client_next_response (s : Session) : option Response * Session :=
  match inbound_responses s with
  | [] => (None, s)
  | r :: rs => (Some r, set_responses rs s)
  end.

End session.

Arguments Session {BL} RW.

#[global] Arguments stream_read : simpl never.
#[global] Arguments read_message_size : simpl never.
#[global] Arguments read_message : simpl never.
#[global] Arguments process_section : simpl never.
#[global] Arguments push_outbound_section : simpl never.
#[global] Arguments serialize_messages : simpl never.
#[global] Arguments write_pending_data_impl : simpl never.
#[global] Arguments write_pending_data : simpl never.
#[global] Arguments client_call : simpl never.
#[global] Arguments header_i32 : simpl never.

(** Expose the fields of a session. *)
Ltac destruct_session s :=
  let str := fresh "str" in let wb := fresh "wb" in let rem := fresh "rem" in
  let buf := fresh "buf" in let pe := fresh "pe" in let iq := fresh "iq" in
  let ir := fresh "ir" in let ser := fresh "ser" in let nc := fresh "nc" in
  let ob := fresh "ob" in let mx := fresh "mx" in let wt := fresh "wt" in
  let ts := fresh "ts" in
  destruct s as [str wb rem buf pe iq ir ser nc ob mx wt ts]; simpl in *.

(** * Server side *)

Section apisets.
Context `{BL : BsonLib} {RW : Type} `{!Stream RW} {A : Type} `{!ApiSet A}.

(** [slice::binary_search_by] of the standard library on the namespaces. *)
Fixpoint binary_search (fuel : nat) (apisets : list A) (key : string) (left right : nat) :
    option nat :=
  match fuel with
  | 0 => None
  | S fuel =>
      if decide (left < right) then
        let mid := left + (right - left) / 2 in
        match apisets !! mid with
        | None => None
        | Some probe =>
            match String.compare (namespace probe) key with
            | Eq => Some mid
            | Lt => binary_search fuel apisets key (S mid) right
            | Gt => binary_search fuel apisets key left mid
            end
        end
      else None
  end.

Definition find_apiset (apisets : list A) (key : string) : option nat :=
  binary_search (S (length apisets)) apisets key 0 (length apisets).

Abbreviation SA := (M (Session RW * list A) HonkError).

Definition on_session {X} (m : M (Session RW) HonkError X) : SA X := λ '(s, apisets),
  match m s with
  | Done (s', r) => Done ((s', apisets), r)
  | Panicked => Panicked
  | OutOfFuel => OutOfFuel
  end.

(** [apiset.exec_function(..)] on the set at an index. *)
Definition exec_at (idx : nat) (request : RequestSection) :
    SA (option (result ErrorCode (option Bson))) := λ '(s, apisets),
  match apisets !! idx with
  | None => Panicked
  | Some apiset =>
      let '(r, apiset) := exec_function apiset (rq_function request) (rq_version request)
                            (rq_arguments request) (rq_cookie request) in
      Done ((s, <[idx := apiset]> apisets), Ok r)
  end.

Definition error_section (cookie : option RequestCookie) (code : ErrorCode) : Section_ :=
  SError (mkErrorSection cookie code None None).
Definition response_section (cookie : RequestCookie) (state : RequestState) (r : option Bson) : Section_ :=
  SResponse (mkResponseSection cookie state r).

(** One iteration of the loop over the inbound requests. *)
Definition handle_request (request : RequestSection) : SA unit :=
  sa ← get_state;
  match find_apiset sa.2 (rq_namespace request) with
  | Some idx =>
      r ← exec_at idx request;
      match r with
      | Some (Ok result) =>
          match rq_cookie request with
          | Some cookie => on_session (push_outbound_section (response_section cookie Complete result))
          | None => mret tt
          end
      | Some (Err error_code) =>
          on_session (push_outbound_section (error_section (rq_cookie request) error_code))
      | None =>
          match rq_cookie request with
          | Some cookie => on_session (push_outbound_section (response_section cookie Pending None))
          | None => mret tt
          end
      end
  | None =>
      on_session (push_outbound_section (error_section (rq_cookie request) RequestNamespaceInvalid))
  end.

Fixpoint handle_request_list (requests : list RequestSection) : SA unit :=
  match requests with
  | [] => mret tt
  | request :: requests => _ ← handle_request request; handle_request_list requests
  end.

(** [apiset.update()] / [apiset.next_result()] on the set at an index. *)
Definition update_at (idx : nat) : SA unit := λ '(s, apisets),
  Done ((s, alter api_update idx apisets), Ok tt).

Definition next_result_at (idx : nat) :
    SA (option (RequestCookie * result ErrorCode (option Bson))) := λ '(s, apisets),
  match apisets !! idx with
  | None => Panicked
  | Some apiset =>
      match next_result apiset with
      | Done (r, apiset) => Done ((s, <[idx := apiset]> apisets), Ok r)
      | Panicked => Panicked
      | OutOfFuel => OutOfFuel
      end
  end.

(** [while let Some((cookie, result)) = apiset.next_result()] *)
Fixpoint drain_results (fuel : nat) (idx : nat) : SA unit :=
  match fuel with
  | 0 => diverge
  | S fuel =>
      r ← next_result_at idx;
      match r with
      | None => mret tt
      | Some (cookie, Ok result) =>
          _ ← on_session (push_outbound_section (response_section cookie Complete result));
          drain_results fuel idx
      | Some (cookie, Err error_code) =>
          _ ← on_session (push_outbound_section (error_section (Some cookie) error_code));
          drain_results fuel idx
      end
  end.

(** [for apiset in apisets.iter_mut()]: the sets from [idx] on, [n] of them. *)
Fixpoint update_apisets (fuel : nat) (n idx : nat) : SA unit :=
  match n with
  | 0 => mret tt
  | S n =>
      _ ← update_at idx;
      _ ← drain_results fuel idx;
      update_apisets fuel n (S idx)
  end.

(** [handle_requests] *)
Definition handle_requests (fuel : nat) : SA unit :=
  sa ← get_state;
  let requests := inbound_requests sa.1 in
  _ ← on_session (modify (set_requests []));
  _ ← handle_request_list requests;
  sa ← get_state;
  update_apisets fuel (length sa.2) 0.

(** [Session::update]; the apisets are the state's second component.  The fuel
    bounds the messages read, the results drained per apiset and the writes. *)
Definition update (fuel : nat) : SA unit :=
  _ ← on_session (read_sections fuel);
  _ ← on_session process_sections;
  _ ← handle_requests fuel;
  _ ← on_session serialize_messages;
  on_session (write_pending_data fuel).

End apisets.
