(* ===== verification/HonkRead.v ===== *)
(** Receiving: framing of the byte stream into messages, independently of how the
    stream cuts it up. *)

From Stdlib Require Import ZArith Lia.
From S2P Require Import Prelude Bson HonkWire HonkSize VecDeque HonkSession.
From stdpp Require Import prelude strings list.
From coqutil Require Import Byte Word.LittleEndianList.

Open Scope nat_scope.

(** * The size header *)

Lemma header_i32_le b : length b = 4 → header_i32 b = wrap_i32 (le_combine b).
Proof.
  intros Hb. destruct b as [|b0 [|b1 [|b2 [|b3 [|]]]]]; try discriminate Hb.
  unfold header_i32. f_equal. simpl nth.
  change (le_combine [b0; b1; b2; b3]) with
    (Z.lor (byte.unsigned b0) (Z.shiftl (Z.lor (byte.unsigned b1) (Z.shiftl
      (Z.lor (byte.unsigned b2) (Z.shiftl (Z.lor (byte.unsigned b3) (Z.shiftl 0 8)) 8)) 8)) 8)).
  rewrite !Z.shiftl_lor, !Z.shiftl_shiftl, !Z.shiftl_0_l, Z.lor_0_r by lia.
  rewrite !Z.lor_assoc. reflexivity.
Qed.

(** A header that is the document's length is read as that length. *)
Lemma header_i32_length b n :
  length b = 4 → le_combine b = Z.of_nat n → (Z.of_nat n ≤ i32_max)%Z →
  header_i32 b = Z.of_nat n.
Proof.
  intros Hb Hn Hm. rewrite header_i32_le, Hn by done. apply wrap_i32_small.
  unfold is_i32, i32_min. lia.
Qed.

(** * Errors that come from the transport *)

Section read.
Context `{BL : BsonLaws} {RW : Type} `{SL : StreamLaws RW}.

Definition io_error (e : HonkError) : bool :=
  match e with MessageReadTimedOut _ | ReaderReadFailed _ => true | _ => false end.

(** What a read leaves of a session: another stream, perhaps another timestamp. *)
Definition after_read (st : RW) (t : Instant) (s : Session RW) : Session RW :=
  set_timestamp t (set_stream st s).

Lemma stream_read_spec n (s : Session RW) :
  ∃ st t r, stream_read n s = Done (after_read st t s, r) ∧
    sent st = sent (stream s) ∧
    match r with
    | Ok bs => received st = received (stream s) ++ bs ∧ length bs ≤ n
    | Err e => received st = received (stream s) ∧ io_error e = true
    end.
Proof.
  unfold stream_read, after_read, do_read, do_now. monad_unfold. destruct_session s.
  destruct (rw_read n str) as [[bs|k] st] eqn:Hr; simpl;
    pose proof (read_sent n str) as Hs; rewrite Hr in Hs; simpl in Hs.
  - apply read_ok in Hr as [Hl Hr]. destruct bs as [|b bs].
    + exists st, ts, (Err (ReaderReadFailed UnexpectedEof)). rewrite app_nil_r in Hr. by split_and!.
    + destruct (rw_now st) as [t st'] eqn:Hn; simpl.
      pose proof (now_sent st). pose proof (now_received st). rewrite Hn in *; simpl in *.
      exists st', t, (Ok (b :: bs)). split_and!; by try congruence.
  - apply read_err in Hr. destruct (is_blocking k) eqn:Hk; [|by eexists st, ts, _; split_and!].
    destruct (rw_now st) as [t st'] eqn:Hn; simpl.
    pose proof (now_sent st). pose proof (now_received st). rewrite Hn in *; simpl in *.
    case_match.
    + exists st', ts, (Err (MessageReadTimedOut wt)). split_and!; by try congruence.
    + exists st', ts, (Ok []). rewrite app_nil_r. split_and!; try congruence. simpl. lia.
Qed.

(** * The framing invariant *)

(** The header announces the total length of the message being read. *)
Definition announces (buf : bytes) (n : nat) : Prop :=
  header_i32 (take 4 buf) = Z.of_nat n ∧ 4 < n.

(** The reader's state: part of a header, or a header and part of a body. *)
Definition reader_ok (s : Session RW) : Prop :=
  match remaining_byte_count s with
  | None => length (message_read_buffer s) < 4
  | Some r =>
      4 ≤ length (message_read_buffer s) ∧ 0 < r ∧
      announces (message_read_buffer s) (length (message_read_buffer s) + r) ∧
      length (message_read_buffer s) + r ≤ max_message_size s
  end.

(** Everything but the reader's fields is kept. *)
Definition reader_frame (s s' : Session RW) : Prop :=
  ∃ st t rem buf, s' = set_remaining rem (set_read_buffer buf (after_read st t s)) ∧
    sent st = sent (stream s).

Lemma reader_frame_refl s : reader_frame s s.
Proof. destruct s. by eexists _, _, _, _. Qed.

Lemma reader_frame_trans s1 s2 s3 : reader_frame s1 s2 → reader_frame s2 s3 → reader_frame s1 s3.
Proof.
  intros (st & t & rem & buf & -> & H1) (st' & t' & rem' & buf' & -> & H2).
  unfold after_read in *. destruct_session s1.
  exists st', t', rem', buf'. split; [done|simpl; congruence].
Qed.

(** How [read_message_size] can fail on its own account. *)
Definition bad_header (max : nat) (buf : bytes) (e : HonkError) : Prop :=
  length buf = 4 ∧
  ((header_i32 buf ≤ 4)%Z ∧ e = BsonDocumentSizeTooSmall (header_i32 buf) ∨
   (4 < header_i32 buf)%Z ∧ max < Z.to_nat (header_i32 buf) ∧
     e = BsonDocumentSizeTooLarge (header_i32 buf) (wrap_i32 (Z.of_nat max))).

Lemma read_message_size_spec s :
  reader_ok s →
  ∃ s' r new, read_message_size s = Done (s', r) ∧ reader_frame s s' ∧
    received (stream s') = received (stream s) ++ new ∧
    message_read_buffer s' = message_read_buffer s ++ new ∧
    match r with
    | Ok _ => reader_ok s' ∧ (remaining_byte_count s = None ∨ s' = s)
    | Err e => reader_ok s' ∧ io_error e = true ∨
               bad_header (max_message_size s) (message_read_buffer s') e
    end.
Proof.
  intros Hok. unfold read_message_size. monad_unfold. unfold reader_ok in Hok.
  destruct (remaining_byte_count s) as [r|] eqn:Hrem.
  { exists s, (Ok tt), []. rewrite !app_nil_r. split_and!; auto using reader_frame_refl.
    unfold reader_ok. by rewrite Hrem. }
  rewrite bool_decide_true by done. simpl.
  destruct (stream_read_spec (4 - length (message_read_buffer s)) s)
    as (st & t & [bs|e] & -> & Hsent & Hrd); simpl.
  2: { destruct Hrd as [Hrd He]. exists (after_read st t s), (Err e), [].
       rewrite !app_nil_r. split_and!; try done; try (by destruct s).
       - destruct s. by eexists _, _, _, _.
       - left. split; [|done]. destruct s; simpl in *. subst. done. }
  destruct Hrd as [Hrd Hlen]. destruct bs as [|b bs].
  { exists (after_read st t s), (Ok tt), []. rewrite ?app_nil_r in *.
    split_and!; try done; try (by destruct s); destruct s; simpl in *; subst; auto.
    by eexists _, _, _, _. }
  remember (b :: bs) as new eqn:Hnew.
  assert (0 < length new) as Hpos by (subst; simpl; lia). clear Hnew b bs.
  destruct s as [str wb rem buf pe iq ir ser nc ob mx wt ts]; simpl in *. subst rem.
  assert (reader_frame (mkSession str wb None buf pe iq ir ser nc ob mx wt ts)
     (mkSession st wb None (buf ++ new) pe iq ir ser nc ob mx wt t)) as Hf
    by (by eexists _, _, _, _).
  case_decide as H4; simpl.
  2: { eexists _, (Ok tt), new. split_and!; [done|done|done|done|..]; [|by left].
       unfold reader_ok; simpl. rewrite length_app in H4 |- *. lia. }
  destruct (header_i32 (buf ++ new) <=? 4)%Z eqn:Hsz; simpl.
  { eexists _, (Err _), new. split_and!; [done|done|done|done|]. right.
    split; [done|]. left. simpl. split; [lia|done]. }
  destruct (Z.of_nat mx <? header_i32 (buf ++ new))%Z eqn:Hmx; simpl.
  { eexists _, (Err _), new. split_and!; [done|done|done|done|]. right.
    split; [done|]. right. simpl. split_and!; [lia|lia|done]. }
  eexists _, (Ok tt), new. split_and!; [done|by eexists _, _, _, _|done|done|..]; [|by left].
  unfold reader_ok, announces; simpl. rewrite take_ge by lia. split_and!; lia.
Qed.

(** After an error of its own the size is still unknown. *)
Lemma read_message_size_err s s' e :
  read_message_size s = Done (s', Err e) → remaining_byte_count s' = None.
Proof.
  unfold read_message_size. monad_unfold.
  destruct (remaining_byte_count s) as [r|] eqn:Hrem; [done|]. case_bool_decide; [simpl|done].
  destruct (stream_read_spec (4 - length (message_read_buffer s)) s) as (st & t & r & -> & _).
  destruct r as [[|b bs]|e']; [done| |intros [= <- _]; by destruct s].
  destruct_session s. repeat case_match; by intros [= <- _].
Qed.

(** What [read_message] makes of a complete frame. *)
Definition decode_frame (f : bytes) : result HonkError Message :=
  d ← map_err BsonDocumentParseFailed (from_reader f);
  map_err MessageConversionFailed (message_try_from d).

(** A frame: its header announces its length, and it fits. *)
Definition frame (max : nat) (f : bytes) : Prop :=
  header_i32 (take 4 f) = Z.of_nat (length f) ∧ 4 < length f ≤ max.

(** The result of one [read_message], given the bytes it received. *)
Definition read_message_post (s s' : Session RW) (new : bytes)
    (r : result HonkError (option Message)) : Prop :=
  let buf := message_read_buffer s ++ new in
  match r with
  | Ok None => reader_ok s' ∧ message_read_buffer s' = buf
  | Ok (Some m) =>
      reader_ok s' ∧ message_read_buffer s' = [] ∧ frame (max_message_size s) buf ∧
      decode_frame buf = Ok m
  | Err e =>
      (io_error e = true ∧ reader_ok s' ∧ message_read_buffer s' = buf) ∨
      bad_header (max_message_size s) buf e ∨
      (frame (max_message_size s) buf ∧ decode_frame buf = Err e)
  end.

Lemma read_message_spec s :
  reader_ok s →
  ∃ s' r new, read_message s = Done (s', r) ∧ reader_frame s s' ∧
    received (stream s') = received (stream s) ++ new ∧ read_message_post s s' new r.
Proof.
  intros Hok. unfold read_message. monad_unfold.
  destruct (read_message_size_spec s Hok)
    as (s1 & [[]|e] & new1 & -> & Hf1 & Hr1 & Hb1 & Hpost1); simpl.
  2: { exists s1, (Err e), new1. split_and!; [done..|]. simpl. rewrite <- Hb1.
       destruct Hpost1 as [[Hok1 He]|Hbad]; [by left|by right; left]. }
  destruct Hpost1 as [Hok1 _].
  destruct (remaining_byte_count s1) as [rem|] eqn:Hrem.
  2: { exists s1, (Ok None), new1. by split_and!. }
  pose proof Hok1 as Hok1'. unfold reader_ok in Hok1'. rewrite Hrem in Hok1'.
  destruct Hok1' as (H4 & Hpos & [Hann _] & Hmax).
  assert (max_message_size s1 = max_message_size s) as Hmx.
  { destruct Hf1 as (? & ? & ? & ? & -> & _). by destruct s. }
  destruct (stream_read_spec rem s1) as (st & t & [bs|e] & -> & Hsent & Hrd); simpl.
  2: { destruct Hrd as [Hrd He]. exists (after_read st t s1), (Err e), new1.
       split_and!; [done| |by destruct s1; simpl in *; congruence|].
       - eapply reader_frame_trans; [done|]. destruct s1. by eexists _, _, _, _.
       - left. split_and!; [done|..]; destruct s1; simpl in *; [by subst|congruence]. }
  destruct Hrd as [Hrd Hlen]. destruct bs as [|b bs].
  { exists (after_read st t s1), (Ok None), new1. rewrite app_nil_r in Hrd.
    split_and!; [done| |by destruct s1; simpl in *; congruence|].
    - eapply reader_frame_trans; [done|]. destruct s1. by eexists _, _, _, _.
    - split; destruct s1; simpl in *; [by subst|congruence]. }
  remember (b :: bs) as new eqn:Hnew.
  assert (0 < length new) as Hnpos by (subst; simpl; lia). clear Hnew b bs.
  assert (received st = received (stream s) ++ (new1 ++ new)) as Hrecv
    by (by rewrite Hrd, Hr1, app_assoc).
  assert (message_read_buffer s1 ++ new = message_read_buffer s ++ (new1 ++ new)) as Hbuf
    by (by rewrite Hb1, app_assoc).
  assert (∀ rem' buf', reader_frame s (set_remaining rem' (set_read_buffer buf' (after_read st t s1)))) as Hfr.
  { intros. eapply reader_frame_trans; [done|]. by eexists _, _, _, _. }
  destruct_session s1. subst rem0.
  case_decide as Hfull; simpl.
  - assert (frame (max_message_size s) (message_read_buffer s ++ (new1 ++ new))) as Hframe.
    { rewrite <- Hbuf, <- Hmx. unfold frame. rewrite take_app_le by lia.
      rewrite length_app, Hann. lia. }
    unfold decode_frame in *. rewrite <- Hbuf in Hframe.
    destruct (from_reader (buf ++ new)) as [d|e] eqn:Hd; simpl;
      [destruct (message_try_from d) as [m|e] eqn:Hm; simpl|];
      eexists _, _, (new1 ++ new);
      (split_and!; [reflexivity|apply (Hfr None [])|done|]);
      unfold read_message_post; simpl; rewrite <- Hbuf.
    + split_and!; [unfold reader_ok; simpl; lia|done|apply Hframe..|].
      unfold decode_frame. rewrite Hd; simpl. by rewrite Hm.
    + right; right. split; [done|]. unfold decode_frame. rewrite Hd; simpl. by rewrite Hm.
    + right; right. split; [done|]. unfold decode_frame. by rewrite Hd.
  - eexists _, (Ok None), (new1 ++ new).
    split_and!; [done|apply (Hfr (Some (rem - length new)) (buf ++ new))|done|].
    split; [|done].
    unfold reader_ok, announces; simpl. rewrite take_app_le, length_app by lia.
    replace (length buf + length new + (rem - length new)) with (length buf + rem) by lia.
    split_and!; lia.
Qed.

(** * Reading every message that is available *)

(** A frame and the message it decodes to. *)
Definition decoded (max : nat) (f : bytes) (m : Message) : Prop :=
  frame max f ∧ decode_frame f = Ok m.

(** The state after some messages were read: [msgs] were appended to the queue. *)
Definition sections_frame (s s' : Session RW) (msgs : list Message) : Prop :=
  reader_frame (set_pending (pending_sections s ++ mjoin (map msg_sections msgs)) s) s'.

Definition read_sections_post (s s' : Session RW) (new : bytes) (r : result HonkError unit) : Prop :=
  ∃ frames msgs rest,
    message_read_buffer s ++ new = mjoin frames ++ rest ∧
    Forall2 (decoded (max_message_size s)) frames msgs ∧
    sections_frame s s' msgs ∧
    match r with
    | Ok _ => reader_ok s' ∧ message_read_buffer s' = rest
    | Err e =>
        (io_error e = true ∧ reader_ok s' ∧ message_read_buffer s' = rest ∧
         pending_sections s' = [] ∧ inbound_responses s' = []) ∨
        bad_header (max_message_size s) rest e ∨
        (frame (max_message_size s) rest ∧ decode_frame rest = Err e)
    end.

Lemma reader_frame_fields s s' :
  reader_frame s s' →
  pending_sections s' = pending_sections s ∧ inbound_responses s' = inbound_responses s ∧
  max_message_size s' = max_message_size s ∧ inbound_requests s' = inbound_requests s ∧
  outbound_sections s' = outbound_sections s ∧
  message_write_buffer s' = message_write_buffer s ∧ sent (stream s') = sent (stream s).
Proof. intros (st & t & rem & buf & -> & Hs). by destruct_session s. Qed.

Lemma sections_frame_nil s s' : reader_frame s s' → sections_frame s s' [].
Proof. unfold sections_frame. simpl. rewrite app_nil_r. by destruct s. Qed.

Lemma sections_frame_cons s s1 s' m msgs :
  reader_frame s s1 →
  sections_frame (set_pending (pending_sections s1 ++ msg_sections m) s1) s' msgs →
  sections_frame s s' (m :: msgs).
Proof.
  intros (st & t & rem & buf & -> & H1) (st' & t' & rem' & buf' & -> & H2).
  destruct_session s. exists st', t', rem', buf'. simpl. rewrite <- app_assoc. split; [done|congruence].
Qed.

(** Protocol errors are told apart from transport errors. *)
Lemma bad_header_not_io max buf e : bad_header max buf e → io_error e = false.
Proof. by intros [_ [(_ & ->)|(_ & _ & ->)]]. Qed.

Lemma decode_frame_not_io f e : decode_frame f = Err e → io_error e = false.
Proof.
  unfold decode_frame. destruct (from_reader f) as [d|]; simpl; [|by intros [= <-]].
  destruct (message_try_from d); simpl; by intros [= <-].
Qed.

(** A single [read_message] that ends the loop. *)
Lemma read_sections_post_last s s1 new r :
  reader_frame s s1 →
  match r with
  | Ok _ => reader_ok s1 ∧ message_read_buffer s1 = message_read_buffer s ++ new
  | Err e =>
      (io_error e = true ∧ reader_ok s1 ∧ message_read_buffer s1 = message_read_buffer s ++ new ∧
       pending_sections s1 = [] ∧ inbound_responses s1 = []) ∨
      bad_header (max_message_size s) (message_read_buffer s ++ new) e ∨
      (frame (max_message_size s) (message_read_buffer s ++ new) ∧
       decode_frame (message_read_buffer s ++ new) = Err e)
  end →
  read_sections_post s s1 new r.
Proof.
  intros Hf Hr. exists [], [], (message_read_buffer s ++ new).
  split_and!; auto using sections_frame_nil.
Qed.

(** How the loop treats an error of [read_message]. *)
Lemma read_sections_error s s1 new e :
  reader_frame s s1 → read_message_post s s1 new (Err e) →
  ∃ r, match e with
       | MessageReadTimedOut _ | ReaderReadFailed _ =>
           match pending_sections s1, inbound_responses s1 with
           | [], [] => Done (s1, Err e)
           | _, _ => Done (s1, Ok tt)
           end
       | _ => Done (s1, Err e)
       end = Done (s1, r) ∧ read_sections_post s s1 new r.
Proof.
  intros Hf Hp. destruct (io_error e) eqn:He.
  - destruct Hp as [(_ & Hok & Hb)|[Hbad%bad_header_not_io|[_ Hd%decode_frame_not_io]]];
      [|congruence..].
    destruct e; try discriminate He;
      destruct (pending_sections s1) eqn:?, (inbound_responses s1) eqn:?;
      eexists; (split; [reflexivity|]); apply read_sections_post_last; simpl; auto 10.
  - exists (Err e). split; [by destruct e|]. apply read_sections_post_last; [done|].
    right. destruct Hp as [(Hx & _)|?]; [congruence|done].
Qed.

Lemma read_sections_spec fuel s :
  reader_ok s →
  read_sections fuel s = OutOfFuel ∨
  ∃ s' r new, read_sections fuel s = Done (s', r) ∧
    received (stream s') = received (stream s) ++ new ∧ read_sections_post s s' new r.
Proof.
  revert s. induction fuel as [|fuel IH]; intros s Hok; [by left|].
  cbn [read_sections]. monad_unfold.
  destruct (read_message_spec s Hok) as (s1 & r1 & new1 & -> & Hf1 & Hr1 & Hp1).
  destruct (reader_frame_fields s s1 Hf1) as (Hpe & Hir & Hmx & _).
  destruct r1 as [[m|]|e].
  - destruct Hp1 as (Hok1 & Hb1 & Hfr & Hdec). simpl.
    set (s2 := set_pending (pending_sections s1 ++ msg_sections m) s1).
    destruct (IH s2) as [->|(s' & r & new & -> & Hr & frames & msgs & rest & Hb & Hall & Hsf & Hpost)];
      [by destruct s1|by left|]. right.
    exists s', r, (new1 ++ new). split_and!; [done| |].
    { rewrite Hr, app_assoc, <- Hr1. by destruct s1. }
    assert (max_message_size s2 = max_message_size s) as Hmx2 by (by destruct s1).
    assert (message_read_buffer s2 = []) as Hb2 by (by destruct s1).
    rewrite Hmx2, Hb2 in *. simpl in Hb. subst new.
    exists ((message_read_buffer s ++ new1) :: frames), (m :: msgs), rest.
    split_and!; [simpl; by rewrite !app_assoc|by constructor|by eapply sections_frame_cons|done].
  - right. exists s1, (Ok tt), new1. split_and!; [done..|]. by apply read_sections_post_last.
  - right. destruct (read_sections_error s s1 new1 e Hf1 Hp1) as (r & Heq & Hpost).
    exists s1, r, new1. simpl. split_and!; [|done..]. rewrite <- Heq.
    destruct e; try done; by destruct (pending_sections s1), (inbound_responses s1).
Qed.

(** ** Termination: a stream with finitely many bytes waiting *)

Class FiniteStream : Type := {
  (** bytes delivered and still to come; no call adds to them *)
  capacity : RW → nat;
  capacity_bound st : length (received st) ≤ capacity st;
  capacity_read n st : capacity (rw_read n st).2 ≤ capacity st;
  capacity_now st : capacity (rw_now st).2 ≤ capacity st;
}.

Context `{!FiniteStream}.

Lemma capacity_stream_read n s s' r :
  stream_read n s = Done (s', r) → capacity (stream s') ≤ capacity (stream s).
Proof.
  unfold stream_read, do_read, do_now. monad_unfold. destruct_session s.
  pose proof (capacity_read n str) as H1. destruct (rw_read n str) as [[[|b bs]|k] st]; simpl in *;
    try destruct (is_blocking k); simpl;
    pose proof (capacity_now st) as H2; destruct (rw_now st) as [t st']; simpl in *;
    try case_match; intros Hx; repeat monad_step; simpl in *; lia.
Qed.

Lemma capacity_read_message_size s s' r :
  read_message_size s = Done (s', r) → capacity (stream s') ≤ capacity (stream s).
Proof.
  unfold read_message_size. monad_unfold.
  destruct (remaining_byte_count s); [by intros [= <- _]|].
  case_bool_decide; [simpl|discriminate].
  destruct (stream_read _ s) as [[s1 [bs|e]]| |] eqn:E; [|intros [= <- _]|discriminate..];
    apply capacity_stream_read in E; [|done].
  destruct bs; [by intros [= <- _]|]. destruct_session s1.
  repeat case_match; intros [= <- _]; done.
Qed.

Lemma capacity_read_message s s' r :
  read_message s = Done (s', r) → capacity (stream s') ≤ capacity (stream s).
Proof.
  unfold read_message. monad_unfold.
  destruct (read_message_size s) as [[s1 [[]|e]]| |] eqn:E1; [|intros [= <- _]|discriminate..];
    apply capacity_read_message_size in E1; [|done]. simpl.
  destruct (remaining_byte_count s1); [|by intros [= <- _]].
  destruct (stream_read _ s1) as [[s2 [bs|e]]| |] eqn:E2; [|intros [= <- _]|discriminate..];
    apply capacity_stream_read in E2; [|lia].
  destruct bs; [intros [= <- _]; lia|]. destruct_session s2.
  repeat case_match; intros [= <- _]; simpl; lia.
Qed.

(** Every message takes at least five bytes, so the loop over the messages ends. *)
Lemma read_sections_terminates fuel s :
  reader_ok s →
  length (message_read_buffer s) + capacity (stream s) < 5 * fuel + length (received (stream s)) →
  read_sections fuel s ≠ OutOfFuel.
Proof.
  revert s. induction fuel as [|fuel IH]; intros s Hok Hcap.
  { pose proof (capacity_bound (stream s)). lia. }
  cbn [read_sections]. monad_unfold.
  destruct (read_message_spec s Hok) as (s1 & r1 & new1 & Hrm & Hf1 & Hr1 & Hp1). rewrite Hrm.
  apply capacity_read_message in Hrm.
  destruct r1 as [[m|]|e]; simpl; [|done|destruct e; repeat case_match; done].
  destruct Hp1 as (Hok1 & Hb1 & [_ Hlen] & _).
  apply IH; [by destruct s1|]. rewrite length_app in Hlen. apply (f_equal length) in Hr1, Hb1.
  rewrite length_app in Hr1. destruct_session s1. lia.
Qed.

End read.
