(* ===== verification/HonkScript.v ===== *)
(** A scripted stream: a model of the [Stream] interface on which sessions can be
    run.  The script lists what each read finds (data, or nothing yet) and how many
    bytes each write accepts. *)

From Stdlib Require Import ZArith Lia.
From S2P Require Import Prelude Bson HonkWire HonkSize HonkSession HonkRead.
From stdpp Require Import prelude strings list.

Open Scope nat_scope.

Record Script := mkScript {
  (** what is waiting to be read: [None] is a read that would block *)
  sc_in : list (option bytes);
  (** bytes the next writes accept beyond the first, everything when the list runs
      out; [None] is a write that would block *)
  sc_accept : list (option nat);
  sc_clock : Instant;
  sc_received : bytes;
  sc_sent : bytes;
}.

Definition script_read (n : nat) (st : Script) : io_result bytes * Script :=
  let 'mkScript i a c r s := st in
  match i with
  | [] => (IoErr WouldBlock, st)
  | None :: i => (IoErr WouldBlock, mkScript i a c r s)
  | Some chunk :: i =>
      let got := take n chunk in
      let rest := drop n chunk in
      (IoOk got, mkScript (match rest with [] => i | _ => Some rest :: i end) a c (r ++ got) s)
  end.

Definition script_write (b : bytes) (st : Script) : io_result nat * Script :=
  let 'mkScript i a c r s := st in
  match a with
  | [] => (IoOk (length b), mkScript i [] c r (s ++ b))
  | None :: a => (IoErr WouldBlock, mkScript i a c r s)
  | Some n :: a =>
      let n := Nat.min (S n) (length b) in
      (IoOk n, mkScript i a c r (s ++ take n b))
  end.

Definition script_now (st : Script) : Instant * Script :=
  let 'mkScript i a c r s := st in (c, mkScript i a (c + 1)%Z r s).

#[export] Instance script_stream : Stream Script := {
  rw_read := script_read;
  rw_write := script_write;
  rw_flush st := (IoOk tt, st);
  rw_now := script_now;
}.

#[export] Instance script_laws : StreamLaws Script.
Proof.
  refine {| sent := sc_sent; received := sc_received |}; simpl.
  - intros n [i a c r s] bs st'. simpl. destruct i as [|[chunk|] i]; intros; simplify_eq.
    rewrite length_take. split; [lia|done].
  - intros n [i a c r s] k st'. simpl. by destruct i as [|[chunk|] i]; intros; simplify_eq.
  - intros n [i a c r s]. by destruct i as [|[chunk|] i].
  - by intros [].
  - by intros [].
  - intros b [i a c r s] n st'. simpl. destruct a as [|[m|] a]; intros; simplify_eq; simpl.
    + by rewrite firstn_all.
    + split; [apply (Nat.le_min_r (S m))|done].
  - intros b [i a c r s] k st'. simpl. by destruct a as [|[m|] a]; intros; simplify_eq.
  - intros b [i a c r s]. by destruct a as [|[m|] a].
  - done.
  - done.
Defined.

Definition script_capacity (st : Script) : nat :=
  length (sc_received st) + sum_with (from_option length 0) (sc_in st).

#[export] Instance script_finite : FiniteStream.
Proof.
  refine {| capacity := script_capacity |}; unfold script_capacity; simpl.
  - lia.
  - intros n [i a c r s]. destruct i as [|[chunk|] i]; simpl; try lia.
    rewrite length_app. pose proof (take_drop n chunk) as H. apply (f_equal length) in H.
    rewrite length_app in H. destruct (drop n chunk); simpl in *; lia.
  - intros [i a c r s]. simpl. lia.
Defined.

(** Every write that succeeds makes progress. *)
Lemma script_progress b (st st' : Script) : b ≠ [] → rw_write b st ≠ (IoOk 0, st').
Proof.
  destruct st as [i [|[n|] a] c r s], b as [|x b]; simpl; try done; intros _ [=].
Qed.

(** A session over a script with nothing written yet. *)
Definition script_of (i : list (option bytes)) (a : list (option nat)) : Script :=
  mkScript i a 0 [] [].
