(* ===== verification/HonkWrite.v ===== *)
(** Sending: size checks, packing of sections into messages, and the write loop. *)

From Stdlib Require Import ZArith Lia.
From S2P Require Import Prelude Bson HonkWire HonkSize VecDeque HonkSession.
From stdpp Require Import prelude strings list.
From coqutil Require Import Byte Word.LittleEndianList.

Open Scope nat_scope.

Section write.
Context `{BL : BsonLaws} {RW : Type} `{SL : StreamLaws RW}.
Implicit Types (s : Session RW).

(** * Packing sections into messages *)

(** A message document around the given section documents, and its size. *)
Definition is_message_doc (d : Document) (sections : list Document) : Prop :=
  doc_get d "honk_rpc" = Some (BInt32 HONK_RPC_VERSION) ∧
  doc_get d "sections" = Some (BArray (map BDocument sections)) ∧
  doc_size d = 34 + elems_bytes (map BDocument sections).

Lemma is_message_doc_insert d sections sections' :
  is_message_doc d sections →
  is_message_doc (doc_insert d "sections" (BArray (map BDocument sections'))) sections'.
Proof.
  intros (H1 & H2 & H3). split_and!.
  - by rewrite get_insert_ne by discriminate.
  - by rewrite get_insert_eq.
  - rewrite (size_insert_replace _ _ _ _ _ H3 H2). simpl. unfold elems_bytes. lia.
Qed.

Lemma is_message_doc_new sections : is_message_doc (message_doc (map BDocument sections)) sections.
Proof.
  unfold message_doc. split_and!; [by bson_simpl..|]. apply size_message_doc.
Qed.

Lemma is_message_doc_default sections :
  is_message_doc (doc_insert (message_into (mkMessage HONK_RPC_VERSION [])) "sections"
    (BArray (map BDocument sections))) sections.
Proof. apply is_message_doc_insert with []. apply (is_message_doc_new []). Qed.

(** Bytes that are a sequence of messages, each non-empty and within the limit,
    whose sections in order are the given ones: what a session may put on the wire. *)
Inductive framed (max : nat) : list Document → bytes → Prop :=
| framed_one d sections b :
    is_message_doc d sections → sections ≠ [] → to_writer d = Ok b → length b ≤ max →
    framed max sections b
| framed_app l r bl br : framed max l bl → framed max r br → framed max (l ++ r) (bl ++ br).

(** A section that fits in a message of its own. *)
Definition fits (max : nat) (d : Document) : Prop := doc_size d + MIN_MESSAGE_SIZE ≤ max.

(** What sending leaves of a session. *)
Definition after_write (s : Session RW) (ser : bytes) (b : bytes) : Session RW :=
  set_serialization ser
    (set_write_buffer (vd_append (message_write_buffer s) b) s).

Lemma is_message_doc_single_size d x max :
  is_message_doc d [x] → fits max x → doc_size d ≤ max.
Proof.
  intros (_ & _ & ->) Hf. unfold fits, MIN_MESSAGE_SIZE, HEADER_SIZE, HONK_RPC_SIZE,
    SECTIONS_SIZE, FOOTER_SIZE in Hf. unfold elems_bytes. simpl. lia.
Qed.

(** The session after packing, described by what was appended to the buffer. *)
Definition packed (s s' : Session RW) (out : list bytes) : Prop :=
  ∃ ser, s' = set_serialization ser
    (set_write_buffer (fold_left vd_append out (message_write_buffer s)) s).

Lemma packed_nil s ser : packed s (set_serialization ser s) [].
Proof. exists ser. by destruct s. Qed.

Lemma packed_trans s1 s2 s3 out1 out2 :
  packed s1 s2 out1 → packed s2 s3 out2 → packed s1 s3 (out1 ++ out2).
Proof.
  intros [ser1 ->] [ser2 ->]. exists ser2. destruct_session s1. by rewrite fold_left_app.
Qed.

Lemma packed_max s s' out : packed s s' out → max_message_size s' = max_message_size s.
Proof. intros [ser ->]. by destruct s. Qed.

(** One message that fits is appended as it is. *)
Lemma serialize_fits fuel s d b :
  to_writer d = Ok b → length b ≤ max_message_size s →
  serialize_messages_impl (S fuel) d s = Done (after_write s [] b, Ok tt).
Proof.
  intros Hb Hl. cbn [serialize_messages_impl]. monad_unfold. rewrite Hb. simpl.
  unfold after_write. destruct_session s. by rewrite bool_decide_false by lia.
Qed.

Lemma serialize_fails fuel s d e :
  to_writer d = Err e →
  serialize_messages_impl (S fuel) d s = Done (set_serialization [] s, Err (BsonWriteFailed e)).
Proof. intros Hb. cbn [serialize_messages_impl]. monad_unfold. rewrite Hb. by destruct s. Qed.

(** A message that does not fit is split in two halves, packed one after the other. *)
Lemma serialize_splits fuel s d sections b :
  is_message_doc d sections → to_writer d = Ok b → max_message_size s < length b →
  1 < length sections →
  let k := length sections / 2 in
  serialize_messages_impl (S fuel) d s =
    (_ ← serialize_messages_impl fuel
           (doc_insert d "sections" (BArray (map BDocument (take k sections))));
     serialize_messages_impl fuel (message_doc (map BDocument (drop k sections))))
    (set_serialization b s).
Proof.
  intros (H1 & H2 & H3) Hb Hl Hlen k. cbn [serialize_messages_impl]. monad_unfold.
  rewrite Hb. simpl. rewrite get_array_access, H2. simpl.
  rewrite length_map. destruct_session s. rewrite bool_decide_true by lia.
  rewrite bool_decide_true by lia. by rewrite <- !fmap_take, <- !fmap_drop.
Qed.

Lemma serialize_impl_spec fuel s d sections :
  is_message_doc d sections → sections ≠ [] → length sections ≤ fuel →
  Forall (fits (max_message_size s)) sections →
  ∃ s' r out, serialize_messages_impl fuel d s = Done (s', r) ∧ packed s s' out ∧
    match r with
    | Ok _ => framed (max_message_size s) sections (mjoin out)
    | Err e => ∃ e', e = BsonWriteFailed e'
    end.
Proof.
  revert s d sections. induction fuel as [|fuel IH]; intros s d sections Hd Hne Hfuel Hfits.
  { destruct sections; simpl in Hfuel; [done|lia]. }
  destruct (to_writer d) as [b|e] eqn:Hb.
  2: { eexists _, _, []. rewrite (serialize_fails _ _ _ _ Hb).
       split_and!; [done|apply packed_nil|by eexists]. }
  destruct (decide (length b ≤ max_message_size s)) as [Hl|Hl].
  { eexists _, (Ok tt), [b]. rewrite (serialize_fits _ _ _ _ Hb Hl). split_and!; [done|by exists []|].
    simpl. rewrite app_nil_r. by eapply framed_one. }
  assert (1 < length sections) as Hlen.
  { destruct sections as [|x [|]]; [done| |simpl; lia]. exfalso.
    apply Forall_cons in Hfits as [Hx _]. apply to_writer_size in Hb.
    pose proof (is_message_doc_single_size d x _ Hd Hx). lia. }
  rewrite (serialize_splits fuel s d sections b) by (done || lia). monad_unfold.
  set (k := length sections / 2).
  assert (0 < k < length sections) as [Hk0 Hk].
  { unfold k. split; [apply Nat.div_str_pos|apply Nat.div_lt]; lia. }
  pose proof (Forall_take_drop _ k _ Hfits) as [Hft Hfd].
  destruct (IH (set_serialization b s) _ (take k sections) (is_message_doc_insert d sections _ Hd))
    as (s1 & r1 & out1 & -> & Hp1 & Hr1).
  { intros ?%(f_equal length). rewrite length_take in *. simpl in *. lia. }
  { rewrite length_take. lia. }
  { by destruct s. }
  assert (max_message_size (set_serialization b s) = max_message_size s) as Hmx by (by destruct s).
  assert (packed s s1 out1) as Hp1' by (destruct Hp1 as [ser ->]; exists ser; by destruct s).
  rewrite Hmx in *. destruct r1 as [[]|e]; [|by eexists _, _, out1; split_and!].
  destruct (IH s1 _ (drop k sections) (is_message_doc_new _)) as (s2 & r2 & out2 & -> & Hp2 & Hr2).
  { intros ?%(f_equal length). rewrite length_drop in *. simpl in *. lia. }
  { rewrite length_drop. lia. }
  { by rewrite (packed_max _ _ _ Hp1'). }
  eexists _, _, (out1 ++ out2). split_and!; [done|by eapply packed_trans|].
  destruct r2; [|done]. rewrite (packed_max _ _ _ Hp1') in Hr2.
  rewrite join_app, <- (take_drop k sections). by apply framed_app.
Qed.

Lemma fold_append_data out d : vd_data (fold_left vd_append out d) = vd_data d ++ mjoin out.
Proof.
  revert d. induction out as [|b out IH]; intros d; simpl; [by rewrite app_nil_r|].
  by rewrite IH, vd_append_data, app_assoc.
Qed.

(** The session's promise about its outbound queue. *)
Definition outbound_ok (s : Session RW) : Prop :=
  Forall (fits (max_message_size s)) (outbound_sections s).

Lemma serialize_messages_spec s :
  outbound_ok s →
  ∃ s' r, serialize_messages s = Done (s', r) ∧
    (outbound_sections s = [] ∧ s' = s ∧ r = Ok tt ∨
     ∃ out, packed (set_outbound [] s) s' out ∧
       match r with
       | Ok _ => framed (max_message_size s) (outbound_sections s) (mjoin out)
       | Err e => ∃ e', e = BsonWriteFailed e'
       end).
Proof.
  intros Hok. unfold serialize_messages, outbound_ok in *. monad_unfold.
  destruct (outbound_sections s) as [|x l] eqn:Ho; [by eexists _, _; split; [done|left]|].
  destruct (serialize_impl_spec (length (x :: l)) (set_outbound [] s) _ (x :: l)
    (is_message_doc_default _)) as (s' & r & out & Heq & Hp & Hr); [done|done|by destruct s|].
  exists s', r. split; [exact Heq|]. right. exists out. split; [done|].
  replace (max_message_size (set_outbound [] s)) with (max_message_size s) in Hr by (by destruct s).
  done.
Qed.

(** [push_outbound_section] accepts exactly the sections that fit. *)
Lemma push_outbound_section_spec s sec :
  outbound_ok s → MIN_MESSAGE_SIZE ≤ max_message_size s →
  ∃ s' r, push_outbound_section sec s = Done (s', r) ∧ outbound_ok s' ∧
    match r with
    | Ok _ => s' = set_outbound (outbound_sections s ++ [section_into sec]) s ∧
              fits (max_message_size s) (section_into sec)
    | Err e => s' = s ∧
        ((∃ e', to_writer (section_into sec) = Err e' ∧ e = BsonWriteFailed e') ∨
         ¬ fits (max_message_size s) (section_into sec) ∧
         e = SectionTooLarge (doc_size (section_into sec)) (max_message_size s - MIN_MESSAGE_SIZE))
    end.
Proof.
  intros Hok Hmin. unfold push_outbound_section. monad_unfold.
  destruct (to_writer (section_into sec)) as [b|e] eqn:Hb.
  2: { unfold counted_size. rewrite Hb. simpl.
       exists s, (Err (BsonWriteFailed e)). split_and!; [done..|]. left. by exists e. }
  rewrite (counted_size_to_writer _ b Hb). unfold fits. case_bool_decide as Hs.
  - unfold outbound_ok, fits in *. destruct_session s. eexists _, (Ok tt).
    split_and!; [done| |done|simpl; lia]. apply Forall_app. split; [done|].
    constructor; [simpl; lia|done].
  - eexists s, (Err (SectionTooLarge _ _)). split_and!; [done..|]. right. split; [lia|done].
Qed.

(** * The write loop *)

Lemma write_loop_spec fuel data written total s :
  written + length data = total →
  write_loop fuel data written total s = OutOfFuel ∨
  ∃ st r, write_loop fuel data written total s = Done (set_stream st s, r) ∧
    received st = received (stream s) ∧
    match r with
    | Ok n => written ≤ n ≤ total ∧ sent st = sent (stream s) ++ take (n - written) data
    | Err e => (∃ k, e = WriterWriteFailed k) ∧ ∃ m, sent st = sent (stream s) ++ take m data
    end.
Proof.
  revert data written s. induction fuel as [|fuel IH]; intros data written s Htot;
    cbn [write_loop]; (case_decide as Hw;
      [right; exists (stream s), (Ok written); rewrite Nat.sub_diag, take_0, app_nil_r;
       (split_and!; [by destruct s|done|lia..|done])|]); [by left|].
  unfold do_write. monad_unfold.
  destruct (rw_write data (stream s)) as [[count|k] st] eqn:Hwr;
    pose proof (write_received data (stream s)) as Hrecv; rewrite Hwr in Hrecv; simpl in *.
  - apply write_ok in Hwr as [Hc Hs]. rewrite bool_decide_true by done. simpl.
    destruct (IH (drop count data) (written + count) (set_stream st s))
      as [->|(st' & r & -> & Hr & Hpost)]; [rewrite length_drop; lia|by left|]. right.
    replace (stream (set_stream st s)) with st in * by (by destruct s).
    exists st', r. split_and!; [by destruct s|congruence|]. destruct r as [n|e].
    + destruct Hpost as [Hn Hpost]. split; [lia|]. rewrite Hpost, Hs, <- app_assoc. f_equal.
      replace (n - written) with (count + (n - (written + count))) by lia.
      by rewrite <- take_take_drop.
    + destruct Hpost as [He [m Hpost]]. split; [done|]. exists (count + m).
      rewrite Hpost, Hs, <- app_assoc. f_equal. by rewrite <- take_take_drop.
  - apply write_err in Hwr. right. destruct (is_blocking k); simpl.
    + exists st, (Ok written). rewrite Nat.sub_diag, take_0, app_nil_r. split_and!; [done..|lia|lia|done].
    + exists st, (Err (WriterWriteFailed k)). split_and!; [done|done|by eexists|].
      exists 0. by rewrite take_0, app_nil_r.
Qed.

(** The loop ends when no write of data accepts nothing. *)
Lemma write_loop_terminates fuel data written total s :
  (∀ b st st', b ≠ [] → rw_write b st ≠ (IoOk 0, st')) →
  written + length data = total → length data ≤ fuel →
  write_loop fuel data written total s ≠ OutOfFuel.
Proof.
  intros Hprog. revert data written s.
  induction fuel as [|fuel IH]; intros data written s Htot Hf; cbn [write_loop];
    case_decide as Hw; try done; [lia|].
  unfold do_write. monad_unfold.
  destruct (rw_write data (stream s)) as [[count|k] st] eqn:Hwr; [|by destruct (is_blocking k)].
  pose proof (write_ok _ _ _ _ Hwr) as [Hc _]. rewrite bool_decide_true by done. simpl.
  destruct count as [|count].
  { destruct data; [simpl in *; lia|]. by apply Hprog in Hwr. }
  apply IH; rewrite length_drop; lia.
Qed.

(** The write buffer as the session keeps it between calls. *)
Definition buffer_ok s : Prop :=
  vd_wf (message_write_buffer s) ∧ vd_contiguous (message_write_buffer s) = true.

Definition unsent s : bytes := vd_data (message_write_buffer s).

(** What writing leaves of a session. *)
Definition write_frame s s' : Prop :=
  ∃ st wb, s' = set_stream st (set_write_buffer wb s) ∧ received st = received (stream s).

Lemma write_pending_data_spec fuel s :
  buffer_ok s →
  write_pending_data fuel s = OutOfFuel ∨
  ∃ s' r, write_pending_data fuel s = Done (s', r) ∧ write_frame s s' ∧ buffer_ok s' ∧
    match r with
    | Ok _ => sent (stream s') ++ unsent s' = sent (stream s) ++ unsent s
    | Err e => (∃ k, e = WriterWriteFailed k) ∧ ∃ m, sent (stream s') = sent (stream s) ++ take m (unsent s)
    end.
Proof.
  intros [Hwf Hc]. unfold write_pending_data, write_pending_data_impl, do_flush. monad_unfold.
  rewrite (proj2 (vd_as_slices_contiguous _ Hwf) Hc). rewrite bool_decide_true by done. simpl.
  fold (unsent s).
  destruct (write_loop_spec fuel (unsent s) 0 (length (unsent s)) s) as [->|(st & r & -> & Hrecv & Hr)];
    [done|by left|]. right. rewrite ?Nat.sub_0_r in Hr.
  destruct r as [n|e].
  2: { destruct Hr as [He Hm]. exists (set_stream st s), (Err e). destruct_session s. unfold unsent, buffer_ok; simpl.
       split_and!; [done|by exists st, wb|done..]. }
  destruct Hr as [[_ Hn] Hs]. rewrite Nat.sub_0_r in Hs.
  replace (stream (set_stream st s)) with st by (by destruct s).
  destruct (rw_flush st) as [[[]|k] st'] eqn:Hfl;
    pose proof (flush_sent st) as Hfs; pose proof (flush_received st) as Hfr;
    rewrite Hfl in Hfs, Hfr; simpl in Hfs, Hfr; unfold unsent, buffer_ok in *; destruct_session s.
  - eexists _, (Ok tt). split_and!; [done|by eexists _, _; split; [done|simpl; congruence]|..]; simpl;
      rewrite (vd_make_contiguous_id _ (vd_drain_contiguous _ n Hwf Hc)).
    + by apply vd_drain_wf.
    + by apply vd_drain_contiguous.
    + by rewrite vd_drain_data, Hfs, Hs, <- app_assoc, take_drop.
  - eexists _, (Err _). split_and!; [done|by eexists st', wb; split; [|simpl; congruence]|done|done|by eexists|].
    exists n. simpl. congruence.
Qed.

(** When the contents wrapped around the end of the ring the assertion fires. *)
Lemma write_pending_data_wrapped fuel s :
  vd_wf (message_write_buffer s) → vd_contiguous (message_write_buffer s) = false →
  write_pending_data fuel s = Panicked.
Proof.
  intros Hwf Hc. unfold write_pending_data, write_pending_data_impl. monad_unfold.
  destruct (vd_as_slices (message_write_buffer s)) as [a e] eqn:Hs.
  rewrite bool_decide_false; [done|]. intros ->.
  assert (vd_contiguous (message_write_buffer s) = true); [|congruence].
  apply vd_as_slices_contiguous; [done|]. rewrite Hs. f_equal.
  unfold vd_as_slices in Hs. simplify_eq. rewrite <- (take_drop (vd_cap (message_write_buffer s) -
    vd_head (message_write_buffer s)) (vd_data (message_write_buffer s))) at 2.
  match goal with H : drop _ _ = [] |- _ => by rewrite H, app_nil_r end.
Qed.

Lemma write_pending_data_terminates fuel s :
  (∀ b st st', b ≠ [] → rw_write b st ≠ (IoOk 0, st')) →
  length (unsent s) ≤ fuel → write_pending_data fuel s ≠ OutOfFuel.
Proof.
  intros Hprog Hf. unfold write_pending_data, write_pending_data_impl, do_flush. monad_unfold.
  destruct (vd_as_slices (message_write_buffer s)) as [a e] eqn:Hs.
  case_bool_decide; [|done]. simpl.
  assert (length a ≤ fuel) as Ha.
  { unfold vd_as_slices in Hs. simplify_eq. rewrite length_take. unfold unsent in Hf. lia. }
  pose proof (write_loop_terminates fuel a 0 (length a) s Hprog eq_refl Ha).
  destruct (write_loop _ _ _ _ _) as [[s1 [n|]]| |]; try done.
  destruct (rw_flush (stream s1)) as [[|] ?]; done.
Qed.

End write.
