(* ===== verification/HonkChannel.v ===== *)
(** Two sessions connected by a byte stream: what one packs into messages, the
    other takes apart into the same sections, whatever way the stream cuts the
    bytes up. *)

From Stdlib Require Import ZArith Lia.
From S2P Require Import Prelude Bson HonkWire HonkSize VecDeque HonkSession HonkRead HonkWrite.
From stdpp Require Import prelude strings list.
From coqutil Require Import Byte Word.LittleEndianList.

Open Scope nat_scope.

Section frames.
Context `{BL : BsonLaws} {RW : Type} `{SL : StreamLaws RW}.
Implicit Types (s : Session RW).

(** * Frames determine the stream *)

Lemma frame_inj max max' f f' a b :
  frame max f → frame max' f' → f ++ a = f' ++ b → f = f' ∧ a = b.
Proof.
  intros [Hh Hl] [Hh' Hl'] Heq. apply app_inj_1; [|done].
  assert (take 4 f = take 4 f') as H4.
  { rewrite <- (take_app_le f a 4), <- (take_app_le f' b 4) by lia. by rewrite Heq. }
  rewrite H4, Hh' in Hh. lia.
Qed.

(** A reader cuts a stream of frames at the frames' borders. *)
Lemma frames_cut max max' frames frames' rest later :
  Forall (frame max) frames → Forall (frame max') frames' →
  mjoin frames' ++ rest ++ later = mjoin frames →
  ∃ k, frames' = take k frames ∧ rest ++ later = mjoin (drop k frames).
Proof.
  revert frames. induction frames' as [|f' frames' IH]; intros frames Hall Hall' Heq.
  { exists 0. by rewrite take_0, drop_0. }
  apply Forall_cons in Hall' as [Hf' Hall'].
  destruct frames as [|f frames]; simpl in Heq.
  { destruct Hf' as [_ Hl]. destruct f'; simpl in *; [lia|done]. }
  apply Forall_cons in Hall as [Hf Hall]. rewrite <- app_assoc in Heq.
  apply (frame_inj max' max) in Heq as [-> Heq]; [|done..].
  destruct (IH frames Hall Hall' Heq) as (k & -> & Hr). by exists (S k).
Qed.

(** What is left in the buffer of a reader cannot hold a whole frame. *)
Lemma reader_ok_partial max f later s rest :
  reader_ok s → frame max f → message_read_buffer s ++ later = f ++ rest →
  length (message_read_buffer s) < length f.
Proof.
  intros Hok [Hh Hl] Heq. unfold reader_ok in Hok.
  destruct (remaining_byte_count s) as [r|]; [|lia].
  destruct Hok as (H4 & Hr & [Ha _] & _).
  assert (take 4 (message_read_buffer s) = take 4 f) as Ht.
  { rewrite <- (take_app_le (message_read_buffer s) later 4), <- (take_app_le f rest 4) by lia.
    by rewrite Heq. }
  rewrite Ht, Hh in Ha. lia.
Qed.

Lemma decoded_frames max frames msgs :
  Forall2 (decoded max) frames msgs → Forall (frame max) frames.
Proof. induction 1 as [|f m ? ? [Hf _]]; by constructor. Qed.

Lemma decoded_take max max' frames msgs msgs' k :
  Forall2 (decoded max) frames msgs → Forall2 (decoded max') (take k frames) msgs' →
  msgs' = take k msgs.
Proof.
  intros Hall. revert k msgs'.
  induction Hall as [|f m frames msgs [_ Hd] Hall IH]; intros [|k] msgs' Hall';
    simpl in *; inversion Hall' as [|? m' ? ? [_ Hd']]; subst; try done.
  rewrite Hd in Hd'. simplify_eq. f_equal. by apply IH.
Qed.

Lemma decoded_at max frames msgs k f fs :
  Forall2 (decoded max) frames msgs → drop k frames = f :: fs → ∃ m, decoded max f m.
Proof.
  intros Hall Hd. apply (Forall2_drop _ _ _ k) in Hall. rewrite Hd in Hall.
  inversion Hall; subst; eauto.
Qed.

(** * Reading a stream of well-formed messages *)

(** No prefix of such a stream looks like a protocol error. *)
Lemma no_protocol_error max frames msgs k rest later e :
  Forall2 (decoded max) frames msgs → rest ++ later = mjoin (drop k frames) →
  ¬ (bad_header max rest e ∨ (frame max rest ∧ decode_frame rest = Err e)).
Proof.
  intros Hall Hrest Hbad.
  destruct (drop k frames) as [|f fs] eqn:Hd; simpl in Hrest.
  { apply app_eq_nil in Hrest as [-> _]. destruct Hbad as [[Hl _]|[[_ Hl] _]]; simpl in *; lia. }
  destruct (decoded_at _ _ _ _ _ _ Hall Hd) as (m & Hf & Hdec).
  destruct Hbad as [[Hl Hbad]|[Hfr Hbad]].
  - assert (rest = take 4 f) as ->.
    { destruct Hf as [_ ?]. rewrite <- (take_app_le f (mjoin fs) 4), <- Hrest by lia.
      by rewrite take_app_le, take_ge by lia. }
    destruct Hf as [Hh Hlen]. rewrite Hh in Hbad. destruct_or! Hbad; destruct_and! Hbad; lia.
  - apply (frame_inj max max) in Hrest as [-> _]; [|done..]. congruence.
Qed.

(** When the whole stream has arrived, nothing of it is left in the buffer. *)
Lemma whole_stream_read max frames msgs k s :
  Forall2 (decoded max) frames msgs → reader_ok s →
  message_read_buffer s = mjoin (drop k frames) →
  take k msgs = msgs ∧ message_read_buffer s = [].
Proof.
  intros Hall Hok Hb. destruct (drop k frames) as [|f fs] eqn:Hd; simpl in Hb.
  - split; [|done]. apply take_ge. rewrite <- (Forall2_length _ _ _ Hall).
    apply (f_equal length) in Hd. rewrite length_drop in Hd. simpl in Hd. lia.
  - destruct (decoded_at _ _ _ _ _ _ Hall Hd) as (m & Hf & _).
    assert (length (message_read_buffer s) < length f)
      by (eapply (reader_ok_partial _ f [] s (mjoin fs)); [done..|]; by rewrite app_nil_r).
    rewrite Hb, length_app in *. lia.
Qed.

(** Fed with (part of) a sequence of decodable frames, the reader reports no
    protocol error, and queues the sections of exactly the frames that are
    complete. *)
Lemma reader_follows fuel s s' r new later frames msgs :
  reader_ok s → read_sections fuel s = Done (s', r) →
  received (stream s') = received (stream s) ++ new →
  Forall2 (decoded (max_message_size s)) frames msgs →
  message_read_buffer s ++ new ++ later = mjoin frames →
  (r = Ok tt ∨ ∃ e, r = Err e ∧ io_error e = true) ∧
  ∃ k, sections_frame s s' (take k msgs) ∧
    message_read_buffer s' ++ later = mjoin (drop k frames) ∧ reader_ok s' ∧
    (later = [] → take k msgs = msgs ∧ message_read_buffer s' = []).
Proof.
  intros Hok Hread Hnew Hall Heq.
  destruct (read_sections_spec fuel s Hok) as [?|(s1 & r1 & new1 & Hread1 & Hnew1 & Hpost)];
    [congruence|]. rewrite Hread1 in Hread. simplify_eq.
  rewrite Hnew1 in Hnew. apply app_inv_head in Hnew as ->.
  destruct Hpost as (frames' & msgs' & rest & Hb & Hall' & Hsf & Hr).
  rewrite app_assoc, Hb, <- app_assoc in Heq.
  destruct (frames_cut _ _ _ _ _ _ (decoded_frames _ _ _ Hall) (decoded_frames _ _ _ Hall') Heq)
    as (k & -> & Hrest).
  pose proof (decoded_take _ _ _ _ _ _ Hall Hall') as ->.
  assert ((r = Ok tt ∨ ∃ e, r = Err e ∧ io_error e = true) ∧
          reader_ok s' ∧ message_read_buffer s' = rest) as (Hres & Hok' & <-).
  { destruct r as [[]|e]; [destruct Hr; split_and!; auto|].
    destruct Hr as [(He & ? & ? & _)|Hbad]; [split_and!; eauto|].
    by apply (no_protocol_error _ _ _ _ _ _ e Hall) in Hrest. }
  split; [done|]. exists k. split_and!; [done..|]. intros ->. rewrite app_nil_r in Hrest.
  by eapply whole_stream_read.
Qed.

(** * From sections to bytes and back *)

(** A packed message decodes to its sections. *)
Lemma packed_message_decodes max d b ss :
  is_message_doc d (map section_into ss) → ss ≠ [] → to_writer d = Ok b → length b ≤ max →
  Forall (λ sec, wire_section sec = true) ss →
  decoded max b (mkMessage HONK_RPC_VERSION ss).
Proof.
  intros (H1 & H2 & _) Hne Hb Hl Hw. split.
  - apply to_writer_header in Hb as [Hsz Hh]. split; [|lia].
    apply header_i32_length; [rewrite length_take; lia|done|lia].
  - unfold decode_frame. rewrite (from_reader_to_writer d b Hb). simpl.
    erewrite message_try_from_doc by (done || by destruct ss).
    rewrite map_map, sections_roundtrip by done. done.
Qed.

Lemma map_app_inv {A B} (f : A → B) l l1 l2 :
  map f l = l1 ++ l2 → ∃ k1 k2, l = k1 ++ k2 ∧ map f k1 = l1 ∧ map f k2 = l2.
Proof.
  revert l1. induction l as [|x l IH]; intros [|y l1] Heq; simpl in *; try discriminate.
  - by exists [], [].
  - by exists [], (x :: l).
  - injection Heq as <- Heq. destruct (IH l1 Heq) as (k1 & k2 & -> & <- & <-). by exists (x :: k1), k2.
Qed.

(** Packed bytes are decodable frames holding the sections in order. *)
Lemma framed_decodes max ds b :
  framed max ds b → ∀ ss, ds = map section_into ss →
  Forall (λ sec, wire_section sec = true) ss →
  ∃ frames msgs, b = mjoin frames ∧ Forall2 (decoded max) frames msgs ∧
    mjoin (map msg_sections msgs) = ss.
Proof.
  induction 1 as [d sections b Hd Hne Hb Hl|l r bl br _ IHl _ IHr]; intros ss Hss Hw.
  - exists [b], [mkMessage HONK_RPC_VERSION ss]. simpl. rewrite !app_nil_r. split_and!; [done| |done].
    constructor; [|constructor]. subst. eapply packed_message_decodes; eauto. by intros ->.
  - symmetry in Hss. apply map_app_inv in Hss as (k1 & k2 & -> & <- & <-).
    apply Forall_app in Hw as [Hw1 Hw2].
    destruct (IHl k1 eq_refl Hw1) as (f1 & m1 & -> & Hf1 & <-).
    destruct (IHr k2 eq_refl Hw2) as (f2 & m2 & -> & Hf2 & <-).
    exists (f1 ++ f2), (m1 ++ m2). rewrite map_app, !join_app. split_and!; [done| |done].
    by apply Forall2_app.
Qed.

Lemma decoded_mono max max' frames msgs :
  max ≤ max' → Forall2 (decoded max) frames msgs → Forall2 (decoded max') frames msgs.
Proof.
  intros Hm Hall. eapply Forall2_impl; [exact Hall|]. intros f m [[Hh Hl] Hd]. repeat split; try done; lia.
Qed.

(** * Several polls *)

(** Any number of successful calls of [read_sections]. *)
Inductive polls : Session RW → Session RW → Prop :=
| polls_refl s : polls s s
| polls_step s s1 s2 fuel :
    polls s s1 → read_sections fuel s1 = Done (s2, Ok tt) → polls s s2.

Lemma sections_frame_trans s s1 s2 m1 m2 :
  sections_frame s s1 m1 → sections_frame s1 s2 m2 → sections_frame s s2 (m1 ++ m2).
Proof.
  unfold sections_frame. intros (st & t & rem & buf & -> & H1) (st' & t' & rem' & buf' & -> & H2).
  unfold after_read in *. destruct_session s. exists st', t', rem', buf'. simpl.
  split; [|congruence]. by rewrite map_app, join_app, app_assoc.
Qed.

Lemma sections_frame_max s s' msgs :
  sections_frame s s' msgs → max_message_size s' = max_message_size s.
Proof. intros (? & ? & ? & ? & -> & _). by destruct s. Qed.

Lemma read_sections_more fuel s s' :
  reader_ok s → read_sections fuel s = Done (s', Ok tt) →
  reader_ok s' ∧ ∃ new, received (stream s') = received (stream s) ++ new.
Proof.
  intros Hok Hread. destruct (read_sections_spec fuel s Hok) as [?|(? & ? & new & Hr & Hn & Hp)];
    [congruence|]. rewrite Hr in Hread. simplify_eq.
  destruct Hp as (? & ? & ? & _ & _ & _ & ? & _). eauto.
Qed.

Lemma polls_more s s' :
  polls s s' → reader_ok s →
  reader_ok s' ∧ ∃ new, received (stream s') = received (stream s) ++ new.
Proof.
  induction 1 as [s|s s1 s2 fuel Hpolls IH Hread]; intros Hok.
  { split; [done|]. exists []. by rewrite app_nil_r. }
  destruct (IH Hok) as [Hok1 [new1 Hn1]].
  destruct (read_sections_more _ _ _ Hok1 Hread) as [Hok2 [new2 Hn2]].
  split; [done|]. exists (new1 ++ new2). by rewrite Hn2, Hn1, app_assoc.
Qed.

(** However the bytes are cut into reads, the sections of the complete frames are
    queued, in order. *)
Lemma polls_follow s s' :
  polls s s' → ∀ new later frames msgs, reader_ok s →
  received (stream s') = received (stream s) ++ new →
  Forall2 (decoded (max_message_size s)) frames msgs →
  message_read_buffer s ++ new ++ later = mjoin frames →
  ∃ k, sections_frame s s' (take k msgs) ∧
    message_read_buffer s' ++ later = mjoin (drop k frames) ∧ reader_ok s'.
Proof.
  induction 1 as [s|s s1 s2 fuel Hpolls IH Hread]; intros new later frames msgs Hok Hnew Hall Heq.
  { rewrite <- (app_nil_r (received _)) in Hnew at 1. apply app_inv_head in Hnew as <-.
    exists 0. split_and!; [|done..]. rewrite take_0. apply sections_frame_nil, reader_frame_refl. }
  destruct (polls_more _ _ Hpolls Hok) as [Hok1 [new1 Hn1]].
  destruct (read_sections_more _ _ _ Hok1 Hread) as [_ [new2 Hn2]].
  assert (new = new1 ++ new2) as -> by (rewrite Hn2, Hn1, <- app_assoc in Hnew; by apply app_inv_head in Hnew).
  rewrite <- app_assoc in Heq.
  destruct (IH new1 (new2 ++ later) frames msgs Hok Hn1 Hall Heq) as (k1 & Hsf & Hb & _).
  destruct (reader_follows fuel s1 s2 (Ok tt) new2 later (drop k1 frames) (drop k1 msgs))
    as (_ & k2 & Hsf2 & Hb2 & Hok2 & _); [done..| |done|].
  { rewrite (sections_frame_max _ _ _ Hsf). by apply Forall2_drop. }
  exists (k1 + k2). rewrite drop_drop in Hb2. split_and!; [|done..].
  rewrite <- take_take_drop. by eapply sections_frame_trans.
Qed.

(** Sections packed by a sender: any reader polling the sender's bytes. *)
Lemma framed_delivery max ss w s s' new later :
  framed max (map section_into ss) w → Forall (λ sec, wire_section sec = true) ss →
  reader_ok s → message_read_buffer s = [] → max ≤ max_message_size s →
  polls s s' → received (stream s') = received (stream s) ++ new → w = new ++ later →
  ∃ got, pending_sections s' = pending_sections s ++ got ∧ got `prefix_of` ss ∧
    (later = [] → got = ss ∧ message_read_buffer s' = []) ∧
    ∀ fuel e s2 new2 later2,
      read_sections fuel s' = Done (s2, Err e) →
      received (stream s2) = received (stream s') ++ new2 → later = new2 ++ later2 →
      io_error e = true.
Proof.
  intros Hf Hw Hok Hb Hmax Hpolls Hnew ->.
  destruct (framed_decodes _ _ _ Hf ss eq_refl Hw) as (frames & msgs & Hj & Hall & <-).
  apply (decoded_mono _ _ _ _ Hmax) in Hall.
  destruct (polls_follow _ _ Hpolls new later frames msgs) as (k & Hsf & Hb' & Hok'); [done..| |].
  { by rewrite Hb. }
  exists (mjoin (map msg_sections (take k msgs))). split_and!.
  - destruct Hsf as (? & ? & ? & ? & -> & _). by destruct s.
  - exists (mjoin (map msg_sections (drop k msgs))). by rewrite <- join_app, <- map_app, take_drop.
  - intros ->. rewrite app_nil_r in Hb'.
    by destruct (whole_stream_read _ _ _ _ _ Hall Hok' Hb') as [-> ?].
  - intros fuel e s2 new2 later2 Hread Hn2 ->.
    destruct (reader_follows fuel s' s2 (Err e) new2 later2 (drop k frames) (drop k msgs))
      as ([?|(e' & He & Hio)] & _); try done; [|congruence].
    rewrite (sections_frame_max _ _ _ Hsf). by apply Forall2_drop.
Qed.

End frames.
