(* ===== verification/HonkUpdate.v ===== *)
(** One turn of a session, [Session::update]: dispatch of the received requests to
    the apisets, and the invariant of the whole session. *)

From Stdlib Require Import ZArith Lia.
From S2P Require Import Prelude Bson HonkWire HonkSize VecDeque HonkSession HonkRead HonkWrite.
From stdpp Require Import prelude strings list.

Open Scope nat_scope.

(** * Finding the apiset of a request *)

Section search.
Context `{BL : BsonLib} {A : Type} `{!ApiSet A}.
Implicit Types (apisets : list A).

(** "a slice of mutable ApiSet references sorted by their namespaces" *)
Definition sorted_apisets apisets : Prop :=
  ∀ i j a b, i < j → apisets !! i = Some a → apisets !! j = Some b →
    String.compare (namespace a) (namespace b) = Lt.

Lemma compare_refl k : String.compare k k = Eq.
Proof.
  pose proof (String.compare_antisym k k) as H. by destruct (String.compare k k).
Qed.

(** The search finds the key whenever it lies between the two bounds. *)
Lemma binary_search_spec fuel apisets key left right :
  sorted_apisets apisets → right ≤ length apisets → right - left < fuel →
  match binary_search fuel apisets key left right with
  | Some i => ∃ a, apisets !! i = Some a ∧ namespace a = key
  | None => ∀ i a, left ≤ i < right → apisets !! i = Some a → namespace a ≠ key
  end.
Proof.
  intros Hsort. revert left right. induction fuel as [|fuel IH]; intros left right Hr Hf; [lia|].
  cbn [binary_search]. case_decide as Hlr; [|intros; lia].
  set (mid := left + (right - left) / 2).
  assert (left ≤ mid < right) as Hmid.
  { unfold mid. pose proof (Nat.div_lt (right - left) 2). lia. }
  destruct (apisets !! mid) as [probe|] eqn:Hp.
  2: { apply lookup_ge_None in Hp. lia. }
  destruct (String.compare (namespace probe) key) eqn:Hc.
  - apply String.compare_eq_iff in Hc. eauto.
  - specialize (IH (S mid) right Hr ltac:(lia)). destruct (binary_search _ _ _ _ _); [done|].
    intros i a Hi Ha Hk. destruct (decide (S mid ≤ i)) as [Hge|Hlt]; [by eapply (IH i); eauto; lia|].
    subst key. destruct (decide (i = mid)) as [->|]; [simplify_eq; by rewrite compare_refl in Hc|].
    pose proof (Hsort i mid a probe ltac:(lia) Ha Hp) as Hs.
    rewrite String.compare_antisym, Hc in Hs. done.
  - specialize (IH left mid ltac:(lia) ltac:(lia)). destruct (binary_search _ _ _ _ _); [done|].
    intros i a Hi Ha Hk. destruct (decide (i < mid)) as [Hlt|Hge]; [by eapply (IH i); eauto; lia|].
    subst key. destruct (decide (i = mid)) as [->|]; [simplify_eq; by rewrite compare_refl in Hc|].
    pose proof (Hsort mid i probe a ltac:(lia) Hp Ha) as Hs. by rewrite Hc in Hs.
Qed.

Lemma find_apiset_spec apisets key :
  sorted_apisets apisets →
  match find_apiset apisets key with
  | Some i => ∃ a, apisets !! i = Some a ∧ namespace a = key
  | None => Forall (λ a, namespace a ≠ key) apisets
  end.
Proof.
  intros Hs. unfold find_apiset.
  pose proof (binary_search_spec (S (length apisets)) apisets key 0 (length apisets) Hs
    ltac:(lia) ltac:(lia)) as H.
  destruct (binary_search _ _ _ _ _); [done|]. apply Forall_lookup. intros i a Ha.
  apply (H i a); [|exact Ha]. apply lookup_lt_Some in Ha. lia.
Qed.

Lemma binary_search_bound fuel apisets key left right i :
  binary_search fuel apisets key left right = Some i → is_Some (apisets !! i).
Proof.
  revert left right. induction fuel as [|fuel IH]; intros left right; [done|].
  cbn [binary_search]. case_decide; [|intros [=]].
  set (mid := left + _). destruct (apisets !! mid) as [probe|] eqn:Hp; [|intros [=]].
  destruct (String.compare (namespace probe) key); [intros [= <-]; eauto|apply IH..].
Qed.

End search.

(** * What an apiset promises to the session *)

Class ApiSetLaws `{BL : BsonLib} (A : Type) `{!ApiSet A} : Type := {
  api_inv : A → Prop;
  exec_inv a f v args c : api_inv a → api_inv (exec_function a f v args c).2;
  update_inv a : api_inv a → api_inv (api_update a);
  next_result_inv a :
    api_inv a → ∃ r a', next_result a = Done (r, a') ∧ api_inv a';
  (** results waiting to be collected: each one returned uses up a bit of it *)
  api_results : A → nat;
  next_result_decreases a x a' :
    api_inv a → next_result a = Done (Some x, a') → api_results a' < api_results a;
}.

(** * The invariant of a session *)

Section update.
Context `{BL : BsonLaws} {RW : Type} `{SL : StreamLaws RW}.
Context {A : Type} `{AL : !ApiSet A} `{AP : !ApiSetLaws A}.
Implicit Types (s : Session RW).

Definition session_ok s : Prop :=
  reader_ok s ∧ outbound_ok s ∧ MIN_MESSAGE_SIZE ≤ max_message_size s ∧
  vd_wf (message_write_buffer s).

(** The write buffer starts at the beginning of its ring. *)
Definition buffer_home s : Prop := vd_head (message_write_buffer s) = 0.

Definition turn_ok (sa : Session RW * list A) : Prop :=
  session_ok sa.1 ∧ buffer_home sa.1 ∧ Forall api_inv sa.2.

Lemma session_new_ok (st : RW) : session_ok (session_new st) ∧ buffer_home (session_new st).
Proof.
  unfold session_new, session_ok, buffer_home, reader_ok, outbound_ok, vd_wf.
  destruct (rw_now st). simpl. split_and!; try done; try constructor; unfold MIN_MESSAGE_SIZE,
    DEFAULT_MAX_MESSAGE_SIZE, HEADER_SIZE, HONK_RPC_SIZE, SECTIONS_SIZE, FOOTER_SIZE; lia.
Qed.

Lemma keeps_on_session {X} (m : M (Session RW) HonkError X) :
  keeps (λ s, session_ok s ∧ buffer_home s) m → keeps turn_ok (on_session m).
Proof.
  intros Hm [s apisets] (Hs & Hh & Ha). unfold on_session. simpl in *.
  specialize (Hm s (conj Hs Hh)). destruct (m s) as [[s' r]| |]; [|done..].
  destruct Hm. by split_and!.
Qed.

Lemma reader_frame_ok s s' : reader_frame s s' → reader_ok s' → session_ok s → session_ok s'.
Proof.
  intros Hf Hok (_ & Ho & Hm & Hw). apply reader_frame_fields in Hf as (_ & _ & H1 & _ & H2 & H3 & _).
  unfold session_ok, outbound_ok. by rewrite H1, H2, H3.
Qed.

Lemma sections_frame_ok s s' msgs :
  sections_frame s s' msgs → reader_ok s' → session_ok s ∧ buffer_home s →
  session_ok s' ∧ buffer_home s'.
Proof.
  intros Hf Hok [Hs Hh]. split.
  - eapply reader_frame_ok; [done..|]. by destruct s.
  - apply reader_frame_fields in Hf as (_ & _ & _ & _ & _ & H3 & _).
    unfold buffer_home. rewrite H3. by destruct s.
Qed.

(** After a protocol error only the reader's own fields are out of order. *)
Lemma read_sections_keeps fuel :
  triple (λ s, session_ok s ∧ buffer_home s) (read_sections fuel)
    (λ s r, match r with Ok _ => session_ok s ∧ buffer_home s | Err _ => True end).
Proof.
  intros s [Hs Hh]. pose proof Hs as (Hr & _).
  destruct (read_sections_spec fuel s Hr) as [->|(s' & r & new & -> & _ & Hpost)]; [done|].
  destruct Hpost as (frames & msgs & rest & _ & _ & Hsf & Hpost).
  destruct r; [|done]. by eapply sections_frame_ok; [|apply Hpost|].
Qed.

Lemma process_section_keeps sec :
  keeps (λ s, session_ok s ∧ buffer_home s) (process_section sec).
Proof.
  unfold process_section. destruct sec as [e|q|p];
    [destruct (es_cookie e)| |destruct (rs_state p)]; eauto with gosling;
    apply keeps_modify; by intros [] [].
Qed.

Lemma process_sections_keeps :
  keeps (λ s, session_ok s ∧ buffer_home s) process_sections.
Proof.
  apply keeps_bind; [apply keeps_get|]. intros s. generalize (pending_sections s) as q.
  induction q as [|sec q IH]; simpl; [apply keeps_ret|].
  apply keeps_bind; [apply keeps_modify; by intros [] []|intros _].
  apply keeps_bind; [apply process_section_keeps|done].
Qed.

Lemma push_outbound_section_keeps sec :
  keeps (λ s, session_ok s ∧ buffer_home s) (push_outbound_section sec).
Proof.
  intros s [(Hr & Ho & Hm & Hw) Hh].
  destruct (push_outbound_section_spec s sec Ho Hm) as (s' & r & -> & Ho' & Hr').
  destruct r as [[]|e]; destruct Hr' as [-> _]; [|done]. by destruct s.
Qed.

Hint Resolve process_sections_keeps push_outbound_section_keeps keeps_on_session : gosling.

Lemma exec_at_keeps idx request :
  triple (λ sa, turn_ok sa ∧ is_Some (sa.2 !! idx)) (exec_at idx request) (λ sa _, turn_ok sa).
Proof.
  intros [s apisets] [(Hs & Hh & Ha) [a Hi]]. unfold exec_at. simpl in *. rewrite Hi.
  pose proof (exec_inv a (rq_function request) (rq_version request) (rq_arguments request)
    (rq_cookie request)) as Hx.
  destruct (exec_function _ _ _ _ _) as [r a']. simpl in *. split_and!; [done..|].
  apply Forall_insert; [done|]. apply Hx. by eapply Forall_lookup_1.
Qed.

Lemma handle_request_keeps request : keeps turn_ok (handle_request request).
Proof.
  intros sa Hsa. unfold handle_request. monad_unfold.
  destruct (find_apiset sa.2 _) as [idx|] eqn:Hf.
  - apply binary_search_bound in Hf.
    pose proof (exec_at_keeps idx request sa (conj Hsa Hf)) as Hx.
    destruct (exec_at idx request sa) as [[sa' [r|e]]| |]; [|done..].
    destruct r as [[r|e]|]; try destruct (rq_cookie request); try done;
      by apply keeps_on_session; [apply push_outbound_section_keeps|].
  - by apply keeps_on_session; [apply push_outbound_section_keeps|].
Qed.

Lemma handle_request_list_keeps requests : keeps turn_ok (handle_request_list requests).
Proof.
  induction requests as [|q qs IH]; simpl; [apply keeps_ret|].
  apply keeps_bind; [apply handle_request_keeps|done].
Qed.

Lemma update_at_keeps idx : keeps turn_ok (update_at idx).
Proof.
  intros [s apisets] (Hs & Hh & Ha). unfold update_at. simpl. split_and!; [done..|].
  simpl in *. apply Forall_alter; [done|]. intros a Hi _. apply update_inv.
  by eapply Forall_lookup_1.
Qed.

Lemma next_result_at_keeps idx :
  triple (λ sa, turn_ok sa ∧ idx < length sa.2) (next_result_at idx)
    (λ sa _, turn_ok sa ∧ idx < length sa.2).
Proof.
  intros [s apisets] [(Hs & Hh & Ha) Hi]. unfold next_result_at. simpl in *.
  destruct (lookup_lt_is_Some_2 _ _ Hi) as [a Hl]. rewrite Hl.
  destruct (next_result_inv a) as (r & a' & -> & Ha'); [by eapply Forall_lookup_1|].
  unfold turn_ok. simpl. split; [|by rewrite length_insert].
  split_and!; [done..|]. by apply Forall_insert.
Qed.

Lemma push_turn_keeps idx sec :
  keeps (λ sa, turn_ok sa ∧ idx < length sa.2) (on_session (push_outbound_section sec)).
Proof.
  intros [s apisets] [Ht Hi].
  pose proof (keeps_on_session _ (push_outbound_section_keeps sec) (s, apisets) Ht) as Hk.
  unfold on_session in *. destruct (push_outbound_section sec s) as [[s' r]| |]; done.
Qed.

Lemma drain_results_keeps fuel idx :
  keeps (λ sa, turn_ok sa ∧ idx < length sa.2) (drain_results fuel idx).
Proof.
  induction fuel as [|fuel IH]; simpl; [done|].
  apply keeps_bind; [apply next_result_at_keeps|]. intros [[c [r|e]]|]; [..|apply keeps_ret];
    (apply keeps_bind; [apply push_turn_keeps|done]).
Qed.

Lemma drain_results_length fuel idx (sa sb : Session RW * list A) r :
  drain_results fuel idx sa = Done (sb, r) → length sb.2 = length sa.2.
Proof.
  revert sa. induction fuel as [|fuel IH]; intros [s apisets]; [discriminate|].
  cbn [drain_results]. unfold next_result_at, on_session. monad_unfold.
  destruct (apisets !! idx) as [a|]; [|discriminate].
  destruct (next_result a) as [[x a']| |]; [|discriminate..].
  destruct x as [[c [x|e]]|]; [..|by intros [= <- _]; simpl; rewrite length_insert];
    (match goal with |- context [push_outbound_section ?sec s] =>
       destruct (push_outbound_section sec s) as [[s' [[]|e']]| |] end;
     [intros ->%IH; simpl; by rewrite length_insert
     |intros [= <- _]; simpl; by rewrite length_insert|discriminate..]).
Qed.

Lemma update_apisets_keeps fuel n idx :
  keeps (λ sa, turn_ok sa ∧ idx + n ≤ length sa.2) (update_apisets fuel n idx).
Proof.
  revert idx. induction n as [|n IH]; intros idx; simpl; [apply keeps_ret|].
  intros sa [Ht Hl].
  assert (∀ sa', turn_ok sa' → length sa'.2 = length sa.2 →
    match drain_results fuel idx sa' with
    | Done (sb, _) => turn_ok sb ∧ length sb.2 = length sa.2
    | Panicked => False | OutOfFuel => True end) as Hd.
  { intros sa' Ht' Hl'. assert (idx < length sa'.2) as Hi by (rewrite Hl'; lia).
    pose proof (drain_results_keeps fuel idx sa' (conj Ht' Hi)) as Hk.
    destruct (drain_results fuel idx sa') as [[sb r]| |] eqn:E; [|done..].
    split; [by apply Hk|]. apply drain_results_length in E. congruence. }
  pose proof (update_at_keeps idx sa Ht) as Hu. unfold update_at in *. destruct sa as [s apisets].
  specialize (Hd (s, alter api_update idx apisets) Hu (length_alter _ _ _)).
  monad_unfold. simpl in *.
  destruct (drain_results fuel idx (s, alter api_update idx apisets)) as [[sb [[]|e]]| |];
    [|destruct Hd as [Hb Hlb]; split; [done|rewrite Hlb; lia]|done..].
  destruct Hd as [Hb Hlb]. assert (S idx + n ≤ length sb.2) as Hi by (rewrite Hlb; lia).
  specialize (IH (S idx) sb (conj Hb Hi)).
  destruct (update_apisets fuel n (S idx) sb) as [[sc r]| |]; [|done..].
  destruct IH as [? IH]. split; [done|simpl in *; lia].
Qed.

Lemma handle_requests_keeps fuel : keeps turn_ok (handle_requests fuel).
Proof.
  apply keeps_bind; [apply keeps_get|intros sa0].
  apply keeps_bind; [apply keeps_on_session, keeps_modify; by intros [] []|intros _].
  apply keeps_bind; [apply handle_request_list_keeps|intros _].
  intros sa Hsa. monad_unfold.
  pose proof (update_apisets_keeps fuel (length sa.2) 0 sa (conj Hsa (le_n _))) as Hu.
  destruct (update_apisets _ _ _ sa) as [[sb r]| |]; tauto.
Qed.

Lemma fold_append_home out d :
  vd_wf d → vd_head d = 0 →
  vd_wf (fold_left vd_append out d) ∧ vd_head (fold_left vd_append out d) = 0.
Proof.
  revert d. induction out as [|b out IH]; intros d Hw Hh; simpl; [done|].
  apply IH; by apply vd_append_home.
Qed.

Lemma serialize_messages_keeps :
  keeps (λ s, session_ok s ∧ buffer_home s) serialize_messages.
Proof.
  intros s [(Hr & Ho & Hm & Hw) Hh].
  destruct (serialize_messages_spec s Ho) as (s' & r & -> & [(_ & -> & _)|(out & [ser ->] & _)]).
  { done. }
  destruct (fold_append_home out (message_write_buffer s) Hw Hh).
  unfold session_ok, buffer_home, reader_ok, outbound_ok in *. destruct_session s.
  by split_and!.
Qed.

(** The invariant between two turns: after a turn that wrote everything the buffer is
    back at the start of its ring. *)
Definition after_turn (sa : Session RW * list A) : Prop :=
  session_ok sa.1 ∧ buffer_ok sa.1 ∧ Forall api_inv sa.2 ∧
  (unsent sa.1 = [] → buffer_home sa.1).

Lemma write_empties_home fuel s s' u :
  write_pending_data fuel s = Done (s', Ok u) → unsent s' = [] → buffer_home s'.
Proof.
  unfold write_pending_data, write_pending_data_impl, do_flush, unsent, buffer_home. monad_unfold.
  destruct (vd_as_slices _) as [a e]. case_bool_decide; [simpl|discriminate].
  destruct (write_loop _ _ _ _ _) as [[s1 [n|]]| |]; try discriminate.
  destruct (rw_flush (stream s1)) as [[|] st]; [|discriminate]. intros [= <-].
  destruct_session s1. rewrite vd_make_contiguous_data, vd_drain_data.
  intros Hd. unfold vd_drain_front. rewrite Hd. unfold vd_make_contiguous. by case_match.
Qed.

Lemma write_pending_data_turn fuel :
  triple (λ s, session_ok s ∧ buffer_home s) (write_pending_data fuel)
    (λ s r, match r with
            | Ok _ => session_ok s ∧ buffer_ok s ∧ (unsent s = [] → buffer_home s)
            | Err _ => True end).
Proof.
  intros s [(Hr & Ho & Hm & Hw) Hh].
  assert (buffer_ok s) as Hb by (split; [done|by apply vd_home_contiguous]).
  destruct (write_pending_data_spec fuel s Hb) as [->|(s' & r & Heq & (st & wb & -> & Hrecv) & Hb' & _)];
    [done|]. rewrite Heq. destruct r; [|done].
  assert (wb = vd_make_contiguous wb) as Hid.
  { symmetry. apply vd_make_contiguous_id. by destruct s, Hb'. }
  pose proof (proj1 Hb') as Hw'. unfold session_ok, reader_ok, outbound_ok, unsent, buffer_home in *.
  split_and!; try by destruct s. intros Hu. apply (write_empties_home _ _ _ _ Heq). by destruct s.
Qed.

Lemma on_session_triple {X} (m : M (Session RW) HonkError X) Q :
  triple (λ s, session_ok s ∧ buffer_home s) m (λ s r, match r with Ok _ => Q s | Err _ => True end) →
  triple turn_ok (on_session m)
    (λ sa r, match r with Ok _ => Q sa.1 ∧ Forall api_inv sa.2 | Err _ => True end).
Proof.
  intros Hm [s apisets] (Hs & Hh & Ha). specialize (Hm s (conj Hs Hh)).
  unfold on_session. simpl in *. by destruct (m s) as [[s' [x|e]]| |].
Qed.

Lemma read_sections_turn fuel :
  triple turn_ok (on_session (A:=A) (read_sections fuel))
    (λ sa r, match r with Ok _ => turn_ok sa | Err _ => True end).
Proof.
  eapply triple_conseq; [apply (on_session_triple _ _ (read_sections_keeps fuel))|done|].
  intros sa [u|e]; [|done]. intros [[] ?]. by split_and!.
Qed.

Lemma update_safe fuel :
  triple turn_ok (update (A:=A) fuel)
    (λ sa r, match r with Ok _ => after_turn sa | Err _ => True end).
Proof.
  eapply triple_bind; [apply (read_sections_turn fuel)|done|intros ?].
  eapply triple_bind; [apply keeps_on_session, process_sections_keeps|done|intros ?].
  eapply triple_bind; [apply handle_requests_keeps|done|intros ?].
  eapply triple_bind; [apply keeps_on_session, serialize_messages_keeps|done|intros ?].
  eapply triple_conseq; [apply (on_session_triple _ _ (write_pending_data_turn fuel))|done|].
  intros sa [u|e]; [|done]. intros [(? & ? & ?) ?]. by split_and!.
Qed.

(** * Every turn ends *)

Lemma read_sections_mono k s :
  read_sections k s ≠ OutOfFuel → read_sections (S k) s = read_sections k s.
Proof.
  revert s. induction k as [|k IH]; intros s Hk; [done|].
  change (read_sections (S (S k)) s) with
    ((r ← catch (E':=HonkError) read_message;
      match r with
      | Ok (Some message) =>
          _ ← modify (λ s, set_pending (pending_sections s ++ msg_sections message) s);
          read_sections (S k)
      | Ok None => mret tt
      | Err ((MessageReadTimedOut _ | ReaderReadFailed _) as err) =>
          s ← get_state;
          match pending_sections s, inbound_responses s with
          | [], [] => throw err
          | _, _ => mret tt
          end
      | Err err => throw err
      end) s).
  cbn [read_sections] in Hk |- *. monad_unfold.
  destruct (read_message s) as [[s1 [[m|]|e]]| |]; [|done..]. by apply IH.
Qed.

Lemma write_loop_mono k data written total s :
  write_loop k data written total s ≠ OutOfFuel →
  write_loop (S k) data written total s = write_loop k data written total s.
Proof.
  revert data written s. induction k as [|k IH]; intros data written s Hk.
  { cbn [write_loop] in *. by case_decide. }
  cbn [write_loop] in Hk. remember (S k) as k'. cbn [write_loop]. subst k'.
  cbn [write_loop]. case_decide; [done|].
  monad_unfold. destruct (do_write data s) as [[s1 [[n|e]|e]]| |]; try done.
  case_bool_decide; [|done]. by apply IH.
Qed.

Lemma write_pending_data_mono k s :
  write_pending_data k s ≠ OutOfFuel → write_pending_data (S k) s = write_pending_data k s.
Proof.
  unfold write_pending_data, write_pending_data_impl. monad_unfold.
  destruct (vd_as_slices _) as [a e]. case_bool_decide; [|done].
  unfold mret, M_ret. cbv beta iota. intros Hk.
  rewrite write_loop_mono; [done|]. intros Hl. by rewrite Hl in Hk.
Qed.

Lemma settles_on_session {X} (m : nat → M (Session RW) HonkError X) (sa : Session RW * list A) :
  settles m sa.1 → settles (λ n, on_session (m n)) sa.
Proof.
  destruct sa as [s apisets]. intros (n & o & Ho & Hm). simpl in Hm.
  exists n, (match o with Done (s', r) => Done ((s', apisets), r)
                     | Panicked => Panicked | OutOfFuel => OutOfFuel end).
  split; [by destruct o as [[]| |]|]. intros fuel Hf. unfold on_session. by rewrite Hm.
Qed.

Lemma push_returns sec (sa : Session RW * list A) :
  turn_ok sa → on_session (push_outbound_section sec) sa ≠ OutOfFuel.
Proof.
  destruct sa as [s apisets]. intros ((_ & Ho & Hm & _) & _). simpl in *.
  destruct (push_outbound_section_spec s sec Ho Hm) as (s' & r & Heq & _).
  unfold on_session. by rewrite Heq.
Qed.

Lemma handle_request_returns request (sa : Session RW * list A) :
  turn_ok sa → handle_request request sa ≠ OutOfFuel.
Proof.
  intros Ht. unfold handle_request. monad_unfold.
  destruct (find_apiset sa.2 _) as [idx|] eqn:Hf; [|by apply push_returns].
  apply binary_search_bound in Hf.
  pose proof (exec_at_keeps idx request sa (conj Ht Hf)) as Hx.
  destruct (exec_at idx request sa) as [[sb [r|e]]| |] eqn:He; [|done..|].
  - destruct r as [[r|e]|]; try destruct (rq_cookie request); by try apply push_returns.
  - unfold exec_at in He. destruct sa as [s apisets]. destruct (apisets !! idx); [|done].
    by destruct (exec_function _ _ _ _ _).
Qed.

Lemma handle_request_list_returns requests (sa : Session RW * list A) :
  turn_ok sa → handle_request_list requests sa ≠ OutOfFuel.
Proof.
  revert sa. induction requests as [|q qs IH]; intros sa Ht; [done|].
  pose proof (handle_request_returns q sa Ht) as Hr. pose proof (handle_request_keeps q sa Ht) as Hk.
  simpl. monad_unfold. destruct (handle_request q sa) as [[sb [[]|e]]| |]; try done. by apply IH.
Qed.

(** The results an apiset holds are drained, one per iteration. *)
Lemma drain_results_settles n idx (s : Session RW) apisets a :
  turn_ok (s, apisets) → apisets !! idx = Some a → api_results a < n →
  settles (λ fuel, drain_results fuel idx) (s, apisets).
Proof.
  revert s apisets a. induction n as [|n IH]; intros s apisets a Ht Hi Hn; [lia|].
  pose proof Ht as (Hs & Hh & Ha). simpl in Hs, Hh, Ha.
  pose proof (Forall_lookup_1 _ _ _ _ Ha Hi) as Hinv.
  destruct (next_result_inv a Hinv) as (r & a' & Hnext & Ha').
  assert (turn_ok (s, <[idx:=a']> apisets)) as Ht'.
  { split_and!; [done..|]. by apply Forall_insert. }
  assert (∀ cookie x sec, r = Some (cookie, x) →
    settles (λ fuel, _ ← on_session (push_outbound_section sec); drain_results fuel idx)
      (s, <[idx:=a']> apisets)) as Hnxt.
  { intros cookie x sec ->. pose proof (next_result_decreases a _ a' Hinv Hnext).
    destruct (push_outbound_section_spec s sec) as (s' & e & Hp & _); [by destruct Hs as (?&?&?&?)..|].
    pose proof (keeps_on_session _ (push_outbound_section_keeps sec) _ Ht') as Hk.
    unfold on_session in Hk. rewrite Hp in Hk.
    destruct (IH s' (<[idx:=a']> apisets) a' Hk) as (m & o & Ho & Hm); [|lia|].
    { apply list_lookup_insert_eq. by eapply lookup_lt_Some. }
    destruct e as [u|e]; [exists m, o|eexists m, (Done (_, Err e))]; (split; [done|]);
      intros fuel Hf; unfold on_session; monad_unfold; rewrite Hp; [by apply Hm|done]. }
  assert (settles (λ fuel, drain_results (S fuel) idx) (s, apisets)) as (m & o & Ho & Hm).
  { destruct r as [[cookie [x|e]]|].
    - destruct (Hnxt cookie (Ok x) (response_section cookie Complete x) eq_refl) as (m & o & Ho & Hm).
      exists m, o. split; [done|]. intros fuel Hf. rewrite <- (Hm fuel Hf).
      cbn [drain_results]. unfold next_result_at. monad_unfold. by rewrite Hi, Hnext.
    - destruct (Hnxt cookie (Err e) (error_section (Some cookie) e) eq_refl) as (m & o & Ho & Hm).
      exists m, o. split; [done|]. intros fuel Hf. rewrite <- (Hm fuel Hf).
      cbn [drain_results]. unfold next_result_at. monad_unfold. by rewrite Hi, Hnext.
    - exists 0, (Done ((s, <[idx:=a']> apisets), Ok tt)). split; [done|]. intros fuel _.
      cbn [drain_results]. unfold next_result_at. monad_unfold. by rewrite Hi, Hnext. }
  exists (S m), o. split; [done|]. intros [|fuel] Hf; [lia|]. apply Hm. lia.
Qed.

Lemma update_apisets_settles n idx (sa : Session RW * list A) :
  turn_ok sa → idx + n ≤ length sa.2 → settles (λ fuel, update_apisets fuel n idx) sa.
Proof.
  revert idx sa. induction n as [|n IH]; intros idx [s apisets] Ht Hl; [by apply settles_const|].
  simpl in Hl. cbn [update_apisets].
  set (P (sb : Session RW * list A) := turn_ok sb ∧ length sb.2 = length apisets).
  eapply (settles_bind_const _ _ P (λ sb _, P sb)); [|done|done|].
  { intros [s' l'] [Ht' Hl']. split; [by apply (update_at_keeps idx (s', l'))|].
    simpl in *. by rewrite length_alter. }
  intros _ [s1 l1] [Ht1 Hl1]. simpl in Hl1.
  destruct (lookup_lt_is_Some_2 l1 idx) as [a Ha]; [lia|].
  eapply (settles_bind _ _ P (λ sb _, P sb)); [|done|by apply (drain_results_settles _ _ _ _ a Ht1 Ha (Nat.lt_succ_diag_r _))|].
  { intros fuel [s' l'] [Ht' Hl']. simpl in Hl'.
    assert (idx < length (s', l').2) as Hi by (simpl; lia).
    pose proof (drain_results_keeps fuel idx (s', l') (conj Ht' Hi)) as Hk.
    destruct (drain_results fuel idx (s', l')) as [[sb r]| |] eqn:Hd; [|done..].
    split; [by destruct Hk|]. apply drain_results_length in Hd. simpl in Hd. congruence. }
  intros _ [s2 l2] [Ht2 Hl2]. simpl in Hl2. apply IH; [done|simpl; lia].
Qed.

Lemma handle_requests_settles (sa : Session RW * list A) :
  turn_ok sa → settles (λ fuel, handle_requests fuel) sa.
Proof.
  intros Ht. unfold handle_requests.
  eapply (settles_bind_const _ _ turn_ok (λ sb _, turn_ok sb)); [apply keeps_get|done|done|].
  intros sa0 sb Hb.
  eapply (settles_bind_const _ _ turn_ok (λ sb _, turn_ok sb));
    [apply keeps_on_session, keeps_modify; by intros [] []|done|by destruct sb|].
  intros _ sc Hc.
  eapply (settles_bind_const _ _ turn_ok (λ sb _, turn_ok sb));
    [apply handle_request_list_keeps|done|by apply handle_request_list_returns|].
  intros _ sd Hd.
  eapply (settles_bind_const _ _ (λ x, x = sd) (λ x r, x = sd ∧ r = Ok sd)); [by intros x ->|done|done|].
  intros x sx [-> [= ->]]. by apply update_apisets_settles.
Qed.

Context `{!FiniteStream (RW:=RW)}.

Lemma process_queue_returns queue s : process_queue queue s ≠ OutOfFuel.
Proof.
  revert s. induction queue as [|sec queue IH]; intros s; [done|]. simpl. monad_unfold.
  unfold process_section.
  destruct sec as [e|q|p]; [destruct (es_cookie e)| |destruct (rs_state p)]; done || apply IH.
Qed.

(** With enough fuel a turn returns: every loop of it ends, provided the stream holds
    finitely many bytes and no write of data accepts nothing. *)
Lemma update_settles (sa : Session RW * list A) :
  (∀ b st st', b ≠ [] → rw_write b st ≠ (IoOk 0, st')) →
  turn_ok sa → settles (λ fuel, update fuel) sa.
Proof.
  intros Hprog Ht. unfold update.
  eapply (settles_bind _ _ turn_ok); [apply read_sections_turn|done| |].
  { apply settles_on_session. destruct Ht as ((Hr & _) & _).
    set (n := length (message_read_buffer sa.1) + capacity (stream sa.1)).
    apply (settles_mono _ _ (S n)); [|intros k; apply read_sections_mono].
    apply read_sections_terminates; [done|]. lia. }
  intros ? s1 Ht1.
  eapply (settles_bind_const _ _ turn_ok (λ sb _, turn_ok sb));
    [apply keeps_on_session, process_sections_keeps|done| |].
  { destruct s1 as [s l]. unfold on_session, process_sections. monad_unfold.
    pose proof (process_queue_returns (pending_sections s) s).
    by destruct (process_queue _ s) as [[]| |]. }
  intros _ s2 Ht2.
  eapply (settles_bind _ _ turn_ok (λ sb _, turn_ok sb));
    [apply handle_requests_keeps|done|by apply handle_requests_settles|].
  intros _ s3 Ht3.
  eapply (settles_bind_const _ _ turn_ok (λ sb _, turn_ok sb));
    [apply keeps_on_session, serialize_messages_keeps|done| |].
  { destruct s3 as [s l], Ht3 as ((_ & Ho & _) & _). simpl in Ho. unfold on_session.
    by destruct (serialize_messages_spec s Ho) as (s' & r & -> & _). }
  intros _ s4 Ht4. apply settles_on_session.
  apply (settles_mono _ _ (length (unsent s4.1))); [by apply write_pending_data_terminates|].
  intros k. apply write_pending_data_mono.
Qed.

End update.

(** * What the apisets keep, whatever happens to the session *)

Section apisets_kept.
Context `{BL : BsonLib} {RW : Type} `{!Stream RW} {A : Type} `{AL : !ApiSet A}.
Context (I : A → Prop).
Hypothesis exec_kept : ∀ a f v args c, I a → I (exec_function a f v args c).2.
Hypothesis update_kept : ∀ a, I a → I (api_update a).
Hypothesis next_kept : ∀ a r a', I a → next_result a = Done (r, a') → I a'.

(** The same number of sets, each keeping its invariant. *)
Definition apis_ok (n : nat) (sa : Session RW * list A) : Prop := length sa.2 = n ∧ Forall I sa.2.

Lemma on_session_preserves n {X} (m : M (Session RW) HonkError X) :
  preserves (apis_ok n) (on_session m).
Proof.
  intros [s l] sb r Hs. unfold on_session. destruct (m s) as [[s' x]| |]; [|done..].
  by intros [= <- _].
Qed.

Lemma exec_at_preserves n idx q : preserves (apis_ok n) (exec_at idx q).
Proof.
  intros [s l] sb r [Hn Hl]. unfold exec_at. simpl in *.
  destruct (l !! idx) as [a|] eqn:Hi; [|done].
  pose proof (exec_kept a (rq_function q) (rq_version q) (rq_arguments q) (rq_cookie q)) as Hx.
  destruct (exec_function _ _ _ _ _) as [x a']. intros [= <- _]. split; simpl in *.
  - by rewrite length_insert.
  - apply Forall_insert; [done|]. apply Hx. by eapply Forall_lookup_1.
Qed.

Lemma next_result_at_preserves n idx : preserves (apis_ok n) (next_result_at idx).
Proof.
  intros [s l] sb r [Hn Hl]. unfold next_result_at. simpl in *.
  destruct (l !! idx) as [a|] eqn:Hi; [|done].
  destruct (next_result a) as [[x a']| |] eqn:Hx; [|done..]. intros [= <- _]. split; simpl.
  - by rewrite length_insert.
  - apply Forall_insert; [done|]. eapply next_kept; [|done]. by eapply Forall_lookup_1.
Qed.

Lemma update_at_preserves n idx : preserves (apis_ok n) (update_at idx).
Proof.
  intros [s l] sb r [Hn Hl]. unfold update_at. intros [= <- _]. split; simpl in *.
  - by rewrite length_alter.
  - apply Forall_alter; [done|]. intros a Hi _. apply update_kept. by eapply Forall_lookup_1.
Qed.

Hint Resolve on_session_preserves exec_at_preserves next_result_at_preserves
  update_at_preserves : gosling.

Lemma handle_request_preserves n q : preserves (apis_ok n) (handle_request q).
Proof.
  apply preserves_bind; [eauto with gosling|]. intros sa.
  destruct (find_apiset _ _); [|eauto with gosling].
  apply preserves_bind; [eauto with gosling|]. intros [[x|e]|]; try destruct (rq_cookie q);
    eauto with gosling.
Qed.

Lemma handle_request_list_preserves n qs : preserves (apis_ok n) (handle_request_list qs).
Proof.
  induction qs as [|q qs IH]; simpl; [eauto with gosling|].
  apply preserves_bind; [apply handle_request_preserves|done].
Qed.

Lemma drain_results_preserves n fuel idx : preserves (apis_ok n) (drain_results fuel idx).
Proof.
  induction fuel as [|fuel IH]; simpl; [eauto with gosling|].
  apply preserves_bind; [eauto with gosling|]. intros [[c [x|e]]|]; [..|eauto with gosling];
    (apply preserves_bind; [eauto with gosling|done]).
Qed.

Lemma update_apisets_preserves n fuel m idx : preserves (apis_ok n) (update_apisets fuel m idx).
Proof.
  revert idx. induction m as [|m IH]; intros idx; simpl; [eauto with gosling|].
  apply preserves_bind; [eauto with gosling|intros _].
  apply preserves_bind; [apply drain_results_preserves|done].
Qed.

Lemma update_preserves n fuel : preserves (apis_ok n) (update fuel).
Proof.
  repeat (apply preserves_bind; [|intros _]); eauto with gosling.
  repeat (apply preserves_bind; [|intros ?]); eauto using handle_request_list_preserves,
    update_apisets_preserves with gosling.
Qed.
End apisets_kept.

(** * A session with one apiset, as the handshake servers drive it *)

Section one_apiset.
Context `{BL : BsonLaws} {RW : Type} `{SL : StreamLaws RW}.
Context {A : Type} `{AL : !ApiSet A} `{AP : !ApiSetLaws A}.

Lemma one_apiset_turn fuel (a : A) (rpc rpc' : Session RW) l r :
  api_inv a → update fuel (rpc, [a]) = Done ((rpc', l), r) → ∃ a', l = [a'] ∧ api_inv a'.
Proof.
  intros Ha Hu. assert (apis_ok api_inv 1 (rpc', l)) as [Hlen Hall].
  { eapply (update_preserves api_inv); [..|exact Hu].
    - intros. by apply exec_inv.
    - intros. by apply update_inv.
    - intros b y b' Hb Hn. destruct (next_result_inv b Hb) as (z & c & Heq & Hc).
      rewrite Heq in Hn. by injection Hn as <- <-.
    - split; [done|]. by constructor. }
  destruct l as [|b [|]]; try done. apply Forall_cons in Hall as [Hb _]. by exists b.
Qed.

Lemma one_apiset_returns `{!FiniteStream (RW:=RW)} (a : A) (rpc : Session RW) :
  (∀ b st st', b ≠ [] → rw_write b st ≠ (IoOk 0, st')) →
  session_ok rpc → buffer_home rpc → api_inv a →
  ∃ n rpc' a' r, api_inv a' ∧ (∀ fuel, n ≤ fuel → update fuel (rpc, [a]) = Done ((rpc', [a']), r)) ∧
    match r with
    | Ok _ => session_ok rpc' ∧ buffer_ok rpc' ∧ (unsent rpc' = [] → buffer_home rpc')
    | Err _ => True
    end.
Proof.
  intros Hprog Hok Hh Ha.
  assert (turn_ok (rpc, [a])) as Ht by (split_and!; [done..|by constructor]).
  destruct (settles_triple (λ fuel, update fuel) turn_ok _ _ update_safe Ht (update_settles _ Hprog Ht))
    as (n & [rpc' l] & r & Hq & Hn).
  destruct (one_apiset_turn _ _ _ _ _ _ Ha (Hn n (le_n n))) as (a' & -> & Ha').
  exists n, rpc', a', r. split_and!; [done..|]. destruct r; [|done].
  destruct Hq as (? & ? & _ & ?). by split_and!.
Qed.
End one_apiset.
