(* ===== verification/HonkProps.v ===== *)
(** The properties of Honk-RPC: what a peer can rely on, stated over the models of
    honk_rpc.rs and checked on a concrete BSON library and a scripted stream. *)

From Stdlib Require Import ZArith Lia.
From S2P Require Import Prelude Bson BsonModel HonkWire HonkSize VecDeque HonkSession HonkRead.
From S2P Require Import HonkScript HonkWrite HonkChannel HonkUpdate.
From stdpp Require Import prelude strings list.

Open Scope nat_scope.

(** * Concrete data for the witnesses *)


Definition demo_request : RequestSection :=
  mkRequestSection (Some 0%Z) "identity" "begin_handshake" 0%Z
    (doc [("version", BString "0.1.0"); ("client_identity", BString "abc")]).
Definition demo_sections : list Section_ :=
  [SRequest demo_request; response_section 7%Z Complete (Some (BBoolean true));
   error_section (Some 9%Z) RequestFunctionInvalid].

Definition demo_idle : Session Script := session_new (script_of [] []).
Definition demo_sender : Session Script := set_outbound (map section_into demo_sections) demo_idle.
Definition get_done {S A} (d : S) (o : outcome (S * A)) : S :=
  match o with Done (s, _) => s | _ => d end.
Definition demo_sent : Session Script := get_done demo_idle (serialize_messages demo_sender).
Definition demo_wire : bytes := unsent demo_sent.
Definition demo_reader : Session Script :=
  session_new (script_of [Some (take 3 demo_wire); Some (drop 3 demo_wire)] []).
Definition demo_reader1 : Session Script := get_done demo_reader (read_sections 4 demo_reader).
Definition demo_reader2 : Session Script := get_done demo_reader1 (read_sections 4 demo_reader1).

(** * The channel *)

Section channel.
Context `{BL : BsonLaws} {RW RW' : Type} `{SL : StreamLaws RW} `{SL' : StreamLaws RW'}.

End channel.


(** * Turns of a session *)

(** An apiset with one immediate and one deferred function. *)
Record DemoApi := mkDemoApi { demo_results : list (RequestCookie * result ErrorCode (option Bson)) }.

#[export] Instance demo_api : ApiSet DemoApi := {
  namespace _ := "identity";
  exec_function a f _ args cookie :=
    if String.eqb f "begin_handshake" then (Some (Ok (doc_get args "version")), a)
    else match cookie with
         | Some c => (None, mkDemoApi (demo_results a ++ [(c, Err (Runtime 5))]))
         | None => (Some (Err RequestFunctionInvalid), a)
         end;
  api_update a := a;
  next_result a :=
    match demo_results a with
    | [] => Done (None, a)
    | r :: rs => Done (Some r, mkDemoApi rs)
    end;
}.

#[export] Instance demo_api_laws : ApiSetLaws DemoApi.
Proof.
  refine {| api_inv _ := True; api_results a := length (demo_results a) |}; try done.
  - intros [[|r rs]] _; simpl; eauto.
  - intros [[|r rs]] x a' _; simpl; [discriminate|]. intros [= <- <-]. simpl. lia.
Defined.

(** A request arrives and is answered in the same turn. *)
Definition demo_turn : Session Script := session_new (script_of [Some demo_wire] []).
(** A session with a message to write, to a stream that takes 21 bytes and then blocks. *)
Definition demo_writer : Session Script :=
  set_stream (script_of [] [Some 20; None]) demo_sent.

Section turns.
Context `{BL : BsonLaws} {RW : Type} `{SL : StreamLaws RW} `{!FiniteStream (RW:=RW)}.
Context {A : Type} `{AL : !ApiSet A} `{AP : !ApiSetLaws A}.

(** C2. A turn of a session is total and safe.  From a session in order, with the
    write buffer at the start of its ring, [update] returns for every sufficient fuel
    and never panics, over any stream with finitely many bytes waiting whose writes
    make progress, and any apisets that keep their promises.  When it succeeds the
    session and the apisets are in order again, and if everything was written the
    buffer is back at the start of its ring, ready for the next turn. *)
Theorem update_returns (s : Session RW) (apisets : list A) :
  (∀ b st st', b ≠ [] → rw_write b st ≠ (IoOk 0, st')) →
  session_ok s → buffer_home s → Forall api_inv apisets →
  ∃ n sa r, (∀ fuel, n ≤ fuel → update fuel (s, apisets) = Done (sa, r)) ∧
    (r = Ok tt → session_ok sa.1 ∧ buffer_ok sa.1 ∧ Forall api_inv sa.2 ∧
       (unsent sa.1 = [] → buffer_home sa.1)).
Proof.
  intros Hprog Hs Hh Ha. assert (turn_ok (s, apisets)) as Ht by by split_and!.
  destruct (settles_triple (λ fuel, update fuel) turn_ok _ _ update_safe Ht
    (update_settles _ Hprog Ht)) as (n & sa & r & Hq & Hn).
  exists n, sa, r. split; [done|]. intros ->. exact Hq.
Qed.

(** C3. Nothing is lost or repeated on the way out.  Writing what is pending keeps the
    concatenation of what was sent and what is still buffered; it never panics while
    the buffer is contiguous, leaves it contiguous, and when it fails only a prefix of
    the buffered bytes has been sent. *)
Theorem write_conserves (s : Session RW) fuel :
  (∀ b st st', b ≠ [] → rw_write b st ≠ (IoOk 0, st')) →
  buffer_ok s → length (unsent s) ≤ fuel →
  ∃ s' r, write_pending_data fuel s = Done (s', r) ∧ buffer_ok s' ∧
    match r with
    | Ok _ => sent (stream s') ++ unsent s' = sent (stream s) ++ unsent s
    | Err e => (∃ k, e = WriterWriteFailed k) ∧
               sent (stream s') `prefix_of` sent (stream s) ++ unsent s
    end.
Proof.
  intros Hprog Hb Hfuel.
  destruct (write_pending_data_spec fuel s Hb) as [Hx|(s' & r & Heq & _ & Hb' & Hr)].
  { by apply write_pending_data_terminates in Hx. }
  exists s', r. split_and!; [done..|]. destruct r as [|e]; [done|].
  destruct Hr as [He [m ->]]. split; [done|]. apply prefix_app. apply prefix_take.
Qed.
End turns.

Lemma update_returns_witness :
  session_ok demo_turn ∧
  ∃ n sa r, (∀ fuel, n ≤ fuel → update fuel (demo_turn, [mkDemoApi []]) = Done (sa, r)) ∧
    (r = Ok tt → session_ok sa.1 ∧ buffer_ok sa.1 ∧ Forall api_inv sa.2 ∧
       (unsent sa.1 = [] → buffer_home sa.1)).
Proof.
  destruct (session_new_ok (script_of [Some demo_wire] [])) as [Hs Hh]. split; [exact Hs|].
  apply (update_returns demo_turn [mkDemoApi []] script_progress Hs Hh).
  constructor; [exact I|constructor].
Defined.

(** The turn of the witness answers the request it finds. *)
Definition demo_observe (o : outcome ((Session Script * list DemoApi) * result HonkError unit)) :
    option (nat * bool * list Response) :=
  match o with
  | Done ((s, _), Ok _) =>
      Some (length (unsent s), bool_decide (0 < length (sent (stream s))), inbound_responses s)
  | _ => None
  end.

Example demo_turn_replies :
  demo_observe (update 10 (demo_turn, [mkDemoApi []])) =
  Some (0, true, [RespSuccess 7%Z (Some (BBoolean true)); RespError 9%Z RequestFunctionInvalid]).
Proof. by_eval. Qed.

Lemma write_conserves_witness :
  buffer_ok demo_writer ∧
  ∃ s' r, write_pending_data 1000 demo_writer = Done (s', r) ∧ buffer_ok s' ∧
    match r with
    | Ok _ => sent (stream s') ++ unsent s' = sent (stream demo_writer) ++ unsent demo_writer
    | Err e => (∃ k, e = WriterWriteFailed k) ∧
               sent (stream s') `prefix_of` sent (stream demo_writer) ++ unsent demo_writer
    end.
Proof.
  assert (buffer_ok demo_writer) as Hb.
  { split; [split; [vm_compute; lia|right; by_eval]|by_eval]. }
  split; [exact Hb|]. apply (write_conserves demo_writer 1000 script_progress Hb).
  vm_compute. lia.
Defined.

(** * Known hazards of the write path *)

Definition serialized_one `{BsonLib} (x : Document) : Document :=
  doc_insert (message_into (mkMessage HONK_RPC_VERSION [])) "sections" (BArray [BDocument x]).

Section hazards.
Context `{BL : BsonLaws} {RW : Type} `{SL : StreamLaws RW}.

Lemma serialize_messages_one (s : Session RW) x :
  outbound_sections s = [x] →
  serialize_messages s = serialize_messages_impl 1 (serialized_one x) (set_outbound [] s).
Proof. intros Ho. unfold serialize_messages. monad_unfold. by rewrite Ho. Qed.

(** A partial write can make the next send panic.  When the bytes left by a partial
    write sit in the middle of the ring, appending one more message that fits the
    capacity wraps around its end, and the assertion on the second slice in
    [write_pending_data_impl] fires. *)
Lemma partial_write_then_send_panics (s : Session RW) x b fuel :
  buffer_ok s → outbound_sections s = [x] → to_writer (serialized_one x) = Ok b →
  length b ≤ max_message_size s →
  length (unsent s) + length b ≤ vd_cap (message_write_buffer s) →
  vd_cap (message_write_buffer s) <
    vd_head (message_write_buffer s) + length (unsent s) + length b →
  ∃ s', serialize_messages s = Done (s', Ok tt) ∧ write_pending_data fuel s' = Panicked.
Proof.
  intros [Hwf Hc] Ho Hb Hl Hfit Hwrap. unfold unsent in *.
  rewrite (serialize_messages_one s x Ho).
  rewrite (serialize_fits 0 _ _ b Hb) by (by destruct s). eexists. split; [done|].
  apply write_pending_data_wrapped; destruct s; simpl in *;
    [by apply vd_append_wf|by apply vd_append_wraps].
Qed.

(** Lowering the limit under a queued section makes the next send panic: the
    message around it is too large and holds only one section, so it cannot be split
    and the assertion in [serialize_messages_impl] fires. *)
Lemma lowered_limit_panics (s : Session RW) x b :
  outbound_sections s = [x] → to_writer (serialized_one x) = Ok b →
  max_message_size s < length b → serialize_messages s = Panicked.
Proof.
  intros Ho Hb Hl. rewrite (serialize_messages_one s x Ho). cbn [serialize_messages_impl].
  monad_unfold. rewrite Hb. destruct_session s. rewrite bool_decide_true by done.
  rewrite get_array_access. unfold serialized_one. rewrite get_insert_eq. by simpl.
Qed.
End hazards.

(** A call with an argument of [n] bytes, and a turn with no apisets. *)
Fixpoint pad (n : nat) : string := match n with 0 => "" | S n => String (Ascii.ascii_of_nat 97) (pad n) end.
Definition padded_call (n : nat) : M (Session Script) HonkError RequestCookie :=
  client_call "identity" "f" 0%Z (doc [("x", BString (pad n))]).
(** Two calls and two turns over a stream that takes 2000 bytes and then blocks. *)
Definition demo_partial : Session Script :=
  let s0 := session_new (script_of [] [Some 1999; None]) in
  let s1 := get_done s0 (padded_call 3000 s0) in
  let s2 := (get_done (s1, []) (update (A:=DemoApi) 10 (s1, []))).1 in
  get_done s2 (padded_call 2000 s2).

Definition demo_lowered : Session Script :=
  let s1 := get_done demo_idle (padded_call 10 demo_idle) in
  get_done s1 (set_max_message_size 37 s1).

(** * Reading and packing, branch by branch *)

Section branches.
Context `{BL : BsonLaws} {RW : Type} `{SL : StreamLaws RW}.
Implicit Types (s : Session RW).

(** C6. [read_message] on every branch.  From a reader in order it returns without
    panicking.  With [buf] the bytes buffered before and received now: no message yet
    leaves exactly [buf] buffered; a message is the decoding of a frame that is exactly
    [buf], within the limit, and leaves the buffer empty; an error is the transport's
    (and the reader is still in order), or a header announcing a size that is too small
    or too large, or a complete frame that does not decode. *)
Theorem read_message_correct s :
  reader_ok s →
  ∃ s' r new, read_message s = Done (s', r) ∧
    received (stream s') = received (stream s) ++ new ∧
    let buf := message_read_buffer s ++ new in
    match r with
    | Ok None => reader_ok s' ∧ message_read_buffer s' = buf
    | Ok (Some m) =>
        reader_ok s' ∧ message_read_buffer s' = [] ∧ frame (max_message_size s) buf ∧
        decode_frame buf = Ok m
    | Err e =>
        (io_error e = true ∧ reader_ok s' ∧ message_read_buffer s' = buf) ∨
        bad_header (max_message_size s) buf e ∨
        (frame (max_message_size s) buf ∧ decode_frame buf = Err e)
    end.
Proof.
  intros Hok. destruct (read_message_spec s Hok) as (s' & r & new & Heq & _ & Hr & Hp).
  exists s', r, new. split_and!; [done..|exact Hp].
Qed.

(** C7. Packing is total: with every queued section fitting a message of its own,
    [serialize_messages] returns, never hits its assertion however often it has to
    split, and appends to the write buffer a sequence of messages, each within the limit
    and with at least one section, whose sections are the queue in order; the queue is
    then empty.  The only error is a document BSON cannot encode. *)
Theorem serialize_packs s :
  outbound_ok s →
  ∃ s' r, serialize_messages s = Done (s', r) ∧ outbound_sections s' = [] ∧
    match r with
    | Ok _ => ∃ w, unsent s' = unsent s ++ w ∧
        (outbound_sections s = [] ∧ w = [] ∨
         framed (max_message_size s) (outbound_sections s) w)
    | Err e => ∃ e', e = BsonWriteFailed e'
    end.
Proof.
  intros Ho. destruct (serialize_messages_spec s Ho) as (s' & r & Heq & [(Hn & -> & ->)|(out & [ser ->] & Hr)]).
  - exists s, (Ok tt). split_and!; [done..|]. exists []. rewrite app_nil_r. auto.
  - eexists _, r. split_and!; [done|by destruct s|]. destruct r as [[]|e]; [|done].
    exists (mjoin out). split; [|by right]. unfold unsent. destruct_session s. apply fold_append_data.
Qed.

(** [push_outbound_section] accepts exactly the sections that fit in a message of their
    own. *)
Lemma push_accepts_what_fits s sec :
  outbound_ok s → MIN_MESSAGE_SIZE ≤ max_message_size s →
  ∃ s' r, push_outbound_section sec s = Done (s', r) ∧ outbound_ok s' ∧
    match r with
    | Ok _ => s' = set_outbound (outbound_sections s ++ [section_into sec]) s ∧
              doc_size (message_doc [BDocument (section_into sec)]) ≤ max_message_size s
    | Err e => s' = s ∧
        ((∃ e', to_writer (section_into sec) = Err e' ∧ e = BsonWriteFailed e') ∨
         max_message_size s < doc_size (message_doc [BDocument (section_into sec)]) ∧
         e = SectionTooLarge (doc_size (section_into sec)) (max_message_size s - MIN_MESSAGE_SIZE))
    end.
Proof.
  intros Ho Hm. destruct (push_outbound_section_spec s sec Ho Hm) as (s' & r & Heq & Ho' & Hr).
  exists s', r. split_and!; [done..|]. rewrite size_one_section. unfold fits in Hr.
  destruct r; destruct Hr as [-> Hr]; (split; [done|]); [lia|].
  destruct Hr as [?|[? ?]]; [by left|right]. split; [lia|done].
Qed.

(** What [message_into] and BSON encode, the reader's decoding gives back. *)
Lemma message_bytes_roundtrip m b :
  msg_honk_rpc m = HONK_RPC_VERSION → msg_sections m ≠ [] →
  Forall (λ sec, wire_section sec = true) (msg_sections m) →
  to_writer (message_into m) = Ok b → decode_frame b = Ok m.
Proof.
  intros Hv Hne Hw Hb. unfold decode_frame. rewrite (from_reader_to_writer _ _ Hb). simpl.
  by rewrite message_roundtrip.
Qed.

(** C9. Messages survive the wire: what [message_into] and BSON encode, the reader's
    decoding gives back unchanged, for the version of this crate, at least one section,
    and sections in wire form (canonical error codes, a function name, no result in a
    pending response).  Reading back the wire value of an error code gives the code exactly
    when it is canonical ([Runtime] positive, [Unknown] zero or below the reserved range),
    and every wire value is kept; [Runtime 0] is read back as [Unknown 0]. *)
Theorem messages_survive_the_wire :
  (∀ m b, msg_honk_rpc m = HONK_RPC_VERSION → msg_sections m ≠ [] →
     Forall (λ sec, wire_section sec = true) (msg_sections m) →
     to_writer (message_into m) = Ok b → decode_frame b = Ok m) ∧
  (∀ c, error_code_from_i32 (i32_from_error_code c) = c ↔ canonical_code c = true) ∧
  (∀ v, i32_from_error_code (error_code_from_i32 v) = v) ∧
  error_code_from_i32 (i32_from_error_code (Runtime 0)) = Unknown 0.
Proof.
  split_and!; [apply message_bytes_roundtrip|apply error_code_canonical|apply i32_of_error_code_from|done].
Qed.

(** The size predictions are exact. *)
Lemma size_predictions :
  (∀ n d, get_message_overhead = Ok n → doc_size (message_doc [BDocument d]) = n + doc_size d) ∧
  (∀ e n, get_error_section_size (es_cookie e) (es_message e) (es_data e) = Ok n →
     n = doc_size (error_section_into e)) ∧
  (∀ p n, get_response_section_size (rs_result p) = Ok n → n = doc_size (response_section_into p)) ∧
  (∀ q ns v n,
     get_request_section_size (rq_cookie q) ns (rq_function q) v (Some (rq_arguments q)) = Ok n →
     default ""%string ns = rq_namespace q → default 0%Z v = rq_version q →
     doc_size (request_section_into q) ≤ n ∧
     (ns ≠ Some ""%string → v ≠ Some 0%Z → n = doc_size (request_section_into q))).
Proof.
  split_and!; [|apply error_section_size_exact|apply response_section_size_exact|].
  - intros n d ->%message_overhead_exact. apply size_one_section.
  - apply request_section_size_bound.
Qed.

(** C8. Sizes are checked exactly.  [push_outbound_section] accepts exactly the sections
    that fit in a message of their own: it queues those and keeps the queue's promise, and
    it refuses the others (and those BSON cannot encode) with the session unchanged.  The
    overhead of a message around one section, and the predicted size of an error and of a
    response section, are the sizes BSON produces; the prediction for a request is never
    below the real size, and exact when no default namespace or version is spelled out. *)
Theorem sizes_are_checked_exactly :
  (∀ s sec, outbound_ok s → MIN_MESSAGE_SIZE ≤ max_message_size s →
     ∃ s' r, push_outbound_section sec s = Done (s', r) ∧ outbound_ok s' ∧
       match r with
       | Ok _ => s' = set_outbound (outbound_sections s ++ [section_into sec]) s ∧
                 doc_size (message_doc [BDocument (section_into sec)]) ≤ max_message_size s
       | Err e => s' = s ∧
           ((∃ e', to_writer (section_into sec) = Err e' ∧ e = BsonWriteFailed e') ∨
            max_message_size s < doc_size (message_doc [BDocument (section_into sec)]) ∧
            e = SectionTooLarge (doc_size (section_into sec)) (max_message_size s - MIN_MESSAGE_SIZE))
       end) ∧
  (∀ n d, get_message_overhead = Ok n → doc_size (message_doc [BDocument d]) = n + doc_size d) ∧
  (∀ e n, get_error_section_size (es_cookie e) (es_message e) (es_data e) = Ok n →
     n = doc_size (error_section_into e)) ∧
  (∀ p n, get_response_section_size (rs_result p) = Ok n → n = doc_size (response_section_into p)) ∧
  (∀ q ns v n,
     get_request_section_size (rq_cookie q) ns (rq_function q) v (Some (rq_arguments q)) = Ok n →
     default ""%string ns = rq_namespace q → default 0%Z v = rq_version q →
     doc_size (request_section_into q) ≤ n ∧
     (ns ≠ Some ""%string → v ≠ Some 0%Z → n = doc_size (request_section_into q))).
Proof. split; [apply push_accepts_what_fits|apply size_predictions]. Qed.
End branches.

(** Witnesses of this part, on the concrete BSON library. *)

Lemma read_message_correct_witness :
  ∃ s' r new, read_message demo_reader = Done (s', r) ∧
    received (stream s') = received (stream demo_reader) ++ new ∧
    let buf := message_read_buffer demo_reader ++ new in
    match r with
    | Ok None => reader_ok s' ∧ message_read_buffer s' = buf
    | Ok (Some m) =>
        reader_ok s' ∧ message_read_buffer s' = [] ∧ frame (max_message_size demo_reader) buf ∧
        decode_frame buf = Ok m
    | Err e =>
        (io_error e = true ∧ reader_ok s' ∧ message_read_buffer s' = buf) ∨
        bad_header (max_message_size demo_reader) buf e ∨
        (frame (max_message_size demo_reader) buf ∧ decode_frame buf = Err e)
    end.
Proof. apply (read_message_correct demo_reader). vm_compute. lia. Defined.

(** Twelve sections of 400 bytes and more: the queue is split into messages of 4096. *)
Definition demo_queue : Session Script :=
  set_outbound (replicate 12 (section_into (response_section 0%Z Complete (Some (BString (pad 400))))))
    demo_idle.

Lemma demo_fits n d : bool_decide (doc_size d + MIN_MESSAGE_SIZE ≤ n) = true → fits n d.
Proof. apply bool_decide_eq_true_1. Qed.

Lemma serialize_packs_witness :
  4096 < sum_with doc_size (outbound_sections demo_queue) ∧
  ∃ s' r, serialize_messages demo_queue = Done (s', r) ∧ outbound_sections s' = [] ∧
    match r with
    | Ok _ => ∃ w, unsent s' = unsent demo_queue ++ w ∧
        (outbound_sections demo_queue = [] ∧ w = [] ∨
         framed (max_message_size demo_queue) (outbound_sections demo_queue) w)
    | Err e => ∃ e', e = BsonWriteFailed e'
    end.
Proof.
  split; [apply (bool_decide_eq_true_1 _); by_eval|].
  apply (serialize_packs demo_queue). unfold outbound_ok, demo_queue.
  apply Forall_replicate. apply demo_fits. by_eval.
Defined.

Lemma sizes_are_checked_exactly_witness :
  ∃ s' r, push_outbound_section (SRequest demo_request) demo_idle = Done (s', r) ∧ outbound_ok s' ∧
    match r with
    | Ok _ => s' = set_outbound (outbound_sections demo_idle ++ [section_into (SRequest demo_request)])
                     demo_idle ∧
              doc_size (message_doc [BDocument (section_into (SRequest demo_request))]) ≤
                max_message_size demo_idle
    | Err e => s' = demo_idle ∧
        ((∃ e', to_writer (section_into (SRequest demo_request)) = Err e' ∧ e = BsonWriteFailed e') ∨
         max_message_size demo_idle <
           doc_size (message_doc [BDocument (section_into (SRequest demo_request))]) ∧
         e = SectionTooLarge (doc_size (section_into (SRequest demo_request)))
               (max_message_size demo_idle - MIN_MESSAGE_SIZE))
    end.
Proof.
  destruct (sizes_are_checked_exactly (RW:=Script)) as [H _]. apply (H demo_idle (SRequest demo_request)); [constructor|].
  apply (bool_decide_eq_true_1 _). by_eval.
Defined.

Lemma messages_survive_the_wire_witness :
  decode_frame demo_wire = Ok (mkMessage HONK_RPC_VERSION demo_sections).
Proof.
  destruct messages_survive_the_wire as [H _]. apply (H (mkMessage HONK_RPC_VERSION demo_sections) demo_wire).
  - reflexivity.
  - discriminate.
  - repeat (constructor; [by_eval|]). constructor.
  - by_eval.
Defined.

(** * Requests and calls *)

(** The answer to a request, from what the apiset returned. *)
Definition reply `{BsonLib} (cookie : option RequestCookie)
    (r : option (result ErrorCode (option Bson))) : option Section_ :=
  match r, cookie with
  | Some (Ok x), Some c => Some (response_section c Complete x)
  | Some (Err e), _ => Some (error_section cookie e)
  | None, Some c => Some (response_section c Pending None)
  | _, None => None
  end.

Definition push_reply `{BsonLib} {RW} `{!Stream RW} (o : option Section_) :
    M (Session RW) HonkError unit :=
  match o with Some sec => push_outbound_section sec | None => mret tt end.

(** A list of calls, stopping at the first error. *)
Fixpoint client_calls `{BsonLib} {RW} `{!Stream RW}
    (calls : list (string * string * Z * Document)) : M (Session RW) HonkError (list RequestCookie) :=
  match calls with
  | [] => mret []
  | (ns, f, v, args) :: calls =>
      c ← client_call ns f v args;
      cs ← client_calls calls;
      mret (c :: cs)
  end.

Section dispatch.
Context `{BL : BsonLaws} {RW : Type} `{SL : StreamLaws RW}.
Context {A : Type} `{AL : !ApiSet A}.

(** What becomes of a request. *)
Lemma handle_request_correct (s : Session RW) (apisets : list A) q :
  sorted_apisets apisets →
  (∃ i a r a', apisets !! i = Some a ∧ namespace a = rq_namespace q ∧
     exec_function a (rq_function q) (rq_version q) (rq_arguments q) (rq_cookie q) = (r, a') ∧
     handle_request q (s, apisets) =
       on_session (push_reply (reply (rq_cookie q) r)) (s, <[i := a']> apisets)) ∨
  (Forall (λ a, namespace a ≠ rq_namespace q) apisets ∧
   handle_request q (s, apisets) =
     on_session (push_outbound_section (error_section (rq_cookie q) RequestNamespaceInvalid))
       (s, apisets)).
Proof.
  intros Hs. pose proof (find_apiset_spec apisets (rq_namespace q) Hs) as Hf.
  unfold handle_request, exec_at. monad_unfold. simpl.
  destruct (find_apiset apisets (rq_namespace q)) as [i|]; [left|by right].
  destruct Hf as (a & Hi & Hn). rewrite Hi.
  destruct (exec_function _ _ _ _ _) as [r a'] eqn:He. exists i, a, r, a'. split_and!; [done..|].
  destruct r as [[x|e]|]; unfold reply; by destruct (rq_cookie q).
Qed.

Lemma client_call_spec (s : Session RW) ns f v args :
  outbound_ok s → MIN_MESSAGE_SIZE ≤ max_message_size s →
  ∃ s' r, client_call ns f v args s = Done (s', r) ∧ outbound_ok s' ∧
    max_message_size s' = max_message_size s ∧
    next_cookie s' = wrap_i64 (next_cookie s + 1) ∧
    match r with
    | Ok c => c = next_cookie s ∧
        outbound_sections s' = outbound_sections s ++
          [section_into (SRequest (mkRequestSection (Some c) ns f v args))]
    | Err _ => outbound_sections s' = outbound_sections s
    end.
Proof.
  intros Ho Hm. unfold client_call. monad_unfold.
  set (c := next_cookie s). set (s1 := set_next_cookie _ s).
  destruct (push_outbound_section_spec s1 (SRequest (mkRequestSection (Some c) ns f v args)))
    as (s' & r & -> & Ho' & Hr); [by destruct s..|].
  destruct r as [[]|e]; destruct Hr as [-> Hr]; subst s1 c; destruct_session s.
  - eexists _, (Ok nc). by split_and!.
  - eexists _, (Err e). by split_and!.
Qed.

(** The cookies of a run of calls. *)
Lemma client_calls_cookies calls (s s' : Session RW) cookies :
  outbound_ok s → MIN_MESSAGE_SIZE ≤ max_message_size s →
  (i64_min ≤ next_cookie s)%Z → (next_cookie s + Z.of_nat (length calls) ≤ i64_max)%Z →
  client_calls calls s = Done (s', Ok cookies) →
  cookies = seqZ (next_cookie s) (Z.of_nat (length calls)) ∧ NoDup cookies ∧
  outbound_sections s' = outbound_sections s ++
    zip_with (λ c '(ns, f, v, args),
      section_into (SRequest (mkRequestSection (Some c) ns f v args))) cookies calls.
Proof.
  intros Ho Hm Hlo Hhi Hrun.
  enough (cookies = seqZ (next_cookie s) (Z.of_nat (length calls)) ∧
    outbound_sections s' = outbound_sections s ++
    zip_with (λ c '(ns, f, v, args),
      section_into (SRequest (mkRequestSection (Some c) ns f v args))) cookies calls) as [-> Hout].
  { split_and!; [done|apply NoDup_seqZ|done]. }
  revert s cookies Ho Hm Hlo Hhi Hrun. induction calls as [|[[[ns f] v] args] calls IH];
    intros s cookies Ho Hm Hlo Hhi Hrun; simpl in *.
  { monad_unfold. simplify_eq. by rewrite app_nil_r. }
  monad_unfold.
  destruct (client_call_spec s ns f v args Ho Hm) as (s1 & r & Hc & Ho1 & Hm1 & Hn1 & Hr).
  rewrite Hc in Hrun. destruct r as [c|e]; [|done]. destruct Hr as [-> Hout].
  rewrite wrap_i64_small in Hn1 by (unfold is_i64, i64_min, i64_max in *; lia).
  destruct (client_calls calls s1) as [[s2 [cs|e]]| |] eqn:Hcs; try done. simplify_eq.
  destruct (IH s1 cs) as [-> Hout2]; [done|lia|lia|lia|done|].
  rewrite (seqZ_cons (next_cookie s)) by lia. rewrite Hn1 in *. split.
  - f_equal; f_equal; lia.
  - by rewrite Hout2, Hout, <- app_assoc.
Qed.

(** C12. Requests and calls.  With the apisets sorted by namespace, as [Session::update]
    demands, a request is executed by the set that has its namespace, only that set changes,
    and exactly the answer that belongs to the returned value is queued: the result, the
    error, or "pending", and nothing for a request without cookie that did not fail.  When no
    set has the namespace, nothing is executed and the error [RequestNamespaceInvalid] is
    queued.  On the calling side, a run of successful calls returns consecutive cookies, all
    different until the 64-bit counter wraps, and queues one request per call, carrying the
    cookie returned, in the order of the calls. *)
Theorem requests_and_calls :
  (∀ (s : Session RW) (apisets : list A) q,
     sorted_apisets apisets →
     (∃ i a r a', apisets !! i = Some a ∧ namespace a = rq_namespace q ∧
        exec_function a (rq_function q) (rq_version q) (rq_arguments q) (rq_cookie q) = (r, a') ∧
        handle_request q (s, apisets) =
          on_session (push_reply (reply (rq_cookie q) r)) (s, <[i := a']> apisets)) ∨
     (Forall (λ a, namespace a ≠ rq_namespace q) apisets ∧
      handle_request q (s, apisets) =
        on_session (push_outbound_section (error_section (rq_cookie q) RequestNamespaceInvalid)) (s, apisets))) ∧
  (∀ calls (s s' : Session RW) cookies,
     outbound_ok s → MIN_MESSAGE_SIZE ≤ max_message_size s →
     (i64_min ≤ next_cookie s)%Z → (next_cookie s + Z.of_nat (length calls) ≤ i64_max)%Z →
     client_calls calls s = Done (s', Ok cookies) →
     cookies = seqZ (next_cookie s) (Z.of_nat (length calls)) ∧ NoDup cookies ∧
     outbound_sections s' = outbound_sections s ++
       zip_with (λ c '(ns, f, v, args),
         section_into (SRequest (mkRequestSection (Some c) ns f v args))) cookies calls).
Proof. split; [apply handle_request_correct|apply client_calls_cookies]. Qed.
End dispatch.

Definition demo_calls : list (string * string * Z * Document) :=
  [("identity", "f", 0%Z, doc_new); ("identity", "g", 1%Z, doc_new)]%string.
Definition demo_called : Session Script := get_done demo_idle (client_calls demo_calls demo_idle).

Lemma requests_and_calls_witness :
  handle_request demo_request (demo_idle, [mkDemoApi []]) =
    on_session (push_outbound_section (response_section 0%Z Complete (Some (BString "0.1.0"))))
      (demo_idle, [mkDemoApi []]) ∧
  [0; 1]%Z = seqZ 0 2 ∧ NoDup [0; 1]%Z ∧
  outbound_sections demo_called = outbound_sections demo_idle ++
    zip_with (λ c '(ns, f, v, args),
      section_into (SRequest (mkRequestSection (Some c) ns f v args))) [0; 1]%Z demo_calls.
Proof.
  destruct (requests_and_calls (RW := Script)) as [Hrequest Hcalls]. split.
  - destruct (Hrequest demo_idle [mkDemoApi []] demo_request) as [(i & a & r & a' & Hi & Hn & He & ->)|[Hn _]].
    + intros i j a b Hij _ Hb%lookup_lt_Some. simpl in Hb. lia.
    + destruct i as [|i]; [|done]. simpl in Hi. injection Hi as <-. simpl in He.
      injection He as <- <-. by_eval.
    + apply Forall_cons in Hn as [Hn _]. by destruct Hn.
  - apply (Hcalls demo_calls demo_idle demo_called [0; 1]%Z).
    + constructor.
    + apply (bool_decide_eq_true_1 _). by_eval.
    + vm_compute. discriminate.
    + vm_compute. discriminate.
    + by_eval.
Defined.

(** Versions: every triple of bytes packs into an [i32] and is unpacked unchanged,
    and different triples are told apart. *)
Lemma semver_packing a b c a' b' c' :
  (0 ≤ a < 256 → 0 ≤ b < 256 → 0 ≤ c < 256 → 0 ≤ a' < 256 → 0 ≤ b' < 256 → 0 ≤ c' < 256 →
   i32_to_semver (semver_to_i32 a b c) = Some (a, b, c) ∧
   (semver_to_i32 a b c = semver_to_i32 a' b' c' → (a, b, c) = (a', b', c')))%Z.
Proof.
  intros. split; [by apply semver_roundtrip|]. intros Heq.
  pose proof (semver_roundtrip a b c ltac:(done) ltac:(done) ltac:(done)) as Hrt.
  rewrite Heq, semver_roundtrip in Hrt by done. congruence.
Qed.

Lemma semver_packing_witness :
  i32_to_semver (semver_to_i32 0 1 0) = Some (0, 1, 0)%Z ∧
  (semver_to_i32 0 1 0 = semver_to_i32 0 2 0 → (0, 1, 0) = (0, 2, 0))%Z.
Proof. apply (semver_packing 0 1 0 0 2 0); lia. Defined.

(** * After a protocol error *)

Section after_error.
Context `{BL : BsonLaws} {RW : Type} `{SL : StreamLaws RW}.

(** A session must not be used after a bad header: when a message announces a size that
    is too small or too large, the four header bytes stay buffered, and the next read
    violates the reader's own assertion and panics. *)
Lemma read_after_bad_header_panics (s s' : Session RW) e fuel :
  reader_ok s → read_message s = Done (s', Err e) → io_error e = false →
  (∀ f, e ≠ BsonDocumentParseFailed f) → (∀ c, e ≠ MessageConversionFailed c) →
  read_message s' = Panicked ∧ read_sections (S fuel) s' = Panicked.
Proof.
  intros Hok Hread Hio Hp Hc.
  assert (remaining_byte_count s' = None ∧ length (message_read_buffer s') = 4) as [Hrem Hlen].
  { unfold read_message in Hread. monad_unfold.
    destruct (read_message_size_spec s Hok) as (s1 & r & new & Heq & _ & _ & _ & Hr).
    rewrite Heq in Hread. destruct r as [[]|e1].
    - destruct Hr as [Hok1 _]. simpl in Hread. destruct (remaining_byte_count s1) as [rem|]; [|done].
      destruct (stream_read_spec rem s1) as (st & t & r & Hs & _ & Hr). rewrite Hs in Hread.
      destruct r as [[|b bs]|e1]; [done| |injection Hread as _ <-; destruct Hr; congruence].
      destruct_session s1. case_decide; [|done].
      destruct (from_reader _) as [d|f]; simpl in Hread; [|injection Hread as _ <-; by destruct (Hp f)].
      destruct (message_try_from d) as [m|c]; [done|]. injection Hread as _ <-. by destruct (Hc c).
    - injection Hread as -> ->. destruct Hr as [[_ ?]|[Hl _]]; [congruence|]. split; [|done].
      by eapply read_message_size_err. }
  assert (read_message s' = Panicked) as Hx.
  { unfold read_message, read_message_size. monad_unfold. rewrite Hrem.
    by rewrite bool_decide_false by lia. }
  split; [done|]. cbn [read_sections]. monad_unfold. by rewrite Hx.
Qed.

(** C4. Three ways to make a session panic.  A partial write can make the next send
    panic: when the bytes it left sit in the middle of the ring, appending one more message
    that fits the capacity wraps around its end, and the assertion on the second slice in
    [write_pending_data_impl] fires.  Lowering the limit under a queued section makes the
    next send panic: the message around it holds one section and cannot be split.  A
    session must not be read after a bad header: the four header bytes stay buffered, and
    the next read violates the reader's own assertion. *)
Theorem session_misuse_panics :
  (∀ (s : Session RW) x b fuel,
     buffer_ok s → outbound_sections s = [x] → to_writer (serialized_one x) = Ok b →
     length b ≤ max_message_size s →
     length (unsent s) + length b ≤ vd_cap (message_write_buffer s) →
     vd_cap (message_write_buffer s) <
       vd_head (message_write_buffer s) + length (unsent s) + length b →
     ∃ s', serialize_messages s = Done (s', Ok tt) ∧ write_pending_data fuel s' = Panicked) ∧
  (∀ (s : Session RW) x b,
     outbound_sections s = [x] → to_writer (serialized_one x) = Ok b →
     max_message_size s < length b → serialize_messages s = Panicked) ∧
  (∀ (s s' : Session RW) e fuel,
     reader_ok s → read_message s = Done (s', Err e) → io_error e = false →
     (∀ f, e ≠ BsonDocumentParseFailed f) → (∀ c, e ≠ MessageConversionFailed c) →
     read_message s' = Panicked ∧ read_sections (S fuel) s' = Panicked).
Proof.
  split_and!; [apply partial_write_then_send_panics|apply lowered_limit_panics|
    apply read_after_bad_header_panics].
Qed.
End after_error.

(** A header announcing 1819043176 bytes. *)
Definition demo_bad : Session Script := session_new (script_of [Some (as_bytes "hello")] []).
Definition demo_bad1 : Session Script := get_done demo_bad (read_message demo_bad).

Definition queued_bytes (s : Session Script) : bytes :=
  match outbound_sections s with
  | x :: _ => match to_writer (serialized_one x) with Ok b => b | Err _ => [] end
  | [] => []
  end.
Definition queued_one (s : Session Script) : Document :=
  match outbound_sections s with x :: _ => x | [] => doc_new end.

Lemma session_misuse_panics_witness :
  (∃ s', serialize_messages demo_partial = Done (s', Ok tt) ∧ write_pending_data 10 s' = Panicked) ∧
  serialize_messages demo_lowered = Panicked ∧
  read_message demo_bad1 = Panicked ∧ read_sections 1 demo_bad1 = Panicked.
Proof.
  destruct (session_misuse_panics (RW:=Script)) as (H1 & H2 & H3). split_and!.
  - apply (H1 demo_partial (queued_one demo_partial) (queued_bytes demo_partial)).
    + split; [split; [apply (bool_decide_eq_true_1 _); by_eval|left; apply (bool_decide_eq_true_1 _); by_eval]|by_eval].
    + by_eval.
    + by_eval.
    + apply (bool_decide_eq_true_1 _). by_eval.
    + apply (bool_decide_eq_true_1 _). by_eval.
    + apply (bool_decide_eq_true_1 _). by_eval.
  - apply (H2 demo_lowered (queued_one demo_lowered) (queued_bytes demo_lowered)); [by_eval|by_eval|].
    apply (bool_decide_eq_true_1 _). by_eval.
  - apply (H3 demo_bad demo_bad1 (BsonDocumentSizeTooLarge 1819043176 4096) 0);
      [vm_compute; lia|by_eval|reflexivity|discriminate|discriminate].
  - apply (H3 demo_bad demo_bad1 (BsonDocumentSizeTooLarge 1819043176 4096) 0);
      [vm_compute; lia|by_eval|reflexivity|discriminate|discriminate].
Defined.
