(* ===== verification/Crypto.v ===== *)
(** The cryptographic and encoding libraries that tor_crypto.rs is built on, as
    interfaces: data-encoding, sha3, tor-llcrypto (ed25519-dalek and x25519-dalek) and
    the operating system's random numbers.  Only the functions the sources call appear,
    and the laws are the documented behaviour the sources rely on.  [CryptoModel.v] has
    an instance. *)

From Stdlib Require Import ZArith Lia.
From S2P Require Import Prelude.
From stdpp Require Import prelude strings list.

(** * data-encoding *)

Record Encoding := mkEncoding {
  encode : bytes → bytes;
  decode : bytes → option bytes;
}.

(** An encoding of [data_encoding] with a canonical specification (trailing bits are
    checked, no symbol is ignored or translated): decoding inverts encoding both ways,
    the length depends on the length only, and the output uses the given symbols. *)
Record EncodingLaws (e : Encoding) (len : nat → nat) (symbols : bytes) : Prop := {
  decode_encode b : decode e (encode e b) = Some b;
  encode_decode c b : decode e c = Some b → encode e b = c;
  encode_length b : length (encode e b) = len (length b);
  encode_symbols b : Forall (λ c, c ∈ symbols) (encode e b);
}.

Definition ceil_div (a b : nat) : nat := (a + b - 1) / b.

Definition onion_symbols : bytes := as_bytes "abcdefghijklmnopqrstuvwxyz234567=".
Definition onion_alphabet : bytes := as_bytes "abcdefghijklmnopqrstuvwxyz234567".
Definition base32_symbols : bytes := as_bytes "ABCDEFGHIJKLMNOPQRSTUVWXYZ234567".
Definition base64_symbols : bytes :=
  as_bytes "ABCDEFGHIJKLMNOPQRSTUVWXYZabcdefghijklmnopqrstuvwxyz0123456789+/=".
Definition hex_symbols : bytes := as_bytes "0123456789abcdef".

(** * Signatures, keys and hashes *)

Class CryptoLib : Type := {
  ONION_BASE32 : Encoding;
  BASE32_NOPAD : Encoding;
  BASE64 : Encoding;
  HEXLOWER : Encoding;
  (** [Sha3_256] over the concatenation of the updates *)
  sha3_256 : bytes → bytes;
  (** [pk::ed25519::ExpandedKeypair], [PublicKey], [Signature] *)
  ExpandedKeypair : Type;
  EdPublicKey : Type;
  EdSignature : Type;
  keypair_generate : bytes → ExpandedKeypair;
  keypair_from_secret_key_bytes : bytes → option ExpandedKeypair;
  keypair_to_secret_key_bytes : ExpandedKeypair → bytes;
  keypair_public : ExpandedKeypair → EdPublicKey;
  keypair_sign : ExpandedKeypair → bytes → EdSignature;
  public_from_bytes : bytes → option EdPublicKey;
  public_as_bytes : EdPublicKey → bytes;
  signature_from_bytes : bytes → EdSignature;
  signature_to_bytes : EdSignature → bytes;
  verify_strict : EdPublicKey → bytes → EdSignature → bool;
  (** [Scalar::from_bytes_mod_order(s).to_bytes()] *)
  scalar_reduce : bytes → bytes;
  (** [pk::curve25519::StaticSecret] and [PublicKey] *)
  StaticSecret : Type;
  CurvePublicKey : Type;
  secret_random : bytes → StaticSecret;
  secret_from_bytes : bytes → StaticSecret;
  secret_to_bytes : StaticSecret → bytes;
  curve_public : StaticSecret → CurvePublicKey;
  curve_from_bytes : bytes → CurvePublicKey;
  curve_as_bytes : CurvePublicKey → bytes;
  (** [keymanip]: the converted key and its sign bit *)
  convert_curve25519_to_ed25519_private : StaticSecret → option (ExpandedKeypair * Z);
  convert_curve25519_to_ed25519_public : CurvePublicKey → Z → option EdPublicKey;
  (** [OsRng]: the [n] bytes drawn at a position of the generator's output *)
  os_random : nat → nat → bytes;
}.

Class CryptoLaws (CL : CryptoLib) : Prop := {
  onion_base32_laws : EncodingLaws ONION_BASE32 (λ n, 8 * ceil_div n 5) onion_symbols;
  (** padding fills up the last block of five bytes *)
  onion_base32_unpadded b :
    length b `mod` 5 = 0 → Forall (λ c, c ∈ onion_alphabet) (encode ONION_BASE32 b);
  base32_nopad_laws : EncodingLaws BASE32_NOPAD (λ n, ceil_div (8 * n) 5) base32_symbols;
  base64_laws : EncodingLaws BASE64 (λ n, 4 * ceil_div n 3) base64_symbols;
  hexlower_laws : EncodingLaws HEXLOWER (λ n, 2 * n) hex_symbols;
  sha3_256_length b : length (sha3_256 b) = 32;
  secret_key_length k : length (keypair_to_secret_key_bytes k) = 64;
  secret_key_roundtrip k :
    keypair_from_secret_key_bytes (keypair_to_secret_key_bytes k) = Some k;
  (** a key made from its bytes has these bytes when the scalar is reduced *)
  from_secret_key_bytes raw k :
    scalar_reduce (take 32 raw) = take 32 raw →
    keypair_from_secret_key_bytes raw = Some k → keypair_to_secret_key_bytes k = raw;
  (** a generated key has a non-zero reduced scalar *)
  generate_reduced seed :
    let scalar := take 32 (keypair_to_secret_key_bytes (keypair_generate seed)) in
    scalar_reduce scalar = scalar ∧ forallb (λ x, Byte.eqb x Byte.x00) scalar = false;
  public_key_length p : length (public_as_bytes p) = 32;
  public_key_roundtrip p : public_from_bytes (public_as_bytes p) = Some p;
  public_from_bytes_as raw p : public_from_bytes raw = Some p → public_as_bytes p = raw;
  signature_length s : length (signature_to_bytes s) = 64;
  signature_roundtrip s : signature_from_bytes (signature_to_bytes s) = s;
  (** what a key signs, its public key verifies *)
  sign_verify k m : verify_strict (keypair_public k) m (keypair_sign k m) = true;
  secret_roundtrip raw : length raw = 32 → secret_to_bytes (secret_from_bytes raw) = raw;
  secret_length s : length (secret_to_bytes s) = 32;
  secret_of_bytes s : secret_from_bytes (secret_to_bytes s) = s;
  curve_length p : length (curve_as_bytes p) = 32;
  curve_roundtrip p : curve_from_bytes (curve_as_bytes p) = p;
  curve_bytes_roundtrip raw : length raw = 32 → curve_as_bytes (curve_from_bytes raw) = raw;
  (** the converted public key belongs to the converted private key *)
  convert_consistent s k bit :
    convert_curve25519_to_ed25519_private s = Some (k, bit) →
    convert_curve25519_to_ed25519_public (curve_public s) bit = Some (keypair_public k);
  os_random_length pos n : length (os_random pos n) = n;
}.
