(* ===== verification/TorCrypto.v ===== *)
(** tor-interface/src/tor_crypto.rs: keys, signatures and v3 onion service ids. *)

From Stdlib Require Import ZArith Lia.
From S2P Require Import Prelude Crypto.
From stdpp Require Import prelude strings list.
From coqutil Require Import Byte.

Open Scope nat_scope.

(** [tor_crypto::Error]; the texts are left out. *)
Inductive CryptoError := ParseError | ConversionError | KeyInvalid.

Definition ED25519_PRIVATE_KEY_SIZE : nat := 64.
Definition ED25519_PUBLIC_KEY_SIZE : nat := 32.
Definition ED25519_SIGNATURE_SIZE : nat := 64.
Definition V3_ONION_SERVICE_ID_STRING_LENGTH : nat := 56.
Definition ED25519_PRIVATE_KEY_KEYBLOB_HEADER : string := "ED25519-V3:".
Definition ED25519_PRIVATE_KEY_KEYBLOB_LENGTH : nat := 99.
Definition V3_ONION_SERVICE_ID_RAW_SIZE : nat := 35.
Definition V3_ONION_SERVICE_ID_CHECKSUM_OFFSET : nat := 32.
Definition V3_ONION_SERVICE_ID_VERSION_OFFSET : nat := 34.
Definition X25519_PRIVATE_KEY_SIZE : nat := 32.
Definition X25519_PUBLIC_KEY_SIZE : nat := 32.
Definition X25519_PRIVATE_KEY_BASE64_LENGTH : nat := 44.
Definition X25519_PUBLIC_KEY_BASE32_LENGTH : nat := 52.

(** * Sign bits *)

Inductive SignBit := SB_Zero | SB_One.

Definition u8_from_signbit (s : SignBit) : Z := match s with SB_Zero => 0 | SB_One => 1 end.
Definition bool_from_signbit (s : SignBit) : bool := match s with SB_Zero => false | SB_One => true end.
Definition signbit_from_bool (b : bool) : SignBit := if b then SB_One else SB_Zero.

(** The byte at an index of a fixed-size array. *)
Definition byte_at (raw : bytes) (i : nat) : Z := byte.unsigned (nth i raw Byte.x00).

(** [&str[n..]] and [str::starts_with] on the bytes of a string. *)
Definition starts_with (b prefix : bytes) : bool := bool_decide (take (length prefix) b = prefix).

Section tor_crypto.
Context `{CL : CryptoLib}.

Record Ed25519PrivateKey := mkEd25519PrivateKey { expanded_keypair : ExpandedKeypair }.
Record Ed25519PublicKey := mkEd25519PublicKey { ed_public_key : EdPublicKey }.
Record Ed25519Signature := mkEd25519Signature { ed_signature : EdSignature }.
Record X25519PrivateKey := mkX25519PrivateKey { secret_key : StaticSecret }.
Record X25519PublicKey := mkX25519PublicKey { x_public_key : CurvePublicKey }.
Record V3OnionServiceId := mkV3OnionServiceId { sid_data : bytes }.

Inductive FromRawValidationMethod := LegacyCTor | Ed25519Dalek.

(** * Ed25519 private keys *)

(** [Ed25519PrivateKey::generate], with the random bytes of the keypair. *)
Definition ed25519_generate (seed : bytes) : Ed25519PrivateKey :=
  mkEd25519PrivateKey (keypair_generate seed).

Definition from_raw_impl (raw : bytes) (method : FromRawValidationMethod) :
    result CryptoError Ed25519PrivateKey :=
  let valid :=
    match method with
    | LegacyCTor =>
        (byte_at raw 0 =? Z.land (byte_at raw 0) 248)%Z &&
        (byte_at raw 31 =? Z.lor (Z.land (byte_at raw 31) 63) 64)%Z
    | Ed25519Dalek =>
        let scalar := take 32 raw in
        negb (forallb (λ x, Byte.eqb x Byte.x00) scalar) && bool_decide (scalar = scalar_reduce scalar)
    end in
  if valid then
    match keypair_from_secret_key_bytes raw with
    | Some k => Ok (mkEd25519PrivateKey k)
    | None => Err KeyInvalid
    end
  else Err KeyInvalid.

Definition ed25519_private_from_raw (raw : bytes) : result CryptoError Ed25519PrivateKey :=
  from_raw_impl raw Ed25519Dalek.

Definition from_key_blob_impl (key_blob : bytes) (method : FromRawValidationMethod) :
    result CryptoError Ed25519PrivateKey :=
  if decide (length key_blob = ED25519_PRIVATE_KEY_KEYBLOB_LENGTH) then
    let header := as_bytes ED25519_PRIVATE_KEY_KEYBLOB_HEADER in
    if starts_with key_blob header then
      match decode BASE64 (drop (length header) key_blob) with
      | None => Err ParseError
      | Some data =>
          match try_into_array ED25519_PRIVATE_KEY_SIZE data with
          | None => Err ParseError
          | Some raw => from_raw_impl raw method
          end
      end
    else Err ParseError
  else Err ParseError.

Definition from_key_blob (key_blob : bytes) := from_key_blob_impl key_blob Ed25519Dalek.
Definition from_key_blob_legacy (key_blob : bytes) := from_key_blob_impl key_blob LegacyCTor.

Definition from_private_x25519 (x : X25519PrivateKey) :
    result CryptoError (Ed25519PrivateKey * SignBit) :=
  match convert_curve25519_to_ed25519_private (secret_key x) with
  | Some (k, bit) =>
      match bit with
      | 0%Z => Ok (mkEd25519PrivateKey k, SB_Zero)
      | 1%Z => Ok (mkEd25519PrivateKey k, SB_One)
      | _ => Err ConversionError
      end
  | None => Err ConversionError
  end.

Definition to_key_blob (k : Ed25519PrivateKey) : bytes :=
  as_bytes ED25519_PRIVATE_KEY_KEYBLOB_HEADER ++
  encode BASE64 (keypair_to_secret_key_bytes (expanded_keypair k)).

Definition sign_message (k : Ed25519PrivateKey) (message : bytes) : Ed25519Signature :=
  mkEd25519Signature (keypair_sign (expanded_keypair k) message).

Definition ed25519_private_to_bytes (k : Ed25519PrivateKey) : bytes :=
  keypair_to_secret_key_bytes (expanded_keypair k).

Definition ed25519_private_eq (a b : Ed25519PrivateKey) : bool :=
  bool_decide (ed25519_private_to_bytes a = ed25519_private_to_bytes b).

(** [impl Clone]: re-read from the bytes; the error arm is [unreachable!()]. *)
Definition ed25519_private_clone (k : Ed25519PrivateKey) : outcome Ed25519PrivateKey :=
  match ed25519_private_from_raw (ed25519_private_to_bytes k) with
  | Ok k' => Done k'
  | Err _ => Panicked
  end.

(** * Ed25519 public keys *)

Definition ed25519_public_from_raw (raw : bytes) : result CryptoError Ed25519PublicKey :=
  match public_from_bytes raw with
  | Some p => Ok (mkEd25519PublicKey p)
  | None => Err KeyInvalid
  end.

Definition from_service_id (service_id : V3OnionServiceId) : result CryptoError Ed25519PublicKey :=
  match decode ONION_BASE32 (sid_data service_id) with
  | None => Err ConversionError
  | Some decoded =>
      if decide (length decoded = V3_ONION_SERVICE_ID_RAW_SIZE)
      then ed25519_public_from_raw (take ED25519_PUBLIC_KEY_SIZE decoded)
      else Err ConversionError
  end.

Definition ed25519_public_from_private (k : Ed25519PrivateKey) : Ed25519PublicKey :=
  mkEd25519PublicKey (keypair_public (expanded_keypair k)).

Definition from_public_x25519 (x : X25519PublicKey) (signbit : SignBit) :
    result CryptoError Ed25519PublicKey :=
  match convert_curve25519_to_ed25519_public (x_public_key x) (u8_from_signbit signbit) with
  | Some p => Ok (mkEd25519PublicKey p)
  | None => Err ConversionError
  end.

Definition ed25519_public_as_bytes (p : Ed25519PublicKey) : bytes := public_as_bytes (ed_public_key p).

(** * Signatures *)

Definition signature_from_raw (raw : bytes) : result CryptoError Ed25519Signature :=
  Ok (mkEd25519Signature (signature_from_bytes raw)).

Definition verify (s : Ed25519Signature) (message : bytes) (public_key : Ed25519PublicKey) : bool :=
  verify_strict (ed_public_key public_key) message (ed_signature s).

Definition verify_x25519 (s : Ed25519Signature) (message : bytes) (public_key : X25519PublicKey)
    (signbit : SignBit) : bool :=
  match from_public_x25519 public_key signbit with
  | Ok public_key => verify s message public_key
  | Err _ => false
  end.

Definition ed25519_signature_to_bytes (s : Ed25519Signature) : bytes :=
  signature_to_bytes (ed_signature s).

(** * X25519 keys *)

Definition x25519_generate (seed : bytes) : X25519PrivateKey := mkX25519PrivateKey (secret_random seed).

Definition x25519_private_from_raw (raw : bytes) : result CryptoError X25519PrivateKey :=
  if (byte_at raw 0 =? Z.land (byte_at raw 0) 240)%Z &&
     (byte_at raw 31 =? Z.lor (Z.land (byte_at raw 31) 127) 64)%Z
  then Ok (mkX25519PrivateKey (secret_from_bytes raw))
  else Err KeyInvalid.

Definition x25519_from_base64 (base64 : bytes) : result CryptoError X25519PrivateKey :=
  if decide (length base64 = X25519_PRIVATE_KEY_BASE64_LENGTH) then
    match decode BASE64 base64 with
    | None => Err ParseError
    | Some data =>
        match try_into_array X25519_PRIVATE_KEY_SIZE data with
        | None => Err ParseError
        | Some raw => x25519_private_from_raw raw
        end
    end
  else Err ParseError.

Definition x25519_private_to_bytes (k : X25519PrivateKey) : bytes := secret_to_bytes (secret_key k).
Definition x25519_to_base64 (k : X25519PrivateKey) : bytes := encode BASE64 (secret_to_bytes (secret_key k)).

Definition x25519_sign_message (k : X25519PrivateKey) (message : bytes) :
    result CryptoError (Ed25519Signature * SignBit) :=
  '(ed, signbit) ← from_private_x25519 k;
  mret (sign_message ed message, signbit).

Definition x25519_public_from_private (k : X25519PrivateKey) : X25519PublicKey :=
  mkX25519PublicKey (curve_public (secret_key k)).
Definition x25519_public_from_raw (raw : bytes) : X25519PublicKey :=
  mkX25519PublicKey (curve_from_bytes raw).

Definition x25519_from_base32 (base32 : bytes) : result CryptoError X25519PublicKey :=
  if decide (length base32 = X25519_PUBLIC_KEY_BASE32_LENGTH) then
    match decode BASE32_NOPAD base32 with
    | None => Err ParseError
    | Some data =>
        match try_into_array X25519_PUBLIC_KEY_SIZE data with
        | None => Err ParseError
        | Some raw => Ok (x25519_public_from_raw raw)
        end
    end
  else Err ParseError.

Definition x25519_public_as_bytes (p : X25519PublicKey) : bytes := curve_as_bytes (x_public_key p).
Definition x25519_to_base32 (p : X25519PublicKey) : bytes := encode BASE32_NOPAD (x25519_public_as_bytes p).

(** * v3 onion service ids *)

Definition calc_truncated_checksum (public_key : bytes) : bytes :=
  take 2 (sha3_256 (as_bytes ".onion checksum" ++ public_key ++ [Byte.x03])).

(** [V3OnionServiceId::is_valid] *)
Definition is_valid (service_id : bytes) : bool :=
  if decide (length service_id = V3_ONION_SERVICE_ID_STRING_LENGTH) then
    match decode ONION_BASE32 service_id with
    | None => false
    | Some decoded =>
        bool_decide (length decoded = V3_ONION_SERVICE_ID_RAW_SIZE) &&
        bool_decide (decoded !! V3_ONION_SERVICE_ID_VERSION_OFFSET = Some Byte.x03) &&
        bool_decide (calc_truncated_checksum (take ED25519_PUBLIC_KEY_SIZE decoded) =
                     take 2 (drop V3_ONION_SERVICE_ID_CHECKSUM_OFFSET decoded))
    end
  else false.

Definition service_id_from_string (service_id : string) : result CryptoError V3OnionServiceId :=
  if is_valid (as_bytes service_id)
  then Ok (mkV3OnionServiceId (as_bytes service_id)) else Err ParseError.

Definition service_id_from_public_key (p : Ed25519PublicKey) : V3OnionServiceId :=
  mkV3OnionServiceId (encode ONION_BASE32
    (ed25519_public_as_bytes p ++ calc_truncated_checksum (ed25519_public_as_bytes p) ++ [Byte.x03])).

Definition service_id_from_private_key (k : Ed25519PrivateKey) : V3OnionServiceId :=
  service_id_from_public_key (ed25519_public_from_private k).

(** [impl Display] *)
Definition service_id_to_string (s : V3OnionServiceId) : string :=
  String.string_of_list_byte (sid_data s).

#[export] Instance service_id_eq_dec : EqDecision V3OnionServiceId.
Proof. solve_decision. Defined.

End tor_crypto.

(** * Theory *)

Section tor_crypto_theory.
Context `{CL : CryptoLaws}.

Lemma checksum_length p : length (calc_truncated_checksum p) = 2.
Proof. unfold calc_truncated_checksum. rewrite length_take, sha3_256_length. lia. Qed.

(** The raw form of a service id: key, checksum, version. *)
Definition raw_service_id (key : bytes) : bytes :=
  key ++ calc_truncated_checksum key ++ [Byte.x03].

Lemma raw_service_id_length key : length key = 32 → length (raw_service_id key) = 35.
Proof. intros. unfold raw_service_id. rewrite !length_app, checksum_length. simpl. lia. Qed.

Lemma raw_service_id_parts key :
  length key = 32 →
  take 32 (raw_service_id key) = key ∧
  take 2 (drop 32 (raw_service_id key)) = calc_truncated_checksum key ∧
  raw_service_id key !! 34 = Some Byte.x03.
Proof.
  intros Hk. unfold raw_service_id. split_and!.
  - by rewrite take_app_length'.
  - rewrite drop_app_length' by done. apply take_app_length'. by rewrite checksum_length.
  - rewrite lookup_app_r by lia. rewrite lookup_app_r by (rewrite checksum_length; lia).
    by rewrite checksum_length, Hk.
Qed.

(** [is_valid] accepts exactly the encodings of a key with its checksum. *)
Lemma is_valid_spec s :
  is_valid s = true ↔ ∃ key, length key = 32 ∧ s = encode ONION_BASE32 (raw_service_id key).
Proof.
  unfold is_valid, V3_ONION_SERVICE_ID_STRING_LENGTH, V3_ONION_SERVICE_ID_RAW_SIZE,
    V3_ONION_SERVICE_ID_VERSION_OFFSET, ED25519_PUBLIC_KEY_SIZE,
    V3_ONION_SERVICE_ID_CHECKSUM_OFFSET. split.
  - case_decide as Hl; [|done]. destruct (decode ONION_BASE32 s) as [d|] eqn:Hd; [|done].
    intros [[Hlen Hver]%andb_prop Hsum]%andb_prop.
    apply bool_decide_eq_true in Hlen, Hver, Hsum.
    exists (take 32 d). split; [rewrite length_take; lia|].
    apply (encode_decode _ _ _ onion_base32_laws) in Hd. rewrite <- Hd. f_equal.
    unfold raw_service_id. rewrite Hsum.
    rewrite <- (take_drop 32 d) at 1. f_equal. rewrite <- (take_drop 2 (drop 32 d)) at 1. f_equal.
    rewrite drop_drop. change (32 + 2) with 34. rewrite (drop_S _ _ _ Hver). f_equal.
    apply drop_ge. lia.
  - intros (key & Hk & ->). destruct (raw_service_id_parts key Hk) as (H1 & H2 & H3).
    rewrite (encode_length _ _ _ onion_base32_laws), raw_service_id_length by done.
    rewrite decide_True by done. rewrite (decode_encode _ _ _ onion_base32_laws).
    rewrite H1, H2, H3, raw_service_id_length by done. by rewrite !bool_decide_true.
Qed.

Lemma service_id_of_public_key_raw p :
  sid_data (service_id_from_public_key p) =
    encode ONION_BASE32 (raw_service_id (ed25519_public_as_bytes p)).
Proof. done. Qed.

Lemma service_id_valid p : is_valid (sid_data (service_id_from_public_key p)) = true.
Proof. apply is_valid_spec. eexists. split; [apply public_key_length|done]. Qed.

Lemma as_bytes_of_list b : as_bytes (String.string_of_list_byte b) = b.
Proof. apply String.list_byte_of_string_of_list_byte. Qed.

Lemma service_id_string_roundtrip i :
  is_valid (sid_data i) = true → service_id_from_string (service_id_to_string i) = Ok i.
Proof.
  intros Hv. unfold service_id_from_string, service_id_to_string. rewrite as_bytes_of_list, Hv.
  by destruct i.
Qed.

Lemma service_id_from_string_Ok s i :
  service_id_from_string s = Ok i → is_valid (sid_data i) = true ∧ service_id_to_string i = s.
Proof.
  unfold service_id_from_string. destruct (is_valid (as_bytes s)) eqn:Hv; [|done]. intros [= <-].
  split; [done|]. apply String.string_of_list_byte_of_string.
Qed.

Lemma from_service_id_public p : from_service_id (service_id_from_public_key p) = Ok p.
Proof.
  unfold from_service_id. rewrite service_id_of_public_key_raw, (decode_encode _ _ _ onion_base32_laws).
  rewrite decide_True by (by rewrite raw_service_id_length by apply public_key_length).
  destruct (raw_service_id_parts (ed25519_public_as_bytes p)) as (H1 & _); [apply public_key_length|].
  unfold ED25519_PUBLIC_KEY_SIZE. rewrite H1. unfold ed25519_public_from_raw, ed25519_public_as_bytes.
  rewrite public_key_roundtrip. by destruct p.
Qed.

(** A valid id names one key, and the key names the id. *)
Lemma service_id_of_key i p :
  is_valid (sid_data i) = true → from_service_id i = Ok p → service_id_from_public_key p = i.
Proof.
  intros (key & Hk & Hi)%is_valid_spec. unfold from_service_id.
  rewrite Hi, (decode_encode _ _ _ onion_base32_laws), raw_service_id_length by done.
  rewrite decide_True by done. destruct (raw_service_id_parts key Hk) as (H1 & _).
  unfold ED25519_PUBLIC_KEY_SIZE. rewrite H1. unfold ed25519_public_from_raw.
  destruct (public_from_bytes key) as [q|] eqn:Hq; [|done]. intros [= <-].
  apply public_from_bytes_as in Hq. destruct i as [d]. simpl in *. subst d.
  unfold service_id_from_public_key, ed25519_public_as_bytes. simpl. by rewrite Hq.
Qed.

Lemma service_id_length i : is_valid (sid_data i) = true → length (sid_data i) = 56.
Proof. unfold is_valid. by case_decide. Qed.

Lemma service_id_symbols i :
  is_valid (sid_data i) = true → Forall (λ c, c ∈ onion_alphabet) (sid_data i).
Proof.
  intros (key & Hk & ->)%is_valid_spec. apply onion_base32_unpadded. by rewrite raw_service_id_length.
Qed.

(** ** Private keys *)

(** The condition [from_raw] checks on the scalar. *)
Definition dalek_key (k : Ed25519PrivateKey) : Prop :=
  let scalar := take 32 (ed25519_private_to_bytes k) in
  scalar_reduce scalar = scalar ∧ forallb (λ x, Byte.eqb x Byte.x00) scalar = false.

Lemma generate_dalek seed : dalek_key (ed25519_generate seed).
Proof. apply generate_reduced. Qed.

Lemma from_raw_to_bytes k :
  ed25519_private_from_raw (ed25519_private_to_bytes k) = Ok k ↔ dalek_key k.
Proof.
  unfold ed25519_private_from_raw, from_raw_impl, dalek_key.
  set (scalar := take 32 _). split.
  - destruct (forallb _ scalar) eqn:Hz; [done|]. simpl. case_bool_decide; [|done]. by split.
  - intros [Hr Hz]. rewrite Hz. simpl. rewrite bool_decide_true by done.
    unfold ed25519_private_to_bytes. rewrite secret_key_roundtrip. by destruct k.
Qed.

Lemma clone_dalek k : dalek_key k → ed25519_private_clone k = Done k.
Proof. intros Hk. unfold ed25519_private_clone. by rewrite (proj2 (from_raw_to_bytes k) Hk). Qed.

Lemma key_blob_roundtrip k : dalek_key k → from_key_blob (to_key_blob k) = Ok k.
Proof.
  intros Hk. unfold from_key_blob, from_key_blob_impl, to_key_blob.
  set (header := as_bytes ED25519_PRIVATE_KEY_KEYBLOB_HEADER).
  fold (ed25519_private_to_bytes k).
  assert (length (ed25519_private_to_bytes k) = 64) as Hl by apply secret_key_length.
  rewrite decide_True.
  2: { rewrite length_app, (encode_length _ _ _ base64_laws), Hl. done. }
  unfold starts_with. rewrite take_app_length. rewrite bool_decide_true by done.
  rewrite drop_app_length, (decode_encode _ _ _ base64_laws).
  unfold try_into_array, ED25519_PRIVATE_KEY_SIZE. rewrite Hl. rewrite decide_True by done.
  by apply from_raw_to_bytes.
Qed.

(** ** X25519 *)

(** The condition [X25519PrivateKey::from_raw] checks. *)
Definition x25519_accepted (raw : bytes) : bool :=
  (byte_at raw 0 =? Z.land (byte_at raw 0) 240)%Z &&
  (byte_at raw 31 =? Z.lor (Z.land (byte_at raw 31) 127) 64)%Z.

(** Clamping as RFC 7748 has it: the low three bits clear, the top bit clear, the
    second highest set. *)
Definition x25519_clamped (raw : bytes) : bool :=
  (byte_at raw 0 =? Z.land (byte_at raw 0) 248)%Z &&
  (byte_at raw 31 =? Z.lor (Z.land (byte_at raw 31) 127) 64)%Z.

Lemma x25519_from_raw_accepts raw :
  x25519_private_from_raw raw =
    if x25519_accepted raw then Ok (mkX25519PrivateKey (secret_from_bytes raw)) else Err KeyInvalid.
Proof. done. Qed.

Lemma x25519_base64_roundtrip k :
  x25519_from_base64 (x25519_to_base64 k) =
    if x25519_accepted (x25519_private_to_bytes k) then Ok k else Err KeyInvalid.
Proof.
  unfold x25519_from_base64, x25519_to_base64, x25519_private_to_bytes.
  rewrite (encode_length _ _ _ base64_laws), secret_length. rewrite decide_True by done.
  rewrite (decode_encode _ _ _ base64_laws). unfold try_into_array. rewrite secret_length.
  rewrite decide_True by done. rewrite x25519_from_raw_accepts, secret_of_bytes. by destruct k.
Qed.

Lemma x25519_base32_roundtrip p : x25519_from_base32 (x25519_to_base32 p) = Ok p.
Proof.
  unfold x25519_from_base32, x25519_to_base32, x25519_public_as_bytes.
  rewrite (encode_length _ _ _ base32_nopad_laws), curve_length. rewrite decide_True by done.
  rewrite (decode_encode _ _ _ base32_nopad_laws). unfold try_into_array. rewrite curve_length.
  rewrite decide_True by done. unfold x25519_public_from_raw. rewrite curve_roundtrip. by destruct p.
Qed.

Lemma sign_message_verify k m : verify (sign_message k m) m (ed25519_public_from_private k) = true.
Proof. apply sign_verify. Qed.

Lemma from_private_x25519_verify k ed bit m :
  from_private_x25519 k = Ok (ed, bit) →
  verify_x25519 (sign_message ed m) m (x25519_public_from_private k) bit = true.
Proof.
  unfold from_private_x25519, verify_x25519, from_public_x25519, x25519_public_from_private. simpl.
  destruct (convert_curve25519_to_ed25519_private (secret_key k)) as [[kp b]|] eqn:Hc; [|done].
  apply convert_consistent in Hc. intros Hb.
  assert (ed = mkEd25519PrivateKey kp ∧ u8_from_signbit bit = b) as [-> ->].
  { destruct b as [|[]|]; by simplify_eq. }
  rewrite Hc. apply sign_message_verify.
Qed.

Lemma signature_raw_roundtrip s :
  signature_from_raw (ed25519_signature_to_bytes s) = Ok s.
Proof.
  unfold signature_from_raw, ed25519_signature_to_bytes. rewrite signature_roundtrip. by destruct s.
Qed.

Lemma signbit_bool_roundtrip b : signbit_from_bool (bool_from_signbit b) = b.
Proof. by destruct b. Qed.

End tor_crypto_theory.
