(* ===== verification/CryptoModel.v ===== *)
(** An instance of the interfaces of [Crypto.v]: the encodings of RFC 4648 over bit
    strings, and keys, signatures and hashes that are simple functions with the laws the
    sources rely on (and no security at all).  It shows that the laws can hold together
    and makes the models executable. *)

From Stdlib Require Import ZArith Lia ZifyNat.
From S2P Require Import Prelude Crypto.
From stdpp Require Import prelude strings list.
From coqutil Require Import Byte Word.LittleEndianList.

Open Scope nat_scope.

(** Arithmetic with rounded-up divisions by literals. *)
Ltac div_lia := unfold ceil_div; zify; Z.to_euclidean_division_equations; lia.

(** * Bit strings *)

Definition bits_of_byte (b : Byte.byte) : list bool :=
  let '(b0, (b1, (b2, (b3, (b4, (b5, (b6, b7))))))) := Byte.to_bits b in
  [b7; b6; b5; b4; b3; b2; b1; b0].

Fixpoint bytes_of_bits (l : list bool) : bytes :=
  match l with
  | b7 :: b6 :: b5 :: b4 :: b3 :: b2 :: b1 :: b0 :: l =>
      Byte.of_bits (b0, (b1, (b2, (b3, (b4, (b5, (b6, b7))))))) :: bytes_of_bits l
  | _ => []
  end.

Definition bits_of_bytes (b : bytes) : list bool := mjoin (map bits_of_byte b).

Lemma bits_of_byte_length b : length (bits_of_byte b) = 8.
Proof. unfold bits_of_byte. by destruct (Byte.to_bits b) as (?&?&?&?&?&?&?&?). Qed.

Lemma bits_of_bytes_length b : length (bits_of_bytes b) = 8 * length b.
Proof.
  induction b as [|x b IH]; [done|]. unfold bits_of_bytes in *. simpl.
  rewrite length_app, bits_of_byte_length, IH. lia.
Qed.

Lemma bytes_of_bits_app x l : bytes_of_bits (bits_of_byte x ++ l) = x :: bytes_of_bits l.
Proof. by destruct x. Qed.

Lemma bytes_of_bits_of_bytes b z : z < 8 → bytes_of_bits (bits_of_bytes b ++ replicate z false) = b.
Proof.
  intros Hz. induction b as [|x b IH].
  { unfold bits_of_bytes. simpl. do 8 (destruct z as [|z]; [done|]). lia. }
  unfold bits_of_bytes in *. cbn [map mjoin list_join]. rewrite <- app_assoc, bytes_of_bits_app.
  f_equal. exact IH.
Qed.

(** * RFC 4648 *)

Section rfc4648.
(** [k] bits per symbol, encoded to blocks of [blk] symbols with a padding symbol. *)
Context (k blk : nat) (alphabet : bytes) (padding : Byte.byte).

(** All bit strings of length [k], in the order of the alphabet. *)
Fixpoint words (n : nat) : list (list bool) :=
  match n with
  | 0 => [[]]
  | S n => map (cons false) (words n) ++ map (cons true) (words n)
  end.

Definition table : list (list bool * Byte.byte) := zip (words k) alphabet.

Definition sym (w : list bool) : Byte.byte :=
  match list_find (λ p, p.1 = w) table with Some (_, p) => p.2 | None => padding end.
Definition unsym (c : Byte.byte) : list bool :=
  match list_find (λ p, p.2 = c) table with Some (_, p) => p.1 | None => [] end.

Fixpoint syms (fuel : nat) (l : list bool) : bytes :=
  match fuel, l with
  | S fuel, _ :: _ =>
      sym (take k l ++ replicate (k - length l) false) :: syms fuel (drop k l)
  | _, _ => []
  end.

Definition pads (n : nat) : nat := (blk - n `mod` blk) `mod` blk.

Definition rfc_encode (b : bytes) : bytes :=
  let s := syms (8 * length b) (bits_of_bytes b) in
  s ++ replicate (pads (length s)) padding.

(** Decoding accepts canonical encodings only. *)
Definition rfc_decode (c : bytes) : option bytes :=
  let b := bytes_of_bits (mjoin (map unsym c)) in
  if decide (rfc_encode b = c) then Some b else None.

Hypothesis Hk : 0 < k ≤ 8.
Hypothesis Hblk : 0 < blk.
Hypothesis Htable : Forall (λ w, unsym (sym w) = w) (words k).
Hypothesis Hpad : unsym padding = [].

Lemma words_elem n w : length w = n → w ∈ words n.
Proof.
  revert w. induction n as [|n IH]; intros [|b w]; simpl; try done; [set_solver|].
  intros [= Hw]. apply elem_of_app. destruct b; [right|left]; apply list_elem_of_fmap; eauto.
Qed.

Lemma unsym_sym w : length w = k → unsym (sym w) = w.
Proof. intros Hw. by apply (proj1 (Forall_forall _ _) Htable), words_elem. Qed.

Lemma syms_bits fuel l :
  length l ≤ fuel → ∃ z, z < k ∧ mjoin (map unsym (syms fuel l)) = l ++ replicate z false.
Proof.
  revert l. induction fuel as [|fuel IH]; intros l Hl.
  { destruct l; simpl in *; [|lia]. exists 0. split; [lia|done]. }
  destruct l as [|x l]; [exists 0; split; [lia|done]|]. cbn [syms map].
  remember (x :: l) as l' eqn:El. assert (0 < length l') as Hpos by (subst; simpl; lia).
  cbn [mjoin list_join]. rewrite unsym_sym by (rewrite length_app, length_take, length_replicate; lia).
  destruct (decide (k ≤ length l')) as [Hge|Hlt].
  - destruct (IH (drop k l')) as (z & Hz & Hj); [rewrite length_drop; lia|].
    exists z. split; [done|]. unfold mjoin in Hj |- *. rewrite Hj.
    replace (k - length l') with 0 by lia. simpl. rewrite app_nil_r.
    by rewrite app_assoc, take_drop.
  - exists (k - length l'). split; [lia|]. rewrite drop_ge, take_ge by lia.
    assert (syms fuel [] = []) as -> by by destruct fuel. simpl. by rewrite app_nil_r.
Qed.

Lemma syms_length fuel l :
  length l ≤ fuel → length (syms fuel l) = ceil_div (length l) k.
Proof.
  revert l. induction fuel as [|fuel IH]; intros l Hl.
  { destruct l; simpl in *; [|lia]. unfold ceil_div. rewrite Nat.div_small by lia. done. }
  destruct l as [|x l].
  { simpl. unfold ceil_div. rewrite Nat.div_small by lia. done. }
  cbn [syms length]. rewrite IH by (rewrite length_drop; simpl in *; lia).
  rewrite length_drop. unfold ceil_div. cbn [length].
  destruct (decide (k ≤ S (length l))).
  - replace (S (length l) + k - 1) with ((S (length l) - k + k - 1) + 1 * k) by lia.
    rewrite Nat.div_add by lia. lia.
  - replace (S (length l) - k) with 0 by lia. rewrite (Nat.div_small (0 + k - 1)) by lia.
    replace (S (length l) + k - 1) with (length l + 1 * k) by lia.
    rewrite Nat.div_add by lia. rewrite Nat.div_small by lia. lia.
Qed.

Lemma unsym_pads n : mjoin (map unsym (replicate n padding)) = [].
Proof. induction n as [|n IH]; [done|]. simpl. by rewrite Hpad. Qed.

Lemma rfc_decode_encode b : rfc_decode (rfc_encode b) = Some b.
Proof.
  unfold rfc_decode.
  assert (bytes_of_bits (mjoin (map unsym (rfc_encode b))) = b) as ->.
  { unfold rfc_encode. rewrite map_app, join_app, unsym_pads, app_nil_r.
    destruct (syms_bits (8 * length b) (bits_of_bytes b)) as (z & Hz & ->);
      [by rewrite bits_of_bytes_length|]. apply bytes_of_bits_of_bytes. lia. }
  by rewrite decide_True.
Qed.

Lemma rfc_encode_decode c b : rfc_decode c = Some b → rfc_encode b = c.
Proof. unfold rfc_decode. case_decide; [|done]. by intros [= <-]. Qed.

(** Lengths are rounded up to whole blocks. *)
Lemma rfc_encode_length b :
  length (rfc_encode b) = blk * ceil_div (ceil_div (8 * length b) k) blk.
Proof.
  unfold rfc_encode. rewrite length_app, length_replicate, syms_length;
    rewrite bits_of_bytes_length; [|done].
  generalize (ceil_div (8 * length b) k) as n. intros n. unfold pads, ceil_div.
  pose proof (Nat.div_mod n blk ltac:(lia)) as Hn. pose proof (Nat.mod_upper_bound n blk ltac:(lia)).
  set (q := n / blk) in *. set (r := n `mod` blk) in *.
  destruct (decide (r = 0)) as [Hr|Hr].
  - rewrite Hr, Nat.sub_0_r, Nat.Div0.mod_same.
    replace (n + blk - 1) with ((blk - 1) + q * blk) by lia.
    rewrite Nat.div_add, Nat.div_small by lia. lia.
  - rewrite (Nat.mod_small (blk - r)) by lia.
    replace (n + blk - 1) with ((r - 1) + (q + 1) * blk) by lia.
    rewrite Nat.div_add, Nat.div_small by lia. lia.
Qed.

Lemma sym_elem w : sym w ∈ alphabet ++ [padding].
Proof.
  unfold sym. destruct (list_find _ table) as [[i p]|] eqn:Hf; [|set_solver].
  apply list_find_Some in Hf as (Hi & _ & _). apply list_elem_of_lookup_2 in Hi.
  destruct p as [w' c]. apply elem_of_zip_r in Hi. set_solver.
Qed.

Lemma rfc_encode_symbols b : Forall (λ c, c ∈ alphabet ++ [padding]) (rfc_encode b).
Proof.
  unfold rfc_encode. apply Forall_app. split.
  - generalize (8 * length b) as fuel, (bits_of_bytes b) as l.
    intros fuel. induction fuel as [|fuel IH]; intros [|x l]; simpl; constructor; auto.
    apply sym_elem.
  - apply Forall_replicate. set_solver.
Qed.

Hypothesis Hsym : Forall (λ w, sym w ∈ alphabet) (words k).

(** Without padding only the alphabet is used. *)
Lemma rfc_encode_nopad_symbols b :
  pads (ceil_div (8 * length b) k) = 0 → Forall (λ c, c ∈ alphabet) (rfc_encode b).
Proof.
  intros H1. unfold rfc_encode. rewrite syms_length; rewrite bits_of_bytes_length; [|done]. rewrite H1. cbn [replicate].
  rewrite app_nil_r.
  generalize (8 * length b) as fuel, (bits_of_bytes b) as l.
  intros fuel. induction fuel as [|fuel IH]; intros [|x l]; cbn [syms]; constructor; auto.
  apply (proj1 (Forall_forall _ _) Hsym), words_elem.
  rewrite length_app, length_take, length_replicate. simpl. lia.
Qed.
End rfc4648.

Definition equals_sign : Byte.byte := Byte.x3d.
Definition base32_lower : bytes := as_bytes "abcdefghijklmnopqrstuvwxyz234567".
Definition base64_alphabet : bytes :=
  as_bytes "ABCDEFGHIJKLMNOPQRSTUVWXYZabcdefghijklmnopqrstuvwxyz0123456789+/".

Definition rfc_encoding (k blk : nat) (alphabet : bytes) : Encoding :=
  mkEncoding (rfc_encode k blk alphabet equals_sign) (rfc_decode k blk alphabet equals_sign).

Definition table_ok (k : nat) (alphabet : bytes) : bool :=
  forallb (λ w, bool_decide (unsym k alphabet (sym k alphabet equals_sign w) = w) &&
                bool_decide (sym k alphabet equals_sign w ∈ alphabet)) (words k) &&
  bool_decide (unsym k alphabet equals_sign = []).

Lemma table_ok_spec k alphabet :
  table_ok k alphabet = true →
  Forall (λ w, unsym k alphabet (sym k alphabet equals_sign w) = w) (words k) ∧
  unsym k alphabet equals_sign = [] ∧
  Forall (λ w, sym k alphabet equals_sign w ∈ alphabet) (words k).
Proof.
  intros [H1 H2%bool_decide_eq_true]%andb_prop. rewrite forallb_forall in H1.
  split_and!; [|done|]; apply Forall_forall; intros w Hw%list_elem_of_In;
    apply H1 in Hw as [Ha Hb]%andb_prop; by apply bool_decide_eq_true in Ha, Hb.
Qed.

Lemma rfc_laws k blk alphabet :
  0 < k ≤ 8 → 0 < blk → table_ok k alphabet = true →
  EncodingLaws (rfc_encoding k blk alphabet)
    (λ n, blk * ceil_div (ceil_div (8 * n) k) blk)
    (if decide (blk = 1) then alphabet else alphabet ++ [equals_sign]).
Proof.
  intros Hk Hblk (Ht & Hp & Hs)%table_ok_spec. split; simpl; intros.
  - by apply rfc_decode_encode.
  - by eapply rfc_encode_decode.
  - by apply rfc_encode_length.
  - case_decide as Hb; [|by apply rfc_encode_symbols]. apply rfc_encode_nopad_symbols; [done..|].
    unfold pads. by rewrite Hb, Nat.mod_1_r.
Qed.

Lemma laws_length e f g symbols :
  EncodingLaws e f symbols → (∀ n, f n = g n) → EncodingLaws e g symbols.
Proof. intros [H1 H2 H3 H4] Hfg. split; auto. intros b. by rewrite H3, Hfg. Qed.

(** * Keys that are byte strings *)

Definition fit (n : nat) (b : bytes) : bytes := take n (b ++ replicate n Byte.x00).
Lemma fit_length n b : length (fit n b) = n.
Proof. unfold fit. rewrite length_take, length_app, length_replicate. lia. Qed.
Lemma fit_id n b : length b = n → fit n b = b.
Proof. intros <-. unfold fit. apply take_app_length. Qed.

Definition digest (b : bytes) : bytes :=
  LittleEndianList.le_split 32
    (fold_left (λ acc x, (acc * 257 + byte.unsigned x + 1) `mod` 65521)%Z b 7%Z).
Lemma digest_length b : length (digest b) = 32.
Proof. apply LittleEndianList.length_le_split. Qed.

Definition exactly (n : nat) : Type := dsig (λ b : bytes, length b = n).
(** A proof that computes to [I], so that equal keys are equal values. *)
Definition pack_true (b : bool) : b = true → Is_true b :=
  match b with true => λ _, I | false => λ H, False_ind _ (diff_false_true H) end.
Definition mk_exactly (n : nat) (b : bytes) : exactly n :=
  fit n b ↾ pack_true _ (bool_decide_eq_true_2 _ (fit_length n b)).
Definition get {n} (x : exactly n) : bytes := `x.

Lemma get_length {n} (x : exactly n) : length (get x) = n.
Proof. destruct x as [b Hb]. exact (bool_decide_unpack _ Hb). Qed.
Lemma get_mk n b : get (mk_exactly n b) = fit n b.
Proof. done. Qed.
Lemma mk_get {n} (x : exactly n) : mk_exactly n (get x) = x.
Proof. apply dsig_eq. simpl. apply fit_id, get_length. Qed.

Definition parse_exactly (n : nat) (b : bytes) : option (exactly n) :=
  if decide (length b = n) then Some (mk_exactly n b) else None.
Lemma parse_get {n} (x : exactly n) : parse_exactly n (get x) = Some x.
Proof. unfold parse_exactly. rewrite decide_True by apply get_length. by rewrite mk_get. Qed.
Lemma parse_exactly_get n b x : parse_exactly n b = Some x → get x = b.
Proof. unfold parse_exactly. case_decide; [|done]. intros [= <-]. by apply fit_id. Qed.

Definition toy_sign (public message : bytes) : exactly 64 :=
  mk_exactly 64 (fit 32 public ++ digest message).

#[export] Instance ToyCrypto : CryptoLib := {
  ONION_BASE32 := rfc_encoding 5 8 base32_lower;
  BASE32_NOPAD := rfc_encoding 5 1 base32_symbols;
  BASE64 := rfc_encoding 6 4 base64_alphabet;
  HEXLOWER := rfc_encoding 4 1 hex_symbols;
  sha3_256 := digest;
  ExpandedKeypair := exactly 64;
  EdPublicKey := exactly 32;
  EdSignature := exactly 64;
  keypair_generate seed := mk_exactly 64 (Byte.x01 :: seed);
  keypair_from_secret_key_bytes := parse_exactly 64;
  keypair_to_secret_key_bytes := get;
  keypair_public k := mk_exactly 32 (take 32 (get k));
  keypair_sign k m := toy_sign (take 32 (get k)) m;
  public_from_bytes := parse_exactly 32;
  public_as_bytes := get;
  signature_from_bytes := mk_exactly 64;
  signature_to_bytes := get;
  verify_strict p m s := bool_decide (s = toy_sign (get p) m);
  scalar_reduce b := b;
  StaticSecret := exactly 32;
  CurvePublicKey := exactly 32;
  secret_random seed := mk_exactly 32 (Byte.x00 :: fit 30 seed ++ [Byte.x40]);
  secret_from_bytes := mk_exactly 32;
  secret_to_bytes := get;
  curve_public s := s;
  curve_from_bytes := mk_exactly 32;
  curve_as_bytes := get;
  convert_curve25519_to_ed25519_private s := Some (mk_exactly 64 (get s ++ get s), 0%Z);
  convert_curve25519_to_ed25519_public p bit :=
    match bit with 0%Z => Some p | _ => None end;
  os_random pos n := fit n (LittleEndianList.le_split 32 (7919 * Z.of_nat (S pos)));
}.

Lemma onion_len n : 8 * ceil_div (ceil_div (8 * n) 5) 8 = 8 * ceil_div n 5.
Proof. div_lia. Qed.
Lemma base32_len n : 1 * ceil_div (ceil_div (8 * n) 5) 1 = ceil_div (8 * n) 5.
Proof. unfold ceil_div at 1. rewrite Nat.div_1_r. lia. Qed.
Lemma base64_len n : 4 * ceil_div (ceil_div (8 * n) 6) 4 = 4 * ceil_div n 3.
Proof. div_lia. Qed.
Lemma hex_len n : 1 * ceil_div (ceil_div (8 * n) 4) 1 = 2 * n.
Proof. unfold ceil_div at 1. rewrite Nat.div_1_r. div_lia. Qed.

#[export] Instance ToyCryptoLaws : CryptoLaws ToyCrypto.
Proof.
  split.
  - exact (laws_length _ _ _ _ (rfc_laws 5 8 base32_lower ltac:(lia) ltac:(lia) ltac:(by_eval)) onion_len).
  - intros b Hb. destruct (table_ok_spec 5 base32_lower ltac:(by_eval)) as (Ht & Hp & Hs).
    apply rfc_encode_nopad_symbols; [lia|lia|exact Ht|exact Hp|exact Hs|]. unfold pads, ceil_div.
    pose proof (Nat.div_mod (length b) 5 ltac:(lia)) as Hd. rewrite Hb, Nat.add_0_r in Hd. rewrite Hd.
    replace (8 * (5 * (length b / 5)) + 5 - 1) with (4 + (length b / 5 * 8) * 5) by lia.
    rewrite Nat.div_add by lia. change (4 / 5) with 0. by rewrite Nat.add_0_l, Nat.Div0.mod_mul.
  - exact (laws_length _ _ _ _ (rfc_laws 5 1 base32_symbols ltac:(lia) ltac:(lia) ltac:(by_eval)) base32_len).
  - exact (laws_length _ _ _ _ (rfc_laws 6 4 base64_alphabet ltac:(lia) ltac:(lia) ltac:(by_eval)) base64_len).
  - exact (laws_length _ _ _ _ (rfc_laws 4 1 hex_symbols ltac:(lia) ltac:(lia) ltac:(by_eval)) hex_len).
  - apply digest_length.
  - apply get_length.
  - apply parse_get.
  - intros raw k _. apply parse_exactly_get.
  - intros seed. by split.
  - apply get_length.
  - apply parse_get.
  - apply parse_exactly_get.
  - apply get_length.
  - intros s. apply mk_get.
  - intros k m. apply bool_decide_eq_true. cbn [keypair_public keypair_sign ToyCrypto].
    rewrite get_mk, fit_id; [done|]. by rewrite length_take, get_length.
  - intros raw Hr. by apply fit_id.
  - apply get_length.
  - apply mk_get.
  - apply get_length.
  - apply mk_get.
  - intros raw Hr. by apply fit_id.
  - intros s k bit [= <- <-]. cbn [convert_curve25519_to_ed25519_public curve_public keypair_public ToyCrypto].
    f_equal. rewrite get_mk, (fit_id 64), take_app_length'; [by rewrite mk_get|symmetry; apply get_length|].
    by rewrite length_app, get_length.
  - intros pos n. apply fit_length.
Qed.
