(* ===== verification/GoslingProto.v ===== *)
(** What the gosling crate's four handshake state machines share: ascii_string.rs and
    the top of gosling.rs (error codes, cookies and the client proof). *)

From Stdlib Require Import ZArith Lia.
From S2P Require Import Prelude Bson HonkWire Crypto TorCrypto.
From stdpp Require Import prelude strings list.
From coqutil Require Import Byte.

Open Scope nat_scope.

(** * ascii_string.rs *)

Record AsciiString := mkAsciiString { ascii_value : string }.

#[export] Instance ascii_string_eq_dec : EqDecision AsciiString.
Proof. solve_decision. Defined.

Inductive AsciiError := InvalidAscii (value : string).

(** [str::is_ascii] *)
Definition is_ascii (s : string) : bool := forallb (λ b, byte.unsigned b <? 128)%Z (as_bytes s).

Definition ascii_string_new (value : string) : result AsciiError AsciiString :=
  if is_ascii value then Ok (mkAsciiString value) else Err (InvalidAscii value).

(** * gosling.rs *)

Inductive RpcError := BadVersion | RequestCookieRequired | InvalidArg | Failure.

(** [RpcError::X as i32], [#[repr(i32)]] with the default discriminants *)
Definition i32_of_rpc_error (e : RpcError) : Z :=
  match e with BadVersion => 0 | RequestCookieRequired => 1 | InvalidArg => 2 | Failure => 3 end.

(** [ErrorCode::Runtime(RpcError::X as i32)] *)
Definition runtime_error (e : RpcError) : ErrorCode := Runtime (i32_of_rpc_error e).

Definition GOSLING_PROTOCOL_VERSION : string := "0.1.0".
Definition CLIENT_COOKIE_SIZE : nat := 32.
Definition SERVER_COOKIE_SIZE : nat := 32.

Abbreviation ClientCookie := bytes.
Abbreviation ServerCookie := bytes.

Inductive DomainSeparator := GoslingIdentity | GoslingEndpoint.

#[export] Instance domain_separator_eq_dec : EqDecision DomainSeparator.
Proof. solve_decision. Defined.

Definition separator_bytes (s : DomainSeparator) : bytes :=
  as_bytes match s with
           | GoslingIdentity => "gosling-identity"
           | GoslingEndpoint => "gosling-endpoint"
           end.

Section proof.
Context `{CL : CryptoLib}.

Definition build_client_proof (domain_separator : DomainSeparator) (request : AsciiString)
    (client_service_id server_service_id : V3OnionServiceId)
    (client_cookie : ClientCookie) (server_cookie : ServerCookie) : bytes :=
  separator_bytes domain_separator ++ [Byte.x00] ++
  as_bytes (ascii_value request) ++ [Byte.x00] ++
  as_bytes (service_id_to_string client_service_id) ++ [Byte.x00] ++
  as_bytes (service_id_to_string server_service_id) ++ [Byte.x00] ++
  encode HEXLOWER client_cookie ++ [Byte.x00] ++
  encode HEXLOWER server_cookie.
End proof.

(** * Theory *)

Lemma separator_length s : length (separator_bytes s) = 16.
Proof. by destruct s. Qed.

Lemma separator_inj s t : separator_bytes s = separator_bytes t → s = t.
Proof. by destruct s, t. Qed.

Lemma ascii_string_new_Ok s a : ascii_string_new s = Ok a → ascii_value a = s ∧ is_ascii s = true.
Proof. unfold ascii_string_new. destruct (is_ascii s) eqn:E; [|done]. by intros [= <-]. Qed.

Section proof_theory.
Context `{CL : CryptoLaws}.

Lemma hex_encode_length b : length (encode HEXLOWER b) = 2 * length b.
Proof. apply (encode_length _ _ _ hexlower_laws). Qed.

Lemma hex_encode_inj b c : encode HEXLOWER b = encode HEXLOWER c → b = c.
Proof.
  intros H. apply (f_equal (decode HEXLOWER)) in H.
  rewrite !(decode_encode _ _ _ hexlower_laws) in H. congruence.
Qed.

(** The last parts of two equal concatenations are equal when they are equally long. *)
Lemma app_inj_tail_length (a b c d : bytes) :
  length b = length d → a ++ b = c ++ d → a = c ∧ b = d.
Proof. intros Hl Heq. by apply app_inj_2 in Heq. Qed.

(** The proof determines everything that went into it: every field but the request has
    a fixed length. *)
Lemma build_client_proof_inj sep req cid sid cc sc sep' req' cid' sid' cc' sc' :
  length (sid_data cid) = 56 → length (sid_data cid') = 56 →
  length (sid_data sid) = 56 → length (sid_data sid') = 56 →
  length cc = 32 → length cc' = 32 → length sc = 32 → length sc' = 32 →
  build_client_proof sep req cid sid cc sc = build_client_proof sep' req' cid' sid' cc' sc' →
  (sep, req, cid, sid, cc, sc) = (sep', req', cid', sid', cc', sc').
Proof.
  intros Hc Hc' Hs Hs' Hcc Hcc' Hsc Hsc'. unfold build_client_proof, service_id_to_string.
  rewrite !as_bytes_of_list, !app_assoc. intros Heq.
  apply app_inj_tail_length in Heq as [Heq H6%hex_encode_inj]; [|rewrite !hex_encode_length; lia].
  apply app_inj_tail_length in Heq as [Heq _]; [|done].
  apply app_inj_tail_length in Heq as [Heq H5%hex_encode_inj]; [|rewrite !hex_encode_length; lia].
  apply app_inj_tail_length in Heq as [Heq _]; [|done].
  apply app_inj_tail_length in Heq as [Heq H4]; [|lia].
  apply app_inj_tail_length in Heq as [Heq _]; [|done].
  apply app_inj_tail_length in Heq as [Heq H3]; [|lia].
  apply app_inj_tail_length in Heq as [Heq _]; [|done].
  rewrite <- !app_assoc in Heq. apply app_inj_1 in Heq as [H1%separator_inj Heq];
    [|by rewrite !separator_length].
  injection Heq as H2%as_bytes_inj. destruct req, req', cid, cid', sid, sid'. simpl in *. congruence.
Qed.
End proof_theory.
