(* ===== verification/IdentityServer.v ===== *)
(** gosling/src/identity_server.rs: the server side of the identity handshake. *)

From Stdlib Require Import ZArith Lia.
From S2P Require Import Prelude Bson HonkWire HonkSize VecDeque HonkSession HonkRead HonkWrite HonkUpdate.
From S2P Require Import Crypto TorCrypto GoslingProto.
From stdpp Require Import prelude strings list.

Open Scope nat_scope.

Inductive ISError `{BsonLib} :=
| IS_HonkRPCFailure (err : HonkError)
| IS_InvalidState
| IS_IncorrectUsage
| IS_BadClient
| IS_EndpointChallengeTooLarge (size max : nat).

Inductive IdentityServerEvent `{BsonLib, CryptoLib} :=
| IS_EndpointRequestReceived (client_service_id : V3OnionServiceId) (requested_endpoint : AsciiString)
| IS_ChallengeResponseReceived (challenge_response : Document)
| IS_HandshakeCompleted (endpoint_private_key : Ed25519PrivateKey) (endpoint_name : AsciiString)
    (client_service_id : V3OnionServiceId) (client_auth_public_key : X25519PublicKey)
| IS_HandshakeRejected (client_allowed client_requested_endpoint_valid client_proof_signature_valid
    client_auth_signature_valid challenge_response_valid : bool).

Inductive IdentityServerState :=
| IS_WaitingForBeginHandshake
| IS_GettingChallenge
| IS_ChallengeReady
| IS_WaitingForSendResponse
| IS_GettingChallengeVerification
| IS_ChallengeVerificationReady
| IS_ChallengeVerificationResponseSent
| IS_HandshakeComplete
| IS_HandshakeFailed.

#[export] Instance identity_server_state_eq_dec : EqDecision IdentityServerState.
Proof. solve_decision. Defined.

Section identity_server.
Context `{BL : BsonLib} `{CL : CryptoLib} {RW : Type} `{!Stream RW}.

(** [is_draws] is the position of the operating system's random numbers. *)
Record IdentityServer := mkIdentityServer {
  is_rpc : option (Session RW);
  is_server_identity : V3OnionServiceId;
  is_draws : nat;
  is_state : IdentityServerState;
  is_begin_handshake_request_cookie : option RequestCookie;
  is_client_identity : option V3OnionServiceId;
  is_requested_endpoint : option AsciiString;
  is_server_cookie : option ServerCookie;
  is_endpoint_challenge : option Document;
  is_send_response_request_cookie : option RequestCookie;
  is_client_auth_key : option X25519PublicKey;
  is_challenge_response : option Document;
  is_endpoint_private_key : option Ed25519PrivateKey;
  is_client_allowed : bool;
  is_client_requested_endpoint_valid : bool;
  is_client_proof_signature_valid : bool;
  is_client_auth_signature_valid : bool;
  is_challenge_response_valid : bool;
}.

Definition is_set_rpc v s := let 'mkIdentityServer _ x1 x2 x3 x4 x5 x6 x7 x8 x9 x10 x11 x12 x13 x14 x15 x16 x17 := s in mkIdentityServer v x1 x2 x3 x4 x5 x6 x7 x8 x9 x10 x11 x12 x13 x14 x15 x16 x17.
Definition is_set_draws v s := let 'mkIdentityServer x0 x1 _ x3 x4 x5 x6 x7 x8 x9 x10 x11 x12 x13 x14 x15 x16 x17 := s in mkIdentityServer x0 x1 v x3 x4 x5 x6 x7 x8 x9 x10 x11 x12 x13 x14 x15 x16 x17.
Definition is_set_state v s := let 'mkIdentityServer x0 x1 x2 _ x4 x5 x6 x7 x8 x9 x10 x11 x12 x13 x14 x15 x16 x17 := s in mkIdentityServer x0 x1 x2 v x4 x5 x6 x7 x8 x9 x10 x11 x12 x13 x14 x15 x16 x17.
Definition is_set_begin_cookie v s := let 'mkIdentityServer x0 x1 x2 x3 _ x5 x6 x7 x8 x9 x10 x11 x12 x13 x14 x15 x16 x17 := s in mkIdentityServer x0 x1 x2 x3 v x5 x6 x7 x8 x9 x10 x11 x12 x13 x14 x15 x16 x17.
Definition is_set_client_identity v s := let 'mkIdentityServer x0 x1 x2 x3 x4 _ x6 x7 x8 x9 x10 x11 x12 x13 x14 x15 x16 x17 := s in mkIdentityServer x0 x1 x2 x3 x4 v x6 x7 x8 x9 x10 x11 x12 x13 x14 x15 x16 x17.
Definition is_set_requested_endpoint v s := let 'mkIdentityServer x0 x1 x2 x3 x4 x5 _ x7 x8 x9 x10 x11 x12 x13 x14 x15 x16 x17 := s in mkIdentityServer x0 x1 x2 x3 x4 x5 v x7 x8 x9 x10 x11 x12 x13 x14 x15 x16 x17.
Definition is_set_server_cookie v s := let 'mkIdentityServer x0 x1 x2 x3 x4 x5 x6 _ x8 x9 x10 x11 x12 x13 x14 x15 x16 x17 := s in mkIdentityServer x0 x1 x2 x3 x4 x5 x6 v x8 x9 x10 x11 x12 x13 x14 x15 x16 x17.
Definition is_set_endpoint_challenge v s := let 'mkIdentityServer x0 x1 x2 x3 x4 x5 x6 x7 _ x9 x10 x11 x12 x13 x14 x15 x16 x17 := s in mkIdentityServer x0 x1 x2 x3 x4 x5 x6 x7 v x9 x10 x11 x12 x13 x14 x15 x16 x17.
Definition is_set_send_cookie v s := let 'mkIdentityServer x0 x1 x2 x3 x4 x5 x6 x7 x8 _ x10 x11 x12 x13 x14 x15 x16 x17 := s in mkIdentityServer x0 x1 x2 x3 x4 x5 x6 x7 x8 v x10 x11 x12 x13 x14 x15 x16 x17.
Definition is_set_client_auth_key v s := let 'mkIdentityServer x0 x1 x2 x3 x4 x5 x6 x7 x8 x9 _ x11 x12 x13 x14 x15 x16 x17 := s in mkIdentityServer x0 x1 x2 x3 x4 x5 x6 x7 x8 x9 v x11 x12 x13 x14 x15 x16 x17.
Definition is_set_challenge_response v s := let 'mkIdentityServer x0 x1 x2 x3 x4 x5 x6 x7 x8 x9 x10 _ x12 x13 x14 x15 x16 x17 := s in mkIdentityServer x0 x1 x2 x3 x4 x5 x6 x7 x8 x9 x10 v x12 x13 x14 x15 x16 x17.
Definition is_set_endpoint_private_key v s := let 'mkIdentityServer x0 x1 x2 x3 x4 x5 x6 x7 x8 x9 x10 x11 _ x13 x14 x15 x16 x17 := s in mkIdentityServer x0 x1 x2 x3 x4 x5 x6 x7 x8 x9 x10 x11 v x13 x14 x15 x16 x17.
Definition is_set_client_allowed v s := let 'mkIdentityServer x0 x1 x2 x3 x4 x5 x6 x7 x8 x9 x10 x11 x12 _ x14 x15 x16 x17 := s in mkIdentityServer x0 x1 x2 x3 x4 x5 x6 x7 x8 x9 x10 x11 x12 v x14 x15 x16 x17.
Definition is_set_endpoint_valid v s := let 'mkIdentityServer x0 x1 x2 x3 x4 x5 x6 x7 x8 x9 x10 x11 x12 x13 _ x15 x16 x17 := s in mkIdentityServer x0 x1 x2 x3 x4 x5 x6 x7 x8 x9 x10 x11 x12 x13 v x15 x16 x17.
Definition is_set_proof_valid v s := let 'mkIdentityServer x0 x1 x2 x3 x4 x5 x6 x7 x8 x9 x10 x11 x12 x13 x14 _ x16 x17 := s in mkIdentityServer x0 x1 x2 x3 x4 x5 x6 x7 x8 x9 x10 x11 x12 x13 x14 v x16 x17.
Definition is_set_auth_valid v s := let 'mkIdentityServer x0 x1 x2 x3 x4 x5 x6 x7 x8 x9 x10 x11 x12 x13 x14 x15 _ x17 := s in mkIdentityServer x0 x1 x2 x3 x4 x5 x6 x7 x8 x9 x10 x11 x12 x13 x14 x15 v x17.
Definition is_set_response_valid v s := let 'mkIdentityServer x0 x1 x2 x3 x4 x5 x6 x7 x8 x9 x10 x11 x12 x13 x14 x15 x16 _ := s in mkIdentityServer x0 x1 x2 x3 x4 x5 x6 x7 x8 x9 x10 x11 x12 x13 x14 x15 x16 v.

Abbreviation IS_ := (M IdentityServer ISError).

(** [IdentityServer::new] *)
Definition identity_server_new (rpc : Session RW) (server_identity : V3OnionServiceId) (draws : nat) :
    IdentityServer :=
  {| is_rpc := Some rpc;
     is_server_identity := server_identity;
     is_draws := draws;
     is_state := IS_WaitingForBeginHandshake;
     is_begin_handshake_request_cookie := None;
     is_client_identity := None;
     is_requested_endpoint := None;
     is_server_cookie := None;
     is_endpoint_challenge := None;
     is_send_response_request_cookie := None;
     is_client_auth_key := None;
     is_challenge_response := None;
     is_endpoint_private_key := None;
     is_client_allowed := false;
     is_client_requested_endpoint_valid := false;
     is_client_proof_signature_valid := false;
     is_client_auth_signature_valid := false;
     is_challenge_response_valid := false |}.

(** * The functions a client may call *)

Abbreviation reply_t := (option (result ErrorCode (option Bson))).

(** [self.state = HandshakeFailed; return Some(Err(ErrorCode::Runtime(e)))] *)
Definition is_fail (self : IdentityServer) (e : RpcError) : reply_t * IdentityServer :=
  (Some (Err (runtime_error e)), is_set_state IS_HandshakeFailed self).

(** The [begin_handshake] arm. *)
Definition is_begin_handshake (self : IdentityServer) (args : Document) (request_cookie : RequestCookie) :
    reply_t * IdentityServer :=
  let '(version, args) := doc_remove args "version" in
  let valid_version :=
    match version with Some (BString value) => String.eqb value GOSLING_PROTOCOL_VERSION | _ => false end in
  if negb valid_version then is_fail self BadVersion
  else
    let '(client_identity, args) := doc_remove args "client_identity" in
    let '(endpoint, args) := doc_remove args "endpoint" in
    match client_identity, endpoint with
    | Some (BString client_identity), Some (BString endpoint_name) =>
        match service_id_from_string client_identity with
        | Err _ => is_fail self InvalidArg
        | Ok client_identity =>
            match ascii_string_new endpoint_name with
            | Err _ => is_fail self InvalidArg
            | Ok endpoint_name =>
                let self := is_set_begin_cookie (Some request_cookie) self in
                let self := is_set_client_identity (Some client_identity) self in
                let self := is_set_requested_endpoint (Some endpoint_name) self in
                (None, self)
            end
        end
    | _, _ => is_fail self InvalidArg
    end.

(** The [send_response] arm, with the values its pattern binds. *)
Definition is_send_response (self : IdentityServer) (client_identity : V3OnionServiceId)
    (requested_endpoint : AsciiString) (server_cookie : ServerCookie)
    (args : Document) (request_cookie : RequestCookie) : reply_t * IdentityServer :=
  let '(client_cookie, args) := doc_remove args "client_cookie" in
  let '(proof_signature, args) := doc_remove args "client_identity_proof_signature" in
  let '(auth_key, args) := doc_remove args "client_authorization_key" in
  let '(auth_key_signbit, args) := doc_remove args "client_authorization_key_signbit" in
  let '(auth_signature, args) := doc_remove args "client_authorization_signature" in
  let '(challenge_response, args) := doc_remove args "challenge_response" in
  match client_cookie, proof_signature, auth_key, auth_key_signbit, auth_signature, challenge_response with
  | Some (BBinary Generic client_cookie), Some (BBinary Generic proof_signature),
    Some (BBinary Generic auth_key), Some (BBoolean auth_key_signbit),
    Some (BBinary Generic auth_signature), Some (BDocument challenge_response) =>
      match try_into_array CLIENT_COOKIE_SIZE client_cookie with
      | None => is_fail self InvalidArg
      | Some client_cookie =>
      match try_into_array ED25519_SIGNATURE_SIZE proof_signature with
      | None => is_fail self InvalidArg
      | Some proof_signature =>
      match signature_from_raw proof_signature with
      | Err _ => is_fail self InvalidArg
      | Ok proof_signature =>
      match try_into_array X25519_PUBLIC_KEY_SIZE auth_key with
      | None => is_fail self InvalidArg
      | Some auth_key =>
      let auth_key := x25519_public_from_raw auth_key in
      let auth_key_signbit := signbit_from_bool auth_key_signbit in
      match try_into_array ED25519_SIGNATURE_SIZE auth_signature with
      | None => is_fail self InvalidArg
      | Some auth_signature =>
      match signature_from_raw auth_signature with
      | Err _ => is_fail self InvalidArg
      | Ok auth_signature =>
          let self := is_set_send_cookie (Some request_cookie) self in
          let self :=
            match from_service_id client_identity with
            | Ok client_identity_key =>
                let client_proof := build_client_proof GoslingIdentity requested_endpoint
                  client_identity (is_server_identity self) client_cookie server_cookie in
                is_set_proof_valid (verify proof_signature client_proof client_identity_key) self
            | Err _ => self
            end in
          let self := is_set_auth_valid
            (verify_x25519 auth_signature (sid_data client_identity) auth_key auth_key_signbit) self in
          let self := is_set_client_auth_key (Some auth_key) self in
          let self := is_set_challenge_response (Some challenge_response) self in
          (None, self)
      end end end end end end
  | _, _, _, _, _, _ => is_fail self InvalidArg
  end.

(** [exec_function] *)
Definition is_exec_function (self : IdentityServer) (name : string) (version : Z) (args : Document)
    (request_cookie : option RequestCookie) : reply_t * IdentityServer :=
  match request_cookie with
  | None => (Some (Err (runtime_error RequestCookieRequired)), self)
  | Some request_cookie =>
      if String.eqb name "begin_handshake" && (version =? 0)%Z then
        match is_state self, is_begin_handshake_request_cookie self, is_client_identity self,
              is_requested_endpoint self, is_server_cookie self, is_endpoint_challenge self,
              is_client_auth_key self, is_challenge_response self, is_endpoint_private_key self with
        | IS_WaitingForBeginHandshake, None, None, None, None, None, None, None, None =>
            is_begin_handshake self args request_cookie
        | _, _, _, _, _, _, _, _, _ => is_fail self Failure
        end
      else if String.eqb name "send_response" && (version =? 0)%Z then
        match is_state self, is_begin_handshake_request_cookie self, is_client_identity self,
              is_requested_endpoint self, is_server_cookie self, is_endpoint_challenge self,
              is_client_auth_key self, is_challenge_response self, is_endpoint_private_key self with
        | IS_WaitingForSendResponse, Some _, Some client_identity, Some requested_endpoint,
          Some server_cookie, Some _, None, None, None =>
            is_send_response self client_identity requested_endpoint server_cookie args request_cookie
        | _, _, _, _, _, _, _, _, _ => is_fail self Failure
        end
      else is_fail self Failure
  end.

(** [doc!{ "server_cookie" : .., "endpoint_challenge" : .. }] *)
Definition is_challenge_doc (server_cookie : ServerCookie) (endpoint_challenge : Document) : Bson :=
  BDocument (doc [("server_cookie", BBinary Generic server_cookie);
                  ("endpoint_challenge", BDocument endpoint_challenge)]).

(** [next_result] *)
Definition is_next_result (self : IdentityServer) :
    outcome (option (RequestCookie * result ErrorCode (option Bson)) * IdentityServer) :=
  match is_state self with
  | IS_ChallengeReady =>
      match is_begin_handshake_request_cookie self, is_client_identity self, is_requested_endpoint self,
            is_server_cookie self, is_endpoint_challenge self, is_send_response_request_cookie self,
            is_client_auth_key self, is_challenge_response self with
      | Some begin_cookie, Some _, Some _, Some server_cookie, Some challenge, None, None, None =>
          let self := is_set_state IS_WaitingForSendResponse self in
          let self := is_set_endpoint_challenge (Some doc_new) self in
          Done (Some (begin_cookie, Ok (Some (is_challenge_doc server_cookie challenge))), self)
      | _, _, _, _, _, _, _, _ => Panicked
      end
  | IS_ChallengeVerificationReady =>
      match is_begin_handshake_request_cookie self, is_client_identity self, is_requested_endpoint self,
            is_server_cookie self, is_endpoint_challenge self, is_send_response_request_cookie self,
            is_client_auth_key self, is_challenge_response self with
      | Some _, Some _, Some _, Some _, Some _, Some send_cookie, Some _, Some _ =>
          let success := is_client_allowed self && is_client_requested_endpoint_valid self &&
            is_client_proof_signature_valid self && is_client_auth_signature_valid self &&
            is_challenge_response_valid self in
          let self := is_set_state IS_ChallengeVerificationResponseSent self in
          if success then
            let endpoint_private_key := ed25519_generate (os_random (is_draws self) 32) in
            let self := is_set_draws (S (is_draws self)) self in
            let endpoint_service_id := service_id_from_private_key endpoint_private_key in
            let self := is_set_endpoint_private_key (Some endpoint_private_key) self in
            Done (Some (send_cookie, Ok (Some (BString (service_id_to_string endpoint_service_id)))), self)
          else Done (Some (send_cookie, Err (runtime_error Failure)), self)
      | _, _, _, _, _, _, _, _ => Done (None, self)
      end
  | _ => Done (None, self)
  end.

(** [impl ApiSet for IdentityServer] *)
#[export] Instance identity_server_api : ApiSet IdentityServer := {
  namespace _ := "gosling_identity";
  exec_function := is_exec_function;
  api_update self := self;
  next_result := is_next_result;
}.

(** * Driving the server *)

(** The state machine of [update], after the session was updated. *)
Definition is_advance : IS_ (option IdentityServerEvent) := λ self,
  let invalid := Done (self, Err (if decide (is_state self = IS_HandshakeFailed)
                                  then IS_BadClient else IS_InvalidState)) in
  match is_state self with
  | IS_WaitingForBeginHandshake =>
      match is_begin_handshake_request_cookie self, is_client_identity self, is_requested_endpoint self,
            is_server_cookie self, is_endpoint_challenge self, is_send_response_request_cookie self,
            is_client_auth_key self, is_challenge_response self, is_endpoint_private_key self with
      | None, None, None, None, None, None, None, None, None => Done (self, Ok None)
      | Some _, Some client_identity, Some requested_endpoint, None, None, None, None, None, None =>
          Done (is_set_state IS_GettingChallenge self,
                Ok (Some (IS_EndpointRequestReceived client_identity requested_endpoint)))
      | _, _, _, _, _, _, _, _, _ => invalid
      end
  | IS_WaitingForSendResponse =>
      match is_begin_handshake_request_cookie self, is_client_identity self, is_requested_endpoint self,
            is_server_cookie self, is_endpoint_challenge self, is_send_response_request_cookie self,
            is_client_auth_key self, is_challenge_response self, is_endpoint_private_key self with
      | Some _, Some _, Some _, Some _, Some _, None, None, None, None => Done (self, Ok None)
      | Some _, Some _, Some _, Some _, Some _, Some _, Some _, Some challenge_response, None =>
          Done (is_set_challenge_response (Some doc_new)
                  (is_set_state IS_GettingChallengeVerification self),
                Ok (Some (IS_ChallengeResponseReceived challenge_response)))
      | _, _, _, _, _, _, _, _, _ => invalid
      end
  | IS_ChallengeVerificationResponseSent =>
      match is_begin_handshake_request_cookie self, is_client_identity self, is_requested_endpoint self,
            is_server_cookie self, is_endpoint_challenge self, is_send_response_request_cookie self,
            is_client_auth_key self, is_challenge_response self, is_endpoint_private_key self with
      | Some _, Some client_identity, Some requested_endpoint, Some _, Some _, Some _,
        Some client_auth_key, Some _, Some endpoint_private_key =>
          match ed25519_private_clone endpoint_private_key with
          | Done endpoint_private_key =>
              Done (is_set_state IS_HandshakeComplete self,
                    Ok (Some (IS_HandshakeCompleted endpoint_private_key requested_endpoint
                                client_identity client_auth_key)))
          | Panicked => Panicked
          | OutOfFuel => OutOfFuel
          end
      | Some _, Some _, Some _, Some _, Some _, Some _, Some _, Some _, None =>
          Done (is_set_state IS_HandshakeComplete self,
                Ok (Some (IS_HandshakeRejected (is_client_allowed self)
                  (is_client_requested_endpoint_valid self) (is_client_proof_signature_valid self)
                  (is_client_auth_signature_valid self) (is_challenge_response_valid self))))
      | _, _, _, _, _, _, _, _, _ => invalid
      end
  | _ => invalid
  end.

(** [IdentityServer::update]: the session is taken out while it calls back. *)
Definition is_update (fuel : nat) : IS_ (option IdentityServerEvent) := λ self,
  match is_rpc self with
  | Some rpc =>
      match update fuel (rpc, [is_set_rpc None self]) with
      | Done ((rpc, [self]), Ok _) => is_advance (is_set_rpc (Some rpc) self)
      | Done ((rpc, [self]), Err err) => Done (is_set_rpc (Some rpc) self, Err (IS_HonkRPCFailure err))
      | OutOfFuel => OutOfFuel
      | _ => Panicked
      end
  | None => is_advance self
  end.

(** [handle_endpoint_request_received] *)
Definition is_handle_endpoint_request_received (client_allowed endpoint_valid : bool)
    (endpoint_challenge : Document) : IS_ unit := λ self,
  match is_state self, is_rpc self, is_begin_handshake_request_cookie self, is_client_identity self,
        is_requested_endpoint self, is_server_cookie self, is_endpoint_challenge self,
        is_client_auth_key self, is_challenge_response self, is_endpoint_private_key self with
  | IS_GettingChallenge, Some rpc, Some _, Some _, Some _, None, None, None, None, None =>
      let server_cookie := os_random (is_draws self) SERVER_COOKIE_SIZE in
      let self := is_set_draws (S (is_draws self)) self in
      match get_response_section_size (Some (is_challenge_doc server_cookie endpoint_challenge)) with
      | Err err => Done (self, Err (IS_HonkRPCFailure err))
      | Ok response_section_size =>
          match get_message_overhead with
          | Err err => Done (self, Err (IS_HonkRPCFailure err))
          | Ok overhead =>
              let message_size := overhead + response_section_size in
              let max_message_size := get_max_message_size rpc in
              if bool_decide (max_message_size < message_size)
              then Done (self, Err (IS_EndpointChallengeTooLarge message_size max_message_size))
              else
                let self := is_set_server_cookie (Some server_cookie) self in
                let self := is_set_endpoint_challenge (Some endpoint_challenge) self in
                let self := is_set_client_allowed client_allowed self in
                let self := is_set_endpoint_valid endpoint_valid self in
                Done (is_set_state IS_ChallengeReady self, Ok tt)
          end
      end
  | _, _, _, _, _, _, _, _, _, _ => Done (self, Err IS_IncorrectUsage)
  end.

(** [handle_challenge_response_received] *)
Definition is_handle_challenge_response_received (challenge_response_valid : bool) : IS_ unit := λ self,
  match is_state self, is_begin_handshake_request_cookie self, is_client_identity self,
        is_requested_endpoint self, is_server_cookie self, is_endpoint_challenge self,
        is_client_auth_key self, is_challenge_response self, is_endpoint_private_key self with
  | IS_GettingChallengeVerification, Some _, Some _, Some _, Some _, Some _, Some _, Some _, None =>
      let self := is_set_response_valid challenge_response_valid self in
      Done (is_set_state IS_ChallengeVerificationReady self, Ok tt)
  | _, _, _, _, _, _, _, _, _ => Done (self, Err IS_IncorrectUsage)
  end.

End identity_server.

Arguments IdentityServer {_ _} RW.

(** * The invariant *)

Definition has {A} (o : option A) : bool := match o with Some _ => true | None => false end.

(** Split the options whose presence a hypothesis fixes. *)
Ltac by_shape H :=
  repeat match type of H with
  | context [has ?o] => is_var o; destruct o; simpl in H; try discriminate H
  end.

Section identity_server_theory.
Context `{BL : BsonLib} `{CL : CryptoLib} {RW : Type} `{!Stream RW}.
Implicit Types (self : IdentityServer RW).

(** Which fields are set. *)
Definition is_present self : list bool :=
  [has (is_begin_handshake_request_cookie self); has (is_client_identity self);
   has (is_requested_endpoint self); has (is_server_cookie self); has (is_endpoint_challenge self);
   has (is_send_response_request_cookie self); has (is_client_auth_key self);
   has (is_challenge_response self); has (is_endpoint_private_key self)].

(** All five conditions of a successful handshake. *)
Definition is_all_valid self : bool :=
  is_client_allowed self && is_client_requested_endpoint_valid self &&
  is_client_proof_signature_valid self && is_client_auth_signature_valid self &&
  is_challenge_response_valid self.

Abbreviation T := true.
Abbreviation F := false.

(** What each state means: the fields that are set in it. *)
Definition is_shape self : Prop :=
  match is_state self with
  | IS_WaitingForBeginHandshake =>
      is_present self = [F; F; F; F; F; F; F; F; F] ∨ is_present self = [T; T; T; F; F; F; F; F; F]
  | IS_GettingChallenge => is_present self = [T; T; T; F; F; F; F; F; F]
  | IS_ChallengeReady => is_present self = [T; T; T; T; T; F; F; F; F]
  | IS_WaitingForSendResponse =>
      is_present self = [T; T; T; T; T; F; F; F; F] ∨ is_present self = [T; T; T; T; T; T; T; T; F]
  | IS_GettingChallengeVerification | IS_ChallengeVerificationReady =>
      is_present self = [T; T; T; T; T; T; T; T; F]
  | IS_ChallengeVerificationResponseSent | IS_HandshakeComplete =>
      is_present self = [T; T; T; T; T; T; T; T; is_all_valid self]
  | IS_HandshakeFailed => True
  end.

(** What the two signature flags stand for: a signature over the proof of this very
    handshake that verifies under the key of the client's identity, and a signature over
    that identity that verifies under the authorization key. *)
Definition is_proof_ok self : Prop :=
  ∃ client endpoint server_cookie client_cookie sig key,
    is_client_identity self = Some client ∧ is_requested_endpoint self = Some endpoint ∧
    is_server_cookie self = Some server_cookie ∧ length client_cookie = CLIENT_COOKIE_SIZE ∧
    from_service_id client = Ok key ∧
    verify sig (build_client_proof GoslingIdentity endpoint client (is_server_identity self)
                  client_cookie server_cookie) key = true.

Definition is_auth_ok self : Prop :=
  ∃ client auth_key sig signbit,
    is_client_identity self = Some client ∧ is_client_auth_key self = Some auth_key ∧
    verify_x25519 sig (sid_data client) auth_key signbit = true.

Record is_inv self : Prop := {
  is_inv_shape : is_shape self;
  is_inv_client c : is_client_identity self = Some c → is_valid (sid_data c) = true;
  is_inv_proof : is_client_proof_signature_valid self = true → is_proof_ok self;
  is_inv_auth : is_client_auth_signature_valid self = true → is_auth_ok self;
  is_inv_key k : is_endpoint_private_key self = Some k → ∃ seed, k = ed25519_generate seed;
}.

Lemma is_inv_new rpc sid draws : is_inv (identity_server_new rpc sid draws).
Proof. split; try done. by left. Qed.

(** The session and the random numbers are not part of it. *)
Lemma is_inv_rpc rpc self : is_inv (is_set_rpc rpc self) ↔ is_inv self.
Proof. destruct self. split; intros []; by split. Qed.
Lemma is_inv_draws n self : is_inv (is_set_draws n self) ↔ is_inv self.
Proof. destruct self. split; intros []; by split. Qed.

(** Failing the handshake only changes the state. *)
Lemma is_inv_failed self : is_inv self → is_inv (is_set_state IS_HandshakeFailed self).
Proof. destruct self. intros []. by split. Qed.

Lemma is_fail_inv self e : is_inv self → is_inv (is_fail self e).2.
Proof. apply is_inv_failed. Qed.

Hint Resolve is_fail_inv : gosling.

Lemma is_begin_handshake_inv self args cookie :
  is_inv self → is_state self = IS_WaitingForBeginHandshake →
  is_present self = [F; F; F; F; F; F; F; F; F] → is_inv (is_begin_handshake self args cookie).2.
Proof.
  intros Hi Hst Hp. unfold is_begin_handshake.
  destruct (doc_remove args "version") as [v a1]. case_match; [by apply is_fail_inv|].
  destruct (doc_remove a1 "client_identity") as [c a2], (doc_remove a2 "endpoint") as [e a3].
  destruct c as [[]|]; auto with gosling. destruct e as [[]|]; auto with gosling.
  destruct (service_id_from_string _) as [cid|] eqn:Hc; auto with gosling.
  destruct (ascii_string_new _) as [ep|] eqn:He; auto with gosling.
  apply service_id_from_string_Ok in Hc as [Hv _].
  destruct self as [rpc sid dr st bc ci re sc ec sr ak cr pk f1 f2 f3 f4 f5]; destruct Hi as [Hsh Hc Hpr Hau Hk].
  unfold is_present in Hp. simpl in *. subst st. split; simpl.
  - right. unfold is_present in *. simpl in *. injection Hp as ?????????. congruence.
  - by intros ? [= <-].
  - intros Hf. destruct (Hpr Hf) as (? & ? & ? & ? & ? & ? & Hx & _). simpl in Hx. by subst.
  - intros Hf. destruct (Hau Hf) as (? & ? & ? & ? & Hx & _). simpl in Hx. by subst.
  - done.
Qed.

(** What a complete set of arguments does to the server. *)
Definition is_response_accepted self client endpoint server_cookie cookie client_cookie
    (proof_signature : Ed25519Signature) (auth_key : X25519PublicKey) signbit
    (auth_signature : Ed25519Signature) challenge_response : IdentityServer RW :=
  let self := is_set_send_cookie (Some cookie) self in
  let self :=
    match from_service_id client with
    | Ok key => is_set_proof_valid (verify proof_signature (build_client_proof GoslingIdentity endpoint
                  client (is_server_identity self) client_cookie server_cookie) key) self
    | Err _ => self
    end in
  let self := is_set_auth_valid (verify_x25519 auth_signature (sid_data client) auth_key signbit) self in
  is_set_challenge_response (Some challenge_response) (is_set_client_auth_key (Some auth_key) self).

Lemma is_send_response_cases self client endpoint server_cookie args cookie :
  (is_send_response self client endpoint server_cookie args cookie = is_fail self InvalidArg) ∨
  ∃ client_cookie sig key bit sig' resp,
    length client_cookie = CLIENT_COOKIE_SIZE ∧
    is_send_response self client endpoint server_cookie args cookie =
      (None, is_response_accepted self client endpoint server_cookie cookie client_cookie sig key bit sig' resp).
Proof.
  unfold is_send_response.
  destruct (doc_remove args _) as [c a1], (doc_remove a1 _) as [p a2], (doc_remove a2 _) as [k a3],
    (doc_remove a3 _) as [b a4], (doc_remove a4 _) as [g a5], (doc_remove a5 _) as [r a6].
  destruct c as [[| | | | | | |[] cc|]|]; auto. destruct p as [[| | | | | | |[] pp|]|]; auto.
  destruct k as [[| | | | | | |[] kk|]|]; auto. destruct b as [[]|]; auto.
  destruct g as [[| | | | | | |[] gg|]|]; auto. destruct r as [[]|]; auto.
  destruct (try_into_array CLIENT_COOKIE_SIZE cc) as [cc'|] eqn:Hcc; auto.
  apply try_into_array_Some in Hcc as [-> Hcc].
  destruct (try_into_array _ pp); auto. unfold signature_from_raw.
  destruct (try_into_array _ kk); auto. destruct (try_into_array _ gg); auto.
  right. eexists _, _, _, _, _, _. split; [exact Hcc|]. reflexivity.
Qed.

Lemma is_response_accepted_inv self client endpoint sc cookie cc sig key bit sig' resp :
  is_inv self → is_state self = IS_WaitingForSendResponse →
  is_present self = [T; T; T; T; T; has (is_send_response_request_cookie self); F; F; F] →
  is_client_identity self = Some client → is_requested_endpoint self = Some endpoint →
  is_server_cookie self = Some sc → length cc = CLIENT_COOKIE_SIZE →
  is_inv (is_response_accepted self client endpoint sc cookie cc sig key bit sig' resp).
Proof.
  intros [Hsh Hcl Hpr Hau Hk] Hst Hp H1 H2 H3 Hcc. unfold is_response_accepted, is_present in *.
  destruct self as [rpc sid dr st bc ci re sck ec sr ak cr pk f1 f2 f3 f4 f5]. simpl in *. subst.
  injection Hp as Hbc Hec Hak Hcr Hpk.
  destruct (from_service_id client) as [ck|] eqn:Hck; simpl; split; simpl; try done.
  - right. unfold is_present. simpl. by rewrite Hbc, Hec, Hpk.
  - intros Hv. by exists client, endpoint, sc, cc, sig, ck.
  - intros Hv. by exists client, key, sig', bit.
  - right. unfold is_present. simpl. by rewrite Hbc, Hec, Hpk.
  - intros Hv. by exists client, key, sig', bit.
Qed.

Lemma is_exec_inv self f v args c : is_inv self → is_inv (is_exec_function self f v args c).2.
Proof.
  intros Hi. unfold is_exec_function. destruct c as [c|]; [|done].
  destruct (String.eqb f "begin_handshake" && (v =? 0)%Z).
  - destruct (is_state self) eqn:Hst; auto with gosling.
    destruct (is_begin_handshake_request_cookie self) eqn:H1; auto with gosling.
    destruct (is_client_identity self) eqn:H2; auto with gosling.
    destruct (is_requested_endpoint self) eqn:H3; auto with gosling.
    destruct (is_server_cookie self) eqn:H4; auto with gosling.
    destruct (is_endpoint_challenge self) eqn:H5; auto with gosling.
    destruct (is_client_auth_key self) eqn:H6; auto with gosling.
    destruct (is_challenge_response self) eqn:H7; auto with gosling.
    destruct (is_endpoint_private_key self) eqn:H8; auto with gosling.
    apply is_begin_handshake_inv; [done..|]. pose proof (is_inv_shape _ Hi) as Hsh.
    unfold is_shape in Hsh. rewrite Hst in Hsh. destruct Hsh as [Hsh|Hsh]; [done|].
    unfold is_present in Hsh. rewrite H1 in Hsh. done.
  - destruct (String.eqb f "send_response" && (v =? 0)%Z); auto with gosling.
    destruct (is_state self) eqn:Hst; auto with gosling.
    destruct (is_begin_handshake_request_cookie self) eqn:H1; auto with gosling.
    destruct (is_client_identity self) as [client|] eqn:H2; auto with gosling.
    destruct (is_requested_endpoint self) as [endpoint|] eqn:H3; auto with gosling.
    destruct (is_server_cookie self) as [scookie|] eqn:H4; auto with gosling.
    destruct (is_endpoint_challenge self) eqn:H5; auto with gosling.
    destruct (is_client_auth_key self) eqn:H6; auto with gosling.
    destruct (is_challenge_response self) eqn:H7; auto with gosling.
    destruct (is_endpoint_private_key self) eqn:H8; auto with gosling.
    destruct (is_send_response_cases self client endpoint scookie args c) as [->|(cc & sig & key & bit & sig' & resp & Hcc & ->)];
      auto with gosling.
    apply is_response_accepted_inv; try done. unfold is_present.
    by rewrite H1, H2, H3, H4, H5, H6, H7, H8.
Qed.

(** Results left for the session to collect. *)
Definition is_results self : nat :=
  match is_state self with IS_ChallengeReady | IS_ChallengeVerificationReady => 1 | _ => 0 end.

Lemma is_next_result_spec self :
  is_inv self →
  ∃ r self', is_next_result self = Done (r, self') ∧ is_inv self' ∧
    (r ≠ None → is_results self' < is_results self).
Proof.
  intros Hi. pose proof (is_inv_shape _ Hi) as Hsh. unfold is_next_result, is_results.
  unfold is_shape, is_present in Hsh.
  destruct (is_state self) eqn:Hst; try by eexists _, self; split_and!.
  - destruct Hi as [_ Hcl Hpr Hau Hk].
    destruct self as [rpc sid dr st bc ci re sc ec sr ak cr pk f1 f2 f3 f4 f5]; simpl in *.
    by_shape Hsh. clear Hsh.
    eexists _, _. split_and!; [done| |simpl; lia]. split; try done. by left.
  - destruct Hi as [_ Hcl Hpr Hau Hk].
    destruct self as [rpc sid dr st bc ci re sc ec sr ak cr pk f1 f2 f3 f4 f5]; simpl in *.
    by_shape Hsh. clear Hsh.
    destruct (f1 && f2 && f3 && f4 && f5) eqn:Hs;
      (eexists _, _; split_and!; [done| |simpl; lia]).
    + split; simpl; try done.
      * unfold is_shape, is_present, is_all_valid. simpl. by rewrite Hs.
      * intros k [= <-]. by eexists.
    + split; simpl; try done. unfold is_shape, is_present, is_all_valid. simpl. by rewrite Hs.
Qed.

(** [ApiSetLaws]: what the server promises to the session that calls it. *)
#[export] Instance identity_server_laws : ApiSetLaws (IdentityServer RW).
Proof.
  refine {| api_inv := is_inv; api_results := is_results |}.
  - intros a f v args c Ha. by apply is_exec_inv.
  - done.
  - intros a Ha. destruct (is_next_result_spec a Ha) as (r & a' & Heq & Hi & _). by exists r, a'.
  - intros a x a' Ha Hn. destruct (is_next_result_spec a Ha) as (r & b & Heq & _ & Hlt).
    simpl in Hn. rewrite Heq in Hn. injection Hn as -> ->. by apply Hlt.
Defined.

Lemma is_handle_request_inv allowed valid challenge :
  preserves is_inv (is_handle_endpoint_request_received allowed valid challenge : M (IdentityServer RW) _ _).
Proof.
  intros self self' r Hi. unfold is_handle_endpoint_request_received.
  destruct self as [rpc sid dr [] bc ci re sc ec sr ak cr pk f1 f2 f3 f4 f5];
    simpl; try (by intros [= <- _]).
  split_options.
  destruct (get_response_section_size _); [|by intros [= <- _]; apply (proj2 (is_inv_draws (S dr) _)) in Hi].
  destruct get_message_overhead; [|by intros [= <- _]; apply (proj2 (is_inv_draws (S dr) _)) in Hi].
  case_bool_decide; intros [= <- _]; [by apply (proj2 (is_inv_draws (S dr) _)) in Hi|].
  destruct Hi as [Hsh Hcl Hpr Hau Hk]. unfold is_shape, is_present in *. simpl in *.
  injection Hsh as Hsr. split; simpl; try done.
  - unfold is_shape, is_present. simpl. by rewrite Hsr.
  - intros Hf. destruct (Hpr Hf) as (? & ? & ? & ? & ? & ? & _ & _ & Hx & _). by simpl in Hx.
Qed.

Lemma is_handle_response_inv valid :
  preserves is_inv (is_handle_challenge_response_received valid : M (IdentityServer RW) _ _).
Proof.
  intros self self' r Hi. unfold is_handle_challenge_response_received.
  destruct self as [rpc sid dr [] bc ci re sc ec sr ak cr pk f1 f2 f3 f4 f5];
    simpl; try (by intros [= <- _]).
  split_options.
  intros [= <- _]. destruct Hi as [Hsh Hcl Hpr Hau Hk]. by split.
Qed.
(** ** What a turn leaves alone *)

(** The identity of the server and the answers of the application: only the two handlers
    change them. *)
Definition is_frame self : V3OnionServiceId * bool * bool * bool :=
  (is_server_identity self, is_client_allowed self, is_client_requested_endpoint_valid self,
   is_challenge_response_valid self).

Lemma is_frame_rpc rpc self : is_frame (is_set_rpc rpc self) = is_frame self.
Proof. by destruct self. Qed.

Lemma is_begin_handshake_frame self args cookie :
  is_frame (is_begin_handshake self args cookie).2 = is_frame self.
Proof.
  unfold is_begin_handshake, is_fail. destruct self.
  repeat (match goal with |- context [let '(_, _) := ?x in _] => destruct x end || case_match); done.
Qed.

Lemma is_send_response_frame self client endpoint sc args cookie :
  is_frame (is_send_response self client endpoint sc args cookie).2 = is_frame self.
Proof.
  destruct (is_send_response_cases self client endpoint sc args cookie)
    as [->|(cc & sig & key & bit & sig' & resp & _ & ->)]; [by destruct self|].
  unfold is_response_accepted. destruct self. by destruct (from_service_id client).
Qed.

Lemma is_exec_frame self f v args c : is_frame (is_exec_function self f v args c).2 = is_frame self.
Proof.
  assert (is_frame (is_fail self Failure).2 = is_frame self) as Hf by by destruct self.
  unfold is_exec_function. destruct c as [c|]; [|done].
  repeat case_match; auto using is_begin_handshake_frame, is_send_response_frame.
Qed.

Lemma is_next_result_frame self r self' : is_next_result self = Done (r, self') → is_frame self' = is_frame self.
Proof.
  unfold is_next_result. destruct self as [rpc sid dr [] bc ci re sc ec sr ak cr pk f1 f2 f3 f4 f5]; simpl;
    split_options; try done; try (by intros [= _ <-]).
  destruct (f1 && f2 && f3 && f4 && f5); by intros [= _ <-].
Qed.

Lemma is_advance_frame self self' r : is_advance self = Done (self', r) → is_frame self' = is_frame self.
Proof.
  unfold is_advance. destruct self as [rpc sid dr [] bc ci re sc ec sr ak cr pk f1 f2 f3 f4 f5]; simpl;
    split_options; try done; try (by intros [= <- _]).
  destruct (ed25519_private_clone _); by intros [= <- _].
Qed.

Lemma is_update_frame fuel self self' r : is_update fuel self = Done (self', r) → is_frame self' = is_frame self.
Proof.
  unfold is_update. destruct (is_rpc self) as [rpc|]; [|apply is_advance_frame].
  destruct (update fuel (rpc, [is_set_rpc None self])) as [[[rpc' l] x]| |] eqn:Hu; [|done..].
  assert (apis_ok (λ a, is_frame a = is_frame self) 1 (rpc', l)) as [Hlen Hall].
  { eapply (update_preserves (λ a, is_frame a = is_frame self)); [..|exact Hu].
    - intros a f v args c Ha. simpl. by rewrite is_exec_frame.
    - done.
    - intros a y a' Ha Hn. simpl in Hn. by rewrite (is_next_result_frame _ _ _ Hn).
    - split; [done|]. constructor; [by rewrite is_frame_rpc|constructor]. }
  destruct l as [|b [|]]; try done. apply Forall_cons in Hall as [Hb _].
  destruct x; [|intros [= <- _]; by rewrite is_frame_rpc].
  intros Ha. rewrite (is_advance_frame _ _ _ Ha), is_frame_rpc. done.
Qed.
End identity_server_theory.

(** * Turns of the server *)

Section identity_server_turns.
Context `{BL : BsonLaws} `{CL : CryptoLaws} {RW : Type} `{SL : StreamLaws RW}.
Implicit Types (self : IdentityServer RW).

(** The state machine never panics, and keeps the invariant. *)
Lemma is_advance_spec self :
  is_inv self → ∃ self' r, is_advance self = Done (self', r) ∧ is_inv self' ∧
    is_rpc self' = is_rpc self.
Proof.
  intros Hi. pose proof (is_inv_shape _ Hi) as Hsh. unfold is_shape, is_present in Hsh. unfold is_advance.
  destruct (is_state self) eqn:Hst; try (by eexists self, _; split_and!);
    (destruct Hi as [_ Hcl Hpr Hau Hk];
     destruct self as [rpc sid dr st bc ci re sc ec sr ak cr pk f1 f2 f3 f4 f5]; simpl in *; subst st).
  - destruct Hsh as [Hsh|Hsh]; by_shape Hsh; eexists _, _; (split_and!; [done| |done]); split; try done.
    by left.
  - destruct Hsh as [Hsh|Hsh]; by_shape Hsh; eexists _, _; (split_and!; [done| |done]); split; try done.
    by left.
  - destruct bc, ci, re, sc, ec, sr, ak, cr; try discriminate Hsh. destruct pk as [pk|].
    + destruct (Hk pk eq_refl) as [seed ->]. rewrite (clone_dalek _ (generate_dalek seed)).
      eexists _, _. split_and!; [done| |done]. by split.
    + eexists _, _. split_and!; [done| |done]. by split.
Qed.

(** A session between two turns of the server. *)
Definition is_session_ok self : Prop :=
  match is_rpc self with Some rpc => session_ok rpc ∧ buffer_home rpc | None => True end.

Lemma is_update_inv fuel : preserves is_inv (is_update fuel : M (IdentityServer RW) _ _).
Proof.
  intros self self' r Hi. unfold is_update. destruct (is_rpc self) as [rpc|].
  2: { destruct (is_advance_spec self Hi) as (x & y & -> & Hx & _). by intros [= <- _]. }
  destruct (update fuel (rpc, [is_set_rpc None self])) as [[[rpc' l] x]| |] eqn:Hu; [|done..].
  assert (api_inv (is_set_rpc None self)) as Hi0 by (by apply is_inv_rpc).
  destruct (one_apiset_turn _ _ _ _ _ _ Hi0 Hu) as (a & -> & Ha).
  destruct x as [u|e]; [|intros [= <- _]; by apply is_inv_rpc].
  destruct (is_advance_spec (is_set_rpc (Some rpc') a)) as (y & z & -> & Hy & _); [by apply is_inv_rpc|].
  by intros [= <- _].
Qed.

(** With enough fuel a turn returns and does not panic. *)
Lemma is_update_returns `{!FiniteStream (RW:=RW)} self :
  (∀ b st st', b ≠ [] → rw_write b st ≠ (IoOk 0, st')) →
  is_inv self → is_session_ok self →
  ∃ n self' r, ∀ fuel, n ≤ fuel → is_update fuel self = Done (self', r).
Proof.
  intros Hprog Hi Hs. unfold is_update, is_session_ok in *. destruct (is_rpc self) as [rpc|].
  2: { destruct (is_advance_spec self Hi) as (x & y & -> & _). by exists 0, x, y. }
  destruct Hs as [Hok Hh].
  assert (api_inv (is_set_rpc None self)) as Hi0 by (by apply is_inv_rpc).
  destruct (one_apiset_returns _ rpc Hprog Hok Hh Hi0)
    as (n & rpc' & a & r & Ha & Hn & _).
  destruct (is_advance_spec (is_set_rpc (Some rpc') a)) as (y & z & Hy & _); [by apply is_inv_rpc|].
  destruct r as [u|e].
  - exists n, y, z. intros fuel Hf. by rewrite (Hn fuel Hf).
  - eexists n, _, _. intros fuel Hf. by rewrite (Hn fuel Hf).
Qed.

(** ** Reachable servers *)

(** Everything the program can do with a server, in any order. *)
Inductive is_reachable : IdentityServer RW → Prop :=
| is_reach_new rpc sid draws : is_reachable (identity_server_new rpc sid draws)
| is_reach_update self fuel self' r :
    is_reachable self → is_update fuel self = Done (self', r) → is_reachable self'
| is_reach_request self allowed valid challenge self' r :
    is_reachable self →
    is_handle_endpoint_request_received allowed valid challenge self = Done (self', r) →
    is_reachable self'
| is_reach_response self valid self' r :
    is_reachable self → is_handle_challenge_response_received valid self = Done (self', r) →
    is_reachable self'.

Lemma is_reachable_inv self : is_reachable self → is_inv self.
Proof.
  induction 1 as [|self fuel self' r _ IH Hu|self al va ch self' r _ IH Hu|self va self' r _ IH Hu].
  - apply is_inv_new.
  - by eapply is_update_inv.
  - by eapply is_handle_request_inv.
  - by eapply is_handle_response_inv.
Qed.

(** The event of a completed handshake says what the server established. *)
Lemma is_advance_completed self self' k name client auth_key :
  is_inv self → is_advance self = Done (self', Ok (Some (IS_HandshakeCompleted k name client auth_key))) →
  self' = is_set_state IS_HandshakeComplete self ∧
  is_all_valid self = true ∧ is_requested_endpoint self = Some name ∧
  is_client_identity self = Some client ∧ is_client_auth_key self = Some auth_key ∧
  (∃ seed, k = ed25519_generate seed).
Proof.
  intros Hi. pose proof (is_inv_shape _ Hi) as Hsh. unfold is_shape, is_present in Hsh. unfold is_advance.
  destruct (is_state self) eqn:Hst; try done;
    (destruct Hi as [_ Hcl Hpr Hau Hk];
     destruct self as [rpc sid dr st bc ci re sc ec sr ak cr pk f1 f2 f3 f4 f5]; simpl in *; subst st).
  - destruct Hsh as [Hsh|Hsh]; by_shape Hsh; try done.
  - destruct Hsh as [Hsh|Hsh]; by_shape Hsh; try done.
  - destruct bc, ci, re, sc, ec, sr, ak, cr; try discriminate Hsh. destruct pk as [pk|]; [|done].
    destruct (Hk pk eq_refl) as [seed ->]. rewrite (clone_dalek _ (generate_dalek seed)).
    intros [= <- <- <- <- <-]. injection Hsh as Hsh. split_and!; try done. by eexists.
Qed.
(** What a completed handshake has established, whatever led to it. *)
Lemma is_update_completed fuel self self' k name client auth_key :
  is_inv self →
  is_update fuel self = Done (self', Ok (Some (IS_HandshakeCompleted k name client auth_key))) →
  is_client_allowed self' = true ∧ is_client_requested_endpoint_valid self' = true ∧
  is_challenge_response_valid self' = true ∧ is_valid (sid_data client) = true ∧
  (∃ server_cookie client_cookie sig key,
     is_server_cookie self' = Some server_cookie ∧ length client_cookie = CLIENT_COOKIE_SIZE ∧
     from_service_id client = Ok key ∧
     verify sig (build_client_proof GoslingIdentity name client (is_server_identity self')
                   client_cookie server_cookie) key = true) ∧
  (∃ sig signbit, verify_x25519 sig (sid_data client) auth_key signbit = true) ∧
  (∃ seed, k = ed25519_generate seed).
Proof.
  intros Hi Hu.
  assert (∃ s0, is_inv s0 ∧ is_advance s0 =
    Done (self', Ok (Some (IS_HandshakeCompleted k name client auth_key)))) as (s0 & Hi0 & Hadv).
  { unfold is_update in Hu. destruct (is_rpc self) as [rpc|]; [|by exists self].
    destruct (update fuel (rpc, [is_set_rpc None self])) as [[[rpc' l] x]| |] eqn:Ht; [|done..].
    assert (api_inv (is_set_rpc None self)) as Ha by (by apply is_inv_rpc).
    destruct (one_apiset_turn _ _ _ _ _ _ Ha Ht) as (a & -> & Ha').
    destruct x as [u|e]; [|done]. exists (is_set_rpc (Some rpc') a). split; [by apply is_inv_rpc|done]. }
  destruct (is_advance_completed s0 self' k name client auth_key Hi0 Hadv)
    as (-> & Hall & Hname & Hcl & Hkey & Hseed).
  destruct Hi0 as [_ Hclv Hpr Hau _].
  destruct s0 as [rpc sid dr st bc ci re sc ec sr ak cr pk f1 f2 f3 f4 f5]. unfold is_all_valid in Hall.
  simpl in *. simplify_eq. repeat (apply andb_prop in Hall as [Hall ?]). subst.
  destruct (Hpr eq_refl) as (? & ? & sck & cc & sig & key & [= <-] & [= <-] & [= ->] & Hcc & Hfrom & Hver).
  destruct (Hau eq_refl) as (? & ? & sig' & bit & [= <-] & [= <-] & Hver'). simpl in *.
  split_and!; try done; [by apply Hclv|by exists sck, cc, sig, key|by exists sig', bit].
Qed.
End identity_server_turns.
