(* ===== verification/IdentityClient.v ===== *)
(** gosling/src/identity_client.rs: the client side of the identity handshake. *)

From Stdlib Require Import ZArith Lia.
From S2P Require Import Prelude Bson HonkWire HonkSize VecDeque HonkSession.
From S2P Require Import Crypto TorCrypto GoslingProto.
From stdpp Require Import prelude strings list.

Open Scope nat_scope.

(** * A session without apisets *)

(** [rpc.update(None)]: an empty slice of apisets. *)
#[export] Instance no_apisets `{BsonLib} : ApiSet Empty_set := {
  namespace a := match a with end;
  exec_function a := match a with end;
  api_update a := a;
  next_result a := match a with end;
}.

Definition update_none `{BsonLib} {RW} `{!Stream RW} (fuel : nat) : M (Session RW) HonkError unit := λ s,
  match update (A:=Empty_set) fuel (s, []) with
  | Done ((s, _), r) => Done (s, r)
  | Panicked => Panicked
  | OutOfFuel => OutOfFuel
  end.

(** * identity_client.rs *)

(** The texts of [UnexpectedResponseReceived], [InvalidState] and [IncorrectUsage] are
    left out. *)
Inductive ICError `{BsonLib} :=
| IC_ClientCreationFailed (err : CryptoError)
| IC_HonkRPCFailure (err : HonkError)
| IC_UnexpectedResponseReceived
| IC_InvalidState
| IC_IncorrectUsage
| IC_EndpointChallengeResponseTooLarge (size max : nat).

Inductive IdentityClientEvent `{BsonLib, CryptoLib} :=
| IC_ChallengeReceived (endpoint_challenge : Document)
| IC_HandshakeCompleted (identity_service_id endpoint_service_id : V3OnionServiceId)
    (endpoint_name : string) (client_auth_private_key : X25519PrivateKey).

Inductive IdentityClientState :=
| IC_BeginHandshake
| IC_WaitingForChallenge
| IC_WaitingForChallengeResponse
| IC_WaitingForChallengeVerification
| IC_HandshakeComplete.

#[export] Instance identity_client_state_eq_dec : EqDecision IdentityClientState.
Proof. solve_decision. Defined.

Section identity_client.
Context `{BL : BsonLib} `{CL : CryptoLib} {RW : Type} `{!Stream RW}.

Record IdentityClient := mkIdentityClient {
  ic_rpc : Session RW;
  ic_server_service_id : V3OnionServiceId;
  ic_requested_endpoint : AsciiString;
  ic_client_service_id : V3OnionServiceId;
  ic_client_identity_ed25519_private : Ed25519PrivateKey;
  ic_client_authorization_key_private : X25519PrivateKey;
  ic_client_authorization_signing_key_private : Ed25519PrivateKey * SignBit;
  ic_draws : nat;
  ic_state : IdentityClientState;
  ic_begin_handshake_request_cookie : option RequestCookie;
  ic_server_cookie : option ServerCookie;
  ic_endpoint_challenge_response : option Document;
  ic_send_response_request_cookie : option RequestCookie;
}.

Definition ic_set_rpc v s := let 'mkIdentityClient _ x1 x2 x3 x4 x5 x6 x7 x8 x9 x10 x11 x12 := s in mkIdentityClient v x1 x2 x3 x4 x5 x6 x7 x8 x9 x10 x11 x12.
Definition ic_set_draws v s := let 'mkIdentityClient x0 x1 x2 x3 x4 x5 x6 _ x8 x9 x10 x11 x12 := s in mkIdentityClient x0 x1 x2 x3 x4 x5 x6 v x8 x9 x10 x11 x12.
Definition ic_set_state v s := let 'mkIdentityClient x0 x1 x2 x3 x4 x5 x6 x7 _ x9 x10 x11 x12 := s in mkIdentityClient x0 x1 x2 x3 x4 x5 x6 x7 v x9 x10 x11 x12.
Definition ic_set_begin_cookie v s := let 'mkIdentityClient x0 x1 x2 x3 x4 x5 x6 x7 x8 _ x10 x11 x12 := s in mkIdentityClient x0 x1 x2 x3 x4 x5 x6 x7 x8 v x10 x11 x12.
Definition ic_set_server_cookie v s := let 'mkIdentityClient x0 x1 x2 x3 x4 x5 x6 x7 x8 x9 _ x11 x12 := s in mkIdentityClient x0 x1 x2 x3 x4 x5 x6 x7 x8 x9 v x11 x12.
Definition ic_set_challenge_response v s := let 'mkIdentityClient x0 x1 x2 x3 x4 x5 x6 x7 x8 x9 x10 _ x12 := s in mkIdentityClient x0 x1 x2 x3 x4 x5 x6 x7 x8 x9 x10 v x12.
Definition ic_set_send_cookie v s := let 'mkIdentityClient x0 x1 x2 x3 x4 x5 x6 x7 x8 x9 x10 x11 _ := s in mkIdentityClient x0 x1 x2 x3 x4 x5 x6 x7 x8 x9 x10 x11 v.

Abbreviation IC_ := (M IdentityClient ICError).

(** [IdentityClient::new] *)
Definition identity_client_new (rpc : Session RW) (server_service_id : V3OnionServiceId)
    (requested_endpoint : AsciiString) (client_identity_ed25519_private : Ed25519PrivateKey)
    (client_authorization_key_private : X25519PrivateKey) (draws : nat) : result ICError IdentityClient :=
  match from_private_x25519 client_authorization_key_private with
  | Err err => Err (IC_ClientCreationFailed err)
  | Ok signing_key =>
      Ok {| ic_rpc := rpc;
            ic_server_service_id := server_service_id;
            ic_requested_endpoint := requested_endpoint;
            ic_client_service_id := service_id_from_private_key client_identity_ed25519_private;
            ic_client_identity_ed25519_private := client_identity_ed25519_private;
            ic_client_authorization_key_private := client_authorization_key_private;
            ic_client_authorization_signing_key_private := signing_key;
            ic_draws := draws;
            ic_state := IC_BeginHandshake;
            ic_begin_handshake_request_cookie := None;
            ic_server_cookie := None;
            ic_endpoint_challenge_response := None;
            ic_send_response_request_cookie := None |}
  end.

(** A method of the session, its error wrapped by [#[from]]. *)
Definition ic_on_rpc {X} (m : M (Session RW) HonkError X) : IC_ X := λ self,
  match m (ic_rpc self) with
  | Done (rpc, Ok x) => Done (ic_set_rpc rpc self, Ok x)
  | Done (rpc, Err e) => Done (ic_set_rpc rpc self, Err (IC_HonkRPCFailure e))
  | Panicked => Panicked
  | OutOfFuel => OutOfFuel
  end.

Definition ic_next_response : IC_ (option Response) := λ self,
  let '(r, rpc) := client_next_response (ic_rpc self) in Done (ic_set_rpc rpc self, Ok r).

(** [OsRng.fill_bytes] of a cookie *)
Definition ic_random (n : nat) : IC_ bytes := λ self,
  Done (ic_set_draws (S (ic_draws self)) self, Ok (os_random (ic_draws self) n)).

(** The arm of [BeginHandshake]. *)
Definition ic_begin : IC_ (option IdentityClientEvent) :=
  self ← get_state;
  cookie ← ic_on_rpc (client_call "gosling_identity" "begin_handshake" 0
    (doc [("version", BString GOSLING_PROTOCOL_VERSION);
          ("client_identity", BString (service_id_to_string (ic_client_service_id self)));
          ("endpoint", BString (ascii_value (ic_requested_endpoint self)))]));
  _ ← modify (ic_set_begin_cookie (Some cookie));
  _ ← modify (ic_set_state IC_WaitingForChallenge);
  mret None.

(** The arm of [WaitingForChallenge]: the answer to [begin_handshake]. *)
Definition ic_challenge (begin_cookie : RequestCookie) : IC_ (option IdentityClientEvent) :=
  response ← ic_next_response;
  match response with
  | None => mret None
  | Some (RespPending cookie) =>
      if (cookie =? begin_cookie)%Z then mret None else throw IC_UnexpectedResponseReceived
  | Some (RespError _ _) => throw IC_UnexpectedResponseReceived
  | Some (RespSuccess cookie result) =>
      if (cookie =? begin_cookie)%Z then
        match result with
        | Some (BDocument response) =>
            match doc_get response "server_cookie" with
            | Some (BBinary Generic server_cookie) =>
                match try_into_array SERVER_COOKIE_SIZE server_cookie with
                | None => throw IC_UnexpectedResponseReceived
                | Some server_cookie =>
                    _ ← modify (ic_set_server_cookie (Some server_cookie));
                    match doc_get response "endpoint_challenge" with
                    | Some (BDocument endpoint_challenge) =>
                        _ ← modify (ic_set_state IC_WaitingForChallengeResponse);
                        mret (Some (IC_ChallengeReceived endpoint_challenge))
                    | _ => throw IC_UnexpectedResponseReceived
                    end
                end
            | _ => throw IC_UnexpectedResponseReceived
            end
        | _ => throw IC_UnexpectedResponseReceived
        end
      else throw IC_UnexpectedResponseReceived
  end.

(** The arguments of the [send_response] call. *)
Definition ic_response_args (self : IdentityClient) (client_cookie server_cookie : bytes)
    (challenge_response : Document) : Document :=
  let client_identity_proof := build_client_proof GoslingIdentity (ic_requested_endpoint self)
    (ic_client_service_id self) (ic_server_service_id self) client_cookie server_cookie in
  let proof_signature := sign_message (ic_client_identity_ed25519_private self) client_identity_proof in
  let auth_key := x25519_public_from_private (ic_client_authorization_key_private self) in
  let client_identity := service_id_to_string (ic_client_service_id self) in
  let '(signing_key, signbit) := ic_client_authorization_signing_key_private self in
  let auth_signature := sign_message signing_key (as_bytes client_identity) in
  doc [("client_cookie", BBinary Generic client_cookie);
       ("client_identity_proof_signature", BBinary Generic (ed25519_signature_to_bytes proof_signature));
       ("client_authorization_key", BBinary Generic (x25519_public_as_bytes auth_key));
       ("client_authorization_key_signbit", BBoolean (bool_from_signbit signbit));
       ("client_authorization_signature", BBinary Generic (ed25519_signature_to_bytes auth_signature));
       ("challenge_response", BDocument challenge_response)].

(** The arm of [WaitingForChallengeResponse] with a response to send. *)
Definition ic_send (server_cookie : ServerCookie) (challenge_response : Document) :
    IC_ (option IdentityClientEvent) :=
  client_cookie ← ic_random CLIENT_COOKIE_SIZE;
  self ← get_state;
  let args := ic_response_args self client_cookie server_cookie challenge_response in
  cookie ← ic_on_rpc (client_call "gosling_identity" "send_response" 0 args);
  _ ← modify (ic_set_send_cookie (Some cookie));
  _ ← modify (ic_set_state IC_WaitingForChallengeVerification);
  mret None.

(** The arm of [WaitingForChallengeVerification]: the answer to [send_response]. *)
Definition ic_verification (send_cookie : RequestCookie) : IC_ (option IdentityClientEvent) :=
  response ← ic_next_response;
  match response with
  | None => mret None
  | Some (RespPending cookie) =>
      if (cookie =? send_cookie)%Z then mret None else throw IC_UnexpectedResponseReceived
  | Some (RespError _ _) => throw IC_UnexpectedResponseReceived
  | Some (RespSuccess cookie result) =>
      if (cookie =? send_cookie)%Z then
        match result with
        | Some (BString endpoint_service_id) =>
            match service_id_from_string endpoint_service_id with
            | Err _ => throw IC_UnexpectedResponseReceived
            | Ok endpoint_service_id =>
                _ ← modify (ic_set_state IC_HandshakeComplete);
                self ← get_state;
                mret (Some (IC_HandshakeCompleted (ic_server_service_id self) endpoint_service_id
                        (ascii_value (ic_requested_endpoint self))
                        (ic_client_authorization_key_private self)))
            end
        | _ => throw IC_UnexpectedResponseReceived
        end
      else throw IC_UnexpectedResponseReceived
  end.

(** [IdentityClient::update] *)
Definition ic_update (fuel : nat) : IC_ (option IdentityClientEvent) :=
  self ← get_state;
  if decide (ic_state self = IC_HandshakeComplete) then throw IC_IncorrectUsage
  else
    _ ← ic_on_rpc (update_none fuel);
    self ← get_state;
    _ ← modify (ic_set_challenge_response None);
    match ic_state self, ic_begin_handshake_request_cookie self, ic_server_cookie self,
          ic_endpoint_challenge_response self, ic_send_response_request_cookie self with
    | IC_BeginHandshake, None, None, None, None => ic_begin
    | IC_WaitingForChallenge, Some begin_cookie, None, None, None => ic_challenge begin_cookie
    | IC_WaitingForChallengeResponse, Some _, Some _, None, None => mret None
    | IC_WaitingForChallengeResponse, Some _, Some server_cookie, Some challenge_response, None =>
        ic_send server_cookie challenge_response
    | IC_WaitingForChallengeVerification, Some _, Some _, None, Some send_cookie =>
        ic_verification send_cookie
    | _, _, _, _, _ => throw IC_InvalidState
    end.

(** The arguments whose size [send_response] predicts. *)
Definition ic_dummy_args (challenge_response : Document) : Document :=
  doc [("client_cookie", BBinary Generic (repeat Byte.x00 CLIENT_COOKIE_SIZE));
       ("client_identity_proof_signature", BBinary Generic (repeat Byte.x00 ED25519_SIGNATURE_SIZE));
       ("client_authorization_key", BBinary Generic (repeat Byte.x00 X25519_PUBLIC_KEY_SIZE));
       ("client_authorization_key_signbit", BBoolean false);
       ("client_authorization_signature", BBinary Generic (repeat Byte.x00 ED25519_SIGNATURE_SIZE));
       ("challenge_response", BDocument challenge_response)].

(** [IdentityClient::send_response] *)
Definition ic_send_response (challenge_response : Document) : IC_ unit := λ self,
  match ic_state self, ic_begin_handshake_request_cookie self, ic_server_cookie self,
        ic_endpoint_challenge_response self, ic_send_response_request_cookie self with
  | IC_WaitingForChallengeResponse, Some _, Some _, None, None =>
      match get_request_section_size (Some 0%Z) (Some "gosling_identity"%string) "send_response" (Some 0%Z)
              (Some (ic_dummy_args challenge_response)) with
      | Err err => Done (self, Err (IC_HonkRPCFailure err))
      | Ok request_section_size =>
          match get_message_overhead with
          | Err err => Done (self, Err (IC_HonkRPCFailure err))
          | Ok overhead =>
              let message_size := overhead + request_section_size in
              let max_message_size := get_max_message_size (ic_rpc self) in
              if bool_decide (max_message_size < message_size)
              then Done (self, Err (IC_EndpointChallengeResponseTooLarge message_size max_message_size))
              else Done (ic_set_challenge_response (Some challenge_response) self, Ok tt)
          end
      end
  | _, _, _, _, _ => Done (self, Err IC_IncorrectUsage)
  end.

End identity_client.

Arguments IdentityClient {_ _} RW.
