(* ===== verification/EndpointServer.v ===== *)
(** gosling/src/endpoint_server.rs: the server side of the endpoint handshake. *)

From Stdlib Require Import ZArith Lia.
From S2P Require Import Prelude Bson HonkWire HonkSize VecDeque HonkSession HonkRead HonkWrite HonkUpdate.
From S2P Require Import Crypto TorCrypto GoslingProto IdentityServer.
From stdpp Require Import prelude strings list.

Open Scope nat_scope.

Inductive EPError `{BsonLib} :=
| EP_HonkRPCFailure (err : HonkError)
| EP_InvalidState
| EP_IncorrectUsage
| EP_BadClient.

Inductive EndpointServerEvent (RW : Type) :=
| EP_ChannelRequestReceived (client_service_id : V3OnionServiceId) (requested_channel : AsciiString)
| EP_HandshakeCompleted (client_service_id : V3OnionServiceId) (channel_name : AsciiString) (stream : RW)
| EP_HandshakeRejected (client_allowed client_requested_channel_valid client_proof_signature_valid : bool).
Arguments EP_ChannelRequestReceived {RW} _ _.
Arguments EP_HandshakeCompleted {RW} _ _ _.
Arguments EP_HandshakeRejected {RW} _ _ _.

Inductive EndpointServerState :=
| EP_WaitingForBeginHandshake
| EP_ValidatingChannelRequest
| EP_ChannelRequestValidated
| EP_WaitingForSendResponse
| EP_HandledSendResponse
| EP_HandshakeComplete
| EP_HandshakeFailed.

#[export] Instance endpoint_server_state_eq_dec : EqDecision EndpointServerState.
Proof. solve_decision. Defined.

Section endpoint_server.
Context `{BL : BsonLib} `{CL : CryptoLib} {RW : Type} `{!Stream RW}.

Record EndpointServer := mkEndpointServer {
  ep_rpc : option (Session RW);
  ep_server_identity : V3OnionServiceId;
  ep_allowed_client_identity : V3OnionServiceId;
  ep_draws : nat;
  ep_state : EndpointServerState;
  ep_begin_handshake_request_cookie : option RequestCookie;
  ep_client_identity : option V3OnionServiceId;
  ep_requested_channel : option AsciiString;
  ep_server_cookie : option ServerCookie;
  ep_handshake_succeeded : option bool;
  ep_client_allowed : bool;
  ep_client_requested_channel_valid : bool;
  ep_client_proof_signature_valid : bool;
}.

Definition ep_set_rpc v s := let 'mkEndpointServer _ x1 x2 x3 x4 x5 x6 x7 x8 x9 x10 x11 x12 := s in mkEndpointServer v x1 x2 x3 x4 x5 x6 x7 x8 x9 x10 x11 x12.
Definition ep_set_draws v s := let 'mkEndpointServer x0 x1 x2 _ x4 x5 x6 x7 x8 x9 x10 x11 x12 := s in mkEndpointServer x0 x1 x2 v x4 x5 x6 x7 x8 x9 x10 x11 x12.
Definition ep_set_state v s := let 'mkEndpointServer x0 x1 x2 x3 _ x5 x6 x7 x8 x9 x10 x11 x12 := s in mkEndpointServer x0 x1 x2 x3 v x5 x6 x7 x8 x9 x10 x11 x12.
Definition ep_set_begin_cookie v s := let 'mkEndpointServer x0 x1 x2 x3 x4 _ x6 x7 x8 x9 x10 x11 x12 := s in mkEndpointServer x0 x1 x2 x3 x4 v x6 x7 x8 x9 x10 x11 x12.
Definition ep_set_client_identity v s := let 'mkEndpointServer x0 x1 x2 x3 x4 x5 _ x7 x8 x9 x10 x11 x12 := s in mkEndpointServer x0 x1 x2 x3 x4 x5 v x7 x8 x9 x10 x11 x12.
Definition ep_set_requested_channel v s := let 'mkEndpointServer x0 x1 x2 x3 x4 x5 x6 _ x8 x9 x10 x11 x12 := s in mkEndpointServer x0 x1 x2 x3 x4 x5 x6 v x8 x9 x10 x11 x12.
Definition ep_set_server_cookie v s := let 'mkEndpointServer x0 x1 x2 x3 x4 x5 x6 x7 _ x9 x10 x11 x12 := s in mkEndpointServer x0 x1 x2 x3 x4 x5 x6 x7 v x9 x10 x11 x12.
Definition ep_set_succeeded v s := let 'mkEndpointServer x0 x1 x2 x3 x4 x5 x6 x7 x8 _ x10 x11 x12 := s in mkEndpointServer x0 x1 x2 x3 x4 x5 x6 x7 x8 v x10 x11 x12.
Definition ep_set_client_allowed v s := let 'mkEndpointServer x0 x1 x2 x3 x4 x5 x6 x7 x8 x9 _ x11 x12 := s in mkEndpointServer x0 x1 x2 x3 x4 x5 x6 x7 x8 x9 v x11 x12.
Definition ep_set_channel_valid v s := let 'mkEndpointServer x0 x1 x2 x3 x4 x5 x6 x7 x8 x9 x10 _ x12 := s in mkEndpointServer x0 x1 x2 x3 x4 x5 x6 x7 x8 x9 x10 v x12.
Definition ep_set_proof_valid v s := let 'mkEndpointServer x0 x1 x2 x3 x4 x5 x6 x7 x8 x9 x10 x11 _ := s in mkEndpointServer x0 x1 x2 x3 x4 x5 x6 x7 x8 x9 x10 x11 v.

Abbreviation EP_ := (M EndpointServer EPError).

(** [EndpointServer::new]; the cookie it draws is dropped, a fresh one is drawn when the
    request is handled. *)
Definition endpoint_server_new (rpc : Session RW) (client_identity server_identity : V3OnionServiceId)
    (draws : nat) : EndpointServer :=
  {| ep_rpc := Some rpc;
     ep_server_identity := server_identity;
     ep_allowed_client_identity := client_identity;
     ep_draws := S draws;
     ep_state := EP_WaitingForBeginHandshake;
     ep_begin_handshake_request_cookie := None;
     ep_client_identity := None;
     ep_requested_channel := None;
     ep_server_cookie := None;
     ep_handshake_succeeded := None;
     ep_client_allowed := false;
     ep_client_requested_channel_valid := true;
     ep_client_proof_signature_valid := false |}.

Abbreviation reply_t := (option (result ErrorCode (option Bson))).

Definition ep_fail (self : EndpointServer) (e : RpcError) : reply_t * EndpointServer :=
  (Some (Err (runtime_error e)), ep_set_state EP_HandshakeFailed self).

(** The [begin_handshake] arm. *)
Definition ep_begin_handshake (self : EndpointServer) (args : Document) (request_cookie : RequestCookie) :
    reply_t * EndpointServer :=
  let '(version, args) := doc_remove args "version" in
  let valid_version :=
    match version with Some (BString value) => String.eqb value GOSLING_PROTOCOL_VERSION | _ => false end in
  if negb valid_version then ep_fail self BadVersion
  else
    let '(client_identity, args) := doc_remove args "client_identity" in
    let '(channel, args) := doc_remove args "channel" in
    match client_identity, channel with
    | Some (BString client_identity), Some (BString channel_name) =>
        match service_id_from_string client_identity with
        | Err _ => ep_fail self InvalidArg
        | Ok client_identity =>
            let self := ep_set_client_identity (Some client_identity) self in
            match ascii_string_new channel_name with
            | Err _ => ep_fail self InvalidArg
            | Ok channel_name =>
                let self := ep_set_begin_cookie (Some request_cookie) self in
                (None, ep_set_requested_channel (Some channel_name) self)
            end
        end
    | _, _ => ep_fail self InvalidArg
    end.

(** The [send_response] arm, with the values its pattern binds. *)
Definition ep_send_response (self : EndpointServer) (client_identity : V3OnionServiceId)
    (requested_channel : AsciiString) (server_cookie : ServerCookie) (args : Document) :
    reply_t * EndpointServer :=
  let '(client_cookie, args) := doc_remove args "client_cookie" in
  let '(proof_signature, args) := doc_remove args "client_identity_proof_signature" in
  match client_cookie, proof_signature with
  | Some (BBinary Generic client_cookie), Some (BBinary Generic proof_signature) =>
      match try_into_array CLIENT_COOKIE_SIZE client_cookie with
      | None => ep_fail self InvalidArg
      | Some client_cookie =>
      match try_into_array ED25519_SIGNATURE_SIZE proof_signature with
      | None => ep_fail self InvalidArg
      | Some proof_signature =>
      match signature_from_raw proof_signature with
      | Err _ => ep_fail self InvalidArg
      | Ok proof_signature =>
      match from_service_id client_identity with
      | Err _ => ep_fail self InvalidArg
      | Ok client_identity_key =>
          let client_proof := build_client_proof GoslingEndpoint requested_channel client_identity
            (ep_server_identity self) client_cookie server_cookie in
          let self := ep_set_proof_valid (verify proof_signature client_proof client_identity_key) self in
          if ep_client_allowed self && ep_client_requested_channel_valid self &&
             ep_client_proof_signature_valid self then
            let self := ep_set_succeeded (Some true) self in
            (Some (Ok (Some (BDocument (doc [])))), ep_set_state EP_HandledSendResponse self)
          else
            let self := ep_set_succeeded (Some false) self in
            (Some (Err (runtime_error Failure)), ep_set_state EP_HandledSendResponse self)
      end end end end
  | _, _ => ep_fail self InvalidArg
  end.

(** [exec_function] *)
Definition ep_exec_function (self : EndpointServer) (name : string) (version : Z) (args : Document)
    (request_cookie : option RequestCookie) : reply_t * EndpointServer :=
  match request_cookie with
  | None => (Some (Err (runtime_error RequestCookieRequired)), self)
  | Some request_cookie =>
      if String.eqb name "begin_handshake" && (version =? 0)%Z then
        match ep_state self, ep_client_identity self, ep_requested_channel self, ep_server_cookie self with
        | EP_WaitingForBeginHandshake, None, None, None => ep_begin_handshake self args request_cookie
        | _, _, _, _ => ep_fail self Failure
        end
      else if String.eqb name "send_response" && (version =? 0)%Z then
        match ep_state self, ep_client_identity self, ep_requested_channel self, ep_server_cookie self with
        | EP_WaitingForSendResponse, Some client_identity, Some requested_channel, Some server_cookie =>
            ep_send_response self client_identity requested_channel server_cookie args
        | _, _, _, _ => ep_fail self Failure
        end
      else ep_fail self Failure
  end.

(** [next_result] *)
Definition ep_next_result (self : EndpointServer) :
    outcome (option (RequestCookie * result ErrorCode (option Bson)) * EndpointServer) :=
  match ep_state self, ep_begin_handshake_request_cookie self, ep_server_cookie self with
  | EP_ChannelRequestValidated, Some begin_cookie, Some server_cookie =>
      Done (Some (begin_cookie, Ok (Some (BDocument
              (doc [("server_cookie", BBinary Generic server_cookie)])))),
            ep_set_state EP_WaitingForSendResponse self)
  | _, _, _ => Done (None, self)
  end.

(** [impl ApiSet for EndpointServer] *)
#[export] Instance endpoint_server_api : ApiSet EndpointServer := {
  namespace _ := "gosling_endpoint";
  exec_function := ep_exec_function;
  api_update self := self;
  next_result := ep_next_result;
}.

(** The state machine of [update], after the session was updated. *)
Definition ep_advance : EP_ (option (EndpointServerEvent RW)) := λ self,
  let invalid := Done (self, Err (if decide (ep_state self = EP_HandshakeFailed)
                                  then EP_BadClient else EP_InvalidState)) in
  match ep_state self, ep_begin_handshake_request_cookie self, ep_client_identity self,
        ep_requested_channel self, ep_server_cookie self, ep_handshake_succeeded self with
  | EP_WaitingForBeginHandshake, None, None, None, None, None => Done (self, Ok None)
  | EP_WaitingForBeginHandshake, Some _, Some client_identity, Some requested_channel, None, None =>
      Done (ep_set_state EP_ValidatingChannelRequest self,
            Ok (Some (EP_ChannelRequestReceived client_identity requested_channel)))
  | EP_ValidatingChannelRequest, Some _, Some _, Some _, None, None => Done (self, Ok None)
  | EP_ChannelRequestValidated, Some _, Some _, Some _, Some _, None => Done (self, Ok None)
  | EP_WaitingForSendResponse, Some _, Some _, Some _, Some _, None => Done (self, Ok None)
  | EP_HandledSendResponse, Some _, Some client_identity, Some requested_channel, Some _,
    Some handshake_succeeded =>
      let self := ep_set_state EP_HandshakeComplete self in
      if handshake_succeeded : bool then
        match ep_rpc self with
        | None => Panicked
        | Some rpc =>
            Done (ep_set_rpc None self,
                  Ok (Some (EP_HandshakeCompleted client_identity requested_channel (into_stream rpc))))
        end
      else
        Done (self, Ok (Some (EP_HandshakeRejected (ep_client_allowed self)
                (ep_client_requested_channel_valid self) (ep_client_proof_signature_valid self))))
  | _, _, _, _, _, _ => invalid
  end.

(** [EndpointServer::update] *)
Definition ep_update (fuel : nat) : EP_ (option (EndpointServerEvent RW)) := λ self,
  match ep_rpc self with
  | Some rpc =>
      match update fuel (rpc, [ep_set_rpc None self]) with
      | Done ((rpc, [self]), Ok _) => ep_advance (ep_set_rpc (Some rpc) self)
      | Done ((rpc, [self]), Err err) => Done (ep_set_rpc (Some rpc) self, Err (EP_HonkRPCFailure err))
      | OutOfFuel => OutOfFuel
      | _ => Panicked
      end
  | None => ep_advance self
  end.

(** [handle_channel_request_received] *)
Definition ep_handle_channel_request_received (client_requested_channel_valid : bool) : EP_ unit := λ self,
  match ep_state self, ep_begin_handshake_request_cookie self, ep_client_identity self,
        ep_requested_channel self, ep_server_cookie self, ep_handshake_succeeded self with
  | EP_ValidatingChannelRequest, Some _, Some client_identity, Some _, None, None =>
      let server_cookie := os_random (ep_draws self) SERVER_COOKIE_SIZE in
      let self := ep_set_draws (S (ep_draws self)) self in
      let self := ep_set_server_cookie (Some server_cookie) self in
      let self := ep_set_client_allowed
        (bool_decide (client_identity = ep_allowed_client_identity self)) self in
      let self := ep_set_channel_valid client_requested_channel_valid self in
      Done (ep_set_state EP_ChannelRequestValidated self, Ok tt)
  | _, _, _, _, _, _ => Done (self, Err EP_IncorrectUsage)
  end.

End endpoint_server.

Arguments EndpointServer {_} RW.

(** * The invariant *)

Section endpoint_server_theory.
Context `{BL : BsonLib} `{CL : CryptoLib} {RW : Type} `{!Stream RW}.
Implicit Types (self : EndpointServer RW).

Definition ep_present self : list bool :=
  [has (ep_begin_handshake_request_cookie self); has (ep_client_identity self);
   has (ep_requested_channel self); has (ep_server_cookie self); has (ep_handshake_succeeded self)].

Abbreviation T := true.
Abbreviation F := false.

(** The fields that are set in each state. *)
Definition ep_shape self : Prop :=
  match ep_state self with
  | EP_WaitingForBeginHandshake =>
      ep_present self = [F; F; F; F; F] ∨ ep_present self = [T; T; T; F; F]
  | EP_ValidatingChannelRequest => ep_present self = [T; T; T; F; F]
  | EP_ChannelRequestValidated | EP_WaitingForSendResponse => ep_present self = [T; T; T; T; F]
  | EP_HandledSendResponse | EP_HandshakeComplete => ep_present self = [T; T; T; T; T]
  | EP_HandshakeFailed => True
  end.

Definition ep_all_valid self : bool :=
  ep_client_allowed self && ep_client_requested_channel_valid self && ep_client_proof_signature_valid self.

(** A signature over the proof of this very handshake that verifies under the key of the
    client's identity. *)
Definition ep_proof_ok self : Prop :=
  ∃ client channel server_cookie client_cookie sig key,
    ep_client_identity self = Some client ∧ ep_requested_channel self = Some channel ∧
    ep_server_cookie self = Some server_cookie ∧ length client_cookie = CLIENT_COOKIE_SIZE ∧
    from_service_id client = Ok key ∧
    verify sig (build_client_proof GoslingEndpoint channel client (ep_server_identity self)
                  client_cookie server_cookie) key = true.

Record ep_inv self : Prop := {
  ep_inv_shape : ep_shape self;
  ep_inv_allowed :
    ep_client_allowed self = true → ep_client_identity self = Some (ep_allowed_client_identity self);
  ep_inv_proof : ep_client_proof_signature_valid self = true → ep_proof_ok self;
  ep_inv_succeeded b : ep_handshake_succeeded self = Some b → b = ep_all_valid self;
}.

Lemma ep_inv_new rpc cid sid draws : ep_inv (endpoint_server_new rpc cid sid draws).
Proof. split; try done. by left. Qed.

Lemma ep_inv_rpc rpc self : ep_inv (ep_set_rpc rpc self) ↔ ep_inv self.
Proof. destruct self. split; intros []; by split. Qed.

Lemma ep_fail_inv self e : ep_inv self → ep_inv (ep_fail self e).2.
Proof. destruct self. intros []. by split. Qed.

Hint Resolve ep_fail_inv : gosling.

(** The client's identity may be recorded before the handshake fails on the channel. *)
Lemma ep_begin_handshake_inv self args cookie :
  ep_inv self → ep_state self = EP_WaitingForBeginHandshake →
  ep_present self = [F; F; F; F; F] → ep_inv (ep_begin_handshake self args cookie).2.
Proof.
  intros Hi Hst Hp. unfold ep_begin_handshake.
  destruct (doc_remove args "version") as [v a1]. case_match; [by apply ep_fail_inv|].
  destruct (doc_remove a1 "client_identity") as [c a2], (doc_remove a2 "channel") as [e a3].
  destruct c as [[]|]; auto with gosling. destruct e as [[]|]; auto with gosling.
  destruct (service_id_from_string _) as [cid|] eqn:Hc; auto with gosling.
  destruct Hi as [Hsh Hal Hpr Hsu]. unfold ep_present in Hp.
  destruct self as [rpc sid acid dr st bc ci rc sc hs f1 f2 f3]. simpl in *. subst st.
  by_shape Hp. clear Hp.
  assert (f1 = false) as -> by (destruct f1; [|done]; by specialize (Hal eq_refl)).
  assert (f3 = false) as ->.
  { destruct f3; [|done]. destruct (Hpr eq_refl) as (? & ? & ? & ? & ? & ? & Hx & _). done. }
  destruct (ascii_string_new _) as [ch|]; simpl; split; simpl; try done. by right.
Qed.

Lemma ep_send_response_inv self client channel sc args :
  ep_inv self → ep_state self = EP_WaitingForSendResponse →
  ep_client_identity self = Some client → ep_requested_channel self = Some channel →
  ep_server_cookie self = Some sc → ep_inv (ep_send_response self client channel sc args).2.
Proof.
  intros Hi Hst H1 H2 H3. unfold ep_send_response.
  destruct (doc_remove args _) as [c a1], (doc_remove a1 _) as [p a2].
  destruct c as [[| | | | | | |[] cc|]|]; auto with gosling.
  destruct p as [[| | | | | | |[] pp|]|]; auto with gosling.
  destruct (try_into_array CLIENT_COOKIE_SIZE cc) as [cc'|] eqn:Hcc; auto with gosling.
  apply try_into_array_Some in Hcc as [-> Hcc].
  destruct (try_into_array _ pp); auto with gosling. unfold signature_from_raw.
  destruct (from_service_id client) as [key|] eqn:Hkey; auto with gosling.
  destruct Hi as [Hsh Hal Hpr Hsu]. unfold ep_shape, ep_present in Hsh.
  destruct self as [rpc sid acid dr st bc ci rc sck hs f1 f2 f3]. simpl in *. subst.
  injection Hsh as Hbc Hhs.
  set (ok := verify _ _ key).
  assert (ok = true → ep_proof_ok (mkEndpointServer rpc sid acid dr EP_HandledSendResponse bc
    (Some client) (Some channel) (Some sc) (Some (f1 && f2 && ok)) f1 f2 ok)) as Hp.
  { intros Hok. by eexists client, channel, sc, cc, _, key. }
  destruct (f1 && f2 && ok) eqn:Hs; simpl; split; simpl; try done;
    try (by unfold ep_shape, ep_present; simpl; rewrite Hbc);
    by intros b [= <-].
Qed.

Lemma ep_exec_inv self f v args c : ep_inv self → ep_inv (ep_exec_function self f v args c).2.
Proof.
  intros Hi. pose proof (ep_inv_shape _ Hi) as Hsh. unfold ep_exec_function, ep_shape in *.
  destruct c as [c|]; [|done].
  destruct (String.eqb f "begin_handshake" && (v =? 0)%Z).
  - destruct (ep_state self) eqn:Hst; auto with gosling.
    destruct (ep_client_identity self) eqn:H2; auto with gosling.
    destruct (ep_requested_channel self) eqn:H3; auto with gosling.
    destruct (ep_server_cookie self) eqn:H4; auto with gosling.
    apply ep_begin_handshake_inv; [done..|]. destruct Hsh as [?|Hsh]; [done|].
    unfold ep_present in Hsh. by rewrite H2 in Hsh.
  - destruct (String.eqb f "send_response" && (v =? 0)%Z); auto with gosling.
    destruct (ep_state self) eqn:Hst; auto with gosling.
    destruct (ep_client_identity self) eqn:H2; auto with gosling.
    destruct (ep_requested_channel self) eqn:H3; auto with gosling.
    destruct (ep_server_cookie self) eqn:H4; auto with gosling.
    by apply ep_send_response_inv.
Qed.

Definition ep_results self : nat :=
  match ep_state self with EP_ChannelRequestValidated => 1 | _ => 0 end.

Lemma ep_next_result_spec self :
  ep_inv self →
  ∃ r self', ep_next_result self = Done (r, self') ∧ ep_inv self' ∧
    (r ≠ None → ep_results self' < ep_results self).
Proof.
  intros Hi. pose proof (ep_inv_shape _ Hi) as Hsh. unfold ep_next_result, ep_results, ep_shape in *.
  destruct (ep_state self) eqn:Hst; try by eexists _, self; split_and!.
  destruct Hi as [_ Hal Hpr Hsu]. unfold ep_present in Hsh.
  destruct self as [rpc sid acid dr st bc ci rc sck hs f1 f2 f3]. simpl in *. by_shape Hsh.
  eexists _, _. split_and!; [done| |simpl; lia]. by split.
Qed.

#[export] Instance endpoint_server_laws : ApiSetLaws (EndpointServer RW).
Proof.
  refine {| api_inv := ep_inv; api_results := ep_results |}.
  - intros a f v args c Ha. by apply ep_exec_inv.
  - done.
  - intros a Ha. destruct (ep_next_result_spec a Ha) as (r & a' & Heq & Hi & _). by exists r, a'.
  - intros a x a' Ha Hn. destruct (ep_next_result_spec a Ha) as (r & b & Heq & _ & Hlt).
    simpl in Hn. rewrite Heq in Hn. injection Hn as -> ->. by apply Hlt.
Defined.

Lemma ep_handle_request_inv valid :
  preserves ep_inv (ep_handle_channel_request_received valid : M (EndpointServer RW) _ _).
Proof.
  intros self self' r Hi. unfold ep_handle_channel_request_received.
  destruct self as [rpc sid acid dr [] bc ci rc sck hs f1 f2 f3]; simpl; try (by intros [= <- _]).
  split_options. intros [= <- _]. destruct Hi as [Hsh Hal Hpr Hsu]. split; simpl in *; try done.
  - by intros ->%bool_decide_eq_true.
  - intros Hf. destruct (Hpr Hf) as (? & ? & ? & ? & ? & ? & _ & _ & Hx & _). by simpl in Hx.
Qed.

(** ** Turns *)

Lemma ep_advance_spec self :
  ep_inv self → has (ep_rpc self) = true →
  ∃ self' r, ep_advance self = Done (self', r) ∧ ep_inv self' ∧
    match r with
    | Ok (Some (EP_HandshakeCompleted client channel st)) =>
        ep_all_valid self = true ∧ ep_client_identity self = Some client ∧
        ep_requested_channel self = Some channel ∧ stream <$> ep_rpc self = Some st
    | Ok (Some (EP_HandshakeRejected a b c)) =>
        ep_all_valid self = false ∧ a = ep_client_allowed self ∧
        b = ep_client_requested_channel_valid self ∧ c = ep_client_proof_signature_valid self
    | _ => True
    end.
Proof.
  intros Hi Hrpc. pose proof (ep_inv_shape _ Hi) as Hsh. unfold ep_shape, ep_present in Hsh.
  unfold ep_advance. destruct Hi as [Hsh0 Hal Hpr Hsu].
  destruct self as [rpc sid acid dr st bc ci rc sck hs f1 f2 f3]. simpl in *.
  destruct st; simpl in *; try destruct Hsh as [Hsh|Hsh]; try (by_shape Hsh);
    try (by eexists _, _; split_and!; [done|split|]; try done; auto).
  destruct rpc as [rpc|]; [|done]. pose proof (Hsu _ eq_refl) as Hb.
  match goal with b : bool |- context [if ?x then _ else _] => destruct x end;
    (eexists _, _; split_and!; [done|by split|..]); simpl; try done; by rewrite <- Hb.
Qed.
(** ** What a turn leaves alone *)

(** Who the server is, whom it was made for, and the answer of the application: only the
    handler changes them. *)
Definition ep_frame self : V3OnionServiceId * V3OnionServiceId * bool * option ServerCookie :=
  (ep_server_identity self, ep_allowed_client_identity self, ep_client_requested_channel_valid self,
   ep_server_cookie self).

Lemma ep_frame_rpc rpc self : ep_frame (ep_set_rpc rpc self) = ep_frame self.
Proof. by destruct self. Qed.

Lemma ep_begin_handshake_frame self args cookie :
  ep_frame (ep_begin_handshake self args cookie).2 = ep_frame self.
Proof.
  unfold ep_begin_handshake, ep_fail. destruct self.
  repeat (match goal with |- context [let '(_, _) := ?x in _] => destruct x end || case_match); done.
Qed.

Lemma ep_send_response_frame self client channel sc args :
  ep_frame (ep_send_response self client channel sc args).2 = ep_frame self.
Proof.
  unfold ep_send_response, ep_fail. destruct self.
  repeat (match goal with |- context [let '(_, _) := ?x in _] => destruct x end || case_match); done.
Qed.

Lemma ep_exec_frame self f v args c : ep_frame (ep_exec_function self f v args c).2 = ep_frame self.
Proof.
  assert (ep_frame (ep_fail self Failure).2 = ep_frame self) as Hf by by destruct self.
  unfold ep_exec_function. destruct c as [c|]; [|done].
  repeat case_match; auto using ep_begin_handshake_frame, ep_send_response_frame.
Qed.

Lemma ep_next_result_frame self r self' : ep_next_result self = Done (r, self') → ep_frame self' = ep_frame self.
Proof.
  unfold ep_next_result. destruct self as [rpc sid acid dr [] bc ci rc sck hs f1 f2 f3]; simpl;
    split_options; try done; by intros [= _ <-].
Qed.

Lemma ep_advance_frame self self' r : ep_advance self = Done (self', r) → ep_frame self' = ep_frame self.
Proof.
  unfold ep_advance. destruct self as [rpc sid acid dr [] bc ci rc sck hs f1 f2 f3]; simpl;
    split_options; try done; try (by intros [= <- _]).
  all: match goal with |- context [if ?b then _ else _] => destruct b end; simpl; by intros [= <- _].
Qed.

Lemma ep_update_frame fuel self self' r : ep_update fuel self = Done (self', r) → ep_frame self' = ep_frame self.
Proof.
  unfold ep_update. destruct (ep_rpc self) as [rpc|]; [|apply ep_advance_frame].
  destruct (update fuel (rpc, [ep_set_rpc None self])) as [[[rpc' l] x]| |] eqn:Hu; [|done..].
  assert (apis_ok (λ a, ep_frame a = ep_frame self) 1 (rpc', l)) as [Hlen Hall].
  { eapply (update_preserves (λ a, ep_frame a = ep_frame self)); [..|exact Hu].
    - intros a f v args c Ha. simpl. by rewrite ep_exec_frame.
    - done.
    - intros a y a' Ha Hn. simpl in Hn. by rewrite (ep_next_result_frame _ _ _ Hn).
    - split; [done|]. constructor; [by rewrite ep_frame_rpc|constructor]. }
  destruct l as [|b [|]]; try done. apply Forall_cons in Hall as [Hb _].
  destruct x; [|intros [= <- _]; by rewrite ep_frame_rpc].
  intros Ha. rewrite (ep_advance_frame _ _ _ Ha), ep_frame_rpc. done.
Qed.
End endpoint_server_theory.

Section endpoint_server_turns.
Context `{BL : BsonLaws} `{CL : CryptoLib} {RW : Type} `{SL : StreamLaws RW}.
Implicit Types (self : EndpointServer RW).

(** The session is gone only when the handshake is over. *)
Definition ep_rpc_ok self : Prop :=
  match ep_rpc self with Some _ => True | None => ep_state self = EP_HandshakeComplete end.

Lemma ep_advance_done self :
  ep_inv self → ep_rpc self = None → ep_state self = EP_HandshakeComplete →
  ep_advance self = Done (self, Err EP_InvalidState).
Proof.
  intros Hi Hrpc Hst. unfold ep_advance. rewrite Hst.
  by repeat case_match.
Qed.

Lemma ep_advance_rpc self self' r :
  ep_advance self = Done (self', r) → ep_rpc_ok self → ep_rpc_ok self'.
Proof.
  unfold ep_advance, ep_rpc_ok.
  destruct self as [rpc sid acid dr [] bc ci rc sck hs f1 f2 f3]; simpl;
    repeat match goal with
    | |- context [match ?o with Some _ => _ | None => _ end] => is_var o; destruct o; simpl
    | |- context [if ?b then _ else _] => is_var b; destruct b; simpl
    end; intros [= <- _]; done.
Qed.

Lemma ep_update_inv fuel :
  preserves (λ self, ep_inv self ∧ ep_rpc_ok self) (ep_update fuel : M (EndpointServer RW) _ _).
Proof.
  intros self self' r [Hi Hr]. unfold ep_update. destruct (ep_rpc self) as [rpc|] eqn:Hrpc.
  2: { unfold ep_rpc_ok in Hr. rewrite Hrpc in Hr. rewrite (ep_advance_done self Hi Hrpc Hr).
       intros [= <- _]. split; [done|]. unfold ep_rpc_ok. by rewrite Hrpc. }
  destruct (update fuel (rpc, [ep_set_rpc None self])) as [[[rpc' l] x]| |] eqn:Hu; [|done..].
  assert (api_inv (ep_set_rpc None self)) as Hi0 by (by apply ep_inv_rpc).
  destruct (one_apiset_turn _ _ _ _ _ _ Hi0 Hu) as (a & -> & Ha).
  destruct x as [u|e].
  2: { intros [= <- _]. split; [by apply ep_inv_rpc|]. by destruct a. }
  intros Hadv. split; [|eapply ep_advance_rpc; [done|by destruct a]].
  destruct (ep_advance_spec (ep_set_rpc (Some rpc') a)) as (y & z & Heq & Hy & _);
    [by apply ep_inv_rpc|by destruct a|]. rewrite Heq in Hadv. by injection Hadv as <- _.
Qed.

(** With enough fuel a turn returns and does not panic. *)
Lemma ep_update_returns `{!FiniteStream (RW:=RW)} self :
  (∀ b st st', b ≠ [] → rw_write b st ≠ (IoOk 0, st')) →
  ep_inv self → ep_rpc_ok self →
  match ep_rpc self with Some rpc => session_ok rpc ∧ buffer_home rpc | None => True end →
  ∃ n self' r, ∀ fuel, n ≤ fuel → ep_update fuel self = Done (self', r).
Proof.
  intros Hprog Hi Hr Hs. unfold ep_update, ep_rpc_ok in *. destruct (ep_rpc self) as [rpc|] eqn:Hrpc.
  2: { rewrite (ep_advance_done self Hi Hrpc Hr). by eexists 0, _, _. }
  destruct Hs as [Hok Hh].
  assert (api_inv (ep_set_rpc None self)) as Hi0 by (by apply ep_inv_rpc).
  destruct (one_apiset_returns _ rpc Hprog Hok Hh Hi0)
    as (n & rpc' & a & r & Ha & Hn & _).
  destruct (ep_advance_spec (ep_set_rpc (Some rpc') a)) as (y & z & Hy & _);
    [by apply ep_inv_rpc|by destruct a|].
  destruct r as [u|e].
  - exists n, y, z. intros fuel Hf. by rewrite (Hn fuel Hf).
  - eexists n, _, _. intros fuel Hf. by rewrite (Hn fuel Hf).
Qed.

(** Everything the program can do with a server, in any order. *)
Inductive ep_reachable : EndpointServer RW → Prop :=
| ep_reach_new rpc cid sid draws : ep_reachable (endpoint_server_new rpc cid sid draws)
| ep_reach_update self fuel self' r :
    ep_reachable self → ep_update fuel self = Done (self', r) → ep_reachable self'
| ep_reach_request self valid self' r :
    ep_reachable self → ep_handle_channel_request_received valid self = Done (self', r) →
    ep_reachable self'.

Lemma ep_handle_request_rpc valid :
  preserves ep_rpc_ok (ep_handle_channel_request_received valid : M (EndpointServer RW) _ _).
Proof.
  intros self self' r Hr. unfold ep_handle_channel_request_received.
  destruct self as [rpc sid acid dr [] bc ci rc sck hs f1 f2 f3]; simpl; try (by intros [= <- _]).
  split_options. intros [= <- _]. by destruct rpc.
Qed.

Lemma ep_reachable_inv self : ep_reachable self → ep_inv self ∧ ep_rpc_ok self.
Proof.
  induction 1 as [|self fuel self' r _ IH Hu|self va self' r _ [IH IHr] Hu].
  - split; [apply ep_inv_new|done].
  - by eapply ep_update_inv.
  - split; [by eapply ep_handle_request_inv|by eapply ep_handle_request_rpc].
Qed.
(** What an event has established, whatever led to it. *)
Lemma ep_update_event fuel self self' e :
  ep_inv self → ep_rpc_ok self → ep_update fuel self = Done (self', Ok (Some e)) →
  match e with
  | EP_HandshakeCompleted client channel st =>
      client = ep_allowed_client_identity self' ∧ ep_client_requested_channel_valid self' = true ∧
      ep_rpc self' = None ∧
      ∃ server_cookie client_cookie sig key,
        ep_server_cookie self' = Some server_cookie ∧ length client_cookie = CLIENT_COOKIE_SIZE ∧
        from_service_id client = Ok key ∧
        verify sig (build_client_proof GoslingEndpoint channel client (ep_server_identity self')
                      client_cookie server_cookie) key = true
  | EP_HandshakeRejected allowed valid proved => allowed && valid && proved = false
  | EP_ChannelRequestReceived client channel =>
      ep_client_identity self' = Some client ∧ ep_requested_channel self' = Some channel ∧
      ep_state self' = EP_ValidatingChannelRequest
  end.
Proof.
  intros Hi Hrpc Hu.
  assert (∃ s0, ep_inv s0 ∧ has (ep_rpc s0) = true ∧ ep_advance s0 = Done (self', Ok (Some e)))
    as (s0 & Hi0 & Hrpc0 & Hadv).
  { unfold ep_update, ep_rpc_ok in *. destruct (ep_rpc self) as [rpc|] eqn:Hs.
    2: { rewrite (ep_advance_done self Hi Hs Hrpc) in Hu. done. }
    destruct (update fuel (rpc, [ep_set_rpc None self])) as [[[rpc' l] x]| |] eqn:Ht; [|done..].
    assert (api_inv (ep_set_rpc None self)) as Ha by (by apply ep_inv_rpc).
    destruct (one_apiset_turn _ _ _ _ _ _ Ha Ht) as (a & -> & Ha').
    destruct x as [u|err]; [|done]. exists (ep_set_rpc (Some rpc') a).
    split_and!; [by apply ep_inv_rpc|by destruct a|done]. }
  pose proof (ep_advance_spec s0 Hi0 Hrpc0) as (y & z & Heq & Hi' & Hz).
  rewrite Heq in Hadv. injection Hadv as -> ->. unfold ep_advance in Heq.
  destruct Hi0 as [_ Hal Hpr _].
  destruct s0 as [rpc sid acid dr st bc ci rc sck hs f1 f2 f3]. simpl in *. unfold ep_all_valid in Hz.
  destruct e as [client channel|client channel str|al va pr].
  - destruct st, bc, ci, rc, sck, hs as [[]|], rpc; simpl in *; simplify_eq; done.
  - destruct Hz as (Hall & -> & -> & _). simpl in Hall.
    apply andb_prop in Hall as [[-> ->]%andb_prop ->]. specialize (Hal eq_refl).
    destruct (Hpr eq_refl) as (? & ? & sc & cc & sig & key & [= <-] & [= <-] & Hsck & Hcc & Hfrom & Hver).
    simpl in Hsck. subst sck.
    destruct st, bc, hs as [[]|], rpc; simpl in *; simplify_eq.
    split_and!; [done..|]. by exists sc, cc, sig, key.
  - by destruct Hz as (Hall & -> & -> & ->).
Qed.
End endpoint_server_turns.
