(* ===== verification/EndpointClient.v ===== *)
(** gosling/src/endpoint_client.rs: the client side of the endpoint handshake. *)

From Stdlib Require Import ZArith Lia.
From S2P Require Import Prelude Bson HonkWire HonkSize VecDeque HonkSession.
From S2P Require Import Crypto TorCrypto GoslingProto IdentityClient.
From stdpp Require Import prelude strings list.

Open Scope nat_scope.

Inductive ECError `{BsonLib} :=
| EC_HonkRPCFailure (err : HonkError)
| EC_UnexpectedResponseReceived
| EC_InvalidState
| EC_IncorrectUsage.

Inductive EndpointClientEvent (RW : Type) := EC_HandshakeCompleted (stream : RW).
Arguments EC_HandshakeCompleted {RW} _.

Inductive EndpointClientState :=
| EC_BeginHandshake
| EC_WaitingForServerCookie
| EC_WaitingForProofVerification
| EC_HandshakeComplete.

#[export] Instance endpoint_client_state_eq_dec : EqDecision EndpointClientState.
Proof. solve_decision. Defined.

Section endpoint_client.
Context `{BL : BsonLib} `{CL : CryptoLib} {RW : Type} `{!Stream RW}.

Record EndpointClient := mkEndpointClient {
  ec_rpc : option (Session RW);
  ec_server_service_id : V3OnionServiceId;
  ec_requested_channel : AsciiString;
  ec_client_service_id : V3OnionServiceId;
  ec_client_ed25519_private : Ed25519PrivateKey;
  ec_draws : nat;
  ec_state : EndpointClientState;
  ec_begin_handshake_request_cookie : option RequestCookie;
  ec_send_response_request_cookie : option RequestCookie;
}.

Definition ec_set_rpc v s := let 'mkEndpointClient _ x1 x2 x3 x4 x5 x6 x7 x8 := s in mkEndpointClient v x1 x2 x3 x4 x5 x6 x7 x8.
Definition ec_set_draws v s := let 'mkEndpointClient x0 x1 x2 x3 x4 _ x6 x7 x8 := s in mkEndpointClient x0 x1 x2 x3 x4 v x6 x7 x8.
Definition ec_set_state v s := let 'mkEndpointClient x0 x1 x2 x3 x4 x5 _ x7 x8 := s in mkEndpointClient x0 x1 x2 x3 x4 x5 v x7 x8.
Definition ec_set_begin_cookie v s := let 'mkEndpointClient x0 x1 x2 x3 x4 x5 x6 _ x8 := s in mkEndpointClient x0 x1 x2 x3 x4 x5 x6 v x8.
Definition ec_set_send_cookie v s := let 'mkEndpointClient x0 x1 x2 x3 x4 x5 x6 x7 _ := s in mkEndpointClient x0 x1 x2 x3 x4 x5 x6 x7 v.

Abbreviation EC_ := (M EndpointClient ECError).

(** [EndpointClient::new] *)
Definition endpoint_client_new (rpc : Session RW) (server_service_id : V3OnionServiceId)
    (requested_channel : AsciiString) (client_ed25519_private : Ed25519PrivateKey) (draws : nat) :
    EndpointClient :=
  {| ec_rpc := Some rpc;
     ec_server_service_id := server_service_id;
     ec_requested_channel := requested_channel;
     ec_client_service_id := service_id_from_private_key client_ed25519_private;
     ec_client_ed25519_private := client_ed25519_private;
     ec_draws := draws;
     ec_state := EC_BeginHandshake;
     ec_begin_handshake_request_cookie := None;
     ec_send_response_request_cookie := None |}.

(** A method of the session held by [self.rpc], which the caller has checked to be there. *)
Definition ec_on_rpc {X} (m : M (Session RW) HonkError X) : EC_ X := λ self,
  match ec_rpc self with
  | None => Done (self, Err EC_InvalidState)
  | Some rpc =>
      match m rpc with
      | Done (rpc, Ok x) => Done (ec_set_rpc (Some rpc) self, Ok x)
      | Done (rpc, Err e) => Done (ec_set_rpc (Some rpc) self, Err (EC_HonkRPCFailure e))
      | Panicked => Panicked
      | OutOfFuel => OutOfFuel
      end
  end.

(** [rpc.client_call(..).unwrap()] *)
Definition ec_call (function : string) (args : Document) : EC_ RequestCookie := λ self,
  match ec_on_rpc (client_call "gosling_endpoint" function 0 args) self with
  | Done (self, Err (EC_HonkRPCFailure _)) => Panicked
  | o => o
  end.

Definition ec_next_response : EC_ (option Response) :=
  ec_on_rpc (λ rpc, let '(r, rpc) := client_next_response rpc in Done (rpc, Ok r)).

Definition ec_random (n : nat) : EC_ bytes := λ self,
  Done (ec_set_draws (S (ec_draws self)) self, Ok (os_random (ec_draws self) n)).

(** The arm of [BeginHandshake]. *)
Definition ec_begin : EC_ (option (EndpointClientEvent RW)) :=
  self ← get_state;
  cookie ← ec_call "begin_handshake"
    (doc [("version", BString GOSLING_PROTOCOL_VERSION);
          ("client_identity", BString (service_id_to_string (ec_client_service_id self)));
          ("channel", BString (ascii_value (ec_requested_channel self)))]);
  _ ← modify (ec_set_begin_cookie (Some cookie));
  _ ← modify (ec_set_state EC_WaitingForServerCookie);
  mret None.

(** The arguments of the [send_response] call. *)
Definition ec_response_args (self : EndpointClient) (client_cookie server_cookie : bytes) : Document :=
  let client_identity_proof := build_client_proof GoslingEndpoint (ec_requested_channel self)
    (ec_client_service_id self) (ec_server_service_id self) client_cookie server_cookie in
  let proof_signature := sign_message (ec_client_ed25519_private self) client_identity_proof in
  doc [("client_cookie", BBinary Generic client_cookie);
       ("client_identity_proof_signature", BBinary Generic (ed25519_signature_to_bytes proof_signature))].

(** The arm of [WaitingForServerCookie]. *)
Definition ec_server_cookie (begin_cookie : RequestCookie) : EC_ (option (EndpointClientEvent RW)) :=
  response ← ec_next_response;
  match response with
  | None => mret None
  | Some (RespPending cookie) =>
      if (cookie =? begin_cookie)%Z then mret None else throw EC_UnexpectedResponseReceived
  | Some (RespError _ _) => throw EC_UnexpectedResponseReceived
  | Some (RespSuccess cookie result) =>
      if (cookie =? begin_cookie)%Z then
        match result with
        | Some (BDocument result) =>
            match doc_get result "server_cookie" with
            | Some (BBinary Generic server_cookie) =>
                client_cookie ← ec_random CLIENT_COOKIE_SIZE;
                match try_into_array SERVER_COOKIE_SIZE server_cookie with
                | None => throw EC_UnexpectedResponseReceived
                | Some server_cookie =>
                    self ← get_state;
                    cookie ← ec_call "send_response" (ec_response_args self client_cookie server_cookie);
                    _ ← modify (ec_set_send_cookie (Some cookie));
                    _ ← modify (ec_set_state EC_WaitingForProofVerification);
                    mret None
                end
            | _ => throw EC_UnexpectedResponseReceived
            end
        | _ => throw EC_UnexpectedResponseReceived
        end
      else throw EC_UnexpectedResponseReceived
  end.

(** The arm of [WaitingForProofVerification]. *)
Definition ec_verification (send_cookie : RequestCookie) : EC_ (option (EndpointClientEvent RW)) :=
  response ← ec_next_response;
  match response with
  | None => mret None
  | Some (RespPending cookie) =>
      if (cookie =? send_cookie)%Z then mret None else throw EC_UnexpectedResponseReceived
  | Some (RespError _ _) => throw EC_UnexpectedResponseReceived
  | Some (RespSuccess cookie result) =>
      if (cookie =? send_cookie)%Z then
        match result with
        | Some (BDocument result) =>
            if doc_is_empty result then
              _ ← modify (ec_set_state EC_HandshakeComplete);
              self ← get_state;
              match ec_rpc self with
              | None => panic
              | Some rpc =>
                  _ ← modify (ec_set_rpc None);
                  mret (Some (EC_HandshakeCompleted (into_stream rpc)))
              end
            else throw EC_UnexpectedResponseReceived
        | _ => throw EC_UnexpectedResponseReceived
        end
      else throw EC_UnexpectedResponseReceived
  end.

(** [EndpointClient::update] *)
Definition ec_update (fuel : nat) : EC_ (option (EndpointClientEvent RW)) :=
  self ← get_state;
  if decide (ec_state self = EC_HandshakeComplete) then throw EC_IncorrectUsage
  else
    match ec_rpc self with
    | None => throw EC_InvalidState
    | Some _ =>
        _ ← ec_on_rpc (update_none fuel);
        self ← get_state;
        match ec_state self, ec_begin_handshake_request_cookie self, ec_send_response_request_cookie self with
        | EC_BeginHandshake, None, None => ec_begin
        | EC_WaitingForServerCookie, Some begin_cookie, None => ec_server_cookie begin_cookie
        | EC_WaitingForProofVerification, Some _, Some send_cookie => ec_verification send_cookie
        | _, _, _ => throw EC_InvalidState
        end
    end.

End endpoint_client.

Arguments EndpointClient {_ _} RW.
