(* ===== verification/Handshake.v ===== *)
(** The two ends of each handshake together: what an honest client sends, the server
    accepts, and a handshake whose bytes are carried between them completes on both
    sides. *)

From Stdlib Require Import ZArith Lia.
From S2P Require Import Prelude Bson BsonModel HonkWire HonkSize VecDeque HonkSession HonkRead HonkScript.
From S2P Require Import HonkWrite HonkUpdate Crypto TorCrypto CryptoModel GoslingProto.
From S2P Require Import IdentityServer IdentityClient EndpointServer EndpointClient.
From stdpp Require Import prelude strings list.

Open Scope nat_scope.

(** Take the next [doc_remove] apart: what it returns, and that other keys stay. *)
Ltac step_remove :=
  match goal with
  | |- context [doc_remove ?d ?k] =>
      let v := fresh "v" in let d' := fresh "d" in
      let Hv := fresh "Hv" in let Hd := fresh "Hd" in
      pose proof (remove_fst d k) as Hv;
      pose proof (λ k' (Hk : k ≠ k'), remove_ne d k k' Hk) as Hd;
      destruct (doc_remove d k) as [v d']; cbn [fst snd] in Hv, Hd
  end.

(** Trace a lookup back to the document the removals started from. *)
Ltac trace_removes :=
  repeat match goal with
  | Hv : ?v = doc_get ?d ?k, Hd : ∀ k', _ → doc_get ?d k' = doc_get _ k' |- _ =>
      rewrite Hd in Hv by discriminate
  end.

Section identity.
Context `{BL : BsonLaws} `{CL : CryptoLaws} {RW RW' : Type} `{!Stream RW, !Stream RW'}.
Implicit Types (server : IdentityServer RW) (client : IdentityClient RW').

(** ** identity_server.rs *)

Lemma is_begin_handshake_accepts server args cookie id name cid :
  doc_get args "version" = Some (BString GOSLING_PROTOCOL_VERSION) →
  doc_get args "client_identity" = Some (BString id) → doc_get args "endpoint" = Some (BString name) →
  service_id_from_string id = Ok cid → is_ascii name = true →
  is_begin_handshake server args cookie =
    (None, is_set_requested_endpoint (Some (mkAsciiString name))
             (is_set_client_identity (Some cid) (is_set_begin_cookie (Some cookie) server))).
Proof.
  intros H1 H2 H3 Hid Hname. unfold is_begin_handshake. do 3 step_remove. trace_removes. subst.
  rewrite H1, H2, H3, Hid. unfold ascii_string_new. rewrite Hname. by rewrite String.eqb_refl.
Qed.

Lemma is_send_response_accepts server cid endpoint sc args cookie cc sig key bit sig' resp :
  doc_get args "client_cookie" = Some (BBinary Generic cc) →
  doc_get args "client_identity_proof_signature" = Some (BBinary Generic sig) →
  doc_get args "client_authorization_key" = Some (BBinary Generic key) →
  doc_get args "client_authorization_key_signbit" = Some (BBoolean bit) →
  doc_get args "client_authorization_signature" = Some (BBinary Generic sig') →
  doc_get args "challenge_response" = Some (BDocument resp) →
  length cc = 32 → length sig = 64 → length key = 32 → length sig' = 64 →
  is_send_response server cid endpoint sc args cookie =
    (None, is_response_accepted server cid endpoint sc cookie cc
             (mkEd25519Signature (signature_from_bytes sig)) (x25519_public_from_raw key)
             (signbit_from_bool bit) (mkEd25519Signature (signature_from_bytes sig')) resp).
Proof.
  intros H1 H2 H3 H4 H5 H6 Hcc Hsig Hkey Hsig'. unfold is_send_response. do 6 step_remove.
  trace_removes. subst. rewrite H1, H2, H3, H4, H5, H6. unfold try_into_array,
    CLIENT_COOKIE_SIZE, ED25519_SIGNATURE_SIZE, X25519_PUBLIC_KEY_SIZE, signature_from_raw.
  rewrite Hcc, Hsig, Hkey, Hsig'. by rewrite !decide_True.
Qed.

(** ** The honest client *)

(** What [IdentityClient::new] establishes. *)
Record ic_honest client : Prop := {
  ic_honest_id :
    ic_client_service_id client =
      service_id_from_private_key (ic_client_identity_ed25519_private client);
  ic_honest_auth :
    from_private_x25519 (ic_client_authorization_key_private client) =
      Ok (ic_client_authorization_signing_key_private client);
}.

Lemma identity_client_new_honest rpc sid endpoint key auth draws client :
  identity_client_new rpc sid endpoint key auth draws = Ok client → ic_honest client.
Proof.
  unfold identity_client_new. destruct (from_private_x25519 auth) eqn:Ha; [|done].
  intros [= <-]. by split.
Qed.

(** The client and the server agree on what the handshake is about. *)
Record identity_agree server client sc : Prop := {
  ia_client : is_client_identity server = Some (ic_client_service_id client);
  ia_endpoint : is_requested_endpoint server = Some (ic_requested_endpoint client);
  ia_server : is_server_identity server = ic_server_service_id client;
  ia_cookie : is_server_cookie server = Some sc;
}.

(** The response of an honest client passes both signature checks. *)
Lemma identity_response_accepted server client sc cc resp cookie :
  ic_honest client → identity_agree server client sc → length cc = CLIENT_COOKIE_SIZE →
  ∃ server',
    is_send_response server (ic_client_service_id client) (ic_requested_endpoint client) sc
      (ic_response_args client cc sc resp) cookie = (None, server') ∧
    is_client_proof_signature_valid server' = true ∧ is_client_auth_signature_valid server' = true ∧
    is_client_auth_key server' =
      Some (x25519_public_from_private (ic_client_authorization_key_private client)) ∧
    is_challenge_response server' = Some resp ∧ is_send_response_request_cookie server' = Some cookie ∧
    is_state server' = is_state server.
Proof.
  intros [Hid Hauth] [Hc He Hs Hsc] Hcc. unfold ic_response_args.
  destruct (ic_client_authorization_signing_key_private client) as [sk bit].
  unfold doc. simpl fold_left.
  erewrite is_send_response_accepts; [|by bson_simpl..|exact Hcc|apply signature_length|
    apply curve_length|apply signature_length].
  eexists. split; [reflexivity|]. unfold is_response_accepted, ed25519_signature_to_bytes,
    x25519_public_from_raw, x25519_public_as_bytes.
  rewrite !signature_roundtrip, curve_roundtrip, signbit_bool_roundtrip.
  assert (from_service_id (ic_client_service_id client) =
    Ok (ed25519_public_from_private (ic_client_identity_ed25519_private client))) as ->
    by (rewrite Hid; apply from_service_id_public).
  assert (is_server_identity (is_set_send_cookie (Some cookie) server) = ic_server_service_id client)
    as -> by (by destruct server).
  assert (∀ k m, verify (mkEd25519Signature (ed_signature (sign_message k m))) m
    (ed25519_public_from_private k) = true) as Hv by (intros; apply sign_message_verify).
  rewrite Hv. destruct server; simpl. split_and!; try done.
  apply (from_private_x25519_verify _ _ _ (sid_data (ic_client_service_id client))) in Hauth.
  rewrite <- Hauth. unfold service_id_to_string. rewrite as_bytes_of_list.
  done.
Qed.
End identity.

Section endpoint.
Context `{BL : BsonLaws} `{CL : CryptoLaws} {RW RW' : Type} `{!Stream RW, !Stream RW'}.
Implicit Types (server : EndpointServer RW) (client : EndpointClient RW').

(** ** endpoint_server.rs *)

Lemma ep_begin_handshake_accepts server args cookie id name cid :
  doc_get args "version" = Some (BString GOSLING_PROTOCOL_VERSION) →
  doc_get args "client_identity" = Some (BString id) → doc_get args "channel" = Some (BString name) →
  service_id_from_string id = Ok cid → is_ascii name = true →
  ep_begin_handshake server args cookie =
    (None, ep_set_requested_channel (Some (mkAsciiString name))
             (ep_set_begin_cookie (Some cookie) (ep_set_client_identity (Some cid) server))).
Proof.
  intros H1 H2 H3 Hid Hname. unfold ep_begin_handshake. do 3 step_remove. trace_removes. subst.
  rewrite H1, H2, H3, Hid. unfold ascii_string_new. rewrite Hname. by rewrite String.eqb_refl.
Qed.

Record ec_honest client : Prop := {
  ec_honest_id :
    ec_client_service_id client = service_id_from_private_key (ec_client_ed25519_private client);
}.

Record endpoint_agree server client sc : Prop := {
  ea_client : ep_client_identity server = Some (ec_client_service_id client);
  ea_channel : ep_requested_channel server = Some (ec_requested_channel client);
  ea_server : ep_server_identity server = ec_server_service_id client;
  ea_cookie : ep_server_cookie server = Some sc;
}.

(** The response of an honest client passes the signature check, and the handshake
    succeeds exactly when the server allowed the client and the channel. *)
Lemma endpoint_response_accepted server client sc cc :
  ec_honest client → endpoint_agree server client sc → length cc = CLIENT_COOKIE_SIZE →
  let ok := ep_client_allowed server && ep_client_requested_channel_valid server in
  ep_send_response server (ec_client_service_id client) (ec_requested_channel client) sc
    (ec_response_args client cc sc) =
  (Some (if ok then Ok (Some (BDocument (doc []))) else Err (runtime_error Failure)),
   ep_set_state EP_HandledSendResponse (ep_set_succeeded (Some ok) (ep_set_proof_valid true server))).
Proof.
  intros [Hid] [Hc Hch Hs Hsc] Hcc ok. unfold ep_send_response, ec_response_args.
  set (proof := build_client_proof _ _ _ _ _ _).
  set (args := doc _).
  assert (doc_get args "client_cookie" = Some (BBinary Generic cc)) as H1
    by (unfold args, doc; simpl fold_left; by bson_simpl).
  assert (doc_get args "client_identity_proof_signature" = Some (BBinary Generic
    (ed25519_signature_to_bytes (sign_message (ec_client_ed25519_private client) proof)))) as H2
    by (unfold args, doc; simpl fold_left; by bson_simpl).
  do 2 step_remove. trace_removes. subst. rewrite H1, H2.
  unfold try_into_array, ED25519_SIGNATURE_SIZE, CLIENT_COOKIE_SIZE, ed25519_signature_to_bytes in *.
  rewrite Hcc, signature_length. rewrite !decide_True by done. simpl.
  assert (from_service_id (ec_client_service_id client) =
    Ok (ed25519_public_from_private (ec_client_ed25519_private client))) as ->
    by (rewrite Hid; apply from_service_id_public).
  rewrite Hs. fold proof. rewrite signature_roundtrip.
  assert (verify (mkEd25519Signature (keypair_sign (expanded_keypair (ec_client_ed25519_private client)) proof))
    proof (ed25519_public_from_private (ec_client_ed25519_private client)) = true) as ->
    by apply sign_message_verify.
  unfold ok. destruct server as [? ? ? ? ? ? ? ? ? ? [] [] ?]; done.
Qed.
End endpoint.

(** * Handshakes run to the end *)

(** Move what one side has sent to the other side's input. *)
Definition carry (from to : Script) (already : nat) : Script :=
  let 'mkScript i a c r s := to in
  match drop already (sc_sent from) with
  | [] => to
  | fresh => mkScript (i ++ [Some fresh]) a c r s
  end.

Definition demo_server_key : Ed25519PrivateKey := ed25519_generate (as_bytes "server").
Definition demo_client_key : Ed25519PrivateKey := ed25519_generate (as_bytes "client").
Definition demo_auth_key : X25519PrivateKey := x25519_generate (as_bytes "auth").
Definition demo_server_id : V3OnionServiceId := service_id_from_private_key demo_server_key.
Definition demo_client_id : V3OnionServiceId := service_id_from_private_key demo_client_key.
Definition demo_session : Session Script := session_new (script_of [] []).

(** ** The identity handshake *)

(** What one round does: the client's turn, the server's turn, and the application on
    both sides answering the events. *)
Record IdentityRun := mkIdentityRun {
  run_client : IdentityClient Script;
  run_server : IdentityServer Script;
  run_client_events : list IdentityClientEvent;
  run_server_events : list IdentityServerEvent;
}.

Definition answer_client (allow : bool) (e : option IdentityClientEvent) (c : IdentityClient Script) :
    IdentityClient Script :=
  match e with
  | Some (IC_ChallengeReceived challenge) =>
      match ic_send_response (doc [("answer", BBoolean allow)]) c with Done (c, _) => c | _ => c end
  | _ => c
  end.

Definition answer_server (allow : bool) (e : option IdentityServerEvent) (s : IdentityServer Script) :
    IdentityServer Script :=
  match e with
  | Some (IS_EndpointRequestReceived _ _) =>
      match is_handle_endpoint_request_received allow true (doc [("question", BInt32 6)]) s with
      | Done (s, _) => s | _ => s end
  | Some (IS_ChallengeResponseReceived resp) =>
      let ok := match doc_get resp "answer" with Some (BBoolean b) => b | _ => false end in
      match is_handle_challenge_response_received ok s with Done (s, _) => s | _ => s end
  | _ => s
  end.

Definition opt_list {A} (o : option A) : list A := match o with Some a => [a] | None => [] end.

(** One round of the identity handshake, [None] when a side fails. *)
Definition identity_round (allow : bool) (r : IdentityRun) : option IdentityRun :=
  let 'mkIdentityRun c s ces ses := r in
  match is_rpc s with
  | None => None
  | Some srpc =>
      let n := length (sc_received (stream (ic_rpc c))) in
      let c := ic_set_rpc (set_stream (carry (stream srpc) (stream (ic_rpc c)) n) (ic_rpc c)) c in
      match ic_update 30 c with
      | Done (c, Ok ce) =>
          let c := answer_client true ce c in
          let n := length (sc_received (stream srpc)) in
          let s := is_set_rpc (Some (set_stream (carry (stream (ic_rpc c)) (stream srpc) n) srpc)) s in
          match is_update 30 s with
          | Done (s, Ok se) =>
              Some (mkIdentityRun c (answer_server allow se s) (ces ++ opt_list ce) (ses ++ opt_list se))
          | Done (s, Err _) => Some (mkIdentityRun c s (ces ++ opt_list ce) ses)
          | _ => None
          end
      | Done (c, Err _) => Some (mkIdentityRun c s ces ses)
      | _ => None
      end
  end.

Fixpoint identity_rounds (n : nat) (allow : bool) (r : IdentityRun) : option IdentityRun :=
  match n with 0 => Some r | S n => r ← identity_round allow r; identity_rounds n allow r end.

Definition identity_run (n : nat) (allow : bool) : option IdentityRun :=
  match identity_client_new demo_session demo_server_id (mkAsciiString "chat") demo_client_key demo_auth_key 0 with
  | Err _ => None
  | Ok c => identity_rounds n allow (mkIdentityRun c (identity_server_new demo_session demo_server_id 100) [] [])
  end.

(** ** The endpoint handshake *)

Record EndpointRun := mkEndpointRun {
  erun_client : EndpointClient Script;
  erun_server : EndpointServer Script;
  erun_client_events : list (EndpointClientEvent Script);
  erun_server_events : list (EndpointServerEvent Script);
}.

(** The session of a side, or the stream it handed out. *)
Definition client_stream (c : EndpointClient Script) : Script :=
  match ec_rpc c with Some rpc => stream rpc | None => script_of [] [] end.

(** One round.  A side that has handed out its stream takes no more turns. *)
Definition endpoint_round (valid : bool) (r : EndpointRun) : option EndpointRun :=
  let 'mkEndpointRun c s ces ses := r in
  match ec_rpc c, ep_rpc s with
  | Some crpc, Some srpc =>
      let n := length (sc_received (stream crpc)) in
      let c := ec_set_rpc (Some (set_stream (carry (stream srpc) (stream crpc) n) crpc)) c in
      match ec_update 30 c with
      | Done (c, Ok ce) =>
          let n := length (sc_received (stream srpc)) in
          let s := ep_set_rpc (Some (set_stream (carry (client_stream c) (stream srpc) n) srpc)) s in
          match ep_update 30 s with
          | Done (s, Ok se) =>
              let s := match se with
                       | Some (EP_ChannelRequestReceived _ _) =>
                           match ep_handle_channel_request_received valid s with Done (s, _) => s | _ => s end
                       | _ => s
                       end in
              Some (mkEndpointRun c s (ces ++ opt_list ce) (ses ++ opt_list se))
          | Done (s, Err _) => Some (mkEndpointRun c s (ces ++ opt_list ce) ses)
          | _ => None
          end
      | Done (c, Err _) => Some (mkEndpointRun c s ces ses)
      | _ => None
      end
  | Some crpc, None =>
      (** the server is done: deliver what it had sent *)
      match last ses with
      | Some (EP_HandshakeCompleted _ _ st) =>
          let n := length (sc_received (stream crpc)) in
          let c := ec_set_rpc (Some (set_stream (carry st (stream crpc) n) crpc)) c in
          match ec_update 30 c with
          | Done (c, Ok ce) => Some (mkEndpointRun c s (ces ++ opt_list ce) ses)
          | Done (c, Err _) => Some (mkEndpointRun c s ces ses)
          | _ => None
          end
      | _ => Some r
      end
  | _, _ => Some r
  end.

Fixpoint endpoint_rounds (n : nat) (valid : bool) (r : EndpointRun) : option EndpointRun :=
  match n with 0 => Some r | S n => r ← endpoint_round valid r; endpoint_rounds n valid r end.

(** The server allows [demo_client_id]. *)
Definition endpoint_run (n : nat) (valid : bool) (client_key : Ed25519PrivateKey) : option EndpointRun :=
  endpoint_rounds n valid
    (mkEndpointRun (endpoint_client_new demo_session demo_server_id (mkAsciiString "chat") client_key 0)
       (endpoint_server_new demo_session demo_client_id demo_server_id 100) [] []).
