(* ===== verification/GoslingProps.v ===== *)
(** The properties of the Gosling handshakes and of the keys and service ids they use. *)

From Stdlib Require Import ZArith Lia.
From S2P Require Import Prelude Bson BsonModel HonkWire HonkSize VecDeque HonkSession HonkRead HonkScript.
From S2P Require Import HonkWrite HonkUpdate Crypto TorCrypto CryptoModel GoslingProto.
From S2P Require Import IdentityServer IdentityClient EndpointServer EndpointClient Handshake.
From stdpp Require Import prelude strings list.
From coqutil Require Import Byte.

Open Scope nat_scope.

(** * Keys and service ids *)

Section keys.
Context `{CL : CryptoLaws}.

(** The check of [X25519PrivateKey::from_raw] is stricter than clamping: it rejects
    keys clamped as RFC 7748 has it whenever bit 3 of the first byte is set (the mask is
    240 where clamping clears 248's complement). *)
Lemma x25519_check_rejects_clamped raw :
  x25519_clamped raw = true → Z.testbit (byte_at raw 0) 3 = true →
  x25519_private_from_raw raw = Err KeyInvalid.
Proof.
  unfold x25519_clamped, x25519_private_from_raw. intros [Hlow _]%andb_prop Hbit.
  assert (byte_at raw 0 =? Z.land (byte_at raw 0) 240 = false)%Z as ->; [|done].
  apply Z.eqb_neq. intros Heq. rewrite Heq, Z.land_spec in Hbit.
  by rewrite andb_false_r in Hbit.
Qed.


(** Keys this library generates survive every conversion: through the raw bytes,
    through the key blob, and through [clone], whose [unreachable!()] is not reached. *)
Lemma generated_keys_survive seed :
  let k := ed25519_generate seed in
  ed25519_private_from_raw (ed25519_private_to_bytes k) = Ok k ∧
  from_key_blob (to_key_blob k) = Ok k ∧
  ed25519_private_clone k = Done k ∧
  length (to_key_blob k) = ED25519_PRIVATE_KEY_KEYBLOB_LENGTH.
Proof.
  intros k. assert (dalek_key k) as Hk by apply generate_dalek. split_and!.
  - by apply from_raw_to_bytes.
  - by apply key_blob_roundtrip.
  - by apply clone_dalek.
  - unfold to_key_blob. rewrite length_app, (encode_length _ _ _ base64_laws), secret_key_length. done.
Qed.

(** C17. Keys survive their conversions.  A generated Ed25519 key survives the raw bytes,
    the key blob and [clone], whose [unreachable!()] is not reached.  X25519: public keys survive base32, private keys survive base64 exactly when
    their bytes pass the check of [from_raw], and signatures made with a private key are
    accepted with its public key and sign bit.  The check is stricter than clamping: it
    rejects keys clamped as RFC 7748 has it whenever bit 3 of the first byte is set (the
    mask is 240 where clamping keeps 248). *)
Theorem keys_survive_conversions :
  (∀ seed, let k := ed25519_generate seed in
     ed25519_private_from_raw (ed25519_private_to_bytes k) = Ok k ∧
     from_key_blob (to_key_blob k) = Ok k ∧ ed25519_private_clone k = Done k ∧
     length (to_key_blob k) = ED25519_PRIVATE_KEY_KEYBLOB_LENGTH) ∧
  (∀ p, x25519_from_base32 (x25519_to_base32 p) = Ok p) ∧
  (∀ k, x25519_from_base64 (x25519_to_base64 k) =
     if x25519_accepted (x25519_private_to_bytes k) then Ok k else Err KeyInvalid) ∧
  (∀ k m s bit, x25519_sign_message k m = Ok (s, bit) →
     verify_x25519 s m (x25519_public_from_private k) bit = true) ∧
  (∀ raw, x25519_clamped raw = true → Z.testbit (byte_at raw 0) 3 = true →
     x25519_private_from_raw raw = Err KeyInvalid).
Proof.
  split_and!; [apply generated_keys_survive|apply x25519_base32_roundtrip|apply x25519_base64_roundtrip| |apply x25519_check_rejects_clamped].
  intros k m s bit. unfold x25519_sign_message.
  destruct (from_private_x25519 k) as [[ed b]|] eqn:Hk; [|done]. intros [= <- <-].
  by apply from_private_x25519_verify.
Qed.

(** C18. The client proof binds everything it is built from: two proofs over valid service
    ids and full-length cookies are equal only if domain, requested name, both ids and both
    cookies are equal, even though the name may contain the separator byte. *)
Theorem client_proof_binds sep req cid sid cc sc sep' req' cid' sid' cc' sc' :
  is_valid (sid_data cid) = true → is_valid (sid_data cid') = true →
  is_valid (sid_data sid) = true → is_valid (sid_data sid') = true →
  length cc = CLIENT_COOKIE_SIZE → length cc' = CLIENT_COOKIE_SIZE →
  length sc = SERVER_COOKIE_SIZE → length sc' = SERVER_COOKIE_SIZE →
  build_client_proof sep req cid sid cc sc = build_client_proof sep' req' cid' sid' cc' sc' →
  (sep, req, cid, sid, cc, sc) = (sep', req', cid', sid', cc', sc').
Proof.
  intros H1 H2 H3 H4. apply build_client_proof_inj; by apply service_id_length.
Qed.
End keys.

Definition demo_clamped : bytes := Byte.x08 :: repeat Byte.x00 30 ++ [Byte.x40].


Lemma keys_survive_conversions_witness :
  length (to_key_blob (ed25519_generate (os_random 7 32))) = 99 ∧
  verify_x25519 (sign_message (mkEd25519PrivateKey (mk_exactly 64
      (get (secret_key demo_auth_key) ++ get (secret_key demo_auth_key)))) (as_bytes "m"))
    (as_bytes "m") (x25519_public_from_private demo_auth_key) SB_Zero = true ∧
  x25519_private_from_raw demo_clamped = Err KeyInvalid.
Proof.
  destruct keys_survive_conversions as (Hk & _ & _ & H & H').
  split; [apply (Hk (os_random 7 32))|]. split; [apply (H demo_auth_key); by_eval|].
  apply (H' demo_clamped); reflexivity.
Defined.

Lemma client_proof_binds_witness :
  (GoslingIdentity, mkAsciiString "chat", demo_client_id, demo_server_id, os_random 1 32, os_random 2 32) =
  (GoslingIdentity, mkAsciiString "chat", demo_client_id, demo_server_id, os_random 1 32, os_random 2 32).
Proof.
  apply (client_proof_binds GoslingIdentity (mkAsciiString "chat") demo_client_id demo_server_id
    (os_random 1 32) (os_random 2 32)); by_eval.
Defined.

(** * The identity server *)

(** The bytes an honest client sends in a handshake with the server of the witnesses. *)
Definition run_client_bytes (r : IdentityRun) : bytes := sc_sent (stream (ic_rpc (run_client r))).
Definition demo_identity_trace : bytes := from_option run_client_bytes [] (identity_run 8 true).
Definition demo_identity_sent : bytes := Eval vm_compute in demo_identity_trace.
Definition demo_begin_bytes : bytes :=
  take (Z.to_nat (LittleEndianList.le_combine (take 4 demo_identity_sent))) demo_identity_sent.
Definition demo_response_bytes : bytes := drop (length demo_begin_bytes) demo_identity_sent.

Definition state_of {S A} (d : S) (o : outcome (S * A)) : S := match o with Done (s, _) => s | _ => d end.

(** A server to which these bytes arrive, driven through the handshake. *)
Definition demo_is0 : IdentityServer Script :=
  identity_server_new
    (session_new (script_of [Some demo_begin_bytes; None; None; Some demo_response_bytes] []))
    demo_server_id 100.
Definition demo_is1 := state_of demo_is0 (is_update 10 demo_is0).
Definition demo_is2 := state_of demo_is1
  (is_handle_endpoint_request_received true true (doc [("question", BInt32 6)]) demo_is1).
Definition demo_is3 := state_of demo_is2 (is_update 10 demo_is2).
Definition demo_is4 := state_of demo_is3 (is_update 10 demo_is3).
Definition demo_is5 := state_of demo_is4 (is_handle_challenge_response_received true demo_is4).
Definition demo_is6 := state_of demo_is5 (is_update 10 demo_is5).
Definition demo_endpoint_key : Ed25519PrivateKey := ed25519_generate (os_random 101 32).

Section identity_server_props.
Context `{BL : BsonLaws} `{CL : CryptoLaws} {RW : Type} `{SL : StreamLaws RW}.

(** C20. An identity server completes a handshake only with a client that proved itself.
    For a server the program can reach by any interleaving of updates (whatever the peer
    sends) and callbacks, a [HandshakeCompleted] event for a client means: the host
    allowed the client, found the endpoint and the challenge response valid; someone
    signed, with the key of that client's identity, the proof of this handshake (its
    endpoint, both ids, a client cookie and this server's cookie); and someone signed that
    identity with the authorization key the event carries. *)
Theorem identity_server_authenticates (self self' : IdentityServer RW) fuel k name client auth_key :
  is_reachable self →
  is_update fuel self = Done (self', Ok (Some (IS_HandshakeCompleted k name client auth_key))) →
  is_client_allowed self' = true ∧ is_client_requested_endpoint_valid self' = true ∧
  is_challenge_response_valid self' = true ∧ is_valid (sid_data client) = true ∧
  (∃ server_cookie client_cookie sig key,
     is_server_cookie self' = Some server_cookie ∧ length client_cookie = CLIENT_COOKIE_SIZE ∧
     from_service_id client = Ok key ∧
     verify sig (build_client_proof GoslingIdentity name client (is_server_identity self')
                   client_cookie server_cookie) key = true) ∧
  (∃ sig signbit, verify_x25519 sig (sid_data client) auth_key signbit = true) ∧
  (∃ seed, k = ed25519_generate seed).
Proof. intros Hr Hu. by eapply is_update_completed, Hu; apply is_reachable_inv. Qed.

(** The identity server never panics and every turn ends: for every reachable server
    whose session is in order, [update] returns for all sufficient fuel, over any stream
    with finitely many bytes waiting whose writes make progress; the [unreachable!()] of
    [next_result] and of [clone] are unreachable. *)
Lemma identity_server_turns_ok `{!FiniteStream (RW:=RW)} (self : IdentityServer RW) :
  (∀ b st st', b ≠ [] → rw_write b st ≠ (IoOk 0, st')) →
  is_reachable self → is_session_ok self →
  ∃ n self' r, (∀ fuel, n ≤ fuel → is_update fuel self = Done (self', r)) ∧ is_inv self'.
Proof.
  intros Hprog Hr Hs. pose proof (is_reachable_inv _ Hr) as Hi.
  destruct (is_update_returns self Hprog Hi Hs) as (n & self' & r & Hn).
  exists n, self', r. split; [done|]. by eapply is_update_inv, (Hn n (le_n n)).
Qed.
End identity_server_props.

(** Reachability does not depend on what a call returns. *)
Lemma reach_update (self : IdentityServer Script) fuel :
  is_reachable self → is_reachable (state_of self (is_update fuel self)).
Proof.
  intros Hr. destruct (is_update fuel self) as [[s r]| |] eqn:E; [|done..]. by eapply is_reach_update.
Qed.
Lemma reach_request (self : IdentityServer Script) al va ch :
  is_reachable self →
  is_reachable (state_of self (is_handle_endpoint_request_received al va ch self)).
Proof.
  intros Hr. destruct (is_handle_endpoint_request_received al va ch self) as [[s r]| |] eqn:E; [|done..].
  by eapply is_reach_request.
Qed.
Lemma reach_response (self : IdentityServer Script) va :
  is_reachable self → is_reachable (state_of self (is_handle_challenge_response_received va self)).
Proof.
  intros Hr. destruct (is_handle_challenge_response_received va self) as [[s r]| |] eqn:E; [|done..].
  by eapply is_reach_response.
Qed.

Lemma demo_is_reachable : is_reachable demo_is5.
Proof. apply reach_response, reach_update, reach_update, reach_request, reach_update. constructor. Qed.

(** The handshake of the witness completes with the client's identity and key. *)
Lemma identity_server_authenticates_witness :
  is_client_allowed demo_is6 = true ∧ is_client_requested_endpoint_valid demo_is6 = true ∧
  is_challenge_response_valid demo_is6 = true ∧ is_valid (sid_data demo_client_id) = true ∧
  (∃ server_cookie client_cookie sig key,
     is_server_cookie demo_is6 = Some server_cookie ∧ length client_cookie = CLIENT_COOKIE_SIZE ∧
     from_service_id demo_client_id = Ok key ∧
     verify sig (build_client_proof GoslingIdentity (mkAsciiString "chat") demo_client_id
                   (is_server_identity demo_is6) client_cookie server_cookie) key = true) ∧
  (∃ sig signbit,
     verify_x25519 sig (sid_data demo_client_id) (x25519_public_from_private demo_auth_key) signbit = true) ∧
  (∃ seed, demo_endpoint_key = ed25519_generate seed).
Proof.
  apply (identity_server_authenticates demo_is5 demo_is6 10 demo_endpoint_key (mkAsciiString "chat")
    demo_client_id (x25519_public_from_private demo_auth_key) demo_is_reachable).
  by_eval.
Defined.

(** * Honest peers *)

Section honest.
Context `{BL : BsonLaws} `{CL : CryptoLaws} {RW RW' : Type} `{!Stream RW, !Stream RW'}.

(** C22. The servers accept what honest clients send.  A waiting identity server records the
    identity and endpoint of the client's [begin_handshake] call; when it later waits for
    the response to its challenge, the client's [send_response] call, built from the same
    names and cookies, is accepted with both signature flags set and the client's
    authorization key recorded.  An endpoint server answers the response of an honest
    client by the two remaining conditions alone: the empty document and success exactly
    when it allows the client and the channel, and the error [Failure] otherwise. *)
Theorem servers_accept_honest sc cc cookie :
  length cc = CLIENT_COOKIE_SIZE →
  (∀ (client : IdentityClient RW') rpc sid draws,
     ic_honest client → is_ascii (ascii_value (ic_requested_endpoint client)) = true →
     ∃ server',
       is_exec_function (identity_server_new rpc sid draws : IdentityServer RW) "begin_handshake" 0
         (doc [("version", BString GOSLING_PROTOCOL_VERSION);
               ("client_identity", BString (service_id_to_string (ic_client_service_id client)));
               ("endpoint", BString (ascii_value (ic_requested_endpoint client)))]) (Some cookie) =
         (None, server') ∧
       is_client_identity server' = Some (ic_client_service_id client) ∧
       is_requested_endpoint server' = Some (ic_requested_endpoint client)) ∧
  (∀ (server : IdentityServer RW) (client : IdentityClient RW') resp,
     ic_honest client → is_state server = IS_WaitingForSendResponse →
     is_present server = [true; true; true; true; true; false; false; false; false] →
     identity_agree server client sc →
     ∃ server',
       is_exec_function server "send_response" 0 (ic_response_args client cc sc resp) (Some cookie) =
         (None, server') ∧
       is_client_proof_signature_valid server' = true ∧ is_client_auth_signature_valid server' = true ∧
       is_client_auth_key server' =
         Some (x25519_public_from_private (ic_client_authorization_key_private client)) ∧
       is_challenge_response server' = Some resp) ∧
  (∀ (server : EndpointServer RW) (client : EndpointClient RW'),
     ec_honest client → ep_state server = EP_WaitingForSendResponse → endpoint_agree server client sc →
     let ok := ep_client_allowed server && ep_client_requested_channel_valid server in
     ep_exec_function server "send_response" 0 (ec_response_args client cc sc) (Some cookie) =
     (Some (if ok then Ok (Some (BDocument (doc []))) else Err (runtime_error Failure)),
      ep_set_state EP_HandledSendResponse (ep_set_succeeded (Some ok) (ep_set_proof_valid true server)))).
Proof.
  intros Hcc. split_and!.
  - intros client rpc sid draws Hh Hascii. unfold is_exec_function. simpl.
    assert (service_id_from_string (service_id_to_string (ic_client_service_id client)) =
            Ok (ic_client_service_id client)) as Hid.
    { apply service_id_string_roundtrip. rewrite (ic_honest_id _ Hh). apply service_id_valid. }
    erewrite is_begin_handshake_accepts; [|unfold doc; simpl fold_left; by bson_simpl..|exact Hid|exact Hascii].
    eexists. split; [reflexivity|]. simpl. by destruct (ic_requested_endpoint client).
  - intros server client resp Hh Hst Hp Ha.
    destruct (identity_response_accepted server client sc cc resp cookie Hh Ha Hcc)
      as (server' & Heq & H1 & H2 & H3 & H4 & _). exists server'. split_and!; [|done..].
    rewrite <- Heq. unfold is_exec_function. simpl. destruct Ha as [Ha1 Ha2 Ha3 Ha4].
    unfold is_present in Hp. injection Hp as Hb _ _ _ He Hs Hk Hr Hpk.
    rewrite Hst, Ha1, Ha2, Ha4.
    destruct (is_begin_handshake_request_cookie server), (is_endpoint_challenge server),
      (is_client_auth_key server), (is_challenge_response server), (is_endpoint_private_key server); done.
  - intros server client Hh Hst Ha ok. pose proof Ha as [Ha1 Ha2 Ha3 Ha4]. unfold ep_exec_function. simpl.
    rewrite Hst, Ha1, Ha2, Ha4. by apply endpoint_response_accepted.
Qed.
End honest.

(** The client of the run, before its first turn, and a server that has sent its cookie. *)
Definition demo_client : IdentityClient Script :=
  mkIdentityClient demo_session demo_server_id (mkAsciiString "chat") demo_client_id demo_client_key
    demo_auth_key (match from_private_x25519 demo_auth_key with Ok k => k | Err _ => (demo_client_key, SB_Zero) end)
    0 IC_BeginHandshake None None None None.

Lemma demo_client_honest : ic_honest demo_client.
Proof. split; [reflexivity|by_eval]. Qed.

Definition demo_waiting : IdentityServer Script :=
  is_set_state IS_WaitingForSendResponse
    (is_set_server_cookie (Some (os_random 5 32)) (is_set_endpoint_challenge (Some (doc []))
      (is_set_begin_cookie (Some 0%Z) (is_set_client_identity (Some demo_client_id)
        (is_set_requested_endpoint (Some (mkAsciiString "chat"))
          (identity_server_new demo_session demo_server_id 100)))))).

Definition demo_endpoint_client : EndpointClient Script :=
  endpoint_client_new demo_session demo_server_id (mkAsciiString "chat") demo_client_key 0.
Definition demo_endpoint_waiting : EndpointServer Script :=
  ep_set_state EP_WaitingForSendResponse (ep_set_client_allowed true
    (ep_set_server_cookie (Some (os_random 5 32)) (ep_set_client_identity (Some demo_client_id)
      (ep_set_requested_channel (Some (mkAsciiString "chat")) (ep_set_begin_cookie (Some 0%Z)
        (endpoint_server_new demo_session demo_client_id demo_server_id 100)))))).

Lemma servers_accept_honest_witness :
  (∃ server',
    is_exec_function demo_waiting "send_response" 0
      (ic_response_args demo_client (os_random 7 32) (os_random 5 32) (doc [])) (Some 1%Z) = (None, server') ∧
    is_client_proof_signature_valid server' = true ∧ is_client_auth_signature_valid server' = true ∧
    is_client_auth_key server' = Some (x25519_public_from_private demo_auth_key) ∧
    is_challenge_response server' = Some (doc [])) ∧
  ep_exec_function demo_endpoint_waiting "send_response" 0
    (ec_response_args demo_endpoint_client (os_random 7 32) (os_random 5 32)) (Some 1%Z) =
  (Some (Ok (Some (BDocument (doc [])))),
   ep_set_state EP_HandledSendResponse
     (ep_set_succeeded (Some true) (ep_set_proof_valid true demo_endpoint_waiting))).
Proof.
  destruct (servers_accept_honest (RW:=Script) (RW':=Script) (os_random 5 32) (os_random 7 32) 1%Z)
    as (_ & H1 & H2); [by_eval|]. split.
  - apply (H1 demo_waiting demo_client (doc []) demo_client_honest); [reflexivity..|split; reflexivity].
  - apply (H2 demo_endpoint_waiting demo_endpoint_client); [split; reflexivity|reflexivity|split; reflexivity].
Defined.

(** * The endpoint server *)

Section endpoint_server_props.
Context `{BL : BsonLaws} `{CL : CryptoLib} {RW : Type} `{SL : StreamLaws RW}.

(** C24. An endpoint server hands out its stream only to the client it was made for.  For
    a reachable server, a [HandshakeCompleted] event means: the client is the allowed one,
    the host found the channel valid, someone signed the proof of this handshake with the
    key of that client's identity, and the server has given its session up.  A
    [HandshakeRejected] event is reported only when one of these failed. *)
Theorem endpoint_server_authenticates (self self' : EndpointServer RW) fuel e :
  ep_reachable self → ep_update fuel self = Done (self', Ok (Some e)) →
  match e with
  | EP_HandshakeCompleted client channel st =>
      client = ep_allowed_client_identity self' ∧ ep_client_requested_channel_valid self' = true ∧
      ep_rpc self' = None ∧
      ∃ server_cookie client_cookie sig key,
        ep_server_cookie self' = Some server_cookie ∧ length client_cookie = CLIENT_COOKIE_SIZE ∧
        from_service_id client = Ok key ∧
        verify sig (build_client_proof GoslingEndpoint channel client (ep_server_identity self')
                      client_cookie server_cookie) key = true
  | EP_HandshakeRejected allowed valid proved => allowed && valid && proved = false
  | EP_ChannelRequestReceived client channel =>
      ep_client_identity self' = Some client ∧ ep_requested_channel self' = Some channel ∧
      ep_state self' = EP_ValidatingChannelRequest
  end.
Proof. intros Hr Hu. destruct (ep_reachable_inv _ Hr). by eapply ep_update_event. Qed.

(** The endpoint server never panics and every turn ends, in any reachable state whose
    session (if still there) is in order. *)
Lemma endpoint_server_turns_ok `{!FiniteStream (RW:=RW)} (self : EndpointServer RW) :
  (∀ b st st', b ≠ [] → rw_write b st ≠ (IoOk 0, st')) →
  ep_reachable self →
  match ep_rpc self with Some rpc => session_ok rpc ∧ buffer_home rpc | None => True end →
  ∃ n self' r, (∀ fuel, n ≤ fuel → ep_update fuel self = Done (self', r)) ∧ ep_inv self'.
Proof.
  intros Hprog Hr Hs. destruct (ep_reachable_inv _ Hr) as [Hi Hrpc].
  destruct (ep_update_returns self Hprog Hi Hrpc Hs) as (n & self' & r & Hn).
  exists n, self', r. split; [done|]. by eapply ep_update_inv, (Hn n (le_n n)).
Qed.
End endpoint_server_props.

(** The bytes each side sends in the endpoint handshake of the run. *)
Definition run_endpoint_client_bytes (r : EndpointRun) : bytes :=
  match last (erun_client_events r) with Some (EC_HandshakeCompleted st) => sc_sent st | None => [] end.
Definition run_endpoint_server_bytes (r : EndpointRun) : bytes :=
  match last (erun_server_events r) with Some (EP_HandshakeCompleted _ _ st) => sc_sent st | _ => [] end.
Definition demo_client_trace : bytes :=
  from_option run_endpoint_client_bytes [] (endpoint_run 7 true demo_client_key).
Definition demo_server_trace : bytes :=
  from_option run_endpoint_server_bytes [] (endpoint_run 7 true demo_client_key).
Definition demo_client_sent : bytes := Eval vm_compute in demo_client_trace.
Definition demo_server_sent : bytes := Eval vm_compute in demo_server_trace.

(** The first frame of some bytes, and what follows it. *)
Definition first_frame (b : bytes) : bytes :=
  take (Z.to_nat (LittleEndianList.le_combine (take 4 b))) b.
Definition after_frame (b : bytes) : bytes := drop (length (first_frame b)) b.

(** A server to which the client's bytes arrive, over a stream that accepts what [accept]
    says. *)
Definition demo_ep0 (accept : list (option nat)) : EndpointServer Script :=
  endpoint_server_new
    (session_new (script_of [Some (first_frame demo_client_sent); None; None;
                             Some (after_frame demo_client_sent)] accept))
    demo_client_id demo_server_id 100.
Definition demo_ep1 accept := state_of (demo_ep0 accept) (ep_update 10 (demo_ep0 accept)).
Definition demo_ep2 accept :=
  state_of (demo_ep1 accept) (ep_handle_channel_request_received true (demo_ep1 accept)).
Definition demo_ep3 accept := state_of (demo_ep2 accept) (ep_update 10 (demo_ep2 accept)).
Definition demo_ep4 accept := state_of (demo_ep3 accept) (ep_update 10 (demo_ep3 accept)).

Lemma ep_reach_state (self : EndpointServer Script) fuel :
  ep_reachable self → ep_reachable (state_of self (ep_update fuel self)).
Proof.
  intros Hr. destruct (ep_update fuel self) as [[s r]| |] eqn:E; [|done..]. by eapply ep_reach_update.
Qed.

Lemma ep_reach_request_state (self : EndpointServer Script) va :
  ep_reachable self → ep_reachable (state_of self (ep_handle_channel_request_received va self)).
Proof.
  intros Hr. destruct (ep_handle_channel_request_received va self) as [[s r]| |] eqn:E; [|done..].
  by eapply ep_reach_request.
Qed.

Lemma demo_ep_reachable accept : ep_reachable (demo_ep3 accept).
Proof.
  exact (ep_reach_state (demo_ep2 accept) 10 (ep_reach_request_state (demo_ep1 accept) true
    (ep_reach_state (demo_ep0 accept) 10 (ep_reach_new _ _ _ _)))).
Qed.

(** What a turn of the server reports, and what its stream has sent by then. *)
Definition ep_report (o : outcome (EndpointServer Script * result EPError (option (EndpointServerEvent Script)))) :
    option (V3OnionServiceId * AsciiString * bytes * bool) :=
  match o with
  | Done (s, Ok (Some (EP_HandshakeCompleted client channel st))) =>
      Some (client, channel, sc_sent st, has (ep_rpc s))
  | _ => None
  end.

Lemma endpoint_server_authenticates_witness :
  demo_client_id = ep_allowed_client_identity (demo_ep4 []) ∧
  ep_client_requested_channel_valid (demo_ep4 []) = true ∧ ep_rpc (demo_ep4 []) = None ∧
  ∃ server_cookie client_cookie sig key,
    ep_server_cookie (demo_ep4 []) = Some server_cookie ∧ length client_cookie = CLIENT_COOKIE_SIZE ∧
    from_service_id demo_client_id = Ok key ∧
    verify sig (build_client_proof GoslingEndpoint (mkAsciiString "chat") demo_client_id
                  (ep_server_identity (demo_ep4 [])) client_cookie server_cookie) key = true.
Proof.
  apply (endpoint_server_authenticates (demo_ep3 []) (demo_ep4 []) 10
    (EP_HandshakeCompleted demo_client_id (mkAsciiString "chat")
       (match ep_update 10 (demo_ep3 []) with
        | Done (_, Ok (Some (EP_HandshakeCompleted _ _ st))) => st | _ => script_of [] [] end))
    (demo_ep_reachable [])).
  by_eval.
Defined.

Section servers.
Context `{BL : BsonLaws} `{CL : CryptoLaws} {RW : Type} `{SL : StreamLaws RW}.

(** C21. The servers never panic and every turn of theirs ends: for every reachable identity
    or endpoint server whose session (if the endpoint server still has it) is in order,
    [update] returns for all sufficient fuel with the server's invariant kept, over any
    stream with finitely many bytes waiting whose writes make progress; the
    [unreachable!()] of [next_result] and of [clone] are unreachable. *)
Theorem servers_turn `{!FiniteStream (RW:=RW)} :
  (∀ b st st', b ≠ [] → rw_write b st ≠ (IoOk 0, st')) →
  (∀ self : IdentityServer RW, is_reachable self → is_session_ok self →
     ∃ n self' r, (∀ fuel, n ≤ fuel → is_update fuel self = Done (self', r)) ∧ is_inv self') ∧
  (∀ self : EndpointServer RW, ep_reachable self →
     match ep_rpc self with Some rpc => session_ok rpc ∧ buffer_home rpc | None => True end →
     ∃ n self' r, (∀ fuel, n ≤ fuel → ep_update fuel self = Done (self', r)) ∧ ep_inv self').
Proof. intros Hprog. split; intros self; [by apply identity_server_turns_ok|by apply endpoint_server_turns_ok]. Qed.
End servers.

Lemma servers_turn_witness :
  (∃ n self' r, (∀ fuel, n ≤ fuel → is_update fuel demo_is0 = Done (self', r)) ∧ is_inv self') ∧
  (∃ n self' r, (∀ fuel, n ≤ fuel → ep_update fuel (demo_ep0 []) = Done (self', r)) ∧ ep_inv self').
Proof.
  destruct (servers_turn script_progress) as [H1 H2]. split.
  - apply (H1 demo_is0 (is_reach_new _ _ _)). apply session_new_ok.
  - apply (H2 (demo_ep0 []) (ep_reach_new _ _ _ _)). apply session_new_ok.
Defined.

(** * Where a handshake can go wrong *)

(** An endpoint server may hand out its stream before its last answer is sent.  In a
    reachable state, over a stream that takes part of the answer and then blocks, the
    server reports [HandshakeCompleted], and the session that holds the rest of the
    answer is gone: the peer will never be given it.  Without the blocked write the same
    server sends the whole answer. *)
Lemma endpoint_server_drops_pending :
  let accept := [Some 1000; Some 1000; Some 9; None] in
  ep_reachable (demo_ep3 accept) ∧
  ∃ w rest, rest ≠ [] ∧
    ep_report (ep_update 10 (demo_ep3 accept)) = Some (demo_client_id, mkAsciiString "chat", w, false) ∧
    ep_report (ep_update 10 (demo_ep3 [])) = Some (demo_client_id, mkAsciiString "chat", w ++ rest, false).
Proof.
  intros accept. split; [apply demo_ep_reachable|].
  exists (take 229 demo_server_sent), (drop 229 demo_server_sent).
  split_and!; [discriminate|by_eval|by_eval].
Qed.

(** The client of the run, to which the server's bytes arrive, followed by [app]. *)
Definition demo_ec0 (app : bytes) : EndpointClient Script :=
  let pending_and_cookie := first_frame demo_server_sent ++ first_frame (after_frame demo_server_sent) in
  let success := after_frame (after_frame demo_server_sent) in
  endpoint_client_new
    (session_new (script_of [None; None; Some pending_and_cookie; None; None; Some (success ++ app)] []))
    demo_server_id (mkAsciiString "chat") demo_client_key 0.

Fixpoint ec_turns (n : nat) (c : EndpointClient Script) : EndpointClient Script :=
  match n with 0 => c | S n => ec_turns n (state_of c (ec_update 10 c)) end.

Inductive ECReport := ReportPending | ReportCompleted | ReportHonkFailure | ReportOther | ReportPanic.

Definition ec_report (o : outcome (EndpointClient Script * result ECError (option (EndpointClientEvent Script)))) :
    ECReport :=
  match o with
  | Done (_, Ok None) => ReportPending
  | Done (_, Ok (Some _)) => ReportCompleted
  | Done (_, Err (EC_HonkRPCFailure _)) => ReportHonkFailure
  | Done (_, Err _) => ReportOther
  | Panicked | OutOfFuel => ReportPanic
  end.

(** The first bytes of the channel can break the handshake that opens it.  A client
    completes when the server's last answer arrives; when the first bytes the server's
    application writes to the stream arrive together with that answer, the client's
    session reads them as the header of another message, and the handshake fails. *)
Lemma early_channel_data_breaks_client :
  ec_report (ec_update 10 (ec_turns 4 (demo_ec0 []))) = ReportCompleted ∧
  ec_report (ec_update 10 (ec_turns 4 (demo_ec0 (as_bytes "hello")))) = ReportHonkFailure.
Proof. split; by_eval. Qed.


Section long_names.
Context `{BL : BsonLaws} `{CL : CryptoLib} {RW : Type} `{SL : StreamLaws RW}.

(** The request an endpoint client begins with. *)
Definition ec_begin_request (client : EndpointClient RW) (cookie : RequestCookie) : Section_ :=
  SRequest (mkRequestSection (Some cookie) "gosling_endpoint" "begin_handshake" 0
    (doc [("version", BString GOSLING_PROTOCOL_VERSION);
          ("client_identity", BString (service_id_to_string (ec_client_service_id client)));
          ("channel", BString (ascii_value (ec_requested_channel client)))])).

(** A channel name that does not fit makes the client panic: [client_call] refuses the
    section and its result is unwrapped. *)
Lemma ec_begin_long_name (client : EndpointClient RW) rpc :
  ec_rpc client = Some rpc → outbound_ok rpc → MIN_MESSAGE_SIZE ≤ max_message_size rpc →
  ¬ fits (max_message_size rpc) (section_into (ec_begin_request client (next_cookie rpc))) →
  ec_begin client = Panicked.
Proof.
  intros Hrpc Ho Hm Hbig. unfold ec_begin, ec_call, ec_on_rpc, client_call. monad_unfold.
  rewrite Hrpc.
  set (rpc1 := set_next_cookie _ rpc).
  destruct (push_outbound_section_spec rpc1 (ec_begin_request client (next_cookie rpc)))
    as (s' & r & Hp & _ & Hr); [by destruct rpc..|].
  unfold ec_begin_request in Hp. rewrite Hp. destruct r as [[]|e]; [|done].
  destruct Hr as [_ Hf]. exfalso. apply Hbig. by destruct rpc.
Qed.
End long_names.

(** * Handshakes to the end *)

(** The events both sides reported. *)
Definition run_events (r : IdentityRun) : list IdentityClientEvent * list IdentityServerEvent :=
  (run_client_events r, run_server_events r).

(** What an endpoint run reports, without the streams. *)
Definition erun_report (r : EndpointRun) : nat * list (V3OnionServiceId * option (bool * bool * bool)) :=
  (length (erun_client_events r),
   map (λ e, match e with
             | EP_ChannelRequestReceived client _ => (client, None)
             | EP_HandshakeCompleted client _ _ => (client, Some (true, true, true))
             | EP_HandshakeRejected a b c => (demo_server_id, Some (a, b, c))
             end) (erun_server_events r)).


(** * Size budgets *)

Section budgets.
Context `{BL : BsonLaws} `{CL : CryptoLaws} {RW : Type} `{SL : StreamLaws RW}.

(** A challenge the identity server accepts can be sent: when
    [handle_endpoint_request_received] succeeds, the next result is the answer to
    [begin_handshake] with this server's cookie and challenge, and its section fits in a
    message of the session, so that queueing it cannot fail for its size. *)
Lemma challenge_fits (self self' : IdentityServer RW) allowed valid challenge rpc :
  is_inv self → is_rpc self = Some rpc →
  is_handle_endpoint_request_received allowed valid challenge self = Done (self', Ok tt) →
  ∃ cookie server_cookie self'',
    is_next_result self' =
      Done (Some (cookie, Ok (Some (is_challenge_doc server_cookie challenge))), self'') ∧
    is_begin_handshake_request_cookie self = Some cookie ∧ length server_cookie = SERVER_COOKIE_SIZE ∧
    fits (max_message_size rpc)
      (section_into (response_section cookie Complete (Some (is_challenge_doc server_cookie challenge)))).
Proof.
  intros Hi Hrpc. pose proof (is_inv_shape _ Hi) as Hsh. unfold is_handle_endpoint_request_received.
  unfold is_shape, is_present in Hsh.
  destruct self as [rpc' sid dr st bc ci re sc ec sr ak cr pk f1 f2 f3 f4 f5]. simpl in *. subst rpc'.
  destruct st; try done. destruct bc as [bc|]; [|done]. by_shape Hsh. simpl.
  destruct (get_response_section_size _) as [n|] eqn:Hn; [|done].
  destruct get_message_overhead as [o|] eqn:Ho; [|done]. case_bool_decide as Hfit; [done|].
  intros [= <-]. eexists _, _, _. split_and!; [reflexivity..|apply os_random_length|].
  unfold fits, response_section, section_into.
  apply message_overhead_exact in Ho as ->.
  apply (response_section_size_exact (mkResponseSection bc Complete
    (Some (is_challenge_doc (os_random dr SERVER_COOKIE_SIZE) challenge)))) in Hn.
  unfold get_max_message_size in Hfit. lia.
Qed.

(** The size of the response's arguments does not depend on the cookies, keys and
    signatures in them. *)
Lemma response_args_size (client : IdentityClient RW) cc sc resp :
  length cc = CLIENT_COOKIE_SIZE →
  doc_size (ic_response_args client cc sc resp) = doc_size (ic_dummy_args resp).
Proof.
  intros Hcc. unfold ic_response_args, ic_dummy_args.
  destruct (ic_client_authorization_signing_key_private client) as [sk bit].
  unfold doc. simpl fold_left. bson_size_simpl. simpl.
  rewrite Hcc. unfold ed25519_signature_to_bytes, x25519_public_as_bytes.
  rewrite !signature_length, curve_length. done.
Qed.

(** A challenge response the identity client accepts can be sent: when [send_response]
    succeeds, the section of the call that carries it fits in a message of the session,
    whatever the cookies and signatures will be, so that [update] cannot fail for its size. *)
Lemma response_fits (client client' : IdentityClient RW) resp cc sc cookie :
  ic_send_response resp client = Done (client', Ok tt) → length cc = CLIENT_COOKIE_SIZE →
  ic_endpoint_challenge_response client' = Some resp ∧
  fits (max_message_size (ic_rpc client'))
    (section_into (SRequest (mkRequestSection (Some cookie) "gosling_identity" "send_response" 0
      (ic_response_args client' cc sc resp)))).
Proof.
  intros Hs Hcc. unfold ic_send_response in Hs.
  destruct client as [rpc sid re cid key ak sk dr st bc sck cr sr]. simpl in *.
  destruct st, bc, sck, cr, sr; try done.
  destruct (get_request_section_size _ _ _ _ _) as [n|] eqn:Hn; [|done].
  destruct get_message_overhead as [o|] eqn:Ho; [|done]. case_bool_decide as Hfit; [done|].
  injection Hs as <-. split; [done|]. simpl in *. apply message_overhead_exact in Ho as ->.
  apply (request_section_size_bound (mkRequestSection (Some 0%Z) "gosling_identity" "send_response" 0
    (ic_dummy_args resp))) in Hn as [Hn _]; [|done..].
  unfold fits, section_into. rewrite size_request_section in Hn |- *.
  cbn [rq_cookie rq_namespace rq_function rq_version rq_arguments] in *.
  rewrite response_args_size by done. unfold get_max_message_size in Hfit. lia.
Qed.

(** C31. What is accepted for sending can be sent.  When the identity server's
    [handle_endpoint_request_received] succeeds, the next result is the answer to
    [begin_handshake] with this server's cookie and challenge, and its section fits in a
    message of the session; when the identity client's [send_response] succeeds, so does
    the section of the call that carries the response, whatever the cookies and signatures
    will be.  So queueing them in [update] cannot fail for their size. *)
Theorem accepted_documents_fit :
  (∀ (self self' : IdentityServer RW) allowed valid challenge rpc,
     is_inv self → is_rpc self = Some rpc →
     is_handle_endpoint_request_received allowed valid challenge self = Done (self', Ok tt) →
     ∃ cookie server_cookie self'',
       is_next_result self' =
         Done (Some (cookie, Ok (Some (is_challenge_doc server_cookie challenge))), self'') ∧
       is_begin_handshake_request_cookie self = Some cookie ∧ length server_cookie = SERVER_COOKIE_SIZE ∧
       fits (max_message_size rpc)
         (section_into (response_section cookie Complete (Some (is_challenge_doc server_cookie challenge))))) ∧
  (∀ (client client' : IdentityClient RW) resp cc sc cookie,
     ic_send_response resp client = Done (client', Ok tt) → length cc = CLIENT_COOKIE_SIZE →
     ic_endpoint_challenge_response client' = Some resp ∧
     fits (max_message_size (ic_rpc client'))
       (section_into (SRequest (mkRequestSection (Some cookie) "gosling_identity" "send_response" 0
         (ic_response_args client' cc sc resp))))).
Proof. split; [exact challenge_fits|exact response_fits]. Qed.

(** C33. The identity client completes only on the server's answer.  A [HandshakeCompleted]
    event comes from a client that had sent its response and was waiting; it names the
    server the client set out to reach, the endpoint it asked for and its own
    authorization key, and a valid endpoint id that is the result of a successful response
    to its own [send_response] call. *)
Theorem identity_client_completes_on_answer (client client' : IdentityClient RW) fuel sid eid name key :
  ic_update fuel client = Done (client', Ok (Some (IC_HandshakeCompleted sid eid name key))) →
  ic_state client = IC_WaitingForChallengeVerification ∧ ic_state client' = IC_HandshakeComplete ∧
  sid = ic_server_service_id client ∧ name = ascii_value (ic_requested_endpoint client) ∧
  key = ic_client_authorization_key_private client ∧ is_valid (sid_data eid) = true ∧
  ∃ rpc' cookie rest, update_none fuel (ic_rpc client) = Done (rpc', Ok tt) ∧
    ic_send_response_request_cookie client = Some cookie ∧
    inbound_responses rpc' = RespSuccess cookie (Some (BString (service_id_to_string eid))) :: rest.
Proof.
  unfold ic_update, ic_on_rpc. monad_unfold. case_decide as Hst; [done|].
  destruct (update_none fuel (ic_rpc client)) as [[rpc' [[]|e]]| |] eqn:Hu; [|done..].
  destruct client as [rpc sid0 re cid ck ak sk dr st bc sck cr sr]. simpl in *.
  destruct st, bc as [bc|], sck as [sck|], cr as [cr|], sr as [sr|]; try done.
  - unfold ic_begin, ic_on_rpc. monad_unfold. by repeat case_match.
  - unfold ic_challenge, ic_next_response. monad_unfold. simpl.
    destruct (client_next_response rpc') as [[[c|c x|c e]|] rpc2]; simpl; repeat case_match; done.
  - unfold ic_send, ic_random, ic_on_rpc. monad_unfold. by repeat case_match.
  - unfold ic_verification, ic_next_response. monad_unfold. simpl. unfold client_next_response.
    destruct (inbound_responses rpc') as [|x xs] eqn:Hin; [done|]. simpl.
    destruct x as [c|c x|c e]; [by case_match| |done].
    destruct (Z.eqb_spec c sr) as [->|]; [|done]. destruct x as [[]|]; try done.
    destruct (service_id_from_string s) as [i|] eqn:Hi; [|done].
    apply service_id_from_string_Ok in Hi as [Hv <-]. intros [= <- <- <- <- <-].
    split_and!; try done. by exists rpc', sr, xs.
Qed.
End budgets.

(** A client that has been given a challenge, and one that waits for the last answer. *)
Definition demo_challenged : IdentityClient Script :=
  ic_set_state IC_WaitingForChallengeResponse (ic_set_begin_cookie (Some 0%Z)
    (ic_set_server_cookie (Some (os_random 5 32)) demo_client)).
Definition demo_answered : IdentityClient Script :=
  ic_set_rpc (set_responses [RespSuccess 1%Z (Some (BString (service_id_to_string demo_server_id)))] demo_session)
    (ic_set_state IC_WaitingForChallengeVerification (ic_set_send_cookie (Some 1%Z) demo_challenged)).

Lemma accepted_documents_fit_witness :
  (∃ cookie server_cookie self'',
    is_next_result demo_is2 =
      Done (Some (cookie, Ok (Some (is_challenge_doc server_cookie (doc [("question", BInt32 6)])))), self'') ∧
    is_begin_handshake_request_cookie demo_is1 = Some cookie ∧ length server_cookie = SERVER_COOKIE_SIZE ∧
    fits 4096 (section_into (response_section cookie Complete
      (Some (is_challenge_doc server_cookie (doc [("question", BInt32 6)])))))) ∧
  ic_endpoint_challenge_response (ic_set_challenge_response (Some (doc [])) demo_challenged) = Some (doc []) ∧
  fits 4096 (section_into (SRequest (mkRequestSection (Some 1%Z) "gosling_identity" "send_response" 0
    (ic_response_args (ic_set_challenge_response (Some (doc [])) demo_challenged)
       (os_random 7 32) (os_random 5 32) (doc []))))).
Proof.
  destruct (accepted_documents_fit (RW:=Script)) as [H1 H2]. split.
  - apply (H1 demo_is1 demo_is2 true true (doc [("question", BInt32 6)])
      (match is_rpc demo_is1 with Some rpc => rpc | None => demo_session end)).
    + apply is_reachable_inv, (reach_update demo_is0 10). constructor.
    + by_eval.
    + by_eval.
  - apply (H2 demo_challenged (ic_set_challenge_response (Some (doc [])) demo_challenged)
      (doc []) (os_random 7 32) (os_random 5 32) 1%Z); by_eval.
Defined.

Lemma identity_client_completes_on_answer_witness :
  ic_state demo_answered = IC_WaitingForChallengeVerification ∧
  demo_server_id = ic_server_service_id demo_answered ∧ is_valid (sid_data demo_server_id) = true.
Proof.
  destruct (identity_client_completes_on_answer demo_answered
    (state_of demo_answered (ic_update 5 demo_answered)) 5 demo_server_id demo_server_id "chat" demo_auth_key)
    as (H1 & _ & H2 & _ & _ & H3 & _); [by_eval|]. split_and!; [exact H1|exact H2|exact H3].
Defined.
