(* ===== verification/TorProvider.v ===== *)
(** tor-interface/src/tor_provider.rs: addresses, the streams and listeners a tor provider
    hands out, its events, and the trait [TorProvider] itself, which the context is written
    against.

    [TcpListener] and the non-blocking mode of sockets belong to the operating system: they
    are the class [Sockets]. *)

From Stdlib Require Import ZArith Lia.
From S2P Require Import Prelude Str NetAddr HonkSize HonkSession Crypto TorCrypto.
From stdpp Require Import prelude strings list.

Open Scope nat_scope.

(** * Addresses *)

Section addresses.
Context `{CL : CryptoLib}.

Record OnionAddrV3 := mkOnionAddrV3 { oa_service_id : V3OnionServiceId; oa_virt_port : Z }.
Inductive OnionAddr := OA_V3 (addr : OnionAddrV3).
Record DomainAddr := mkDomainAddr { da_domain : str; da_port : Z }.

Inductive TargetAddr :=
| TA_Socket (addr : SocketAddr)
| TA_OnionService (addr : OnionAddr)
| TA_Domain (addr : DomainAddr).

(** [impl From<(V3OnionServiceId, u16)> for TargetAddr] *)
Definition target_addr_from (service_id : V3OnionServiceId) (virt_port : Z) : TargetAddr :=
  TA_OnionService (OA_V3 (mkOnionAddrV3 service_id virt_port)).

(** [tor_provider::Error], without the texts *)
Inductive TorProviderError := TP_ParseFailure | TP_Generic.

Inductive TorEvent :=
| TE_BootstrapStatus (progress : Z) (tag summary : string)
| TE_BootstrapComplete
| TE_LogReceived (line : string)
| TE_OnionServicePublished (service_id : V3OnionServiceId).
End addresses.

Abbreviation CircuitToken := nat.

(** * Streams and listeners *)

(** [TcpListener::accept], [TcpListener::set_nonblocking], [TcpStream::set_nonblocking]. *)
Class Sockets (RW TL : Type) : Type := {
  tl_accept : TL → io_result RW * TL;
  tl_set_nonblocking : bool → TL → io_result unit * TL;
  ts_set_nonblocking : bool → RW → io_result unit * RW;
}.

Section sockets.
Context `{CL : CryptoLib} {RW TL : Type} `{!Sockets RW TL}.

Record OnionStream := mkOnionStream {
  os_stream : RW;
  os_local_addr : option OnionAddr;
  os_peer_addr : option TargetAddr;
}.

(** The closure a provider attaches to a listener runs when the listener is dropped: see
    [tp_drop_listener]. *)
Record OnionListener := mkOnionListener {
  ol_listener : TL;
  ol_onion_addr : OnionAddr;
}.

(** [OnionListener::set_nonblocking] *)
Definition ol_set_nonblocking (nonblocking : bool) (l : OnionListener) : io_result unit * OnionListener :=
  let '(r, tl) := tl_set_nonblocking nonblocking (ol_listener l) in
  (r, mkOnionListener tl (ol_onion_addr l)).

(** [OnionListener::accept]: nothing waiting is not an error. *)
Definition ol_accept (l : OnionListener) : io_result (option OnionStream) * OnionListener :=
  let '(r, tl) := tl_accept (ol_listener l) in
  (match r with
   | IoOk stream => IoOk (Some (mkOnionStream stream (Some (ol_onion_addr l)) None))
   | IoErr kind => if decide (kind = WouldBlock) then IoOk None else IoErr kind
   end, mkOnionListener tl (ol_onion_addr l)).
End sockets.

Arguments OnionStream RW : clear implicits.
Arguments OnionListener TL : clear implicits.

(** * The trait *)

(** [trait TorProvider].  Each method may change the provider, fail, or panic.
    [tp_drop_listener] is what the [drop] of a listener of this provider does to it. *)
Class TorProvider `{CL : CryptoLib} (P RW TL : Type) : Type := {
  tp_update : M P TorProviderError (list TorEvent);
  tp_bootstrap : M P TorProviderError unit;
  tp_add_client_auth : V3OnionServiceId → X25519PrivateKey → M P TorProviderError unit;
  tp_remove_client_auth : V3OnionServiceId → M P TorProviderError unit;
  tp_connect : TargetAddr → option CircuitToken → M P TorProviderError (OnionStream RW);
  tp_listener :
    Ed25519PrivateKey → Z → option (list X25519PublicKey) → M P TorProviderError (OnionListener TL);
  tp_generate_token : P → CircuitToken * P;
  tp_release_token : CircuitToken → P → P;
  tp_drop_listener : OnionListener TL → P → P;
}.
