(* ===== verification/TorAddr.v ===== *)
(** tor-interface/src/tor_provider.rs: the addresses a tor provider connects to, read from
    text and printed.

    [str::to_lowercase] depends on the tables of Unicode, and domain names are the business
    of the crates idna and domain: these are parameters. *)

From Stdlib Require Import ZArith Lia.
From S2P Require Import Prelude Str NetAddr NetAddrTheory Regexes Crypto TorCrypto TorProvider.
From stdpp Require Import prelude strings list.
From coqutil Require Import Byte.

Open Scope nat_scope.

(** * Parameters *)

Definition is_ascii_byte (b : Init.Byte.byte) : bool := (byte.unsigned b <? 128)%Z.
(** [u8::to_ascii_lowercase] *)
Definition ascii_lower (b : Init.Byte.byte) : Init.Byte.byte :=
  if in_range 65 90 b then byte.of_Z (byte.unsigned b + 32) else b.

(** [str::to_lowercase] *)
Class StrCase : Type := { to_lowercase : str → str }.
Class StrCaseLaws (SC : StrCase) : Prop :=
  to_lowercase_ascii s : forallb is_ascii_byte s = true → to_lowercase s = map ascii_lower s.

(** [idna::domain_to_ascii_cow(.., AsciiDenyList::URL)], the text of [Name::from_str], and
    [Uts46::to_user_interface] *)
Class DomainLib : Type := {
  domain_to_ascii : str → option str;
  name_from_str : str → option str;
  to_user_interface : str → str;
}.

(** [str::ends_with] *)
Definition str_ends_with (s pat : str) : bool := bool_decide (drop (length s - length pat) s = pat).

(** * Addresses *)

Section addresses.
Context `{CL : CryptoLib} `{RL : RegexLib} `{SC : StrCase} `{DL : DomainLib}.

(** [impl Display for OnionAddrV3], [impl Display for OnionAddr] *)
Definition onion_addr_v3_to_string (a : OnionAddrV3) : str :=
  sid_data (oa_service_id a) ++ lit ".onion:" ++ show_uint (oa_virt_port a).
Definition onion_addr_to_string (a : OnionAddr) : str := match a with OA_V3 onion_addr => onion_addr_v3_to_string onion_addr end.

(** [impl FromStr for OnionAddr]; the expression does compile and has its groups, otherwise
    this panics *)
Definition onion_addr_from_str (s : str) : outcome (result TorProviderError OnionAddr) :=
  match re_new onion_service_pattern with
  | None => Panicked
  | Some onion_service_pattern =>
      match re_captures onion_service_pattern (to_lowercase s) with
      | None => Done (Err TP_ParseFailure)
      | Some caps =>
          match group caps "service_id", group caps "port" with
          | Some service_id, Some port =>
              match service_id_from_string (String.string_of_list_byte (to_lowercase service_id)), parse_uint u16_max port with
              | Ok service_id, Some port => Done (Ok (OA_V3 (mkOnionAddrV3 service_id port)))
              | _, _ => Done (Err TP_ParseFailure)
              end
          | _, _ => Panicked
          end
      end
  end.

(** [impl Display for DomainAddr] *)
Definition domain_addr_to_string (a : DomainAddr) : str :=
  to_user_interface (da_domain a) ++ [colon] ++ show_uint (da_port a).

(** [impl TryFrom<(String, u16)> for DomainAddr] *)
Definition domain_addr_try_from (domain : str) (port : Z) : result TorProviderError DomainAddr :=
  match domain_to_ascii domain with
  | None => Err TP_ParseFailure
  | Some domain =>
      match name_from_str domain with
      | None => Err TP_ParseFailure
      | Some domain =>
          if negb (str_ends_with domain (lit ".onion")) then Ok (mkDomainAddr domain port) else Err TP_ParseFailure
      end
  end.

(** [impl FromStr for DomainAddr] *)
Definition domain_addr_from_str (s : str) : outcome (result TorProviderError DomainAddr) :=
  match re_new domain_pattern with
  | None => Panicked
  | Some domain_pattern =>
      match re_captures domain_pattern s with
      | None => Done (Err TP_ParseFailure)
      | Some caps =>
          match group caps "domain", group caps "port" with
          | Some domain, Some port =>
              match parse_uint u16_max port with
              | Some port => Done (domain_addr_try_from domain port)
              | None => Done (Err TP_ParseFailure)
              end
          | _, _ => Panicked
          end
      end
  end.

(** [impl FromStr for TargetAddr] *)
Definition target_addr_from_str (s : str) : outcome (result TorProviderError TargetAddr) :=
  match socket_addr_from_str s with
  | Some socket_addr => Done (Ok (TA_Socket socket_addr))
  | None =>
      match onion_addr_from_str s with
      | Done (Ok onion_addr) => Done (Ok (TA_OnionService onion_addr))
      | Done (Err _) =>
          match domain_addr_from_str s with
          | Done (Ok domain_addr) => Done (Ok (TA_Domain domain_addr))
          | Done (Err _) => Done (Err TP_ParseFailure)
          | Panicked => Panicked
          | OutOfFuel => OutOfFuel
          end
      | Panicked => Panicked
      | OutOfFuel => OutOfFuel
      end
  end.

(** [impl Display for TargetAddr] *)
Definition target_addr_to_string (a : TargetAddr) : str :=
  match a with
  | TA_Socket socket_addr => socket_addr_to_string socket_addr
  | TA_OnionService onion_addr => onion_addr_to_string onion_addr
  | TA_Domain domain_addr => domain_addr_to_string domain_addr
  end.
End addresses.

(** * Lemmas *)

Section lemmas.
Context `{CL : CryptoLaws} `{RL : RegexLib} `{!AddrRegexLaws RL} `{SC : StrCase} `{!StrCaseLaws SC} `{DL : DomainLib}.

(** Characters that lowering leaves alone, and those of them that end no line. *)
Definition lowered (b : Init.Byte.byte) : bool := is_ascii_byte b && bool_decide (ascii_lower b = b).
Definition plain (b : Init.Byte.byte) : bool := lowered b && negb (bool_decide (b = newline)).

Lemma lowered_lower s : forallb lowered s = true → to_lowercase s = s.
Proof.
  intros Hs. rewrite forallb_forall in Hs. rewrite to_lowercase_ascii.
  - rewrite <- (map_id s) at 2. apply map_ext_in. intros b Hb.
    apply Hs, andb_prop in Hb as [_ Hb]. by apply bool_decide_eq_true in Hb.
  - apply forallb_forall. intros b Hb. by apply Hs, andb_prop in Hb as [? _].
Qed.

Lemma plain_lowered s : forallb plain s = true → forallb lowered s = true.
Proof. rewrite !forallb_forall. intros Hs b Hb. by apply Hs, andb_prop in Hb as [? _]. Qed.

Lemma plain_no_newline s : forallb plain s = true → newline ∉ s.
Proof. intros Hs Hin. rewrite forallb_forall in Hs. by apply list_elem_of_In, Hs in Hin. Qed.

Lemma alphabet_plain s :
  Forall (λ c, c ∈ onion_alphabet) s → forallb plain s = true ∧ forallb is_base32_char s = true.
Proof.
  assert (∀ c, c ∈ onion_alphabet → plain c && is_base32_char c = true) as Hall.
  { assert (forallb (λ c, plain c && is_base32_char c) onion_alphabet = true) as Hb by (vm_compute; reflexivity).
    rewrite forallb_forall in Hb. intros c Hc. by apply Hb, list_elem_of_In. }
  intros Hs. induction Hs as [|c s Hc Hs [IH1 IH2]]; [done|]. simpl. apply Hall, andb_prop in Hc as [-> ->].
  by rewrite IH1, IH2.
Qed.

Lemma digit_plain b d : to_digit 10 b = Some d → plain b = true ∧ is_dec_digit b = true ∧ (d ≠ 0%Z → in_range 49 57 b = true).
Proof.
  destruct b; vm_compute; intros H; try discriminate; split_and!; try reflexivity; congruence.
Qed.

Lemma show_port p :
  (1 ≤ p ≤ u16_max)%Z → is_port (show_uint p) = true ∧ forallb plain (show_uint p) = true.
Proof.
  intros Hp. unfold u16_max in Hp.
  destruct (show_radix_spec 10 byte_of_digit ltac:(lia) to_digit_dec _ p (log2_fuel p ltac:(lia)) ltac:(lia))
    as (ds & Hds & Hv & Hne & Hh & Hl).
  unfold show_uint. rewrite show_digits_radix. specialize (Hl 5 ltac:(lia) ltac:(simpl; lia)).
  pose proof (Forall2_length _ _ _ Hds) as Hlen.
  assert (head ds ≠ Some 0%Z) as Hnz. { intros Hz. rewrite (Hh Hz) in Hv. compute in Hv. lia. }
  destruct Hds as [|b d s ds Hb Hds]; [done|]. simpl in *.
  assert (forallb plain s = true ∧ forallb is_dec_digit s = true) as [H1 H2].
  { clear -Hds. induction Hds as [|b d s ds Hb Hds [IH1 IH2]]; [done|]. simpl.
    destruct (digit_plain _ _ Hb) as (-> & -> & _). by rewrite IH1, IH2. }
  destruct (digit_plain _ _ Hb) as (-> & _ & ->); [|congruence]. rewrite H1, H2. simpl.
  split; [|done]. apply Nat.leb_le. lia.
Qed.

Lemma onion_text id p :
  is_valid (sid_data id) = true → (1 ≤ p ≤ u16_max)%Z →
  let l := onion_addr_v3_to_string (mkOnionAddrV3 id p) in
  forallb plain l = true ∧ onion_line l = Some [("service_id", sid_data id); ("port", show_uint p)].
Proof.
  intros Hid Hp. unfold onion_addr_v3_to_string. cbn [oa_service_id oa_virt_port]. cbv zeta.
  destruct (alphabet_plain _ (service_id_symbols _ Hid)) as [H1 H2]. destruct (show_port p Hp) as [H3 H4].
  pose proof (service_id_length _ Hid) as Hl. split.
  - rewrite !forallb_app, H1, H4. done.
  - unfold onion_line. rewrite (take_app_length' (sid_data id)), (drop_app_length' (sid_data id)) by done.
    rewrite (take_app_length' (lit ".onion:")), (drop_app_length' (lit ".onion:")) by done.
    rewrite H2, H3, !bool_decide_eq_true_2 by done. done.
Qed.

(** One line of a text that is an address is enough. *)
Lemma onion_addr_of_line prefix id p :
  forallb plain prefix = true → onion_line prefix = None → is_valid (sid_data id) = true → (1 ≤ p ≤ u16_max)%Z →
  let l := onion_addr_v3_to_string (mkOnionAddrV3 id p) in
  onion_addr_from_str l = Done (Ok (OA_V3 (mkOnionAddrV3 id p))) ∧
  onion_addr_from_str (prefix ++ [newline] ++ l) = Done (Ok (OA_V3 (mkOnionAddrV3 id p))).
Proof.
  intros Hpre Hno Hid Hp l. destruct (onion_text id p Hid Hp) as [Hl Hline]. fold l in Hl, Hline.
  destruct re_onion as (r & Hr & Hc). destruct (alphabet_plain _ (service_id_symbols _ Hid)) as [H1 _].
  assert (∀ s, re_captures r (to_lowercase s) = Some [("service_id", sid_data id); ("port", show_uint p)] →
    onion_addr_from_str s = Done (Ok (OA_V3 (mkOnionAddrV3 id p)))) as Hgo.
  { intros s Hs. unfold onion_addr_from_str. rewrite Hr, Hs. simpl. rewrite lowered_lower by by apply plain_lowered.
    pose proof (service_id_string_roundtrip _ Hid) as Hrt. unfold service_id_to_string in Hrt. rewrite Hrt.
    by rewrite parse_show_uint by lia. }
  split; apply Hgo; rewrite Hc; unfold line_captures.
  - rewrite lowered_lower by by apply plain_lowered. rewrite (split_no newline l) by exact (plain_no_newline _ Hl). simpl. by rewrite Hline.
  - rewrite lowered_lower by (rewrite !forallb_app, (plain_lowered prefix Hpre), (plain_lowered l Hl); done).
    cbn [app]. rewrite (split_app newline prefix l) by exact (plain_no_newline _ Hpre).
    rewrite (split_no newline l) by exact (plain_no_newline _ Hl).
    simpl. rewrite Hno. simpl. by rewrite Hline.
Qed.
End lemmas.
