(* ===== verification/MockTorClient.v ===== *)
(** tor-interface/src/mock_tor_client.rs: the tor provider for tests, a network of onion
    services that are sockets of the local host.

    The sockets are the class [Loopback].  The network is a static variable behind a lock,
    shared by all clients of the process: it is passed along with the client, and another
    client may have changed it between two calls.  No method panics while it holds the
    lock, so the lock is never poisoned. *)

From Stdlib Require Import ZArith Lia.
From S2P Require Import Prelude Maps HonkSize HonkSession Str NetAddr Crypto TorCrypto TorProvider.
From stdpp Require Import prelude strings list.

Open Scope nat_scope.

(** [TcpStream::connect], [TcpListener::bind], [TcpListener::local_addr], and equality of
    [curve25519::PublicKey]. *)
Class Loopback (H RW TL : Type) : Type := {
  lb_connect : SocketAddr → H → io_result RW * H;
  lb_bind : SocketAddr → H → io_result TL * H;
  lb_local_addr : TL → io_result SocketAddr;
}.
Class CurveEq `{CL : CryptoLib} : Type := { curve_eqb : CurvePublicKey → CurvePublicKey → bool }.

(** [mock_tor_client::Error], without texts *)
Inductive MCError :=
| ClientNotBootstrapped | ClientAlreadyBootstrapped | OnionServiceNotFound | OnionServiceNotPublished
| OnionServiceRequiresOnionAuth | OnionServiceAuthInvalid
| MC_TcpListenerBindFailed (kind : ErrorKind) | MC_TcpListenerLocalAddrFailed (kind : ErrorKind)
| ConnectFailed | NotImplemented.

Section mock.
Context `{CL : CryptoLib} `{CE : !CurveEq} {H RW TL : Type} `{LB : !Loopback H RW TL}.

#[export] Instance onion_addr_eq_dec : EqDecision OnionAddr.
Proof. intros [[i p]] [[j q]]. unfold Decision. decide equality. decide equality; apply (decide (_ = _)). Defined.

(** [impl PartialEq for X25519PublicKey] *)
Definition x25519_public_eq (a b : X25519PublicKey) : bool := curve_eqb (x_public_key a) (x_public_key b).

(** * The network *)

(** A map of no service at all is made by the first service. *)
Record MockTorNetwork := mkMockTorNetwork {
  mn_onion_services : option (HashMap OnionAddr (list X25519PublicKey * SocketAddr));
}.
Definition mock_network_new : MockTorNetwork := mkMockTorNetwork None.

(** [connect_to_onion], over the host *)
Definition connect_to_onion (service_id : V3OnionServiceId) (virt_port : Z) (client_auth : option X25519PublicKey)
    (network : MockTorNetwork) (h : H) : result MCError (OnionStream RW) * H :=
  let onion_addr := OA_V3 (mkOnionAddrV3 service_id virt_port) in
  match mn_onion_services network with
  | Some onion_services =>
      match hm_get onion_services onion_addr with
      | Some (client_auth_keys, socket_addr) =>
          let connect := match lb_connect socket_addr h with
            | (IoOk stream, h) => (Ok (mkOnionStream stream None (Some (TA_OnionService onion_addr))), h)
            | (IoErr _, h) => (Err OnionServiceNotFound, h)
            end in
          match length client_auth_keys, client_auth with
          | 0, None => connect
          | _, None => (Err OnionServiceRequiresOnionAuth, h)
          | 0, Some _ => (Err OnionServiceAuthInvalid, h)
          | _, Some client_auth =>
              if negb (existsb (λ key, x25519_public_eq key client_auth) client_auth_keys)
              then (Err OnionServiceAuthInvalid, h) else connect
          end
      | None => (Err OnionServiceNotPublished, h)
      end
  | None => (Err OnionServiceNotPublished, h)
  end.

(** [start_onion] *)
Definition start_onion (service_id : V3OnionServiceId) (virt_port : Z) (client_auth_keys : list X25519PublicKey)
    (address : SocketAddr) (network : MockTorNetwork) : MockTorNetwork :=
  let onion_addr := OA_V3 (mkOnionAddrV3 service_id virt_port) in
  match mn_onion_services network with
  | Some onion_services => mkMockTorNetwork (Some (hm_insert onion_services onion_addr (client_auth_keys, address)))
  | None => mkMockTorNetwork (Some (hm_insert [] onion_addr (client_auth_keys, address)))
  end.

(** [stop_onion] *)
Definition stop_onion (onion_addr : OnionAddr) (network : MockTorNetwork) : MockTorNetwork :=
  match mn_onion_services network with
  | Some onion_services => mkMockTorNetwork (Some (hm_remove onion_services onion_addr))
  | None => network
  end.

(** * The client *)

(** The listeners of a client share a flag with it: the client keeps the flags, a listener
    the index of its own. *)
Record MockListener := mkMockListener { ml_listener : TL; ml_is_active : nat }.

Record MockTorClient := mkMockTorClient {
  mc_host : H;
  mc_network : MockTorNetwork;
  mc_flags : list bool;
  mc_events : list TorEvent;
  mc_bootstrapped : bool;
  mc_client_auth_keys : HashMap V3OnionServiceId X25519PublicKey;
  mc_onion_services : list (OnionAddr * nat);
  mc_loopback : TL;
}.
Definition mc_set_host v s := let 'mkMockTorClient _ x1 x2 x3 x4 x5 x6 x7 := s in mkMockTorClient v x1 x2 x3 x4 x5 x6 x7.
Definition mc_set_network v s := let 'mkMockTorClient x0 _ x2 x3 x4 x5 x6 x7 := s in mkMockTorClient x0 v x2 x3 x4 x5 x6 x7.
Definition mc_set_flags v s := let 'mkMockTorClient x0 x1 _ x3 x4 x5 x6 x7 := s in mkMockTorClient x0 x1 v x3 x4 x5 x6 x7.
Definition mc_set_events v s := let 'mkMockTorClient x0 x1 x2 _ x4 x5 x6 x7 := s in mkMockTorClient x0 x1 x2 v x4 x5 x6 x7.
Definition mc_set_bootstrapped v s := let 'mkMockTorClient x0 x1 x2 x3 _ x5 x6 x7 := s in mkMockTorClient x0 x1 x2 x3 v x5 x6 x7.
Definition mc_set_auth v s := let 'mkMockTorClient x0 x1 x2 x3 x4 _ x6 x7 := s in mkMockTorClient x0 x1 x2 x3 x4 v x6 x7.
Definition mc_set_services v s := let 'mkMockTorClient x0 x1 x2 x3 x4 x5 _ x7 := s in mkMockTorClient x0 x1 x2 x3 x4 x5 v x7.

Abbreviation MC_ := (M MockTorClient MCError).

Definition any_port : SocketAddr := SA_V4 [127; 0; 0; 1]%Z 0.

(** [MockTorClient::new] *)
Definition mock_client_new (network : MockTorNetwork) (h : H) : outcome MockTorClient :=
  let events := [TE_LogReceived "[notice] MockTorClient running"] in
  match lb_bind any_port h with
  | (IoOk listener, h) => Done (mkMockTorClient h network [] events false [] [] listener)
  | (IoErr _, _) => Panicked
  end.

Definition mc_active (s : MockTorClient) (flag : nat) : bool := default false (mc_flags s !! flag).

(** "remove onion services with no active listeners": the loop of [update], from [i] on *)
Fixpoint mc_reap (n i : nat) (s : MockTorClient) : outcome MockTorClient :=
  match n with
  | O => OutOfFuel
  | S n =>
      match mc_onion_services s !! i with
      | None => Done s
      | Some (onion_addr, flag) =>
          if negb (mc_active s flag) then
            mc_reap n i (mc_set_network (stop_onion onion_addr (mc_network s))
              (mc_set_services (swap_remove i (mc_onion_services s)) s))
          else mc_reap n (S i) s
      end
  end.

(** [update] *)
Definition mc_update : MC_ (list TorEvent) := λ s,
  match mc_reap (S (length (mc_onion_services s))) 0 s with
  | Done s => Done (mc_set_events [] s, Ok (mc_events s))
  | Panicked => Panicked
  | OutOfFuel => OutOfFuel
  end.

(** [bootstrap] *)
Definition mc_bootstrap : MC_ unit :=
  s ← get_state;
  if mc_bootstrapped s then throw ClientAlreadyBootstrapped
  else
    _ ← modify (λ s, mc_set_events (mc_events s ++
      [TE_BootstrapStatus 0 "start" "bootstrapping started";
       TE_BootstrapStatus 50 "middle" "bootstrapping continues";
       TE_BootstrapStatus 100 "finished" "bootstrapping completed";
       TE_BootstrapComplete]) s);
    modify (mc_set_bootstrapped true).

(** [add_client_auth], [remove_client_auth] *)
Definition mc_add_client_auth (service_id : V3OnionServiceId) (client_auth : X25519PrivateKey) : MC_ unit :=
  modify (λ s, mc_set_auth (hm_insert (mc_client_auth_keys s) service_id (x25519_public_from_private client_auth)) s).
Definition mc_remove_client_auth (service_id : V3OnionServiceId) : MC_ unit :=
  modify (λ s, mc_set_auth (hm_remove (mc_client_auth_keys s) service_id) s).

(** [connect]; the circuit is not used *)
Definition mc_connect (target : TargetAddr) (_circuit : option CircuitToken) : MC_ (OnionStream RW) := λ s,
  match target with
  | TA_OnionService (OA_V3 a) =>
      let client_auth := hm_get (mc_client_auth_keys s) (oa_service_id a) in
      let '(r, h) := connect_to_onion (oa_service_id a) (oa_virt_port a) client_auth (mc_network s) (mc_host s) in
      Done (mc_set_host h s, r)
  | target_address =>
      match lb_local_addr (mc_loopback s) with
      | IoErr _ => Panicked
      | IoOk loopback =>
          match lb_connect loopback (mc_host s) with
          | (IoOk stream, h) => Done (mc_set_host h s, Ok (mkOnionStream stream None (Some target_address)))
          | (IoErr _, h) => Done (mc_set_host h s, Err ConnectFailed)
          end
      end
  end.

(** [listener] *)
Definition mc_listener (private_key : Ed25519PrivateKey) (virt_port : Z)
    (authorized_clients : option (list X25519PublicKey)) : MC_ (OnionListener MockListener) := λ s,
  let service_id := service_id_from_private_key private_key in
  let onion_addr := OA_V3 (mkOnionAddrV3 service_id virt_port) in
  let authorized_clients := default [] authorized_clients in
  match lb_bind any_port (mc_host s) with
  | (IoErr kind, h) => Done (mc_set_host h s, Err (MC_TcpListenerBindFailed kind))
  | (IoOk listener, h) =>
      match lb_local_addr listener with
      | IoErr kind => Done (mc_set_host h s, Err (MC_TcpListenerLocalAddrFailed kind))
      | IoOk socket_addr =>
          let flag := length (mc_flags s) in
          Done (mkMockTorClient h (start_onion service_id virt_port authorized_clients socket_addr (mc_network s))
                  (mc_flags s ++ [true]) (mc_events s ++ [TE_OnionServicePublished service_id]) (mc_bootstrapped s)
                  (mc_client_auth_keys s) (mc_onion_services s ++ [(onion_addr, flag)]) (mc_loopback s),
                Ok (mkOnionListener (mkMockListener listener flag) onion_addr))
      end
  end.

(** [generate_token], [release_token] *)
Definition mc_generate_token (s : MockTorClient) : CircuitToken * MockTorClient := (0, s).
Definition mc_release_token (_token : CircuitToken) (s : MockTorClient) : MockTorClient := s.

(** The closure given to [OnionListener::new] *)
Definition mc_drop_listener (l : OnionListener MockListener) (s : MockTorClient) : MockTorClient :=
  mc_set_flags (<[ml_is_active (ol_listener l) := false]> (mc_flags s)) s.

(** [impl Drop for MockTorClient]: what is left of the network. *)
Definition mock_client_drop (s : MockTorClient) : MockTorNetwork :=
  fold_left (λ network entry, stop_onion entry.1 network) (mc_onion_services s) (mc_network s).

(** [impl From<Error> for tor_provider::Error] *)
Definition mc_provider {A} (m : MC_ A) : M MockTorClient TorProviderError A := λ s,
  match m s with
  | Done (s, r) => Done (s, map_err (λ _, TP_Generic) r)
  | Panicked => Panicked
  | OutOfFuel => OutOfFuel
  end.

#[export] Instance mock_sockets `{!Sockets RW TL} : Sockets RW MockListener := {
  tl_accept l := let '(r, tl) := tl_accept (ml_listener l) in (r, mkMockListener tl (ml_is_active l));
  tl_set_nonblocking b l :=
    let '(r, tl) := tl_set_nonblocking (RW:=RW) b (ml_listener l) in (r, mkMockListener tl (ml_is_active l));
  ts_set_nonblocking := ts_set_nonblocking (TL:=TL);
}.

#[export] Instance mock_tor_provider : TorProvider MockTorClient RW MockListener := {
  tp_update := mc_provider mc_update;
  tp_bootstrap := mc_provider mc_bootstrap;
  tp_add_client_auth id key := mc_provider (mc_add_client_auth id key);
  tp_remove_client_auth id := mc_provider (mc_remove_client_auth id);
  tp_connect target circuit := mc_provider (mc_connect target circuit);
  tp_listener key port clients := mc_provider (mc_listener key port clients);
  tp_generate_token := mc_generate_token;
  tp_release_token := mc_release_token;
  tp_drop_listener := mc_drop_listener;
}.
End mock.
