(* ===== verification/MockProps.v ===== *)
(** The network of the mock tor provider: which onion services it serves, to whom, and for
    how long. *)

From Stdlib Require Import ZArith Lia.
From S2P Require Import Prelude Maps HonkSize HonkSession Str NetAddr Crypto TorCrypto CryptoModel TorProvider MockTorClient.
From stdpp Require Import prelude strings list.

Open Scope nat_scope.

Section mock.
Context `{CL : CryptoLib} `{CE : !CurveEq} {H RW TL : Type} `{LB : !Loopback H RW TL}.
Abbreviation Client := (MockTorClient (H:=H) (TL:=TL)).
Implicit Types (s : Client) (n : MockTorNetwork) (a : OnionAddr).

(** What the network promises: the service behind an address, if any. *)
Definition served n a : option (list X25519PublicKey * SocketAddr) :=
  match mn_onion_services n with Some services => hm_get services a | None => None end.
Definition network_ok n : Prop :=
  match mn_onion_services n with Some services => NoDup services.*1 | None => True end.

(** Who may connect: everyone without a key when there are no keys, one of the keys
    otherwise. *)
Definition auth_ok (keys : list X25519PublicKey) (auth : option X25519PublicKey) : bool :=
  match auth with
  | None => bool_decide (keys = [])
  | Some auth => existsb (λ key, x25519_public_eq key auth) keys
  end.

Lemma start_onion_served id port keys addr n :
  network_ok n →
  network_ok (start_onion id port keys addr n) ∧
  ∀ a, served (start_onion id port keys addr n) a =
    if decide (a = OA_V3 (mkOnionAddrV3 id port)) then Some (keys, addr) else served n a.
Proof.
  destruct n as [[m|]]; unfold start_onion, network_ok, served; simpl; intros Hok.
  - split; [by apply hm_insert_NoDup|]. intros a. by rewrite hm_get_insert.
  - split; [apply NoDup_singleton|]. intros a. by destruct (decide _).
Qed.

Lemma stop_onion_served a0 n :
  network_ok n →
  network_ok (stop_onion a0 n) ∧ ∀ a, served (stop_onion a0 n) a = if decide (a = a0) then None else served n a.
Proof.
  destruct n as [[m|]]; unfold stop_onion, network_ok, served; simpl; intros Hok.
  - split; [by apply hm_remove_NoDup|]. intros a. by rewrite hm_get_remove.
  - split; [done|]. intros a. by destruct (decide _).
Qed.

Lemma connect_to_onion_spec id port auth n (h : H) :
  let a := OA_V3 (mkOnionAddrV3 id port) in
  connect_to_onion (RW:=RW) (TL:=TL) id port auth n h =
    match served n a with
    | None => (Err OnionServiceNotPublished, h)
    | Some (keys, addr) =>
        if auth_ok keys auth then
          match lb_connect addr h with
          | (IoOk stream, h) => (Ok (mkOnionStream stream None (Some (TA_OnionService a))), h)
          | (IoErr _, h) => (Err OnionServiceNotFound, h)
          end
        else (Err (match auth with None => OnionServiceRequiresOnionAuth | Some _ => OnionServiceAuthInvalid end), h)
    end.
Proof.
  intros a. unfold connect_to_onion, served. fold a. destruct (mn_onion_services n) as [m|]; [|done].
  destruct (hm_get m a) as [[[|k keys] addr]|]; [destruct auth; done| |done].
  destruct auth as [auth|]; [|done]. cbn [auth_ok length]. by destruct (existsb _ _).
Qed.

(** ** The client *)

Definition mc_inv s : Prop :=
  NoDup (mc_onion_services s).*2 ∧ Forall (λ flag, flag < length (mc_flags s)) (mc_onion_services s).*2 ∧
  network_ok (mc_network s).

Definition with_network n (l : list (OnionAddr * nat)) s : Client := mc_set_network n (mc_set_services l s).

Lemma mc_reap_spec k i s :
  i ≤ length (mc_onion_services s) < i + k → network_ok (mc_network s) →
  (∀ j e, j < i → mc_onion_services s !! j = Some e → mc_active s e.2 = true) →
  ∃ gone n l, mc_reap k i s = Done (with_network n l s) ∧ mc_onion_services s ≡ₚ gone ++ l ∧
    Forall (λ e, mc_active s e.2 = true) l ∧ Forall (λ e, mc_active s e.2 = false) gone ∧ network_ok n ∧
    ∀ a, served n a = if decide (a ∈ gone.*1) then None else served (mc_network s) a.
Proof.
  revert i s. induction k as [|k IH]; intros i s Hk Hn Hbefore; [lia|]. cbn [mc_reap].
  destruct (mc_onion_services s !! i) as [[a0 flag]|] eqn:Hi.
  2:{ exists [], (mc_network s), (mc_onion_services s). split_and!; [by destruct s|done| |constructor|done|done].
      apply lookup_ge_None in Hi. apply Forall_lookup. intros j e Hj. apply Hbefore with j; [|done].
      apply lookup_lt_Some in Hj. lia. }
  apply lookup_lt_Some in Hi as Hlt. destruct (mc_active s flag) eqn:Ha; simpl.
  { apply IH; [lia|done|]. intros j e Hj He. destruct (decide (j = i)) as [->|]; [by simplify_eq|].
    apply Hbefore with j; [lia|done]. }
  pose proof (swap_remove_perm _ _ _ Hi) as Hperm. pose proof (Permutation_length Hperm) as Hlen. simpl in Hlen.
  destruct (stop_onion_served a0 _ Hn) as [Hn' Hserved].
  set (s1 := mc_set_network _ _).
  assert (mc_onion_services s1 = swap_remove i (mc_onion_services s) ∧ mc_network s1 = stop_onion a0 (mc_network s) ∧
    (∀ flag, mc_active s1 flag = mc_active s flag) ∧ ∀ n l, with_network n l s1 = with_network n l s)
    as (E1 & E2 & E3 & E4) by (subst s1; by destruct s).
  destruct (IH i s1) as (gone & n & l & P1 & P2 & P3 & P4 & P5 & P6); [rewrite E1; lia|by rewrite E2| |].
  { rewrite E1. intros j e Hj He. rewrite E3. apply Hbefore with j; [done|]. by rewrite <- (swap_remove_before _ _ _ _ Hi Hj). }
  exists ((a0, flag) :: gone), n, l. rewrite E4 in P1. split_and!; [done|by rewrite Hperm, <- E1, P2| | |done|].
  - eapply Forall_impl; [exact P3|]. intros e. cbn beta. by rewrite E3.
  - constructor; [done|]. eapply Forall_impl; [exact P4|]. intros e. cbn beta. by rewrite E3.
  - intros a. rewrite P6, E2, Hserved. csimpl.
    destruct (decide (a ∈ gone.*1)), (decide (a = a0)), (decide (a ∈ a0 :: gone.*1)); set_solver.
Qed.

Lemma mc_update_spec s :
  mc_inv s →
  ∃ gone n l, mc_update s = Done (mc_set_events [] (with_network n l s), Ok (mc_events s)) ∧
    mc_onion_services s ≡ₚ gone ++ l ∧
    Forall (λ e, mc_active s e.2 = true) l ∧ Forall (λ e, mc_active s e.2 = false) gone ∧ network_ok n ∧
    ∀ a, served n a = if decide (a ∈ gone.*1) then None else served (mc_network s) a.
Proof.
  intros (_ & _ & Hn).
  destruct (mc_reap_spec (S (length (mc_onion_services s))) 0 s) as (gone & n & l & P1 & P); [lia|done|lia|].
  exists gone, n, l. split; [|done]. unfold mc_update. rewrite P1. by destruct s.
Qed.

Lemma mc_listener_spec key port clients s s' l :
  mc_inv s → mc_listener key port clients s = Done (s', Ok l) →
  let id := service_id_from_private_key key in
  let a := OA_V3 (mkOnionAddrV3 id port) in
  ∃ addr, mc_inv s' ∧ lb_local_addr (ml_listener (ol_listener l)) = IoOk addr ∧ ol_onion_addr l = a ∧
    mc_onion_services s' = mc_onion_services s ++ [(a, ml_is_active (ol_listener l))] ∧
    mc_events s' = mc_events s ++ [TE_OnionServicePublished id] ∧
    mc_active s' (ml_is_active (ol_listener l)) = true ∧
    (∀ e, e ∈ mc_onion_services s → e.2 ≠ ml_is_active (ol_listener l) ∧ mc_active s' e.2 = mc_active s e.2) ∧
    ∀ a', served (mc_network s') a' = if decide (a' = a) then Some (default [] clients, addr) else served (mc_network s) a'.
Proof.
  intros (Hnd & Hlt & Hn). unfold mc_listener. destruct (lb_bind _ _) as [[tl|] h]; [|done].
  destruct (lb_local_addr tl) as [addr|] eqn:Haddr; [|done]. intros [= <- <-]. simpl.
  destruct (start_onion_served (service_id_from_private_key key) port (default [] clients) addr _ Hn) as [Hn' Hs].
  assert (∀ e, e ∈ mc_onion_services s → e.2 < length (mc_flags s)) as Hf.
  { intros e He. rewrite Forall_forall in Hlt. apply Hlt, list_elem_of_fmap. eauto. }
  exists addr. unfold mc_inv, mc_active. simpl. split_and!; try done.
  - rewrite fmap_app. apply NoDup_app. split_and!; [done| |apply NoDup_singleton].
    intros x (e & -> & He)%list_elem_of_fmap Hx%list_elem_of_singleton. apply Hf in He. simpl in Hx. lia.
  - rewrite fmap_app, length_app. apply Forall_app. simpl. split; [|repeat constructor; lia].
    eapply Forall_impl; [exact Hlt|]. simpl. lia.
  - by rewrite list_lookup_middle.
  - intros e He. specialize (Hf e He). split; [lia|]. by rewrite lookup_app_l.
Qed.

Lemma mc_drop_listener_spec (l : OnionListener (MockListener (TL:=TL))) s :
  ml_is_active (ol_listener l) < length (mc_flags s) → mc_inv s →
  mc_inv (mc_drop_listener l s) ∧ mc_onion_services (mc_drop_listener l s) = mc_onion_services s ∧
  mc_network (mc_drop_listener l s) = mc_network s ∧
  ∀ flag, mc_active (mc_drop_listener l s) flag =
    if decide (flag = ml_is_active (ol_listener l)) then false else mc_active s flag.
Proof.
  intros Hlt (H1 & H2 & H3). unfold mc_drop_listener, mc_inv, mc_active. destruct s. simpl in *.
  split_and!; try done; [by rewrite length_insert|]. intros flag. destruct (decide _) as [->|].
  - by rewrite list_lookup_insert_eq.
  - by rewrite list_lookup_insert_ne.
Qed.

(** A service started again before the next update is stopped by that update. *)
Lemma relisten_lost key port clients clients' s s1 l1 s2 l2 :
  mc_inv s →
  mc_listener key port clients s = Done (s1, Ok l1) →
  mc_listener key port clients' (mc_drop_listener l1 s1) = Done (s2, Ok l2) →
  ∃ s3, mc_update s2 = Done (s3, Ok (mc_events s2)) ∧
    (ol_onion_addr l2, ml_is_active (ol_listener l2)) ∈ mc_onion_services s3 ∧
    mc_active s3 (ml_is_active (ol_listener l2)) = true ∧
    served (mc_network s3) (ol_onion_addr l2) = None.
Proof.
  intros Hinv L1 L2. apply mc_listener_spec in L1 as (addr1 & Hinv1 & _ & A1 & S1 & _ & Act1 & _ & _); [|done].
  assert (ml_is_active (ol_listener l1) < length (mc_flags s1)) as Hf1.
  { destruct Hinv1 as (_ & Hlt & _). rewrite S1, fmap_app, Forall_app in Hlt. destruct Hlt as [_ Hlt]. by inversion Hlt. }
  destruct (mc_drop_listener_spec l1 s1 Hf1 Hinv1) as (Hinv1' & S1' & _ & Act1').
  apply mc_listener_spec in L2 as (addr2 & Hinv2 & _ & A2 & S2 & _ & Act2 & Old & _); [|done].
  destruct (mc_update_spec s2 Hinv2) as (gone & n & l & U & P & Hl & Hg & _ & Hn). eexists. split; [exact U|].
  assert (∀ e, mc_active s2 e.2 = true → e ∈ gone ++ l → e ∈ l) as Hin.
  { intros e He [Hin|Hin]%elem_of_app; [|done]. rewrite Forall_forall in Hg. specialize (Hg _ Hin). simpl in Hg. congruence. }
  assert (mc_onion_services (mc_set_events [] (with_network n l s2)) = l ∧
    mc_network (mc_set_events [] (with_network n l s2)) = n ∧
    mc_active (mc_set_events [] (with_network n l s2)) (ml_is_active (ol_listener l2)) = true) as (-> & -> & ->)
    by by destruct s2.
  split_and!; [|done|].
  - apply Hin; [done|]. rewrite <- P, S2, A2. apply elem_of_app. right. by left.
  - rewrite Hn, decide_True; [done|]. rewrite A2.
    assert (ol_onion_addr l1 = ol_onion_addr l2) as Heq by congruence.
    apply (list_elem_of_fmap_2' fst _ (ol_onion_addr l1, ml_is_active (ol_listener l1))); [|by rewrite A1].
    assert ((ol_onion_addr l1, ml_is_active (ol_listener l1)) ∈ mc_onion_services (mc_drop_listener l1 s1)) as Hs
      by (rewrite S1', S1, A1; apply elem_of_app; right; by left).
    assert ((ol_onion_addr l1, ml_is_active (ol_listener l1)) ∈ gone ++ l) as [?|Hin']%elem_of_app
      by (rewrite <- P, S2; apply elem_of_app; by left); [done|].
    rewrite Forall_forall in Hl. apply Hl in Hin'. simpl in Hin'. destruct (Old _ Hs) as [_ Hact]. simpl in Hact.
    rewrite Hact, Act1', decide_True in Hin' by done. done.
Qed.

(** C38. The mock network serves what is listened to.  Connecting to an onion service
    reaches the socket of its listener exactly when it is served and the key the client was
    given for it is one of its keys (or there are neither), and fails without a connection
    otherwise, so that keys added for one service do not count for another.  A listener's
    address is served from then on with its keys, and published; an update never fails, and
    stops serving exactly the addresses of dropped listeners.  But services are stopped by
    address: a service whose listener was dropped and which was started again before the
    next update is not served after it, although its listener is there. *)
Theorem mock_network_serves s :
  mc_inv s →
  (∀ id port circuit,
     let a := OA_V3 (mkOnionAddrV3 id port) in
     let auth := hm_get (mc_client_auth_keys s) id in
     mc_connect (RW:=RW) (TA_OnionService a) circuit s =
       match served (mc_network s) a with
       | None => Done (s, Err OnionServiceNotPublished)
       | Some (keys, addr) =>
           if auth_ok keys auth then
             match lb_connect (TL:=TL) addr (mc_host s) with
             | (IoOk stream, h) => Done (mc_set_host h s, Ok (mkOnionStream stream None (Some (TA_OnionService a))))
             | (IoErr _, h) => Done (mc_set_host h s, Err OnionServiceNotFound)
             end
           else Done (s, Err (match auth with None => OnionServiceRequiresOnionAuth | Some _ => OnionServiceAuthInvalid end))
       end) ∧
  (∀ id key, ∃ s', mc_add_client_auth id key s = Done (s', Ok tt) ∧ mc_network s' = mc_network s ∧
     ∀ id', hm_get (mc_client_auth_keys s') id' =
       if decide (id' = id) then Some (x25519_public_from_private key) else hm_get (mc_client_auth_keys s) id') ∧
  (∀ key port clients s' l, mc_listener key port clients s = Done (s', Ok l) →
     let id := service_id_from_private_key key in
     let a := OA_V3 (mkOnionAddrV3 id port) in
     mc_inv s' ∧ mc_events s' = mc_events s ++ [TE_OnionServicePublished id] ∧
     ∃ addr, lb_local_addr (ml_listener (ol_listener l)) = IoOk addr ∧
     ∀ a', served (mc_network s') a' = if decide (a' = a) then Some (default [] clients, addr) else served (mc_network s) a') ∧
  (∃ s' gone, mc_update s = Done (s', Ok (mc_events s)) ∧ mc_inv s' ∧
     mc_onion_services s ≡ₚ gone ++ mc_onion_services s' ∧
     Forall (λ e, mc_active s e.2 = true) (mc_onion_services s') ∧ Forall (λ e, mc_active s e.2 = false) gone ∧
     ∀ a, served (mc_network s') a = if decide (a ∈ gone.*1) then None else served (mc_network s) a) ∧
  (∀ key port clients clients' s1 l1 s2 l2,
     mc_listener key port clients s = Done (s1, Ok l1) →
     mc_listener key port clients' (mc_drop_listener l1 s1) = Done (s2, Ok l2) →
     ∃ s3, mc_update s2 = Done (s3, Ok (mc_events s2)) ∧
       (ol_onion_addr l2, ml_is_active (ol_listener l2)) ∈ mc_onion_services s3 ∧
       mc_active s3 (ml_is_active (ol_listener l2)) = true ∧
       served (mc_network s3) (ol_onion_addr l2) = None).
Proof.
  intros Hinv. split_and!.
  - intros id port circuit a auth. unfold mc_connect. unfold a at 1. cbn [oa_service_id oa_virt_port].
    rewrite connect_to_onion_spec.
    fold a auth. destruct (served _ a) as [[keys addr]|]; [|by destruct s].
    destruct (auth_ok keys auth); [|by destruct s]. by destruct (lb_connect addr (mc_host s)) as [[stream|] h].
  - intros id key. eexists. split; [done|]. destruct s. split; [done|]. intros id'. simpl. apply hm_get_insert.
  - intros key port clients s' l Hl id a.
    apply mc_listener_spec in Hl as (addr & H1 & H2 & _ & _ & H3 & _ & _ & H4); [|done].
    split_and!; [done|done|]. by exists addr.
  - destruct (mc_update_spec s Hinv) as (gone & n & l & U & P & Hl & Hg & Hn & Hserved).
    eexists _, gone. split; [exact U|]. destruct Hinv as (Hnd & Hlt & _).
    rewrite (fmap_Permutation snd _ _ P), fmap_app in Hnd, Hlt. apply NoDup_app in Hnd as (_ & _ & Hnd).
    apply Forall_app in Hlt as [_ Hlt]. destruct s. unfold mc_inv. simpl in *. by split_and!.
  - intros *. by apply relisten_lost.
Qed.
End mock.

(** Sockets that always work: a stream is the address it leads to. *)
#[local] Instance demo_loopback : Loopback Z SocketAddr SocketAddr := {
  lb_connect addr h := (IoOk addr, h);
  lb_bind _ h := (IoOk (SA_V4 [127; 0; 0; 1]%Z h), (h + 1)%Z);
  lb_local_addr l := IoOk l;
}.
#[local] Instance demo_curve_eq : CurveEq :=
  { curve_eqb a b := bool_decide (curve_as_bytes a = curve_as_bytes b) }.

Definition demo_mock : MockTorClient (H:=Z) (TL:=SocketAddr) :=
  match mock_client_new mock_network_new 1000%Z with
  | Done s => s
  | _ => mkMockTorClient 0%Z mock_network_new [] [] false [] [] any_port
  end.
Definition demo_listen (s : MockTorClient (H:=Z) (TL:=SocketAddr)) :=
  mc_listener (ed25519_generate (os_random 7 32)) 80 None s.
Definition demo_mock1 := match demo_listen demo_mock with Done (s, _) => s | _ => demo_mock end.
Definition demo_listener (s : MockTorClient (H:=Z) (TL:=SocketAddr)) :=
  match demo_listen s with
  | Done (_, Ok l) => l
  | _ => mkOnionListener (mkMockListener any_port 9) (OA_V3 (mkOnionAddrV3 (mkV3OnionServiceId []) 0))
  end.
Definition demo_mock2 := mc_drop_listener (demo_listener demo_mock) demo_mock1.
Definition demo_mock3 := match demo_listen demo_mock2 with Done (s, _) => s | _ => demo_mock end.

Definition local_addr (l : OnionListener (MockListener (TL:=SocketAddr))) : SocketAddr :=
  match lb_local_addr (H:=Z) (RW:=SocketAddr) (ml_listener (ol_listener l)) with IoOk addr => addr | IoErr _ => any_port end.

Lemma mock_network_serves_witness :
  (∃ s', mc_update demo_mock = Done (s', Ok (mc_events demo_mock))) ∧
  served (mc_network demo_mock1) (ol_onion_addr (demo_listener demo_mock)) = Some ([], SA_V4 [127; 0; 0; 1]%Z 1001) ∧
  ∃ s3, mc_update demo_mock3 = Done (s3, Ok (mc_events demo_mock3)) ∧
    served (mc_network s3) (ol_onion_addr (demo_listener demo_mock2)) = None.
Proof.
  assert (mc_inv demo_mock) as Hinv by (split_and!; [constructor|constructor|exact I]).
  destruct (mock_network_serves (RW:=SocketAddr) demo_mock Hinv) as (_ & _ & Hl & (s' & gone & Hu & _) & Hr).
  assert (demo_listen demo_mock = Done (demo_mock1, Ok (demo_listener demo_mock))) as E1 by by_eval.
  assert (demo_listen demo_mock2 = Done (demo_mock3, Ok (demo_listener demo_mock2))) as E2 by by_eval.
  split_and!.
  - exists s'. exact Hu.
  - destruct (Hl _ _ _ _ _ E1) as (_ & _ & addr & Haddr & Hs). rewrite Hs, decide_True by by_eval.
    assert (addr = local_addr (demo_listener demo_mock)) as Ha; [|rewrite Ha; by_eval].
    symmetry. exact (f_equal (λ r, match r with IoOk addr => addr | IoErr _ => any_port end) Haddr).
  - destruct (Hr _ _ _ _ _ _ _ _ E1 E2) as (s3 & Hu3 & _ & _ & Hnone). exists s3. split; [exact Hu3|exact Hnone].
Defined.
