(* ===== verification/TorConfig.v ===== *)
(** tor-interface/src/proxy.rs and censorship_circumvention.rs: the settings for proxies,
    pluggable transports and bridges, their checks and texts. *)

From Stdlib Require Import ZArith Lia.
From S2P Require Import Prelude Str NetAddr NetAddrTheory Regexes Crypto TorCrypto TorProvider.
From stdpp Require Import prelude strings list.
From coqutil Require Import Byte.

Open Scope nat_scope.

(** * Proxies *)

Section proxies.
Context `{CL : CryptoLib}.

Inductive ProxyConfigError := PC_OnionService | PC_PortZero | PC_UsernameLength | PC_PasswordLength | PC_UsernameColon.

Record Socks4ProxyConfig := mkSocks4ProxyConfig { s4_address : TargetAddr }.
Record Socks5ProxyConfig := mkSocks5ProxyConfig {
  s5_address : TargetAddr; s5_username : option str; s5_password : option str }.
Record HttpsProxyConfig := mkHttpsProxyConfig {
  ht_address : TargetAddr; ht_username : option str; ht_password : option str }.

Inductive ProxyConfig :=
| Proxy_Socks4 (config : Socks4ProxyConfig)
| Proxy_Socks5 (config : Socks5ProxyConfig)
| Proxy_Https (config : HttpsProxyConfig).

(** The port of an address a proxy may have. *)
Definition proxy_port (address : TargetAddr) : result ProxyConfigError Z :=
  match (match address with
         | TA_Socket addr => Ok (sa_port addr)
         | TA_Domain addr => Ok (da_port addr)
         | TA_OnionService _ => Err PC_OnionService
         end) with
  | Err e => Err e
  | Ok port => if (port =? 0)%Z then Err PC_PortZero else Ok port
  end.

(** [Socks4ProxyConfig::new] *)
Definition socks4_proxy_config_new (address : TargetAddr) : result ProxyConfigError Socks4ProxyConfig :=
  match proxy_port address with
  | Err e => Err e
  | Ok _ => Ok (mkSocks4ProxyConfig address)
  end.

Definition longer_than_255 (s : option str) : bool := match s with Some s => 255 <? length s | None => false end.

(** [Socks5ProxyConfig::new] *)
Definition socks5_proxy_config_new (address : TargetAddr) (username password : option str) :
    result ProxyConfigError Socks5ProxyConfig :=
  match proxy_port address with
  | Err e => Err e
  | Ok _ =>
      if longer_than_255 username then Err PC_UsernameLength
      else if longer_than_255 password then Err PC_PasswordLength
      else Ok (mkSocks5ProxyConfig address username password)
  end.

(** [HttpsProxyConfig::new] *)
Definition https_proxy_config_new (address : TargetAddr) (username password : option str) :
    result ProxyConfigError HttpsProxyConfig :=
  match proxy_port address with
  | Err e => Err e
  | Ok _ =>
      if match username with Some username => bool_decide (colon ∈ username) | None => false end
      then Err PC_UsernameColon
      else Ok (mkHttpsProxyConfig address username password)
  end.
End proxies.

(** * Pluggable transports *)

Section transports.
Context `{RL : RegexLib}.

Record PluggableTransportConfig := mkPluggableTransportConfig {
  pt_transports : list str;
  pt_path_to_binary : str;
  pt_options : list str;
}.

Inductive PluggableTransportConfigError := PT_TransportNameInvalid (name : str) | PT_BinaryPathInvalid.

(** [PathBuf::is_absolute], of a Unix path *)
Definition slash : Init.Byte.byte := Byte.x2f.
Definition is_absolute (path : str) : bool := starts_with_byte path slash.

(** [PluggableTransportConfig::new] *)
Definition pluggable_transport_config_new (transports : list str) (path_to_binary : str) :
    outcome (result PluggableTransportConfigError PluggableTransportConfig) :=
  match re_new transport_pattern with
  | None => Panicked
  | Some transport_pattern =>
      match list_find (λ transport, negb (re_is_match transport_pattern transport)) transports with
      | Some (_, transport) => Done (Err (PT_TransportNameInvalid transport))
      | None =>
          if negb (is_absolute path_to_binary) then Done (Err PT_BinaryPathInvalid)
          else Done (Ok (mkPluggableTransportConfig transports path_to_binary []))
      end
  end.

(** [add_option] *)
Definition pt_add_option (arg : str) (c : PluggableTransportConfig) : PluggableTransportConfig :=
  mkPluggableTransportConfig (pt_transports c) (pt_path_to_binary c) (pt_options c ++ [arg]).

(** * Bridges *)

Record BridgeLine := mkBridgeLine {
  bl_transport : str;
  bl_address : SocketAddr;
  bl_fingerprint : str;
  bl_keyvalues : list (str * str);
}.

Inductive BridgeLineError :=
| BL_TransportMissing | BL_AddressMissing | BL_FingerprintMissing
| BL_TransportNameInvalid | BL_AddressParseFailed | BL_KeyValueInvalid
| BL_AddressPortInvalid | BL_FingerprintInvalid.

Definition key_invalid (key : str) : bool :=
  bool_decide (space ∈ key) || bool_decide (equals ∈ key) || (length key =? 0).

(** [BridgeLine::new] *)
Definition bridge_line_new (transport : str) (address : SocketAddr) (fingerprint : str) (keyvalues : list (str * str)) :
    outcome (result BridgeLineError BridgeLine) :=
  match re_new transport_pattern with
  | None => Panicked
  | Some transport_pattern =>
      if negb (re_is_match transport_pattern transport) then Done (Err BL_TransportNameInvalid)
      else if (sa_port address =? 0)%Z then Done (Err BL_AddressPortInvalid)
      else match re_new fingerprint_pattern with
      | None => Panicked
      | Some bridge_fingerprint_pattern =>
          if negb (re_is_match bridge_fingerprint_pattern fingerprint) then Done (Err BL_FingerprintInvalid)
          else if existsb (λ kv, key_invalid kv.1) keyvalues then Done (Err BL_KeyValueInvalid)
          else Done (Ok (mkBridgeLine transport address fingerprint keyvalues))
      end
  end.

(** [as_legacy_tor_setconf_value] *)
Definition keyvalue_text (kv : str * str) : str := kv.1 ++ [equals] ++ kv.2.
Definition as_legacy_tor_setconf_value (b : BridgeLine) : str :=
  bl_transport b ++ [space] ++ socket_addr_to_string (bl_address b) ++ [space] ++ bl_fingerprint b ++ [space] ++
  str_join [space] (keyvalue_text <$> bl_keyvalues b).

(** The loop of [from_str] over the options. *)
Fixpoint read_keyvalues (bridge_option_pattern : Regex) (tokens : list str) (keyvalues : list (str * str)) :
    outcome (result BridgeLineError (list (str * str))) :=
  match tokens with
  | [] => Done (Ok keyvalues)
  | keyvalue :: tokens =>
      match re_captures bridge_option_pattern keyvalue with
      | None => Done (Err BL_KeyValueInvalid)
      | Some caps =>
          match group caps "key", group caps "value" with
          | Some key, Some value => read_keyvalues bridge_option_pattern tokens (keyvalues ++ [(key, value)])
          | _, _ => Panicked
          end
      end
  end.

(** [impl FromStr for BridgeLine] *)
Definition bridge_line_from_str (s : str) : outcome (result BridgeLineError BridgeLine) :=
  match str_split space s with
  | [] => Done (Err BL_TransportMissing)
  | [_] => Done (Err BL_AddressMissing)
  | transport :: address :: tokens =>
      match socket_addr_from_str address with
      | None => Done (Err BL_AddressParseFailed)
      | Some address =>
          match tokens with
          | [] => Done (Err BL_FingerprintMissing)
          | fingerprint :: tokens =>
              match re_new bridge_option_pattern with
              | None => Panicked
              | Some bridge_option_pattern =>
                  match read_keyvalues bridge_option_pattern tokens [] with
                  | Done (Ok keyvalues) => bridge_line_new transport address fingerprint keyvalues
                  | Done (Err e) => Done (Err e)
                  | Panicked => Panicked
                  | OutOfFuel => OutOfFuel
                  end
              end
          end
      end
  end.

(** * Lemmas *)

(** A bridge line whose text can be read back: what [new] checks, each part on one line,
    and no spaces in the values. *)
Record bridge_ok (b : BridgeLine) : Prop := {
  bo_transport : is_identifier (bl_transport b) = true;
  bo_address : socket_addr_ok (bl_address b);
  bo_port : sa_port (bl_address b) ≠ 0%Z;
  bo_fingerprint : is_hex40 (bl_fingerprint b) = true;
  bo_keyvalues : Forall (λ kv, key_invalid kv.1 = false ∧ newline ∉ kv.1 ∧ space ∉ kv.2 ∧ newline ∉ kv.2) (bl_keyvalues b);
}.

Lemma forallb_no (p : Init.Byte.byte → bool) s c : forallb p s = true → p c = false → c ∉ s.
Proof. rewrite forallb_forall. intros Hs Hc Hin. apply list_elem_of_In, Hs in Hin. congruence. Qed.

Lemma identifier_no s c : is_identifier s = true → is_ident_start c || is_dec_digit c = false → c ∉ s.
Proof.
  destruct s as [|b s]; [done|]. simpl. intros [Hb Hs]%andb_prop Hc. apply not_elem_of_cons. split.
  - intros ->. apply orb_false_iff in Hc. destruct Hc. congruence.
  - by apply (forallb_no _ _ c Hs).
Qed.

Lemma hex40_no s c :
  is_hex40 s = true → is_dec_digit c || in_range 97 102 c || in_range 65 70 c = false → c ∉ s.
Proof. unfold is_hex40. intros [_ Hs]%andb_prop. apply (forallb_no _ _ c Hs). Qed.

(** The text of an address has neither spaces nor line ends. *)
Definition addr_char (b : Init.Byte.byte) : Prop :=
  is_Some (to_digit 16 b) ∨ b ∈ [dot; colon; percent; lbracket; rbracket].

Lemma show_uint_addr n : (0 ≤ n)%Z → Forall addr_char (show_uint n).
Proof.
  intros Hn. eapply Forall_impl; [by apply show_uint_digits|]. intros b [d Hb]. left.
  destruct (to_digit 16 b) eqn:Hd; [by eexists|]. exfalso. revert Hb Hd. by destruct b.
Qed.
Lemma show_hex_addr n : is_u16 n → Forall addr_char (show_hex n).
Proof.
  intros Hn. unfold is_u16 in Hn. rewrite show_hex_radix.
  destruct (show_radix_spec 16 hex_digit ltac:(lia) to_digit_hex 4 n) as (ds & Hds & _); [simpl; lia|lia|].
  revert Hds. generalize (show_radix 16 hex_digit 4 n) as s. intros s Hds. induction Hds as [|b d s ds Hb Hds IH]; [constructor|].
  constructor; [|done]. left. eauto.
Qed.
Lemma join_addr sep l : addr_char sep → Forall (Forall addr_char) l → Forall addr_char (str_join [sep] l).
Proof.
  intros Hsep Hl. destruct Hl as [|x l Hx Hl]; [constructor|]. rewrite join_sep_all. apply Forall_app. split; [done|].
  clear Hx. induction Hl as [|y l Hy Hl IH]; [constructor|]. rewrite sep_all_cons. constructor; [done|]. by apply Forall_app.
Qed.
Ltac addr_char_tac := right; rewrite ?elem_of_cons; unfold colon, dot, percent, lbracket, rbracket; tauto.

Lemma show_ipv4_addr octets : Forall is_octet octets → Forall addr_char (show_ipv4 octets).
Proof.
  intros Ho. apply join_addr; [addr_char_tac|]. induction Ho as [|x l Hx Hl IH]; constructor; [|done].
  apply show_uint_addr. unfold is_octet in Hx. lia.
Qed.
Lemma show_groups_addr l : Forall is_u16 l → Forall addr_char (str_join [colon] (show_hex <$> l)).
Proof.
  intros Hl. apply join_addr; [addr_char_tac|]. induction Hl as [|x l Hx Hl IH]; constructor; [by apply show_hex_addr|done].
Qed.
Lemma show_segments_addr segments : Forall is_u16 segments → Forall addr_char (show_segments segments).
Proof.
  intros Hs. unfold show_segments. destruct (longest_zeroes 0 segments) as [start n].
  case_match; [|by apply show_groups_addr].
  rewrite !Forall_app. split_and!; [apply show_groups_addr; by apply Forall_take| |apply show_groups_addr; by apply Forall_drop].
  repeat (constructor; [addr_char_tac|]). constructor.
Qed.
Lemma show_ipv6_addr segments : Forall is_u16 segments → Forall addr_char (show_ipv6 segments).
Proof.
  intros Hs. unfold show_ipv6. case_bool_decide as Heq; [|by apply show_segments_addr].
  destruct (drop 6 segments) as [|ab [|cd [|]]] eqn:Hd; try by apply show_segments_addr.
  apply Forall_app. split; [repeat (constructor; [first [left; by eexists|addr_char_tac]|]); constructor|].
  apply (Forall_drop _ 6) in Hs. rewrite Hd, !Forall_cons in Hs. unfold is_u16 in Hs. apply show_ipv4_addr.
  repeat (constructor; [unfold is_octet; Z.to_euclidean_division_equations; lia|]). constructor.
Qed.

Lemma socket_addr_chars a : socket_addr_ok a → Forall addr_char (socket_addr_to_string a).
Proof.
  destruct a as [octets port|segments port scope]; simpl.
  - intros (_ & Ho & Hp). rewrite Forall_app. split; [by apply show_ipv4_addr|]. constructor; [addr_char_tac|].
    apply show_uint_addr. lia.
  - intros (_ & Hs & Hp & Hsc). pose proof (show_ipv6_addr _ Hs). pose proof (show_uint_addr port ltac:(lia)).
    pose proof (show_uint_addr scope ltac:(lia)).
    case_match; (constructor; [addr_char_tac|]); rewrite ?Forall_app, ?Forall_cons, ?Forall_app, ?Forall_cons;
      split_and!; try done; addr_char_tac.
Qed.

Lemma addr_char_no a c : socket_addr_ok a → ¬ addr_char c → c ∉ socket_addr_to_string a.
Proof. intros Ha%socket_addr_chars Hc Hin. rewrite Forall_forall in Ha. by apply Hc, Ha. Qed.
End transports.
