(* ===== verification/TorProcess.v ===== *)
(** tor-interface/src/legacy_tor_process.rs: starting a tor daemon: its files, its control
    password, its control port and its log.

    Files, processes, threads and the clock belong to the operating system, SHA-1 and
    upper-case hexadecimal to their crates: these are classes. *)

From Stdlib Require Import ZArith Lia.
From S2P Require Import Prelude HonkSize HonkSession Str NetAddr Crypto TorConfig.
From stdpp Require Import prelude strings list.
From coqutil Require Import Byte.

Open Scope nat_scope.

(** * The host *)

(** Paths are Unix paths.  [ps_stdout] gives what the reads of a child's standard output
    have given since it was last asked: chunks of bytes, nothing at its end, or errors (an
    interrupted read is repeated by the standard library and is not among them). *)
Class TorHost (H File Child : Type) : Type := {
  fs_exists : str → H → bool;
  fs_is_file : str → H → bool;
  fs_is_dir : str → H → bool;
  fs_create_dir : str → H → io_result unit * H;
  fs_create_dir_all : str → H → io_result unit * H;
  fs_create : str → H → io_result File * H;
  fs_write_all : File → bytes → H → io_result unit * H;
  fs_remove_file : str → H → io_result unit * H;
  fs_symlink : str → str → H → io_result unit * H;
  fs_open : str → H → io_result File;
  fs_len : File → H → io_result Z;
  fs_read_to_string : File → H → io_result str;
  ps_id : H → Z;
  ps_spawn : str → str → list str → H → io_result Child * H;
  ps_spawn_reader : Child → H → io_result unit * H;
  ps_kill : Child → H → H;
  ps_stdout : Child → H → list (io_result bytes) * H;
  os_elapsed : Instant → H → Duration * H;
  os_now : H → Instant * H;
}.

(** [OsRng] sampled with [Alphanumeric]: the character at a position of its output; SHA-1
    of what was hashed; the crate's [HEXUPPER]. *)
Class ProcessCrypto : Type := {
  os_alphanumeric : nat → Init.Byte.byte;
  sha1 : bytes → bytes;
  HEXUPPER : Encoding;
}.

(** [Path::join] with a name *)
Definition path_join (path name : str) : str :=
  if bool_decide (path = []) || ends_with_byte path slash then path ++ name else path ++ [slash] ++ name.

(** [str::trim_end] *)
Definition trim_end (s : str) : str :=
  match utf8_chars s with Some l => concat (rev (drop_whitespace (rev l))).*2 | None => s end.

(** [tor_crypto::generate_password] *)
Definition generate_password `{ProcessCrypto} (draws length : nat) : str := os_alphanumeric <$> seq draws length.

(** [legacy_tor_process::Error], without texts *)
Inductive ProcessError :=
| ControlPortFileReadFailed (kind : ErrorKind)
| ControlPortFileTooLarge
| ControlPortFileContentsInvalid
| TorBinPathNotAbsolute
| TorDataDirectoryPathNotAbsolute
| DataDirectoryCreationFailed (kind : ErrorKind)
| DataDirectoryPathExistsAsFile
| DefaultTorrcFileCreationFailed (kind : ErrorKind)
| DefaultTorrcFileWriteFailed (kind : ErrorKind)
| TorrcFileCreationFailed (kind : ErrorKind)
| ControlPortFileDeleteFailed (kind : ErrorKind)
| LegacyTorProcessStartFailed (kind : ErrorKind)
| ControlPortFileMissing
| StdoutReadThreadSpawnFailed (kind : ErrorKind).

(** * The control password *)

Section password.
Context `{CL : CryptoLib} `{PC : ProcessCrypto}.

Definition S2K_RFC2440_SPECIFIER_LEN : nat := 9.
Definition EXPBIAS : Z := 6.
Definition TOR_C : Z := 96.
Definition COUNT : nat := Z.to_nat (Z.shiftl (16 + Z.land TOR_C 15) (Z.shiftr TOR_C 4 + EXPBIAS)).

(** The loop of [hash_tor_password_with_salt]: what the hasher is given, in order. *)
Fixpoint hashed (fuel count : nat) (input : bytes) : outcome bytes :=
  match fuel with
  | O => OutOfFuel
  | S fuel =>
      if 0 <? count then
        if length input <? count then
          match hashed fuel (count - length input) input with
          | Done rest => Done (input ++ rest)
          | o => o
          end
        else Done (take count input)
      else Done []
  end.

(** [hash_tor_password_with_salt] *)
Definition hash_tor_password_with_salt (salt : bytes) (password : str) : outcome str :=
  if negb (bool_decide (salt !! (S2K_RFC2440_SPECIFIER_LEN - 1) = Some (byte.of_Z TOR_C))) then Panicked
  else
    let input := take (S2K_RFC2440_SPECIFIER_LEN - 1) salt ++ password in
    match hashed (S COUNT) COUNT input with
    | Done data => Done (lit "16:" ++ encode HEXUPPER salt ++ encode HEXUPPER (sha1 data))
    | Panicked => Panicked
    | OutOfFuel => OutOfFuel
    end.

(** [hash_tor_password]; the salt's last byte is drawn and overwritten *)
Definition hash_tor_password (draws : nat) (password : str) : outcome str :=
  let salt := os_random draws S2K_RFC2440_SPECIFIER_LEN in
  hash_tor_password_with_salt (take (S2K_RFC2440_SPECIFIER_LEN - 1) salt ++ [byte.of_Z TOR_C]) password.
End password.

(** * The log *)

(** [String::pop] *)
Definition str_pop (s : str) : str :=
  match utf8_chars s with Some l => concat (removelast l).*2 | None => s end.

(** What [read_stdout_task] pushes for a line as [read_line] finds it: [read_line] refuses
    what is not UTF-8, and otherwise the last character is dropped. *)
Definition stdout_line (line : bytes) : list str := if is_utf8 line then [str_pop line] else [].

(** [read_until]: the lines that are complete, with their line ends, and what is left. *)
Fixpoint cut_lines (line b : bytes) : list bytes * bytes :=
  match b with
  | [] => ([], line)
  | x :: b =>
      if bool_decide (x = newline) then
        let '(lines, rest) := cut_lines [] b in ((line ++ [newline]) :: lines, rest)
      else cut_lines (line ++ [x]) b
  end.

(** What the thread does with one read, given what it has of the line it is at: the lines
    it pushes and what it has then.  At the end of the output [read_line] gives what there
    is; an error loses it. *)
Definition read_stdout (read : io_result bytes) (line : bytes) : list str * bytes :=
  match read with
  | IoErr _ => ([], [])
  | IoOk [] => (stdout_line line, [])
  | IoOk chunk => let '(lines, rest) := cut_lines line chunk in (concat (map stdout_line lines), rest)
  end.

#[global] Arguments read_stdout : simpl never.

(** [read_stdout_task] over a number of reads: the buffer of lines, and what the thread has
    of the next one. *)
Fixpoint read_stdout_task (reads : list (io_result bytes)) (stdout_lines : list str) (line : bytes) : list str * bytes :=
  match reads with
  | [] => (stdout_lines, line)
  | read :: reads =>
      let '(pushed, line) := read_stdout read line in read_stdout_task reads (stdout_lines ++ pushed) line
  end.

(** * The process *)

Section process.
Context `{CL : CryptoLib} `{PC : ProcessCrypto} {H File Child : Type} `{TH : !TorHost H File Child}.

Abbreviation PS_ := (M H ProcessError).

(** An operation of the host, its failure wrapped. *)
Definition io {A} (f : ErrorKind → ProcessError) (op : H → io_result A * H) : PS_ A := λ h,
  match op h with (IoOk a, h) => Done (h, Ok a) | (IoErr kind, h) => Done (h, Err (f kind)) end.
Definition io_pure {A} (f : ErrorKind → ProcessError) (op : H → io_result A) : PS_ A := io f (λ h, (op h, h)).

(** [read_control_port_file] *)
Definition read_control_port_file (control_port_file : str) : PS_ SocketAddr :=
  file ← io_pure ControlPortFileReadFailed (fs_open control_port_file);
  len ← io_pure ControlPortFileReadFailed (fs_len file);
  if (1024 <=? len)%Z then throw ControlPortFileTooLarge
  else
    contents ← io_pure ControlPortFileReadFailed (fs_read_to_string file);
    if str_starts_with contents (lit "PORT=") then
      match str_slice (trim_end contents) 5 (length (trim_end contents)) with
      | None => λ _, Panicked
      | Some addr_string =>
          match socket_addr_from_str addr_string with
          | Some addr => mret addr
          | None => throw ControlPortFileContentsInvalid
          end
      end
    else throw ControlPortFileContentsInvalid.

(** [lp_line] is what the reading thread has of a line it has not pushed yet. *)
Record LegacyTorProcess := mkLegacyTorProcess {
  lp_control_addr : SocketAddr;
  lp_process : Child;
  lp_password : str;
  lp_stdout_lines : list str;
  lp_line : bytes;
}.

Definition DEFAULT_TORRC_CONTENT : str :=
  lit "SocksPort auto" ++ [newline] ++ lit "AvoidDiskWrites 1" ++ [newline] ++ lit "DisableNetwork 1" ++ [newline].
Definition CONTROL_PORT_PASSWORD_LENGTH : nat := 32.
Definition five_seconds : Duration := 5000000000.

(** The loop that waits for the control port file. *)
Fixpoint wait_control_port (fuel : nat) (control_port_file : str) (start : Instant) : PS_ SocketAddr :=
  match fuel with
  | O => diverge
  | S fuel => λ h,
      let '(elapsed, h) := os_elapsed start h in
      if negb (elapsed <? five_seconds)%Z then Done (h, Err ControlPortFileMissing)
      else if fs_exists control_port_file h then
        (addr ← read_control_port_file control_port_file;
         _ ← io ControlPortFileDeleteFailed (fs_remove_file control_port_file);
         mret addr) h
      else wait_control_port fuel control_port_file start h
  end.

(** The command line. *)
Definition tor_arguments (data_directory : str) (password_hash : str) (pid : Z) : list str :=
  [lit "--defaults-torrc"; path_join data_directory (lit "default_torrc");
   lit "--torrc-file"; path_join data_directory (lit "torrc");
   lit "DataDirectory"; data_directory;
   lit "ControlPort"; lit "auto";
   lit "ControlPortWriteToFile"; path_join data_directory (lit "control_port");
   lit "HashedControlPassword"; password_hash;
   lit "__OwningControllerProcess"; show_uint pid].

(** The data directory and its files. *)
Definition prepare_directory (data_directory : str) : PS_ unit := λ h,
  if negb (fs_exists data_directory h) then io DataDirectoryCreationFailed (fs_create_dir_all data_directory) h
  else if fs_is_file data_directory h then Done (h, Err DataDirectoryPathExistsAsFile)
  else Done (h, Ok tt).

Definition prepare_default_torrc (default_torrc : str) : PS_ unit := λ h,
  if negb (fs_exists default_torrc h) then
    (file ← io DefaultTorrcFileCreationFailed (fs_create default_torrc);
     io DefaultTorrcFileWriteFailed (fs_write_all file DEFAULT_TORRC_CONTENT)) h
  else Done (h, Ok tt).

Definition prepare_torrc (torrc : str) : PS_ unit := λ h,
  if negb (fs_exists torrc h) then (_ ← io TorrcFileCreationFailed (fs_create torrc); mret tt) h
  else Done (h, Ok tt).

Definition remove_control_port_file (control_port_file : str) : PS_ unit := λ h,
  if fs_exists control_port_file h then io ControlPortFileDeleteFailed (fs_remove_file control_port_file) h
  else Done (h, Ok tt).

(** [LegacyTorProcess::new]; random characters and bytes are drawn from [draws] on.  The
    output of the child is piped, so taking it does not fail. *)
Definition process_new (fuel draws : nat) (tor_bin_path data_directory : str) : PS_ LegacyTorProcess :=
  if negb (is_absolute tor_bin_path) then throw TorBinPathNotAbsolute
  else if negb (is_absolute data_directory) then throw TorDataDirectoryPathNotAbsolute
  else
    let control_port_file := path_join data_directory (lit "control_port") in
    _ ← prepare_directory data_directory;
    _ ← prepare_default_torrc (path_join data_directory (lit "default_torrc"));
    _ ← prepare_torrc (path_join data_directory (lit "torrc"));
    _ ← remove_control_port_file control_port_file;
    let password := generate_password draws CONTROL_PORT_PASSWORD_LENGTH in
    match hash_tor_password (draws + CONTROL_PORT_PASSWORD_LENGTH) password with
    | Panicked => λ _, Panicked
    | OutOfFuel => diverge
    | Done password_hash =>
        pid ← gets ps_id;
        process ← io LegacyTorProcessStartFailed
          (ps_spawn tor_bin_path data_directory (tor_arguments data_directory password_hash pid));
        start ← (λ h, let '(t, h) := os_now h in Done (h, Ok t));
        control_addr ← wait_control_port fuel control_port_file start;
        _ ← io StdoutReadThreadSpawnFailed (ps_spawn_reader process);
        mret (mkLegacyTorProcess control_addr process password [] [])
    end.

(** [impl Drop for LegacyTorProcess] *)
Definition process_drop (p : LegacyTorProcess) (h : H) : H := ps_kill (lp_process p) h.

(** The thread takes up what has been read.  Only [wait_log_lines] looks at the buffer, so
    when the thread runs before it does not matter. *)
Definition run_reader (reads : list (io_result bytes)) (p : LegacyTorProcess) : LegacyTorProcess :=
  let '(stdout_lines, line) := read_stdout_task reads (lp_stdout_lines p) (lp_line p) in
  mkLegacyTorProcess (lp_control_addr p) (lp_process p) (lp_password p) stdout_lines line.

(** [wait_log_lines] *)
Definition wait_log_lines (p : LegacyTorProcess) (h : H) : list str * LegacyTorProcess * H :=
  let '(reads, h) := ps_stdout (lp_process p) h in
  let p := run_reader reads p in
  (lp_stdout_lines p, mkLegacyTorProcess (lp_control_addr p) (lp_process p) (lp_password p) [] (lp_line p), h).
End process.
Arguments LegacyTorProcess : clear implicits.

(** * Lemmas *)

Lemma COUNT_value : Z.of_nat COUNT = 65536%Z.
Proof. apply Z2Nat.id. vm_compute. discriminate. Qed.

(** What is hashed: the salt and the password, over and over, up to [count] bytes. *)
Definition cycled (count : nat) (input : bytes) : list (option Init.Byte.byte) :=
  (λ i, input !! (i mod length input)) <$> seq 0 count.

Lemma hashed_cycled fuel count input :
  input ≠ [] → count < fuel → ∃ data, hashed fuel count input = Done data ∧ Some <$> data = cycled count input.
Proof.
  intros Hin. assert (0 < length input) as Hlen by (destruct input; [done|simpl; lia]).
  assert (∀ n, n ≤ length input → Some <$> take n input = (λ i, input !! (i mod length input)) <$> seq 0 n) as Hpart.
  { intros n Hn. apply list_eq. intros i. rewrite !list_lookup_fmap. destruct (decide (i < n)) as [Hi|Hi].
    - rewrite lookup_take_lt, lookup_seq_lt by lia. simpl. rewrite Nat.mod_small by lia.
      destruct (lookup_lt_is_Some_2 input i) as [b ->]; [lia|done].
    - rewrite lookup_take_ge, lookup_seq_ge by lia. done. }
  revert count. induction fuel as [|fuel IH]; intros count Hf; [lia|]. cbn [hashed].
  destruct (Nat.ltb_spec 0 count); [|by replace count with 0 by lia; exists []].
  destruct (Nat.ltb_spec (length input) count) as [Hc|Hc].
  - destruct (IH (count - length input)) as (data & -> & Hd); [lia|]. exists (input ++ data). split; [done|].
    rewrite fmap_app, Hd. unfold cycled.
    replace (seq 0 count) with (seq 0 (length input) ++ seq (length input) (count - length input))
      by (rewrite <- seq_app; f_equal; lia).
    rewrite fmap_app, <- (Hpart (length input)), take_ge by lia. f_equal.
    assert (∀ m, seq (length input) m = Nat.add (length input) <$> seq 0 m) as ->
      by (intros m; rewrite fmap_add_seq; f_equal; lia).
    rewrite <- list_fmap_compose. apply list_fmap_ext.
    intros i x _. simpl. f_equal. by rewrite Nat.add_comm, <- (Nat.Div0.add_mod_idemp_r x), Nat.Div0.mod_same, Nat.add_0_r.
  - exists (take count input). split; [done|]. by apply Hpart.
Qed.

(** ** The log *)

Lemma stdout_line_ended l : is_utf8 l = true → stdout_line (l ++ [newline]) = [l].
Proof.
  unfold stdout_line, is_utf8, str_pop. intros [cs Hcs]%bool_decide_eq_true.
  rewrite (utf8_chars_app l [newline] cs [(10%Z, [newline])]) by done.
  rewrite bool_decide_eq_true_2 by eauto. by rewrite removelast_last, (utf8_chars_concat l).
Qed.

Lemma cut_lines_app line b b' :
  cut_lines line (b ++ b') =
    let '(ls, rest) := cut_lines line b in let '(ls', rest') := cut_lines rest b' in (ls ++ ls', rest').
Proof.
  revert line. induction b as [|x b IH]; intros line; simpl; [by destruct (cut_lines line b')|].
  case_bool_decide; [|apply IH]. rewrite IH. destruct (cut_lines [] b) as [ls rest]. by destruct (cut_lines rest b').
Qed.

Lemma cut_lines_none line b : newline ∉ b → cut_lines line b = ([], line ++ b).
Proof.
  revert line. induction b as [|x b IH]; intros line Hb; simpl; [by rewrite app_nil_r|].
  apply not_elem_of_cons in Hb as [Hx Hb]. rewrite bool_decide_eq_false_2 by done. by rewrite IH, <- app_assoc.
Qed.

(** The text of whole lines. *)
Definition log_text (ls : list str) : bytes := concat ((λ l, l ++ [newline]) <$> ls).

Lemma cut_lines_text ls rest :
  Forall (λ l, newline ∉ l) ls → newline ∉ rest →
  cut_lines [] (log_text ls ++ rest) = ((λ l, l ++ [newline]) <$> ls, rest).
Proof.
  intros Hls Hrest. induction Hls as [|l ls Hl _ IH]; [by apply cut_lines_none|].
  unfold log_text in *. csimpl. rewrite <- !app_assoc, cut_lines_app, cut_lines_none by done. simpl. by rewrite IH.
Qed.

Lemma read_stdout_task_acc reads acc line :
  read_stdout_task reads acc line = (acc ++ (read_stdout_task reads [] line).1, (read_stdout_task reads [] line).2).
Proof.
  revert acc line. induction reads as [|r reads IH]; intros acc line; simpl; [by rewrite app_nil_r|].
  destruct (read_stdout r line) as [pushed line']. rewrite IH, (IH pushed). simpl. by rewrite app_assoc.
Qed.

Lemma read_stdout_task_app r1 r2 acc line :
  read_stdout_task (r1 ++ r2) acc line =
    let '(acc', line') := read_stdout_task r1 acc line in read_stdout_task r2 acc' line'.
Proof.
  revert acc line. induction r1 as [|r r1 IH]; intros acc line; simpl; [done|].
  destruct (read_stdout r line) as [pushed line']. apply IH.
Qed.

Lemma read_stdout_chunk c line :
  c ≠ [] → read_stdout (IoOk c) line = let '(ls, rest) := cut_lines line c in (concat (map stdout_line ls), rest).
Proof. by destruct c. Qed.

(** The way the output is cut does not matter. *)
Lemma read_stdout_task_chunks chunks line :
  Forall (λ c, c ≠ []) chunks →
  read_stdout_task (IoOk <$> chunks) [] line =
    let '(ls, rest) := cut_lines line (concat chunks) in (concat (map stdout_line ls), rest).
Proof.
  intros Hc. revert line. induction Hc as [|c chunks Hc _ IH]; intros line; [done|].
  csimpl. cbn [read_stdout_task]. rewrite read_stdout_chunk, cut_lines_app by done.
  destruct (cut_lines line c) as [ls rest]. simpl. rewrite read_stdout_task_acc, IH.
  destruct (cut_lines rest (concat chunks)) as [ls' rest']. simpl. by rewrite map_app, concat_app.
Qed.

Lemma stdout_lines_ended ls :
  Forall (λ l, is_utf8 l = true) ls → concat (map stdout_line ((λ l, l ++ [newline]) <$> ls)) = ls.
Proof. induction 1 as [|l ls Hl _ IH]; [done|]. csimpl. by rewrite stdout_line_ended, IH. Qed.

(** At the end of the output. *)
Lemma read_stdout_task_end n line :
  read_stdout_task (replicate (S n) (IoOk [])) [] line = (stdout_line line ++ replicate n [], []).
Proof.
  assert (∀ n, read_stdout_task (replicate n (IoOk [])) [] [] = (replicate n [], [])) as Hn.
  { clear n. intros n. induction n as [|n IH]; [done|]. cbn [replicate read_stdout_task].
    change (read_stdout (IoOk []) []) with ([[] : str], [] : bytes). cbn [app]. by rewrite read_stdout_task_acc, IH. }
  cbn [replicate read_stdout_task]. change (read_stdout (IoOk []) line) with (stdout_line line, [] : bytes). cbn [app].
  by rewrite read_stdout_task_acc, Hn.
Qed.
