(* ===== verification/Hashes.v ===== *)
(** SHA-1 and SHA3-256 as published (FIPS 180-4, FIPS 202), executable, and the interfaces
    of Crypto.v and TorProcess.v with these hashes in the place of the simple ones: what
    the tests of the source compare with. *)

From Stdlib Require Import ZArith Lia.
From S2P Require Import Prelude Crypto CryptoModel TorProcess.
From stdpp Require Import prelude strings list.
From coqutil Require Import Byte Word.LittleEndianList.

Open Scope Z_scope.

(** * Words *)

(** Truncation to a number of bits, and the rotation to the left of a word of [w] bits. *)
Definition low (w x : Z) : Z := Z.land x (Z.ones w).
Definition rotl (w n x : Z) : Z := Z.lor (low w (Z.shiftl x n)) (Z.shiftr x (w - n)).

(** Bytes of a number, the most significant first. *)
Definition be_split (n : nat) (x : Z) : bytes := rev (LittleEndianList.le_split n x).
Definition be_combine (b : bytes) : Z := LittleEndianList.le_combine (rev b).

Fixpoint blocks_of {A} (fuel size : nat) (l : list A) : list (list A) :=
  match fuel, l with
  | S fuel, _ :: _ => take size l :: blocks_of fuel size (drop size l)
  | _, _ => []
  end.

(** * SHA-1 *)

(** The length in bits follows a 1 and zeros that fill the last block of 64 bytes. *)
Definition sha1_pad (b : bytes) : bytes :=
  b ++ Byte.x80 :: replicate (Z.to_nat ((55 - Z.of_nat (length b)) mod 64)) Byte.x00
    ++ be_split 8 (8 * Z.of_nat (length b)).

(** The function and the constant of a step. *)
Definition sha1_f (t : nat) (b c d : Z) : Z :=
  if (t <? 20)%nat then Z.lxor d (Z.land b (Z.lxor c d))
  else if (t <? 40)%nat then Z.lxor b (Z.lxor c d)
  else if (t <? 60)%nat then Z.lor (Z.land b c) (Z.land d (Z.lor b c))
  else Z.lxor b (Z.lxor c d).
Definition sha1_k (t : nat) : Z :=
  if (t <? 20)%nat then 1518500249 else if (t <? 40)%nat then 1859775393
  else if (t <? 60)%nat then 2400959708 else 3395469782.

(** A step: the five variables, and the last sixteen words of the schedule. *)
Definition sha1_step (st : (Z * Z * Z * Z * Z) * list Z) (t : nat) : (Z * Z * Z * Z * Z) * list Z :=
  let '((a, b, c, d, e), w) := st in
  let wt := nth 0 w 0 in
  let temp := low 32 (rotl 32 5 a + sha1_f t b c d + e + wt + sha1_k t) in
  let next := rotl 32 1 (Z.lxor (Z.lxor (nth 13 w 0) (nth 8 w 0)) (Z.lxor (nth 2 w 0) wt)) in
  ((temp, a, rotl 32 30 b, c, d), tail w ++ [next]).

Definition sha1_block (h : Z * Z * Z * Z * Z) (block : bytes) : Z * Z * Z * Z * Z :=
  let w := map be_combine (blocks_of 16 4 block) in
  let '((a, b, c, d, e), _) := fold_left sha1_step (seq 0 80) (h, w) in
  let '(h0, h1, h2, h3, h4) := h in
  (low 32 (h0 + a), low 32 (h1 + b), low 32 (h2 + c), low 32 (h3 + d), low 32 (h4 + e)).

Definition sha1_digest (b : bytes) : bytes :=
  let padded := sha1_pad b in
  let '(h0, h1, h2, h3, h4) :=
    fold_left sha1_block (blocks_of (length padded) 64 padded)
      (1732584193, 4023233417, 2562383102, 271733878, 3285377520) in
  be_split 4 h0 ++ be_split 4 h1 ++ be_split 4 h2 ++ be_split 4 h3 ++ be_split 4 h4.

(** * SHA3-256 *)

(** The state: 25 lanes of 64 bits, the lane of column x and row y at x + 5 y. *)
Definition lane (a : list Z) (x y : nat) : Z := nth ((x mod 5) + 5 * (y mod 5))%nat a 0.
Definition lanes (f : nat → nat → Z) : list Z :=
  map (λ i, f (i mod 5)%nat (i / 5)%nat) (seq 0 25).

Definition theta (a : list Z) : list Z :=
  let c := map (λ x, Z.lxor (lane a x 0) (Z.lxor (lane a x 1) (Z.lxor (lane a x 2) (Z.lxor (lane a x 3) (lane a x 4)))))
             (seq 0 5) in
  let d := map (λ x, Z.lxor (nth ((x + 4) mod 5)%nat c 0) (rotl 64 1 (nth ((x + 1) mod 5)%nat c 0))) (seq 0 5) in
  lanes (λ x y, Z.lxor (lane a x y) (nth x d 0)).

Definition rho_offsets : list Z :=
  [0; 1; 62; 28; 27;  36; 44; 6; 55; 20;  3; 10; 43; 25; 39;  41; 45; 15; 21; 8;  18; 2; 61; 56; 14].
Definition rho (a : list Z) : list Z := zip_with (rotl 64) rho_offsets a.

Definition pi (a : list Z) : list Z := lanes (λ x y, lane a (x + 3 * y) x).

Definition chi (a : list Z) : list Z :=
  lanes (λ x y, Z.lxor (lane a x y) (Z.land (Z.lxor (lane a (x + 1) y) (Z.ones 64)) (lane a (x + 2) y))).

(** The round constants, from the bits of a shift register. *)
Fixpoint rc_bits (n : nat) (r : Z) : list bool :=
  match n with
  | O => []
  | S n => Z.testbit r 0 :: rc_bits n (if Z.testbit r 7 then Z.lxor (low 8 (2 * r)) 113 else 2 * r)
  end.
Definition round_constant (bits : list bool) : Z :=
  fold_left Z.lor
    (zip_with (λ (j : nat) (b : bool), if b then Z.shiftl 1 (2 ^ Z.of_nat j - 1) else 0) (seq 0 7) bits) 0.
Definition round_constants : list Z := map round_constant (blocks_of 24 7 (rc_bits 168 1)).

Definition iota (rc : Z) (a : list Z) : list Z :=
  match a with [] => [] | l :: a => Z.lxor l rc :: a end.

Definition keccak_f (a : list Z) : list Z :=
  fold_left (λ a rc, iota rc (chi (pi (rho (theta a))))) round_constants a.

(** Blocks of 136 bytes are added to the state; the padding starts with the bits 01 of
    SHA-3. *)
Definition sha3_pad (b : bytes) : bytes :=
  let n := (136 - length b mod 136)%nat in
  if bool_decide (n = 1%nat) then b ++ [Byte.x86] else b ++ Byte.x06 :: replicate (n - 2) Byte.x00 ++ [Byte.x80].
Definition absorb (a : list Z) (block : bytes) : list Z :=
  let words := map LittleEndianList.le_combine (blocks_of 17 8 block) in
  keccak_f (zip_with Z.lxor a (words ++ replicate 8 0)).
Definition sha3_256_digest (b : bytes) : bytes :=
  let padded := sha3_pad b in
  let a := fold_left absorb (blocks_of (length padded) 136 padded) (replicate 25 0) in
  concat (map (LittleEndianList.le_split 8) (take 4 a)).

(** * Interfaces with these hashes *)

(** The order of the group of Ed25519. *)
Definition ed25519_order : Z := 2 ^ 252 + 27742317777372353535851937790883648493.

(** As [ToyCrypto], but with the hash of the crates, and scalars reduced by the order. *)
Definition HashedCrypto : CryptoLib := {|
  ONION_BASE32 := ONION_BASE32 (CryptoLib := ToyCrypto);
  BASE32_NOPAD := BASE32_NOPAD (CryptoLib := ToyCrypto);
  BASE64 := BASE64 (CryptoLib := ToyCrypto);
  HEXLOWER := HEXLOWER (CryptoLib := ToyCrypto);
  sha3_256 := sha3_256_digest;
  ExpandedKeypair := exactly 64;
  EdPublicKey := exactly 32;
  EdSignature := exactly 64;
  keypair_generate := keypair_generate (CryptoLib := ToyCrypto);
  keypair_from_secret_key_bytes := parse_exactly 64;
  keypair_to_secret_key_bytes := get;
  keypair_public := keypair_public (CryptoLib := ToyCrypto);
  keypair_sign := keypair_sign (CryptoLib := ToyCrypto);
  public_from_bytes := parse_exactly 32;
  public_as_bytes := get;
  signature_from_bytes := mk_exactly 64;
  signature_to_bytes := get;
  verify_strict := verify_strict (CryptoLib := ToyCrypto);
  scalar_reduce b := LittleEndianList.le_split 32 (LittleEndianList.le_combine b mod ed25519_order);
  StaticSecret := exactly 32;
  CurvePublicKey := exactly 32;
  secret_random := secret_random (CryptoLib := ToyCrypto);
  secret_from_bytes := mk_exactly 32;
  secret_to_bytes := get;
  curve_public := curve_public (CryptoLib := ToyCrypto);
  curve_from_bytes := mk_exactly 32;
  curve_as_bytes := get;
  convert_curve25519_to_ed25519_private := convert_curve25519_to_ed25519_private (CryptoLib := ToyCrypto);
  convert_curve25519_to_ed25519_public := convert_curve25519_to_ed25519_public (CryptoLib := ToyCrypto);
  os_random := os_random (CryptoLib := ToyCrypto);
|}.

Definition hex_upper_symbols : bytes := as_bytes "0123456789ABCDEF".
Definition HashedProcess : ProcessCrypto := {|
  os_alphanumeric n := Byte.x61;
  sha1 := sha1_digest;
  HEXUPPER := rfc_encoding 4 1 hex_upper_symbols;
|}.

(** * The published examples *)

Example sha1_abc :
  encode (HEXUPPER (ProcessCrypto := HashedProcess)) (sha1_digest (as_bytes "abc")) =
    as_bytes "A9993E364706816ABA3E25717850C26C9CD0D89D".
Proof. vm_compute. reflexivity. Qed.

Example sha3_256_abc :
  encode (HEXUPPER (ProcessCrypto := HashedProcess)) (sha3_256_digest (as_bytes "abc")) =
    as_bytes "3A985DA74FE225B2045C172D6BD390BD855F086E3E9D525B46BFE24511431532".
Proof. vm_compute. reflexivity. Qed.
