(* ===== verification/ArtiClient.v ===== *)
(** tor-interface/src/arti_client_tor_client.rs: the provider over the arti crates.

    The arti crates and tokio's sockets are the class [ArtiLib]; an error of theirs is not
    looked into.  The tasks the code spawns are a list in the state; a task waits for one
    future at a time, and [run_task] is what it does when that future gives a value (a
    [Wake]).  So any interleaving of the tasks with the calls of the provider is a sequence
    of calls and wakes.  The pump between a stream of arti and a local socket has its turns
    in [pump_turn]; the flag two pumps share is in the list [ac_flags]. *)

From Stdlib Require Import ZArith Lia.
From Stdlib Require Import Floats.SpecFloat.
From S2P Require Import Prelude HonkSize HonkSession Str NetAddr Crypto TorCrypto TorProvider MockTorClient TorConfig.
From S2P Require Import TorProcess.
From stdpp Require Import prelude strings list.
From coqutil Require Import Byte.

Open Scope nat_scope.

(** * Progress

    [f32] is the binary32 format of the standard library's [SpecFloat]. *)
Abbreviation f32 := spec_float.
Definition f32_zero : f32 := S754_zero false.
Definition f32_one : f32 := S754_finite false 8388608 (-23).
Definition f32_hundred : f32 := S754_finite false 13107200 (-17).

(** [f32::clamp]: a NaN stays one. *)
Definition f32_clamp (x min max : f32) : f32 :=
  if SFltb x min then min else if SFltb max x then max else x.
(** [as u32] *)
Definition u32_max : Z := 4294967295.
Definition f32_as_u32 (x : f32) : Z :=
  match x with
  | S754_nan | S754_zero _ | S754_infinity true => 0
  | S754_infinity false => u32_max
  | S754_finite true _ _ => 0
  | S754_finite false m e => Z.min u32_max (Z.shiftl (Zpos m) e)
  end.
(** [(evt.as_frac().clamp(0.0f32, 1.0f32) * 100f32) as u32] *)
Definition bootstrap_progress (frac : f32) : Z :=
  f32_as_u32 (SFmul 24 128 (f32_clamp frac f32_zero f32_one) f32_hundred).

(** * Pumps *)

(** What one pass of the loop of [forward_stream] finds: the reader first, with what the
    writer then does, or the timeout first.  A write that fails may have written a part. *)
Inductive PumpTurn :=
| Pump_Read (count : io_result bytes) (write_all : io_result unit) (written : nat) (flush : io_result unit)
| Pump_Timeout (flush : io_result unit).

Record Pump := mkPump { pu_remaining_retries : Z; pu_written : bytes }.

(** [let mut remaining_retries = 3;] *)
Definition pump_new : Pump := mkPump 3 [].

(** One pass: [alive] is the flag at its head, [alive'] when a timeout looks at it again.
    [Broken] is a break out of the loop, with what was written before it. *)
Inductive PumpResult := Pumping (p : Pump) | Broken (p : Pump).
Definition pump_turn (alive alive' : bool) (turn : PumpTurn) (p : Pump) : PumpResult :=
  if negb alive && (pu_remaining_retries p =? 0)%Z then Broken p
  else match turn with
  | Pump_Read (IoOk []) _ _ _ => Broken p
  | Pump_Read (IoOk buf) write_all written flush =>
      match write_all with
      | IoErr _ => Broken (mkPump (pu_remaining_retries p) (pu_written p ++ take written buf))
      | IoOk _ =>
          let p := mkPump (pu_remaining_retries p) (pu_written p ++ buf) in
          match flush with IoErr _ => Broken p | IoOk _ => Pumping p end
      end
  | Pump_Read (IoErr _) _ _ _ => Broken p
  | Pump_Timeout (IoErr _) => Broken p
  | Pump_Timeout (IoOk _) =>
      Pumping (if negb alive' then mkPump (pu_remaining_retries p - 1)%Z (pu_written p) else p)
  end.

(** * The libraries *)

(** What [IntoTorAddr] is asked to convert. *)
Inductive ArtiTarget :=
| AT_Dangerously (addr : SocketAddr)
| AT_Host (host : str) (port : Z).

(** [TorClientConfigBuilder], with what the code sets *)
Record ArtiConfig := mkArtiConfig {
  ar_cache_dir : str;
  ar_state_dir : str;
  ar_allow_local_addrs : bool;
  ar_allow_onion_addrs : bool;
}.

(** Results of the crates are options, [None] an error of theirs.  [ar_keymgr_insert] tells
    whether a key was there already.  The [tk_] operations are
    tokio's listeners and streams. *)
Class ArtiLib `{CL : CryptoLib} (H RW TL : Type) : Type := {
  TorClientConfig : Type;
  FsMistrust : Type;
  TorClient : Type;
  TorAddr : Type;
  DataStream : Type;
  KeyMgr : Type;
  HsNickname : Type;
  OnionServiceConfig : Type;
  StateDirectory : Type;
  OnionService : Type;
  TokioListener : Type;
  TokioStream : Type;
  ar_build : ArtiConfig → option TorClientConfig;
  ar_fs_mistrust : TorClientConfig → FsMistrust;
  ar_create_unbootstrapped : TorClientConfig → H → option TorClient * H;
  ar_tor_addr : ArtiTarget → option TorAddr;
  ar_connect : TorClient → TorAddr → H → option DataStream * H;
  ar_keymgr_build : option KeyMgr;
  ar_nickname : str → option HsNickname;
  ar_keymgr_insert : KeyMgr → ExpandedKeypair → HsNickname → option (bool * KeyMgr);
  ar_service_config : HsNickname → option OnionServiceConfig;
  ar_state_directory : str → FsMistrust → H → option StateDirectory * H;
  ar_service_new : OnionServiceConfig → KeyMgr → StateDirectory → option OnionService;
  ar_launch : OnionService → TorClient → H → option OnionService * H;
  tk_bind : SocketAddr → H → io_result TokioListener * H;
  tk_local_addr : TokioListener → io_result SocketAddr;
  tk_connect : SocketAddr → H → io_result TokioStream * H;
  tk_accept : TokioListener → H → io_result TokioStream * H;
  tk_into_std : TokioStream → io_result RW;
}.

(** [arti_client_tor_client::Error], without the errors of the crates *)
Inductive ACError :=
| AC_NotImplemented
| AC_TcpListenerBindFailed (kind : ErrorKind)
| AC_TcpListenerLocalAddrFailed (kind : ErrorKind)
| AC_TcpListenerAcceptFailed (kind : ErrorKind)
| AC_TcpStreamConnectFailed (kind : ErrorKind)
| AC_TcpStreamIntoFailed (kind : ErrorKind)
| AC_ArtiClientConfigBuilderError
| AC_ArtiClientError
| AC_ArtiClientTorAddrError
| AC_TorKeyMgrError
| AC_TorKeyMgrBuilderError
| AC_KeyMgrInsertionFailure
| AC_OnionServiceConfigBuilderError
| AC_TorPersistError
| AC_TorHsServiceStartupError.

(** * The client *)

Section client.
Context `{CL : CryptoLib} {H RW TL : Type} `{LB : !Loopback H RW TL} `{AL : !ArtiLib H RW TL}.

(** What the tasks hold: the events of the bootstrap, the bootstrap itself, the status of
    a service, its rendezvous requests, the streams of one of these, and one half of a
    forwarded connection. *)
Inductive Task :=
| T_BootstrapEvents
| T_Bootstrap
| T_StatusEvents (service_id : V3OnionServiceId)
| T_RendRequests (virt_port : Z) (socket_addr : SocketAddr)
| T_StreamRequests (virt_port : Z) (socket_addr : SocketAddr)
| T_ForwardStream (pump_alive : nat) (pump : Pump).

Record ArtiClientTorClient := mkArtiClientTorClient {
  ac_host : H;
  ac_arti_client : TorClient;
  ac_state_dir : str;
  ac_fs_mistrust : FsMistrust;
  ac_pending_events : list TorEvent;
  ac_tasks : list Task;
  ac_flags : list bool;
}.
Definition ac_set_host v s := let 'mkArtiClientTorClient _ x1 x2 x3 x4 x5 x6 := s in mkArtiClientTorClient v x1 x2 x3 x4 x5 x6.
Definition ac_set_pending v s := let 'mkArtiClientTorClient x0 x1 x2 x3 _ x5 x6 := s in mkArtiClientTorClient x0 x1 x2 x3 v x5 x6.
Definition ac_set_tasks v s := let 'mkArtiClientTorClient x0 x1 x2 x3 x4 _ x6 := s in mkArtiClientTorClient x0 x1 x2 x3 x4 v x6.
Definition ac_set_flags v s := let 'mkArtiClientTorClient x0 x1 x2 x3 x4 x5 _ := s in mkArtiClientTorClient x0 x1 x2 x3 x4 x5 v.

Abbreviation AC_ := (M ArtiClientTorClient ACError).

Definition ac_push (e : TorEvent) (s : ArtiClientTorClient) : ArtiClientTorClient :=
  ac_set_pending (ac_pending_events s ++ [e]) s.
Definition ac_spawn (ts : list Task) (s : ArtiClientTorClient) : ArtiClientTorClient :=
  ac_set_tasks (ac_tasks s ++ ts) s.

(** Two pumps with a flag of their own *)
Definition spawn_pumps (s : ArtiClientTorClient) : ArtiClientTorClient :=
  let pump_alive := length (ac_flags s) in
  ac_spawn [T_ForwardStream pump_alive pump_new; T_ForwardStream pump_alive pump_new]
    (ac_set_flags (ac_flags s ++ [true]) s).

(** [ArtiClientTorClient::new] *)
Definition arti_client_new (root_data_directory : str) (h : H) : result ACError ArtiClientTorClient * H :=
  let state_dir := path_join root_data_directory (lit "state") in
  match ar_build (mkArtiConfig (path_join root_data_directory (lit "cache")) state_dir false true) with
  | None => (Err AC_ArtiClientConfigBuilderError, h)
  | Some config =>
      let fs_mistrust := ar_fs_mistrust config in
      match ar_create_unbootstrapped config h with
      | (None, h) => (Err AC_ArtiClientError, h)
      | (Some arti_client, h) =>
          (Ok (mkArtiClientTorClient h arti_client state_dir fs_mistrust
                 [TE_LogReceived "Starting arti-client TorProvider"] [] []), h)
      end
  end.

(** ** The calls of the trait *)

(** An option or an IO result of the libraries, which may use the host. *)
Definition ac_arti {A} (e : ACError) (f : H → option A * H) : AC_ A := λ s,
  match f (ac_host s) with
  | (Some a, h) => Done (ac_set_host h s, Ok a)
  | (None, h) => Done (ac_set_host h s, Err e)
  end.
Definition ac_option {A} (e : ACError) (o : option A) : AC_ A := λ s,
  match o with Some a => Done (s, Ok a) | None => Done (s, Err e) end.
Definition ac_io {A} (e : ErrorKind → ACError) (f : H → io_result A * H) : AC_ A := λ s,
  match f (ac_host s) with
  | (IoOk a, h) => Done (ac_set_host h s, Ok a)
  | (IoErr kind, h) => Done (ac_set_host h s, Err (e kind))
  end.
Definition ac_io_pure {A} (e : ErrorKind → ACError) (r : io_result A) : AC_ A := ac_io e (λ h, (r, h)).

(** [update] *)
Definition ac_update : AC_ (list TorEvent) := λ s, Done (ac_set_pending [] s, Ok (ac_pending_events s)).

(** [bootstrap] *)
Definition ac_bootstrap : AC_ unit := modify (ac_spawn [T_BootstrapEvents; T_Bootstrap]).

(** [add_client_auth], [remove_client_auth] *)
Definition ac_add_client_auth (_ : V3OnionServiceId) (_ : X25519PrivateKey) : AC_ unit := throw AC_NotImplemented.
Definition ac_remove_client_auth (_ : V3OnionServiceId) : AC_ unit := throw AC_NotImplemented.

(** The target as arti takes it *)
Definition arti_target (target : TargetAddr) : ArtiTarget :=
  match target with
  | TA_Socket addr => AT_Dangerously addr
  | TA_Domain addr => AT_Host (da_domain addr) (da_port addr)
  | TA_OnionService (OA_V3 a) => AT_Host (sid_data (oa_service_id a) ++ lit ".onion") (oa_virt_port a)
  end.

(** [connect] *)
Definition ac_connect (target : TargetAddr) (circuit : option CircuitToken) : AC_ (OnionStream RW) :=
  match circuit with
  | Some _ => throw AC_NotImplemented
  | None =>
      arti_target ← ac_option AC_ArtiClientTorAddrError (ar_tor_addr (arti_target target));
      s ← get_state;
      _ ← ac_arti AC_ArtiClientError (ar_connect (ac_arti_client s) arti_target);
      server_listener ← ac_io AC_TcpListenerBindFailed (tk_bind any_port);
      socket_addr ← ac_io_pure AC_TcpListenerLocalAddrFailed (tk_local_addr server_listener);
      client_stream ← ac_io AC_TcpStreamConnectFailed (tk_connect socket_addr);
      _ ← ac_io AC_TcpListenerAcceptFailed (tk_accept server_listener);
      _ ← modify spawn_pumps;
      stream ← ac_io_pure AC_TcpStreamIntoFailed (tk_into_std client_stream);
      mret (mkOnionStream stream None (Some target))
  end.

(** [listener] *)
Definition ac_listener (private_key : Ed25519PrivateKey) (virt_port : Z)
    (authorized_clients : option (list X25519PublicKey)) : AC_ (OnionListener TL) :=
  match authorized_clients with
  | Some _ => throw AC_NotImplemented
  | None =>
      listener ← ac_io AC_TcpListenerBindFailed (lb_bind any_port);
      socket_addr ← ac_io_pure AC_TcpListenerLocalAddrFailed (lb_local_addr listener);
      keymgr ← ac_option AC_TorKeyMgrBuilderError ar_keymgr_build;
      let service_id := service_id_from_private_key private_key in
      hs_nickname ← (match ar_nickname (sid_data service_id) with Some n => mret n | None => panic end);
      expanded_keypair ←
        (match keypair_from_secret_key_bytes (keypair_to_secret_key_bytes (expanded_keypair private_key)) with
         | Some k => mret k | None => panic end);
      inserted ← ac_option AC_TorKeyMgrError (ar_keymgr_insert keymgr expanded_keypair hs_nickname);
      let '(present, keymgr) := inserted in
      if (present : bool) then throw AC_KeyMgrInsertionFailure
      else
        onion_service_config ← ac_option AC_OnionServiceConfigBuilderError (ar_service_config hs_nickname);
        s ← get_state;
        state_dir ← ac_arti AC_TorPersistError (ar_state_directory (ac_state_dir s) (ac_fs_mistrust s));
        onion_service ← ac_option AC_TorHsServiceStartupError (ar_service_new onion_service_config keymgr state_dir);
        _ ← ac_arti AC_TorHsServiceStartupError (ar_launch onion_service (ac_arti_client s));
        _ ← modify (ac_spawn [T_StatusEvents service_id; T_RendRequests virt_port socket_addr]);
        mret (mkOnionListener listener (OA_V3 (mkOnionAddrV3 service_id virt_port)))
  end.

(** ** The tasks *)

(** What the future a task waits for gives: the next bootstrap event, the end of the
    bootstrap, whether the next status is [Running], whether the next rendezvous request
    could be accepted, the next stream request (its port, if it is a [Begin]) with whether
    it could be accepted and the local socket connected, and one pass of a pump. *)
Inductive Wake :=
| W_BootstrapEvent (evt : option f32)
| W_BootstrapDone (ok : bool)
| W_Status (running : option bool)
| W_RendRequest (accepted : option bool)
| W_StreamRequest (request : option (option Z)) (accepted connected : bool)
| W_Pump (alive' : bool) (turn : PumpTurn).

(** Whether a stream request was taken up, dropped, or answered by closing its circuit. *)
Inductive StreamFate := SF_Forwarded | SF_Dropped | SF_ShutDown.

Definition should_accept (request : option Z) (virt_port : Z) : bool :=
  match request with Some port => (port =? virt_port)%Z | None => false end.

(** A task at its future: what it has become ([None] when it ended), what it did to the
    shared state, and what happened to a stream request.  A wake of another kind does not
    belong to the task. *)
Definition run_task (t : Task) (w : Wake) (s : ArtiClientTorClient) :
    option (option Task * ArtiClientTorClient * option StreamFate) :=
  match t, w with
  | T_BootstrapEvents, W_BootstrapEvent None => Some (None, s, None)
  | T_BootstrapEvents, W_BootstrapEvent (Some evt) =>
      Some (Some t, ac_push (TE_BootstrapStatus (bootstrap_progress evt) "no-tag" "no summary") s, None)
  | T_Bootstrap, W_BootstrapDone ok => Some (None, if ok then ac_push TE_BootstrapComplete s else s, None)
  | T_StatusEvents service_id, W_Status running =>
      match running with
      | None => Some (None, s, None)
      | Some true => Some (None, ac_push (TE_OnionServicePublished service_id) s, None)
      | Some false => Some (Some t, s, None)
      end
  | T_RendRequests virt_port socket_addr, W_RendRequest accepted =>
      match accepted with
      | None | Some false => Some (None, s, None)
      | Some true => Some (Some t, ac_spawn [T_StreamRequests virt_port socket_addr] s, None)
      end
  | T_StreamRequests virt_port _, W_StreamRequest request accepted connected =>
      match request with
      | None => Some (None, s, None)
      | Some request =>
          if should_accept request virt_port then
            if accepted && connected then Some (Some t, spawn_pumps s, Some SF_Forwarded)
            else Some (Some t, s, Some SF_Dropped)
          else Some (Some t, s, Some SF_ShutDown)
      end
  | T_ForwardStream pump_alive p, W_Pump alive' turn =>
      match pump_turn (default false (ac_flags s !! pump_alive)) alive' turn p with
      | Pumping p => Some (Some (T_ForwardStream pump_alive p), s, None)
      | Broken _ => Some (None, ac_set_flags (<[pump_alive := false]> (ac_flags s)) s, None)
      end
  | _, _ => None
  end.

(** The task at a position runs. *)
Definition wake (i : nat) (w : Wake) (s : ArtiClientTorClient) : option (ArtiClientTorClient * option StreamFate) :=
  match ac_tasks s !! i with
  | None => None
  | Some t =>
      match run_task t w s with
      | None => None
      | Some (t', s', fate) =>
          Some (ac_set_tasks (match t' with Some t' => <[i := t']> (ac_tasks s') | None => delete i (ac_tasks s') end) s',
                fate)
      end
  end.

(** ** The provider *)

(** [impl From<Error> for tor_provider::Error] *)
Definition ac_generic {A} (m : AC_ A) : M ArtiClientTorClient TorProviderError A := λ s,
  match m s with
  | Done (s, r) => Done (s, map_err (λ _, TP_Generic) r)
  | Panicked => Panicked
  | OutOfFuel => OutOfFuel
  end.

(** The service of a dropped listener is torn down by its crate: its tasks see the end of
    their streams. *)
#[export] Instance arti_tor_provider : TorProvider ArtiClientTorClient RW TL := {
  tp_update := ac_generic ac_update;
  tp_bootstrap := ac_generic ac_bootstrap;
  tp_add_client_auth id key := ac_generic (ac_add_client_auth id key);
  tp_remove_client_auth id := ac_generic (ac_remove_client_auth id);
  tp_connect target circuit := ac_generic (ac_connect target circuit);
  tp_listener key port clients := ac_generic (ac_listener key port clients);
  tp_generate_token s := (0, s);
  tp_release_token _ s := s;
  tp_drop_listener _ s := s;
}.
End client.
