(* ===== verification/Context.v ===== *)
(** gosling/src/context.rs: the [Context], which owns the tor provider, the listeners and the
    handshakes in progress, and turns what happens to them into events. *)

From Stdlib Require Import ZArith Lia.
From S2P Require Import Prelude Bson HonkWire HonkSize VecDeque Maps HonkSession HonkRead HonkWrite HonkUpdate.
From S2P Require Import Crypto TorCrypto GoslingProto IdentityServer IdentityClient EndpointServer.
From S2P Require Import EndpointClient TorProvider.
From stdpp Require Import prelude strings list.

Open Scope nat_scope.

Abbreviation HandshakeHandle := Z.
Definition DEFAULT_ENDPOINT_TIMEOUT : Duration := (60 * 1000000000)%Z.
Definition DEFAULT_ENDPOINT_MAX_MESSAGE_SIZE : Z := 384.

(** [context::Error]; the texts are left out. *)
Inductive CXError `{BsonLib} :=
| CX_InvalidArgument
| CX_TorNotConnected
| CX_HandshakeHandleNotFound (handle : HandshakeHandle)
| CX_IncorrectUsage
| CX_Io (kind : ErrorKind)
| CX_HonkRpc (err : HonkError)
| CX_TorCrypto (err : CryptoError)
| CX_TorProvider (err : TorProviderError)
| CX_IdentityClientError (err : ICError)
| CX_IdentityServerError (err : ISError)
| CX_EndpointClientError (err : ECError)
| CX_EndpointServerError (err : EPError).

(** [ContextEvent] *)
Inductive ContextEvent `{BsonLib, CryptoLib} (RW : Type) :=
| CE_TorBootstrapStatusReceived (progress : Z) (tag summary : string)
| CE_TorBootstrapCompleted
| CE_TorLogReceived (line : string)
| CE_IdentityClientChallengeReceived (handle : HandshakeHandle) (endpoint_challenge : Document)
| CE_IdentityClientHandshakeCompleted (handle : HandshakeHandle)
    (identity_service_id endpoint_service_id : V3OnionServiceId) (endpoint_name : string)
    (client_auth_private_key : X25519PrivateKey)
| CE_IdentityClientHandshakeFailed (handle : HandshakeHandle) (reason : CXError)
| CE_IdentityServerPublished
| CE_IdentityServerHandshakeStarted (handle : HandshakeHandle)
| CE_IdentityServerEndpointRequestReceived (handle : HandshakeHandle)
    (client_service_id : V3OnionServiceId) (requested_endpoint : string)
| CE_IdentityServerChallengeResponseReceived (handle : HandshakeHandle) (challenge_response : Document)
| CE_IdentityServerHandshakeCompleted (handle : HandshakeHandle) (endpoint_private_key : Ed25519PrivateKey)
    (endpoint_name : string) (client_service_id : V3OnionServiceId) (client_auth_public_key : X25519PublicKey)
| CE_IdentityServerHandshakeRejected (handle : HandshakeHandle)
    (client_allowed client_requested_endpoint_valid client_proof_signature_valid
     client_auth_signature_valid challenge_response_valid : bool)
| CE_IdentityServerHandshakeFailed (handle : HandshakeHandle) (reason : CXError)
| CE_EndpointClientHandshakeCompleted (handle : HandshakeHandle) (endpoint_service_id : V3OnionServiceId)
    (channel_name : string) (stream : RW)
| CE_EndpointClientHandshakeFailed (handle : HandshakeHandle) (reason : CXError)
| CE_EndpointServerPublished (endpoint_service_id : V3OnionServiceId) (endpoint_name : string)
| CE_EndpointServerHandshakeStarted (handle : HandshakeHandle)
| CE_EndpointServerChannelRequestReceived (handle : HandshakeHandle) (client_service_id : V3OnionServiceId)
    (requested_channel : string)
| CE_EndpointServerHandshakeCompleted (handle : HandshakeHandle)
    (endpoint_service_id client_service_id : V3OnionServiceId) (channel_name : string) (stream : RW)
| CE_EndpointServerHandshakeRejected (handle : HandshakeHandle)
    (client_allowed client_requested_channel_valid client_proof_signature_valid : bool)
| CE_EndpointServerHandshakeFailed (handle : HandshakeHandle) (reason : CXError).
Arguments CE_TorBootstrapStatusReceived {_ _ RW} _ _ _.
Arguments CE_TorBootstrapCompleted {_ _ RW}.
Arguments CE_TorLogReceived {_ _ RW} _.
Arguments CE_IdentityClientChallengeReceived {_ _ RW} _ _.
Arguments CE_IdentityClientHandshakeCompleted {_ _ RW} _ _ _ _ _.
Arguments CE_IdentityClientHandshakeFailed {_ _ RW} _ _.
Arguments CE_IdentityServerPublished {_ _ RW}.
Arguments CE_IdentityServerHandshakeStarted {_ _ RW} _.
Arguments CE_IdentityServerEndpointRequestReceived {_ _ RW} _ _ _.
Arguments CE_IdentityServerChallengeResponseReceived {_ _ RW} _ _.
Arguments CE_IdentityServerHandshakeCompleted {_ _ RW} _ _ _ _ _.
Arguments CE_IdentityServerHandshakeRejected {_ _ RW} _ _ _ _ _ _.
Arguments CE_IdentityServerHandshakeFailed {_ _ RW} _ _.
Arguments CE_EndpointClientHandshakeCompleted {_ _ RW} _ _ _ _.
Arguments CE_EndpointClientHandshakeFailed {_ _ RW} _ _.
Arguments CE_EndpointServerPublished {_ _ RW} _ _.
Arguments CE_EndpointServerHandshakeStarted {_ _ RW} _.
Arguments CE_EndpointServerChannelRequestReceived {_ _ RW} _ _ _.
Arguments CE_EndpointServerHandshakeCompleted {_ _ RW} _ _ _ _ _.
Arguments CE_EndpointServerHandshakeRejected {_ _ RW} _ _ _ _.
Arguments CE_EndpointServerHandshakeFailed {_ _ RW} _ _.

(** * Handshakes as the context sees them *)

(** What the four maps of handshakes have in common: a handshake draws random numbers, is
    updated, and what an update returns is reported as an event under its handle, after
    which the handshake stays ([true]) or is removed ([false]). *)
Class Handshake `{BsonLib, CryptoLib} (RW V : Type) : Type := {
  hs_error : Type;
  hs_event : Type;
  hs_draws : V → nat;
  hs_set_draws : nat → V → V;
  hs_update : nat → M V hs_error (option hs_event);
  hs_from : hs_error → CXError;
  hs_report : HandshakeHandle → V → result hs_error (option hs_event) → option (ContextEvent RW) * bool;
}.

Section handshakes.
Context `{BL : BsonLib} `{CL : CryptoLib} {RW : Type} `{!Stream RW}.

(** The closure of [self.identity_clients.retain] *)
#[export] Instance identity_client_handshake : Handshake RW (IdentityClient RW) := {
  hs_error := ICError;
  hs_event := IdentityClientEvent;
  hs_draws := ic_draws;
  hs_set_draws := ic_set_draws;
  hs_update := ic_update;
  hs_from := CX_IdentityClientError;
  hs_report handle _ r :=
    match r with
    | Ok (Some (IC_ChallengeReceived endpoint_challenge)) =>
        (Some (CE_IdentityClientChallengeReceived handle endpoint_challenge), true)
    | Ok (Some (IC_HandshakeCompleted identity_service_id endpoint_service_id endpoint_name key)) =>
        (Some (CE_IdentityClientHandshakeCompleted handle identity_service_id endpoint_service_id
                 endpoint_name key), false)
    | Err err => (Some (CE_IdentityClientHandshakeFailed handle (CX_IdentityClientError err)), false)
    | Ok None => (None, true)
    end;
}.

(** The closure of [self.identity_servers.retain] *)
#[export] Instance identity_server_handshake : Handshake RW (IdentityServer RW) := {
  hs_error := ISError;
  hs_event := IdentityServerEvent;
  hs_draws := is_draws;
  hs_set_draws := is_set_draws;
  hs_update := is_update;
  hs_from := CX_IdentityServerError;
  hs_report handle _ r :=
    match r with
    | Ok (Some (IS_EndpointRequestReceived client_service_id requested_endpoint)) =>
        (Some (CE_IdentityServerEndpointRequestReceived handle client_service_id
                 (ascii_value requested_endpoint)), true)
    | Ok (Some (IS_ChallengeResponseReceived challenge_response)) =>
        (Some (CE_IdentityServerChallengeResponseReceived handle challenge_response), true)
    | Ok (Some (IS_HandshakeCompleted endpoint_private_key endpoint_name client_service_id auth_key)) =>
        (Some (CE_IdentityServerHandshakeCompleted handle endpoint_private_key (ascii_value endpoint_name)
                 client_service_id auth_key), false)
    | Ok (Some (IS_HandshakeRejected allowed endpoint_valid proof_valid auth_valid response_valid)) =>
        (Some (CE_IdentityServerHandshakeRejected handle allowed endpoint_valid proof_valid auth_valid
                 response_valid), false)
    | Err err => (Some (CE_IdentityServerHandshakeFailed handle (CX_IdentityServerError err)), false)
    | Ok None => (None, true)
    end;
}.

(** The closure of [self.endpoint_clients.retain] *)
#[export] Instance endpoint_client_handshake : Handshake RW (EndpointClient RW) := {
  hs_error := ECError;
  hs_event := EndpointClientEvent RW;
  hs_draws := ec_draws;
  hs_set_draws := ec_set_draws;
  hs_update := ec_update;
  hs_from := CX_EndpointClientError;
  hs_report handle endpoint_client r :=
    match r with
    | Ok (Some (EC_HandshakeCompleted stream)) =>
        (Some (CE_EndpointClientHandshakeCompleted handle (ec_server_service_id endpoint_client)
                 (ascii_value (ec_requested_channel endpoint_client)) stream), false)
    | Err err => (Some (CE_EndpointClientHandshakeFailed handle (CX_EndpointClientError err)), false)
    | Ok None => (None, true)
    end;
}.

(** The closure of [self.endpoint_servers.retain] *)
#[export] Instance endpoint_server_handshake : Handshake RW (EndpointServer RW) := {
  hs_error := EPError;
  hs_event := EndpointServerEvent RW;
  hs_draws := ep_draws;
  hs_set_draws := ep_set_draws;
  hs_update := ep_update;
  hs_from := CX_EndpointServerError;
  hs_report handle endpoint_server r :=
    match r with
    | Ok (Some (EP_ChannelRequestReceived client_service_id requested_channel)) =>
        (Some (CE_EndpointServerChannelRequestReceived handle client_service_id
                 (ascii_value requested_channel)), true)
    | Ok (Some (EP_HandshakeCompleted client_service_id channel_name stream)) =>
        (Some (CE_EndpointServerHandshakeCompleted handle (ep_server_identity endpoint_server)
                 client_service_id (ascii_value channel_name) stream), false)
    | Ok (Some (EP_HandshakeRejected allowed channel_valid proof_valid)) =>
        (Some (CE_EndpointServerHandshakeRejected handle allowed channel_valid proof_valid), false)
    | Err err => (Some (CE_EndpointServerHandshakeFailed handle (CX_EndpointServerError err)), false)
    | Ok None => (None, true)
    end;
}.
End handshakes.

(** * The context *)

Section context.
Context `{BL : BsonLib} `{CL : CryptoLib} {RW TL P : Type} `{!Stream RW} `{!Sockets RW TL}
  `{!TorProvider P RW TL} `{!HashOrder V3OnionServiceId}.

(** The tuple of [endpoint_listeners]. *)
Record EndpointListener := mkEndpointListener {
  el_name : string;
  el_allowed_client : V3OnionServiceId;
  el_listener : OnionListener TL;
  el_published : bool;
}.

(** [cx_draws] is the position of the operating system's random numbers, which every
    handshake of the context draws from. *)
Record Context := mkContext {
  cx_tor_provider : P;
  cx_draws : nat;
  cx_bootstrap_complete : bool;
  cx_identity_port : Z;
  cx_endpoint_port : Z;
  cx_identity_timeout : Duration;
  cx_identity_max_message_size : Z;
  cx_endpoint_timeout : Duration;
  cx_next_handshake_handle : HandshakeHandle;
  cx_identity_clients : BTreeMap (IdentityClient RW);
  cx_identity_servers : BTreeMap (IdentityServer RW);
  cx_endpoint_clients : BTreeMap (EndpointClient RW);
  cx_endpoint_servers : BTreeMap (EndpointServer RW);
  cx_identity_listener : option (OnionListener TL);
  cx_identity_server_published : bool;
  cx_endpoint_listeners : HashMap V3OnionServiceId EndpointListener;
  cx_identity_private_key : Ed25519PrivateKey;
  cx_identity_service_id : V3OnionServiceId;
}.

Definition cx_set_tor v s := let 'mkContext _ x1 x2 x3 x4 x5 x6 x7 x8 x9 x10 x11 x12 x13 x14 x15 x16 x17 := s in mkContext v x1 x2 x3 x4 x5 x6 x7 x8 x9 x10 x11 x12 x13 x14 x15 x16 x17.
Definition cx_set_draws v s := let 'mkContext x0 _ x2 x3 x4 x5 x6 x7 x8 x9 x10 x11 x12 x13 x14 x15 x16 x17 := s in mkContext x0 v x2 x3 x4 x5 x6 x7 x8 x9 x10 x11 x12 x13 x14 x15 x16 x17.
Definition cx_set_bootstrap v s := let 'mkContext x0 x1 _ x3 x4 x5 x6 x7 x8 x9 x10 x11 x12 x13 x14 x15 x16 x17 := s in mkContext x0 x1 v x3 x4 x5 x6 x7 x8 x9 x10 x11 x12 x13 x14 x15 x16 x17.
Definition cx_set_next v s := let 'mkContext x0 x1 x2 x3 x4 x5 x6 x7 _ x9 x10 x11 x12 x13 x14 x15 x16 x17 := s in mkContext x0 x1 x2 x3 x4 x5 x6 x7 v x9 x10 x11 x12 x13 x14 x15 x16 x17.
Definition cx_set_identity_clients v s := let 'mkContext x0 x1 x2 x3 x4 x5 x6 x7 x8 _ x10 x11 x12 x13 x14 x15 x16 x17 := s in mkContext x0 x1 x2 x3 x4 x5 x6 x7 x8 v x10 x11 x12 x13 x14 x15 x16 x17.
Definition cx_set_identity_servers v s := let 'mkContext x0 x1 x2 x3 x4 x5 x6 x7 x8 x9 _ x11 x12 x13 x14 x15 x16 x17 := s in mkContext x0 x1 x2 x3 x4 x5 x6 x7 x8 x9 v x11 x12 x13 x14 x15 x16 x17.
Definition cx_set_endpoint_clients v s := let 'mkContext x0 x1 x2 x3 x4 x5 x6 x7 x8 x9 x10 _ x12 x13 x14 x15 x16 x17 := s in mkContext x0 x1 x2 x3 x4 x5 x6 x7 x8 x9 x10 v x12 x13 x14 x15 x16 x17.
Definition cx_set_endpoint_servers v s := let 'mkContext x0 x1 x2 x3 x4 x5 x6 x7 x8 x9 x10 x11 _ x13 x14 x15 x16 x17 := s in mkContext x0 x1 x2 x3 x4 x5 x6 x7 x8 x9 x10 x11 v x13 x14 x15 x16 x17.
Definition cx_set_identity_listener v s := let 'mkContext x0 x1 x2 x3 x4 x5 x6 x7 x8 x9 x10 x11 x12 _ x14 x15 x16 x17 := s in mkContext x0 x1 x2 x3 x4 x5 x6 x7 x8 x9 x10 x11 x12 v x14 x15 x16 x17.
Definition cx_set_published v s := let 'mkContext x0 x1 x2 x3 x4 x5 x6 x7 x8 x9 x10 x11 x12 x13 _ x15 x16 x17 := s in mkContext x0 x1 x2 x3 x4 x5 x6 x7 x8 x9 x10 x11 x12 x13 v x15 x16 x17.
Definition cx_set_endpoint_listeners v s := let 'mkContext x0 x1 x2 x3 x4 x5 x6 x7 x8 x9 x10 x11 x12 x13 x14 _ x16 x17 := s in mkContext x0 x1 x2 x3 x4 x5 x6 x7 x8 x9 x10 x11 x12 x13 x14 v x16 x17.

Abbreviation CX_ := (M Context CXError).
Abbreviation events := (list (ContextEvent RW)).

(** [Context::new], which never fails *)
Definition context_new (tor_provider : P) (identity_port endpoint_port : Z) (identity_timeout : Duration)
    (identity_max_message_size : Z) (endpoint_timeout : option Duration)
    (identity_private_key : Ed25519PrivateKey) (draws : nat) : Context :=
  {| cx_tor_provider := tor_provider;
     cx_draws := draws;
     cx_bootstrap_complete := false;
     cx_identity_port := identity_port;
     cx_endpoint_port := endpoint_port;
     cx_identity_timeout := identity_timeout;
     cx_identity_max_message_size := identity_max_message_size;
     cx_endpoint_timeout := default DEFAULT_ENDPOINT_TIMEOUT endpoint_timeout;
     cx_next_handshake_handle := 0;
     cx_identity_clients := [];
     cx_identity_servers := [];
     cx_endpoint_clients := [];
     cx_endpoint_servers := [];
     cx_identity_listener := None;
     cx_identity_server_published := false;
     cx_endpoint_listeners := [];
     cx_identity_private_key := identity_private_key;
     cx_identity_service_id := service_id_from_private_key identity_private_key |}.

(** ** Calls of the parts *)

(** A method of the provider, its error wrapped by [#[from]]. *)
Definition cx_on_tor {X} (m : M P TorProviderError X) : CX_ X := λ c,
  match m (cx_tor_provider c) with
  | Done (p, r) => Done (cx_set_tor p c, map_err CX_TorProvider r)
  | Panicked => Panicked
  | OutOfFuel => OutOfFuel
  end.

(** A value of the state that a call may panic on. *)
Definition cx_outcome {X} (o : outcome X) : CX_ X := λ c,
  match o with Done x => Done (c, Ok x) | Panicked => Panicked | OutOfFuel => OutOfFuel end.

(** [let handle = self.next_handshake_handle; self.next_handshake_handle += 1;] *)
Definition cx_new_handle : CX_ HandshakeHandle := λ c,
  let handle := cx_next_handshake_handle c in
  if (handle <? usize_max)%Z then Done (cx_set_next (handle + 1)%Z c, Ok handle) else Panicked.

(** [Session::new(stream)] with its timeout and its limit, which may be refused. *)
Definition new_session (stream : RW) (max_wait_time : Duration) (max_message_size : Z) :
    result HonkError (Session RW) :=
  match set_max_message_size max_message_size (set_max_wait_time max_wait_time (session_new stream)) with
  | Done (session, Ok _) => Ok session
  | Done (_, Err err) => Err err
  | _ => Err InvalidMaxMesageSize
  end.

(** A connection to an onion service, in non-blocking mode. *)
Definition cx_connect_nonblocking (service_id : V3OnionServiceId) (port : Z) : CX_ RW :=
  stream ← cx_on_tor (tp_connect (target_addr_from service_id port) None);
  match ts_set_nonblocking true (os_stream stream) with
  | (IoOk _, stream) => mret stream
  | (IoErr kind, _) => throw (CX_Io kind)
  end.

(** Dropping a listener. *)
Definition cx_drop_listener (l : OnionListener TL) (c : Context) : Context :=
  cx_set_tor (tp_drop_listener l (cx_tor_provider c)) c.

(** ** Starting and stopping *)

(** [bootstrap] *)
Definition cx_bootstrap : CX_ unit := cx_on_tor tp_bootstrap.

(** [identity_client_begin_handshake] *)
Definition identity_client_begin_handshake (identity_server_id : V3OnionServiceId) (endpoint : string) :
    CX_ HandshakeHandle :=
  match ascii_string_new endpoint with
  | Err _ => throw CX_InvalidArgument
  | Ok endpoint =>
      c ← get_state;
      if negb (cx_bootstrap_complete c) then throw CX_TorNotConnected
      else
        stream ← cx_connect_nonblocking identity_server_id (cx_identity_port c);
        match new_session stream (cx_identity_timeout c) (cx_identity_max_message_size c) with
        | Err err => throw (CX_HonkRpc err)
        | Ok client_rpc =>
            key ← cx_outcome (ed25519_private_clone (cx_identity_private_key c));
            draws ← gets cx_draws;
            _ ← modify (cx_set_draws (S draws));
            match identity_client_new client_rpc identity_server_id endpoint key
                    (x25519_generate (os_random draws 32)) (S draws) with
            | Err err => throw (CX_IdentityClientError err)
            | Ok ident_client =>
                handle ← cx_new_handle;
                _ ← modify (λ c, cx_set_identity_clients (bt_insert (cx_identity_clients c) handle ident_client) c);
                mret handle
            end
        end
  end.

(** [identity_client_abort_handshake] *)
Definition identity_client_abort_handshake (handle : HandshakeHandle) : CX_ unit := λ c,
  match bt_get (cx_identity_clients c) handle with
  | Some _ => Done (cx_set_identity_clients (bt_remove (cx_identity_clients c) handle) c, Ok tt)
  | None => Done (c, Err (CX_HandshakeHandleNotFound handle))
  end.

(** [identity_server_start] *)
Definition identity_server_start : CX_ unit :=
  c ← get_state;
  if negb (cx_bootstrap_complete c) then throw CX_TorNotConnected
  else match cx_identity_listener c with
  | Some _ => throw CX_IncorrectUsage
  | None =>
      listener ← cx_on_tor (tp_listener (cx_identity_private_key c) (cx_identity_port c) None);
      match ol_set_nonblocking true listener with
      | (IoErr kind, listener) => _ ← modify (cx_drop_listener listener); throw (CX_Io kind)
      | (IoOk _, listener) => modify (cx_set_identity_listener (Some listener))
      end
  end.

(** [identity_server_stop] *)
Definition identity_server_stop : CX_ unit := λ c,
  match cx_identity_listener c with
  | None => Done (c, Err CX_IncorrectUsage)
  | Some listener =>
      let c := cx_drop_listener listener (cx_set_identity_listener None c) in
      let c := cx_set_published false c in
      Done (cx_set_identity_servers [] c, Ok tt)
  end.

(** [endpoint_client_begin_handshake] *)
Definition endpoint_client_begin_handshake (endpoint_server_id : V3OnionServiceId)
    (client_auth_key : X25519PrivateKey) (channel : string) : CX_ HandshakeHandle :=
  match ascii_string_new channel with
  | Err _ => throw CX_InvalidArgument
  | Ok channel =>
      c ← get_state;
      if negb (cx_bootstrap_complete c) then throw CX_TorNotConnected
      else
        _ ← cx_on_tor (tp_add_client_auth endpoint_server_id client_auth_key);
        stream ← cx_connect_nonblocking endpoint_server_id (cx_endpoint_port c);
        match new_session stream (cx_endpoint_timeout c) DEFAULT_ENDPOINT_MAX_MESSAGE_SIZE with
        | Err err => throw (CX_HonkRpc err)
        | Ok session =>
            key ← cx_outcome (ed25519_private_clone (cx_identity_private_key c));
            draws ← gets cx_draws;
            let endpoint_client := endpoint_client_new session endpoint_server_id channel key draws in
            handle ← cx_new_handle;
            _ ← modify (λ c, cx_set_endpoint_clients (bt_insert (cx_endpoint_clients c) handle endpoint_client) c);
            mret handle
        end
  end.

(** [endpoint_client_abort_handshake] *)
Definition endpoint_client_abort_handshake (handle : HandshakeHandle) : CX_ unit := λ c,
  match bt_get (cx_endpoint_clients c) handle with
  | Some _ => Done (cx_set_endpoint_clients (bt_remove (cx_endpoint_clients c) handle) c, Ok tt)
  | None => Done (c, Err (CX_HandshakeHandleNotFound handle))
  end.

(** [endpoint_server_start] *)
Definition endpoint_server_start (endpoint_private_key : Ed25519PrivateKey) (endpoint_name : string)
    (client_identity : V3OnionServiceId) (client_auth : X25519PublicKey) : CX_ unit :=
  c ← get_state;
  if negb (cx_bootstrap_complete c) then throw CX_TorNotConnected
  else
    let endpoint_service_id := service_id_from_public_key (ed25519_public_from_private endpoint_private_key) in
    if decide (endpoint_service_id = cx_identity_service_id c) then throw CX_InvalidArgument
    else if hm_contains_key (cx_endpoint_listeners c) endpoint_service_id then throw CX_IncorrectUsage
    else
      listener ← cx_on_tor (tp_listener endpoint_private_key (cx_endpoint_port c) (Some [client_auth]));
      match ol_set_nonblocking true listener with
      | (IoErr kind, listener) => _ ← modify (cx_drop_listener listener); throw (CX_Io kind)
      | (IoOk _, listener) =>
          modify (λ c, cx_set_endpoint_listeners
            (hm_insert (cx_endpoint_listeners c) endpoint_service_id
               (mkEndpointListener endpoint_name client_identity listener false)) c)
      end.

(** [endpoint_server_stop] *)
Definition endpoint_server_stop (endpoint_identity : V3OnionServiceId) : CX_ unit :=
  c ← get_state;
  if negb (cx_bootstrap_complete c) then throw CX_TorNotConnected
  else match hm_get (cx_endpoint_listeners c) endpoint_identity with
  | Some listener =>
      modify (λ c, cx_drop_listener (el_listener listener)
        (cx_set_endpoint_listeners (hm_remove (cx_endpoint_listeners c) endpoint_identity) c))
  | None => throw CX_InvalidArgument
  end.

(** ** Answers of the application *)

(** [self.<map>.get_mut(&handle)] and a method of the handshake found there. *)
Definition cx_on_handshake {V X} `{!Handshake RW V} (field : Context → BTreeMap V)
    (set_field : BTreeMap V → Context → Context) (handle : HandshakeHandle) (m : M V hs_error X) :
    CX_ X := λ c,
  match bt_get (field c) handle with
  | None => Done (c, Err (CX_HandshakeHandleNotFound handle))
  | Some v =>
      match m (hs_set_draws (cx_draws c) v) with
      | Done (v, r) =>
          Done (cx_set_draws (hs_draws v) (set_field (bt_set (field c) handle v) c), map_err hs_from r)
      | Panicked => Panicked
      | OutOfFuel => OutOfFuel
      end
  end.

(** [identity_client_handle_challenge_received] *)
Definition identity_client_handle_challenge_received (handle : HandshakeHandle)
    (challenge_response : Document) : CX_ unit :=
  cx_on_handshake cx_identity_clients cx_set_identity_clients handle (ic_send_response challenge_response).

(** [identity_server_handle_endpoint_request_received] *)
Definition identity_server_handle_endpoint_request_received (handle : HandshakeHandle)
    (client_allowed endpoint_supported : bool) (endpoint_challenge : Document) : CX_ unit :=
  cx_on_handshake cx_identity_servers cx_set_identity_servers handle
    (is_handle_endpoint_request_received client_allowed endpoint_supported endpoint_challenge).

(** [identity_server_handle_challenge_response_received] *)
Definition identity_server_handle_challenge_response_received (handle : HandshakeHandle)
    (challenge_response_valid : bool) : CX_ unit :=
  cx_on_handshake cx_identity_servers cx_set_identity_servers handle
    (is_handle_challenge_response_received challenge_response_valid).

(** [endpoint_server_handle_channel_request_received] *)
Definition endpoint_server_handle_channel_request_received (handle : HandshakeHandle)
    (channel_supported : bool) : CX_ unit :=
  cx_on_handshake cx_endpoint_servers cx_set_endpoint_servers handle
    (ep_handle_channel_request_received channel_supported).

(** ** Pass-throughs *)

(** [connect] *)
Definition cx_connect (target_addr : TargetAddr) (circuit_token : option CircuitToken) :
    CX_ (OnionStream RW) := cx_on_tor (tp_connect target_addr circuit_token).

(** [generate_circuit_token] *)
Definition generate_circuit_token (c : Context) : CircuitToken * Context :=
  let '(token, p) := tp_generate_token (cx_tor_provider c) in (token, cx_set_tor p c).

(** [release_circuit_token] *)
Definition release_circuit_token (token : CircuitToken) (c : Context) : Context :=
  cx_set_tor (tp_release_token token (cx_tor_provider c)) c.

(** ** [update] *)

(** [identity_server_handle_accept] *)
Definition identity_server_handle_accept (identity_listener : OnionListener TL)
    (identity_timeout : Duration) (identity_max_message_size : Z) (identity_private_key : Ed25519PrivateKey)
    (draws : nat) : result CXError (option (IdentityServer RW)) * OnionListener TL :=
  let '(r, identity_listener) := ol_accept identity_listener in
  (match r with
   | IoErr kind => Err (CX_Io kind)
   | IoOk None => Ok None
   | IoOk (Some stream) =>
       match ts_set_nonblocking true (os_stream stream) with
       | (IoErr _, _) => Ok None
       | (IoOk _, stream) =>
           match new_session stream identity_timeout identity_max_message_size with
           | Err err => Err (CX_HonkRpc err)
           | Ok server_rpc =>
               let service_id := service_id_from_private_key identity_private_key in
               Ok (Some (identity_server_new server_rpc service_id draws))
           end
       end
   end, identity_listener).

(** [endpoint_server_handle_accept] *)
Definition endpoint_server_handle_accept (endpoint_listener : OnionListener TL)
    (endpoint_timeout : Duration) (client_service_id endpoint_service_id : V3OnionServiceId)
    (draws : nat) : result CXError (option (EndpointServer RW)) * OnionListener TL :=
  let '(r, endpoint_listener) := ol_accept endpoint_listener in
  (match r with
   | IoErr kind => Err (CX_Io kind)
   | IoOk None => Ok None
   | IoOk (Some stream) =>
       match ts_set_nonblocking true (os_stream stream) with
       | (IoErr _, _) => Ok None
       | (IoOk _, stream) =>
           match new_session stream endpoint_timeout DEFAULT_ENDPOINT_MAX_MESSAGE_SIZE with
           | Err err => Err (CX_HonkRpc err)
           | Ok server_rpc =>
               Ok (Some (endpoint_server_new server_rpc client_service_id endpoint_service_id draws))
           end
       end
   end, endpoint_listener).

(** "first handle new identity connections" *)
Definition accept_identity_connection : CX_ events :=
  c ← get_state;
  match cx_identity_listener c with
  | None => mret []
  | Some identity_listener =>
      let '(r, identity_listener) := identity_server_handle_accept identity_listener (cx_identity_timeout c)
        (cx_identity_max_message_size c) (cx_identity_private_key c) (cx_draws c) in
      _ ← modify (cx_set_identity_listener (Some identity_listener));
      match r with
      | Ok (Some identity_server) =>
          handle ← cx_new_handle;
          _ ← modify (λ c, cx_set_draws (is_draws identity_server)
                (cx_set_identity_servers (bt_insert (cx_identity_servers c) handle identity_server) c));
          mret [CE_IdentityServerHandshakeStarted handle]
      | Ok None => mret []
      | Err _ =>
          _ ← modify (λ c, cx_drop_listener identity_listener (cx_set_identity_listener None c));
          mret []
      end
  end.

(** The closure of [self.endpoint_listeners.retain]. *)
Definition accept_endpoint_connection (endpoint_service_id : V3OnionServiceId) (l : EndpointListener)
    (ce : Context * events) : outcome ((Context * events) * (EndpointListener * bool)) :=
  let '(c, evs) := ce in
  let '(r, listener) := endpoint_server_handle_accept (el_listener l) (cx_endpoint_timeout c)
    (el_allowed_client l) endpoint_service_id (cx_draws c) in
  let l := mkEndpointListener (el_name l) (el_allowed_client l) listener (el_published l) in
  match r with
  | Ok (Some endpoint_server) =>
      match cx_new_handle c with
      | Done (c, Ok handle) =>
          let c := cx_set_draws (ep_draws endpoint_server)
            (cx_set_endpoint_servers (bt_insert (cx_endpoint_servers c) handle endpoint_server) c) in
          Done ((c, evs ++ [CE_EndpointServerHandshakeStarted handle]), (l, true))
      | _ => Panicked
      end
  | Ok None => Done ((c, evs), (l, true))
  | Err _ => Done ((cx_drop_listener listener c, evs), (l, false))
  end.

(** "next handle new endpoint connections" *)
Definition accept_endpoint_connections (evs : events) : CX_ events := λ c,
  match retain accept_endpoint_connection (hm_entries (cx_endpoint_listeners c)) (c, evs) with
  | Done ((c, evs), listeners) => Done (cx_set_endpoint_listeners listeners c, Ok evs)
  | Panicked => Panicked
  | OutOfFuel => OutOfFuel
  end.

(** "consume tor events": one of them *)
Definition handle_tor_event (ce : Context * events) (event : TorEvent) : Context * events :=
  let '(c, evs) := ce in
  match event with
  | TE_BootstrapStatus progress tag summary =>
      (c, evs ++ [CE_TorBootstrapStatusReceived progress tag summary])
  | TE_BootstrapComplete => (cx_set_bootstrap true c, evs ++ [CE_TorBootstrapCompleted])
  | TE_LogReceived line => (c, evs ++ [CE_TorLogReceived line])
  | TE_OnionServicePublished service_id =>
      if decide (service_id = cx_identity_service_id c) then
        if negb (cx_identity_server_published c)
        then (cx_set_published true c, evs ++ [CE_IdentityServerPublished])
        else (c, evs)
      else match hm_get (cx_endpoint_listeners c) service_id with
      | None => (c, evs)
      | Some l =>
          if negb (el_published l) then
            (cx_set_endpoint_listeners (hm_insert (cx_endpoint_listeners c) service_id
               (mkEndpointListener (el_name l) (el_allowed_client l) (el_listener l) true)) c,
             evs ++ [CE_EndpointServerPublished service_id (el_name l)])
          else (c, evs)
      end
  end.

Definition consume_tor_events (evs : events) : CX_ events :=
  tor_events ← cx_on_tor tp_update;
  c ← get_state;
  let '(c, evs) := fold_left handle_tor_event tor_events (c, evs) in
  _ ← modify (λ _, c);
  mret evs.

(** One handshake of a map: its update, and what is reported of it. *)
Definition handshake_turn {V} `{!Handshake RW V} (fuel : nat) (handle : HandshakeHandle) (v : V)
    (de : nat * events) : outcome ((nat * events) * (V * bool)) :=
  let '(draws, evs) := de in
  match hs_update fuel (hs_set_draws draws v) with
  | Done (v, r) =>
      let '(event, keep) := hs_report handle v r in
      Done ((hs_draws v, match event with Some event => evs ++ [event] | None => evs end), (v, keep))
  | Panicked => Panicked
  | OutOfFuel => OutOfFuel
  end.

(** "update the .. handshakes", for each of the four maps *)
Definition update_handshakes {V} `{!Handshake RW V} (field : Context → BTreeMap V)
    (set_field : BTreeMap V → Context → Context) (fuel : nat) (evs : events) : CX_ events := λ c,
  match retain (handshake_turn fuel) (field c) (cx_draws c, evs) with
  | Done ((draws, evs), m) => Done (cx_set_draws draws (set_field m c), Ok evs)
  | Panicked => Panicked
  | OutOfFuel => OutOfFuel
  end.

(** [Context::update] *)
Definition cx_update (fuel : nat) : CX_ events :=
  evs ← accept_identity_connection;
  evs ← accept_endpoint_connections evs;
  evs ← consume_tor_events evs;
  evs ← update_handshakes cx_identity_clients cx_set_identity_clients fuel evs;
  evs ← update_handshakes cx_identity_servers cx_set_identity_servers fuel evs;
  evs ← update_handshakes cx_endpoint_clients cx_set_endpoint_clients fuel evs;
  update_handshakes cx_endpoint_servers cx_set_endpoint_servers fuel evs.

End context.

Arguments Context {_ _} RW TL P.
Arguments EndpointListener TL : clear implicits.
