(* ===== verification/ContextTheory.v ===== *)
(** The context over time: the invariant of its handshakes and listeners, what its events
    have established, and which handshakes are alive. *)

From Stdlib Require Import ZArith Lia.
From S2P Require Import Prelude Bson HonkWire HonkSize VecDeque Maps HonkSession HonkRead HonkWrite HonkUpdate.
From S2P Require Import Crypto TorCrypto GoslingProto IdentityServer IdentityClient EndpointServer.
From S2P Require Import EndpointClient TorProvider Context.
From stdpp Require Import prelude strings list.

Open Scope nat_scope.

(** * What the application has said *)

(** The calls that matter for whom the context lets in. *)
Inductive Said :=
| S_Endpoint (endpoint client : V3OnionServiceId)
| S_Request (handle : HandshakeHandle) (client_allowed endpoint_supported : bool)
| S_Response (handle : HandshakeHandle) (challenge_response_valid : bool)
| S_Channel (handle : HandshakeHandle) (channel_supported : bool).

Section invariant.
Context `{BL : BsonLaws} `{CL : CryptoLaws} {RW TL P : Type} `{SL : StreamLaws RW} `{!Sockets RW TL}
  `{!TorProvider P RW TL} `{!HashOrder V3OnionServiceId}.
Implicit Types (c : Context RW TL P) (said : list Said).
Abbreviation CX_ := (M (Context RW TL P) CXError).

(** An identity server of the context [sid]: its flags are what the application said. *)
Record is_good said (sid : V3OnionServiceId) (handle : HandshakeHandle) (s : IdentityServer RW) : Prop := {
  is_good_inv : is_inv s;
  is_good_identity : is_server_identity s = sid;
  is_good_request :
    is_client_allowed s = true → is_client_requested_endpoint_valid s = true →
    S_Request handle true true ∈ said;
  is_good_response : is_challenge_response_valid s = true → S_Response handle true ∈ said;
}.

(** An endpoint server of the context: it was made for an endpoint the application
    started and the client it named. *)
Record ep_good said (handle : HandshakeHandle) (s : EndpointServer RW) : Prop := {
  ep_good_inv : ep_inv s;
  ep_good_rpc : ep_rpc_ok s;
  ep_good_endpoint : S_Endpoint (ep_server_identity s) (ep_allowed_client_identity s) ∈ said;
  ep_good_channel : has (ep_server_cookie s) = true →
    S_Channel handle (ep_client_requested_channel_valid s) ∈ said;
}.

Definition handles_below {V} (n : HandshakeHandle) (m : BTreeMap V) : Prop :=
  bt_sorted m ∧ Forall (λ e, (0 ≤ e.1 < n)%Z) m.

Record cx_inv said c : Prop := {
  inv_identity : cx_identity_service_id c = service_id_from_private_key (cx_identity_private_key c);
  inv_next : (0 ≤ cx_next_handshake_handle c ≤ usize_max)%Z;
  inv_ic : handles_below (cx_next_handshake_handle c) (cx_identity_clients c);
  inv_is : handles_below (cx_next_handshake_handle c) (cx_identity_servers c);
  inv_ec : handles_below (cx_next_handshake_handle c) (cx_endpoint_clients c);
  inv_ep : handles_below (cx_next_handshake_handle c) (cx_endpoint_servers c);
  inv_is_good : Forall (λ e, is_good said (cx_identity_service_id c) e.1 e.2) (cx_identity_servers c);
  inv_ep_good : Forall (λ e, ep_good said e.1 e.2) (cx_endpoint_servers c);
  inv_listeners : NoDup (cx_endpoint_listeners c).*1;
  inv_listeners_said :
    Forall (λ e, S_Endpoint e.1 (el_allowed_client e.2) ∈ said) (cx_endpoint_listeners c);
}.

(** ** More said, more handles *)

Lemma is_good_mono said said' sid h s : said ⊆ said' → is_good said sid h s → is_good said' sid h s.
Proof. intros Hs []. split; auto. Qed.

Lemma ep_good_mono said said' h s : said ⊆ said' → ep_good said h s → ep_good said' h s.
Proof. intros Hs []. split; auto. Qed.

Lemma cx_inv_mono said said' c : said ⊆ said' → cx_inv said c → cx_inv said' c.
Proof.
  intros Hs []. split; try done.
  - eapply Forall_impl; [done|]. intros e. by apply is_good_mono.
  - eapply Forall_impl; [done|]. intros e. by apply ep_good_mono.
  - eapply Forall_impl; [done|]. auto.
Qed.

Lemma handles_below_mono {V} n n' (m : BTreeMap V) : (n ≤ n')%Z → handles_below n m → handles_below n' m.
Proof. intros Hn [Hs Hm]. split; [done|]. eapply Forall_impl; [exact Hm|]. simpl. lia. Qed.

Lemma handles_below_insert {V} n (m : BTreeMap V) v :
  (0 ≤ n)%Z → handles_below n m → handles_below (n + 1) (bt_insert m n v).
Proof.
  intros Hn [Hs Hm]. split; [by apply bt_insert_sorted|]. apply bt_insert_Forall; [|simpl; lia].
  eapply Forall_impl; [exact Hm|]. simpl. lia.
Qed.

Lemma handles_below_remove {V} n (m : BTreeMap V) k : handles_below n m → handles_below n (bt_remove m k).
Proof. intros [Hs Hm]. split; [by apply bt_remove_sorted|by apply bt_remove_Forall]. Qed.

Lemma handles_below_set {V} n (m : BTreeMap V) k v : handles_below n m → handles_below n (bt_set m k v).
Proof. intros [Hs Hm]. split; [by apply bt_set_sorted|]. by apply bt_set_Forall. Qed.

Lemma handles_below_sublist {V} n (m m' : BTreeMap V) :
  sublist m'.*1 m.*1 → handles_below n m → handles_below n m'.
Proof.
  intros Hsub [Hs Hm]. split; [by eapply bt_sorted_sublist|].
  apply (keys_Forall (λ k, 0 ≤ k < n)%Z). apply (keys_Forall (λ k, 0 ≤ k < n)%Z) in Hm.
  rewrite Forall_forall in *. intros x Hx. apply Hm. by eapply elem_of_sublist.
Qed.

(** ** Fields the invariant does not speak about *)

Lemma cx_inv_tor said c p : cx_inv said (cx_set_tor p c) ↔ cx_inv said c.
Proof. destruct c. split; intros []; by split. Qed.
Lemma cx_inv_draws said c n : cx_inv said (cx_set_draws n c) ↔ cx_inv said c.
Proof. destruct c. split; intros []; by split. Qed.
Lemma cx_inv_bootstrap said c b : cx_inv said (cx_set_bootstrap b c) ↔ cx_inv said c.
Proof. destruct c. split; intros []; by split. Qed.
Lemma cx_inv_published said c b : cx_inv said (cx_set_published b c) ↔ cx_inv said c.
Proof. destruct c. split; intros []; by split. Qed.
Lemma cx_inv_listener said c l : cx_inv said (cx_set_identity_listener l c) ↔ cx_inv said c.
Proof. destruct c. split; intros []; by split. Qed.
Lemma cx_inv_drop said c l : cx_inv said (cx_drop_listener l c) ↔ cx_inv said c.
Proof. apply cx_inv_tor. Qed.

Lemma cx_inv_new p port port' t mx et key n : cx_inv [] (context_new p port port' t mx et key n).
Proof. split; try done; try by split. by constructor. Qed.

(** A call of the provider. *)
Lemma cx_on_tor_inv said {X} (m : M P TorProviderError X) : preserves (cx_inv said) (cx_on_tor m : CX_ X).
Proof.
  intros c c' r Hi. unfold cx_on_tor. destruct (m (cx_tor_provider c)) as [[p x]| |]; [|done..].
  intros [= <- _]. by apply cx_inv_tor.
Qed.

Lemma cx_outcome_inv said {X} (o : outcome X) : preserves (cx_inv said) (cx_outcome o : CX_ X).
Proof. intros c c' r Hi. destruct o; [|done..]. by intros [= <- _]. Qed.

Lemma cx_connect_inv said id port : preserves (cx_inv said) (cx_connect_nonblocking id port : CX_ RW).
Proof.
  apply preserves_bind; [apply cx_on_tor_inv|]. intros st.
  destruct (ts_set_nonblocking true (os_stream st)) as [[] ?]; [apply preserves_ret|apply preserves_throw].
Qed.

(** A new handle is above all the others. *)
Lemma cx_new_handle_Done c c' r :
  cx_new_handle c = Done (c', r) →
  (cx_next_handshake_handle c < usize_max)%Z ∧ r = Ok (cx_next_handshake_handle c) ∧
  c' = cx_set_next (cx_next_handshake_handle c + 1)%Z c.
Proof. unfold cx_new_handle. destruct (Z.ltb_spec (cx_next_handshake_handle c) usize_max); [|done]. by intros [= <- <-]. Qed.

(** Entering a handshake of each kind under a new handle. *)
Lemma cx_inv_new_ic said c ic :
  cx_inv said c → (cx_next_handshake_handle c < usize_max)%Z →
  cx_inv said (cx_set_identity_clients (bt_insert (cx_identity_clients c) (cx_next_handshake_handle c) ic)
                 (cx_set_next (cx_next_handshake_handle c + 1)%Z c)).
Proof.
  intros [] Hn. destruct c; split; simpl in *; try done; try lia;
    try (eapply handles_below_mono; [|done]; lia). apply handles_below_insert; [lia|done].
Qed.

Lemma cx_inv_new_ec said c ec :
  cx_inv said c → (cx_next_handshake_handle c < usize_max)%Z →
  cx_inv said (cx_set_endpoint_clients (bt_insert (cx_endpoint_clients c) (cx_next_handshake_handle c) ec)
                 (cx_set_next (cx_next_handshake_handle c + 1)%Z c)).
Proof.
  intros [] Hn. destruct c; split; simpl in *; try done; try lia;
    try (eapply handles_below_mono; [|done]; lia). apply handles_below_insert; [lia|done].
Qed.

Lemma cx_inv_new_is said c s :
  cx_inv said c → (cx_next_handshake_handle c < usize_max)%Z →
  is_good said (cx_identity_service_id c) (cx_next_handshake_handle c) s →
  cx_inv said (cx_set_identity_servers (bt_insert (cx_identity_servers c) (cx_next_handshake_handle c) s)
                 (cx_set_next (cx_next_handshake_handle c + 1)%Z c)).
Proof.
  intros [] Hn Hg. destruct c; split; simpl in *; try done; try lia;
    try (eapply handles_below_mono; [|done]; lia); [apply handles_below_insert; [lia|done]|].
  by apply bt_insert_Forall.
Qed.

Lemma cx_inv_new_ep said c s :
  cx_inv said c → (cx_next_handshake_handle c < usize_max)%Z → ep_good said (cx_next_handshake_handle c) s →
  cx_inv said (cx_set_endpoint_servers (bt_insert (cx_endpoint_servers c) (cx_next_handshake_handle c) s)
                 (cx_set_next (cx_next_handshake_handle c + 1)%Z c)).
Proof.
  intros [] Hn Hg. destruct c; split; simpl in *; try done; try lia;
    try (eapply handles_below_mono; [|done]; lia); [apply handles_below_insert; [lia|done]|].
  by apply bt_insert_Forall.
Qed.

(** ** The calls of the application *)

Lemma identity_client_begin_inv said id endpoint :
  preserves (cx_inv said) (identity_client_begin_handshake id endpoint : CX_ HandshakeHandle).
Proof.
  unfold identity_client_begin_handshake. destruct (ascii_string_new endpoint) as [ep|]; [|apply preserves_throw].
  apply preserves_bind; [apply preserves_get|]. intros c0. destruct (negb _); [apply preserves_throw|].
  apply preserves_bind; [apply cx_connect_inv|]. intros st.
  destruct (new_session _ _ _) as [rpc|]; [|apply preserves_throw].
  apply preserves_bind; [apply cx_outcome_inv|]. intros key.
  apply preserves_bind; [apply preserves_gets|]. intros d.
  apply preserves_bind; [apply preserves_modify; intros; by apply cx_inv_draws|]. intros _.
  destruct (identity_client_new _ _ _ _ _ _) as [ic|]; [|apply preserves_throw].
  intros c c' r Hi. unfold mbind at 1, M_bind.
  destruct (cx_new_handle c) as [[c1 r1]| |] eqn:Hh; [|done..].
  apply cx_new_handle_Done in Hh as (Hn & -> & ->). intros [= <- _].
  replace (cx_identity_clients (cx_set_next _ c)) with (cx_identity_clients c) by (by destruct c).
  by apply cx_inv_new_ic.
Qed.

Lemma endpoint_client_begin_inv said id key channel :
  preserves (cx_inv said) (endpoint_client_begin_handshake id key channel : CX_ HandshakeHandle).
Proof.
  unfold endpoint_client_begin_handshake. destruct (ascii_string_new channel) as [ch|]; [|apply preserves_throw].
  apply preserves_bind; [apply preserves_get|]. intros c0. destruct (negb _); [apply preserves_throw|].
  apply preserves_bind; [apply cx_on_tor_inv|]. intros _.
  apply preserves_bind; [apply cx_connect_inv|]. intros st.
  destruct (new_session _ _ _) as [rpc|]; [|apply preserves_throw].
  apply preserves_bind; [apply cx_outcome_inv|]. intros k.
  apply preserves_bind; [apply preserves_gets|]. intros d.
  intros c c' r Hi. unfold mbind at 1, M_bind.
  destruct (cx_new_handle c) as [[c1 r1]| |] eqn:Hh; [|done..].
  apply cx_new_handle_Done in Hh as (Hn & -> & ->). intros [= <- _].
  replace (cx_endpoint_clients (cx_set_next _ c)) with (cx_endpoint_clients c) by (by destruct c).
  by apply cx_inv_new_ec.
Qed.

Lemma identity_client_abort_inv said h :
  preserves (cx_inv said) (identity_client_abort_handshake h : CX_ unit).
Proof.
  intros c c' r Hi. unfold identity_client_abort_handshake.
  destruct (bt_get _ _); intros [= <- _]; [|done].
  destruct Hi, c; split; simpl in *; try done. by apply handles_below_remove.
Qed.

Lemma endpoint_client_abort_inv said h :
  preserves (cx_inv said) (endpoint_client_abort_handshake h : CX_ unit).
Proof.
  intros c c' r Hi. unfold endpoint_client_abort_handshake.
  destruct (bt_get _ _); intros [= <- _]; [|done].
  destruct Hi, c; split; simpl in *; try done. by apply handles_below_remove.
Qed.

Lemma identity_server_start_inv said : preserves (cx_inv said) (identity_server_start : CX_ unit).
Proof.
  apply preserves_bind; [apply preserves_get|]. intros c0. destruct (negb _); [apply preserves_throw|].
  destruct (cx_identity_listener c0); [apply preserves_throw|].
  apply preserves_bind; [apply cx_on_tor_inv|]. intros l.
  destruct (ol_set_nonblocking true l) as [[u|k] l'].
  - apply preserves_modify. intros. by apply cx_inv_listener.
  - apply preserves_bind; [|intros; apply preserves_throw]. apply preserves_modify. intros. by apply cx_inv_drop.
Qed.

Lemma identity_server_stop_inv said : preserves (cx_inv said) (identity_server_stop : CX_ unit).
Proof.
  intros c c' r Hi. unfold identity_server_stop. destruct (cx_identity_listener c) as [l|]; intros [= <- _]; [|done].
  destruct Hi, c; split; simpl in *; try done; by constructor.
Qed.

Lemma endpoint_server_stop_inv said id : preserves (cx_inv said) (endpoint_server_stop id : CX_ unit).
Proof.
  apply preserves_bind; [apply preserves_get|]. intros c0. destruct (negb _); [apply preserves_throw|].
  destruct (hm_get _ _); [|apply preserves_throw].
  apply preserves_modify. intros c Hi. apply cx_inv_drop. destruct Hi, c; split; simpl in *; try done.
  - by apply hm_remove_NoDup.
  - by apply hm_remove_Forall.
Qed.

(** Starting an endpoint is what makes an endpoint and its client known. *)
Lemma endpoint_server_start_inv said key name client auth c c' r :
  cx_inv said c → endpoint_server_start key name client auth c = Done (c', r) →
  cx_inv (match r with Ok _ => S_Endpoint (service_id_from_private_key key) client :: said | Err _ => said end) c'.
Proof.
  intros Hi. unfold endpoint_server_start, mbind, M_bind, get_state.
  destruct (negb _); [by intros [= <- <-]|]. case_decide; [by intros [= <- <-]|].
  destruct (hm_contains_key _ _); [by intros [= <- <-]|].
  destruct (cx_on_tor _ c) as [[c1 [l|e]]| |] eqn:Ht; [|intros [= <- <-]; by eapply cx_on_tor_inv|done..].
  apply (cx_on_tor_inv said) in Ht; [|done].
  destruct (ol_set_nonblocking true l) as [[u|k] l']; intros [= <- <-]; [|by apply cx_inv_drop].
  apply (cx_inv_mono said (S_Endpoint (service_id_from_private_key key) client :: said)) in Ht; [|set_solver].
  destruct Ht, c1; split; simpl in *; try done.
  - by apply hm_insert_NoDup.
  - apply hm_insert_Forall; [done|]. simpl. left.
Qed.

(** ** Answers of the application *)

Lemma is_request_frame allowed valid challenge (s s' : IdentityServer RW) r :
  is_handle_endpoint_request_received allowed valid challenge s = Done (s', r) →
  is_frame s' = match r with
                | Ok _ => (is_server_identity s, allowed, valid, is_challenge_response_valid s)
                | Err _ => is_frame s
                end.
Proof.
  unfold is_handle_endpoint_request_received.
  destruct s as [rpc sid dr [] bc ci re sc ec sr ak cr pk f1 f2 f3 f4 f5]; simpl; try (by intros [= <- <-]).
  repeat match goal with
  | |- context [match ?o with Some _ => _ | None => _ end] => is_var o; destruct o; simpl; try (by intros [= <- <-])
  end.
  destruct (get_response_section_size _); [|by intros [= <- <-]].
  destruct get_message_overhead; [|by intros [= <- <-]]. case_bool_decide; by intros [= <- <-].
Qed.

Lemma is_response_frame valid (s s' : IdentityServer RW) r :
  is_handle_challenge_response_received valid s = Done (s', r) →
  is_frame s' = match r with
                | Ok _ => (is_server_identity s, is_client_allowed s, is_client_requested_endpoint_valid s, valid)
                | Err _ => is_frame s
                end.
Proof.
  unfold is_handle_challenge_response_received.
  destruct s as [rpc sid dr [] bc ci re sc ec sr ak cr pk f1 f2 f3 f4 f5]; simpl; try (by intros [= <- <-]).
  repeat match goal with
  | |- context [match ?o with Some _ => _ | None => _ end] => is_var o; destruct o; simpl; try (by intros [= <- <-])
  end.
Qed.

Lemma ep_request_frame valid (s s' : EndpointServer RW) r :
  ep_handle_channel_request_received valid s = Done (s', r) →
  match r with
  | Ok _ => (ep_server_identity s', ep_allowed_client_identity s', ep_client_requested_channel_valid s') =
            (ep_server_identity s, ep_allowed_client_identity s, valid)
  | Err _ => s' = s
  end.
Proof.
  unfold ep_handle_channel_request_received.
  destruct s as [rpc sid acid dr [] bc ci rc sck hs f1 f2 f3]; simpl; try (by intros [= <- <-]).
  repeat match goal with
  | |- context [match ?o with Some _ => _ | None => _ end] => is_var o; destruct o; simpl; try (by intros [= <- <-])
  end.
Qed.

(** The answer to a handle that is not there changes nothing. *)
Lemma cx_on_handshake_Done {V X} `{!Handshake RW V} field set_field h (m : M V hs_error X) c c' r :
  (cx_on_handshake field set_field h m : CX_ X) c = Done (c', r) →
  (bt_get (field c) h = None ∧ c' = c ∧ r = Err (CX_HandshakeHandleNotFound h)) ∨
  ∃ v v' r', bt_get (field c) h = Some v ∧ m (hs_set_draws (cx_draws c) v) = Done (v', r') ∧
    c' = cx_set_draws (hs_draws v') (set_field (bt_set (field c) h v') c) ∧ r = map_err hs_from r'.
Proof.
  unfold cx_on_handshake. destruct (bt_get (field c) h) as [v|]; [|intros [= <- <-]; by left].
  destruct (m _) as [[v' r']| |] eqn:Hm; [|done..]. intros [= <- <-]. right. by exists v, v', r'.
Qed.

Lemma is_good_draws said sid h n s : is_good said sid h (is_set_draws n s) ↔ is_good said sid h s.
Proof. split; intros [H1 H2 H3 H4]; split; try (by apply (is_inv_draws n)); by destruct s. Qed.

Lemma ep_inv_draws n (s : EndpointServer RW) : ep_inv (ep_set_draws n s) ↔ ep_inv s.
Proof. destruct s. split; intros []; by split. Qed.

Lemma ep_good_draws said h n s : ep_good said h (ep_set_draws n s) ↔ ep_good said h s.
Proof. split; intros [H1 H2 H3 H4]; split; try (by apply (ep_inv_draws n)); by destruct s. Qed.

(** Replacing an identity server by one with the same frame, or more said. *)
Lemma cx_inv_set_is said c h s s' :
  cx_inv said c → bt_get (cx_identity_servers c) h = Some s →
  (is_good said (cx_identity_service_id c) h s → is_good said (cx_identity_service_id c) h s') →
  cx_inv said (cx_set_identity_servers (bt_set (cx_identity_servers c) h s') c).
Proof.
  intros Hi Hg Hs. assert (is_good said (cx_identity_service_id c) h s') as Hs'.
  { apply Hs. apply bt_get_elem in Hg. pose proof (inv_is_good _ _ Hi) as Hf.
    rewrite Forall_forall in Hf. by apply Hf in Hg. }
  destruct Hi, c; split; simpl in *; try done; [by apply handles_below_set|].
  apply bt_set_Forall; done.
Qed.

Lemma cx_inv_set_ep said c h s s' :
  cx_inv said c → bt_get (cx_endpoint_servers c) h = Some s →
  (ep_good said h s → ep_good said h s') →
  cx_inv said (cx_set_endpoint_servers (bt_set (cx_endpoint_servers c) h s') c).
Proof.
  intros Hi Hg Hs. assert (ep_good said h s') as Hs'.
  { apply Hs. apply bt_get_elem in Hg. pose proof (inv_ep_good _ _ Hi) as Hf.
    rewrite Forall_forall in Hf. by apply Hf in Hg. }
  destruct Hi, c; split; simpl in *; try done; [by apply handles_below_set|].
  apply bt_set_Forall; done.
Qed.

Lemma is_request_good said sid h allowed valid challenge s s' r :
  is_good said sid h s → is_handle_endpoint_request_received allowed valid challenge s = Done (s', r) →
  is_good (match r with Ok _ => S_Request h allowed valid :: said | Err _ => said end) sid h s'.
Proof.
  intros Hg Hm. pose proof (is_handle_request_inv allowed valid challenge _ _ _ (is_good_inv _ _ _ _ Hg) Hm) as Hi.
  apply is_request_frame in Hm. unfold is_frame in Hm. destruct Hg as [_ <- H1 H2].
  destruct r; injection Hm as E1 E2 E3 E4; split; rewrite ?E1, ?E2, ?E3, ?E4; auto.
  - intros -> ->. left.
  - intros Hv. right. auto.
Qed.

Lemma is_response_good said sid h valid s s' r :
  is_good said sid h s → is_handle_challenge_response_received valid s = Done (s', r) →
  is_good (match r with Ok _ => S_Response h valid :: said | Err _ => said end) sid h s'.
Proof.
  intros Hg Hm. pose proof (is_handle_response_inv valid _ _ _ (is_good_inv _ _ _ _ Hg) Hm) as Hi.
  apply is_response_frame in Hm. unfold is_frame in Hm. destruct Hg as [_ <- H1 H2].
  destruct r; injection Hm as E1 E2 E3 E4; split; rewrite ?E1, ?E2, ?E3, ?E4; auto.
  - intros Ha Hb. right. auto.
  - intros ->. left.
Qed.

Lemma ep_request_good said h valid s s' r :
  ep_good said h s → ep_handle_channel_request_received valid s = Done (s', r) →
  ep_good (match r with Ok _ => S_Channel h valid :: said | Err _ => said end) h s'.
Proof.
  intros [H1 H2 H3 H4] Hm. pose proof (ep_handle_request_inv valid _ _ _ H1 Hm).
  pose proof (ep_handle_request_rpc valid _ _ _ H2 Hm). apply ep_request_frame in Hm.
  destruct r; [injection Hm as E1 E2 E3|by subst s'].
  split; rewrite ?E1, ?E2, ?E3; auto; [by right|]. intros _. left.
Qed.

Lemma challenge_received_inv said h resp :
  preserves (cx_inv said) (identity_client_handle_challenge_received h resp : CX_ unit).
Proof.
  intros c c' r Hi [(_ & -> & _)|(v & v' & r' & Hg & Hm & -> & _)]%cx_on_handshake_Done; [done|].
  apply cx_inv_draws. destruct Hi, c; split; simpl in *; try done. by apply handles_below_set.
Qed.

Lemma endpoint_request_inv said h allowed valid challenge c c' r :
  cx_inv said c → identity_server_handle_endpoint_request_received h allowed valid challenge c = Done (c', r) →
  cx_inv (match r with Ok _ => S_Request h allowed valid :: said | Err _ => said end) c'.
Proof.
  intros Hi [(_ & -> & ->)|(v & v' & r' & Hg & Hm & -> & ->)]%cx_on_handshake_Done; [done|].
  apply cx_inv_draws. eapply cx_inv_set_is; [|exact Hg|].
  - eapply cx_inv_mono; [|exact Hi]. destruct r'; set_solver.
  - intros _. pose proof (inv_is_good _ _ Hi) as Hf. rewrite Forall_forall in Hf.
    apply bt_get_elem, Hf in Hg. apply (is_good_draws _ _ _ (cx_draws c)) in Hg.
    pose proof (is_request_good _ _ _ _ _ _ _ _ _ Hg Hm) as Hx. by destruct r'.
Qed.

Lemma challenge_response_inv said h valid c c' r :
  cx_inv said c → identity_server_handle_challenge_response_received h valid c = Done (c', r) →
  cx_inv (match r with Ok _ => S_Response h valid :: said | Err _ => said end) c'.
Proof.
  intros Hi [(_ & -> & ->)|(v & v' & r' & Hg & Hm & -> & ->)]%cx_on_handshake_Done; [done|].
  apply cx_inv_draws. eapply cx_inv_set_is; [|exact Hg|].
  - eapply cx_inv_mono; [|exact Hi]. destruct r'; set_solver.
  - intros _. pose proof (inv_is_good _ _ Hi) as Hf. rewrite Forall_forall in Hf.
    apply bt_get_elem, Hf in Hg. apply (is_good_draws _ _ _ (cx_draws c)) in Hg.
    pose proof (is_response_good _ _ _ _ _ _ _ Hg Hm) as Hx. by destruct r'.
Qed.

Lemma channel_request_inv said h valid c c' r :
  cx_inv said c → endpoint_server_handle_channel_request_received h valid c = Done (c', r) →
  cx_inv (match r with Ok _ => S_Channel h valid :: said | Err _ => said end) c'.
Proof.
  intros Hi [(_ & -> & ->)|(v & v' & r' & Hg & Hm & -> & ->)]%cx_on_handshake_Done; [done|].
  apply cx_inv_draws. eapply cx_inv_set_ep; [|exact Hg|].
  - eapply cx_inv_mono; [|exact Hi]. destruct r'; set_solver.
  - intros _. pose proof (inv_ep_good _ _ Hi) as Hf. rewrite Forall_forall in Hf.
    apply bt_get_elem, Hf in Hg. apply (ep_good_draws _ _ (cx_draws c)) in Hg.
    pose proof (ep_request_good _ _ _ _ _ _ Hg Hm) as Hx. by destruct r'.
Qed.
End invariant.

(** * One update *)

(** [yields I E m]: [m] keeps [I], and when it succeeds every event it returns has [E]. *)
Definition yields {S Err Ev} (I : S → Prop) (E : Ev → Prop) (m : M S Err (list Ev)) : Prop :=
  ∀ s s' r, I s → m s = Done (s', r) → I s' ∧ match r with Ok evs => Forall E evs | Err _ => True end.

Lemma yields_bind {S Err Ev} (I : S → Prop) (E : Ev → Prop) (m : M S Err (list Ev)) f :
  yields I E m → (∀ evs, Forall E evs → yields I E (f evs)) → yields I E (m ≫= f).
Proof.
  intros Hm Hf s s' r Hs. unfold mbind, M_bind.
  destruct (m s) as [[s1 [evs|e]]| |] eqn:Hms; [|intros [= <- <-]|done..].
  - destruct (Hm _ _ _ Hs Hms) as [Hs1 He]. by apply Hf.
  - by destruct (Hm _ _ _ Hs Hms).
Qed.

Section update.
Context `{BL : BsonLaws} `{CL : CryptoLaws} {RW TL P : Type} `{SL : StreamLaws RW} `{!Sockets RW TL}
  `{!TorProvider P RW TL} `{!HashOrder V3OnionServiceId}.
Context (said : list Said) (sid : V3OnionServiceId).
Implicit Types (c : Context RW TL P) (e : ContextEvent RW).
Abbreviation CX_ := (M (Context RW TL P) CXError).
Abbreviation events := (list (ContextEvent RW)).

(** What an event has established: for a completed handshake, that the application
    accepted this very handshake and the client signed its proof. *)
Definition event_ok e : Prop :=
  match e with
  | CE_IdentityServerHandshakeCompleted handle _ name client auth_key =>
      S_Request handle true true ∈ said ∧ S_Response handle true ∈ said ∧
      is_valid (sid_data client) = true ∧
      (∃ endpoint server_cookie client_cookie sig key,
         ascii_value endpoint = name ∧ length client_cookie = CLIENT_COOKIE_SIZE ∧
         from_service_id client = Ok key ∧
         verify sig (build_client_proof GoslingIdentity endpoint client sid client_cookie server_cookie) key = true) ∧
      (∃ sig signbit, verify_x25519 sig (sid_data client) auth_key signbit = true)
  | CE_EndpointServerHandshakeCompleted handle endpoint client name _ =>
      S_Endpoint endpoint client ∈ said ∧ S_Channel handle true ∈ said ∧
      (∃ channel server_cookie client_cookie sig key,
         ascii_value channel = name ∧ length client_cookie = CLIENT_COOKIE_SIZE ∧
         from_service_id client = Ok key ∧
         verify sig (build_client_proof GoslingEndpoint channel client endpoint client_cookie server_cookie) key = true)
  | _ => True
  end.

Definition cx_ok c : Prop := cx_inv said c ∧ cx_identity_service_id c = sid.

Lemma is_good_new h rpc n : is_good said sid h (identity_server_new rpc sid n : IdentityServer RW).
Proof. split; [apply is_inv_new|done..]. Qed.

Lemma ep_good_new h rpc client endpoint n :
  S_Endpoint endpoint client ∈ said → ep_good said h (endpoint_server_new rpc client endpoint n : EndpointServer RW).
Proof. intros Hs. split; [apply ep_inv_new|done..]. Qed.

Lemma accept_identity_ok : yields cx_ok event_ok (accept_identity_connection : CX_ events).
Proof.
  intros c c' r [Hi Hsid]. unfold accept_identity_connection, mbind, M_bind, get_state.
  destruct (cx_identity_listener c) as [l|]; [|by intros [= <- <-]].
  unfold identity_server_handle_accept. destruct (ol_accept l) as [x l']. simpl.
  set (c1 := cx_set_identity_listener (Some l') c).
  assert (cx_inv said c1 ∧ cx_identity_service_id c1 = sid) as [Hi1 Hsid1].
  { split; [by apply cx_inv_listener|by destruct c]. }
  destruct x as [[st|]|k]; [|by intros [= <- <-]|].
  2: { intros [= <- <-]. split; [|done]. split; [by apply cx_inv_drop, cx_inv_listener|by destruct c]. }
  destruct (ts_set_nonblocking true (os_stream st)) as [[u|k] st']; [|by intros [= <- <-]].
  destruct (new_session _ _ _) as [rpc|e].
  2: { intros [= <- <-]. split; [|done]. split; [by apply cx_inv_drop, cx_inv_listener|by destruct c]. }
  unfold modify. destruct (cx_new_handle c1) as [[c2 r2]| |] eqn:Hh; [|done..].
  apply cx_new_handle_Done in Hh as (Hn & -> & ->). intros [= <- <-]. split; [|by constructor].
  replace (cx_identity_servers (cx_set_next _ c1)) with (cx_identity_servers c1) by (by destruct c).
  split; [|by destruct c]. apply cx_inv_draws, cx_inv_new_is; [done..|].
  rewrite Hsid1. rewrite <- (inv_identity _ _ Hi), Hsid. apply is_good_new.
Qed.

Lemma accept_endpoints_ok evs :
  Forall event_ok evs → yields cx_ok event_ok (accept_endpoint_connections evs : CX_ events).
Proof.
  intros He c c' r [Hi Hsid]. unfold accept_endpoint_connections.
  destruct (retain _ _ _) as [[[c1 evs1] m]| |] eqn:Hr; [|done..]. intros [= <- <-].
  pose proof (hm_entries_perm _ (inv_listeners _ _ Hi)) as Hp.
  assert (NoDup m.*1) as Hd.
  { eapply sublist_NoDup; [|by eapply retain_sublist]. rewrite Hp. apply (inv_listeners _ _ Hi). }
  assert (Forall (λ x, S_Endpoint x.1 (el_allowed_client x.2) ∈ said) (hm_entries (cx_endpoint_listeners c))) as Hl.
  { rewrite Hp. apply (inv_listeners_said _ _ Hi). }
  eapply (retain_keeps _ (λ ce, cx_ok ce.1 ∧ Forall event_ok ce.2)
    (λ id l, S_Endpoint id (el_allowed_client l) ∈ said)) in Hr as [[[Hi1 Hsid1] He1] Hm]; [| |by split|exact Hl].
  - simpl in *. split; [|done]. destruct Hi1, c1. split; [split; simpl in *; done|done].
  - clear. intros id l [c evs] [c' evs'] l' b [[Hi Hsid] He] Hs. unfold accept_endpoint_connection. simpl in *.
    unfold endpoint_server_handle_accept. destruct (ol_accept (el_listener l)) as [x ol].
    assert (cx_ok c) as Hc by done.
    destruct x as [[st|]|k]; [|by intros [= <- <- <- <-]|].
    2: { intros [= <- <- <- <-]. split; [|done]. split; [|done]. split; [by apply cx_inv_drop|by destruct c]. }
    destruct (ts_set_nonblocking true (os_stream st)) as [[u|k] st']; [|by intros [= <- <- <- <-]].
    destruct (new_session _ _ _) as [rpc|e].
    2: { intros [= <- <- <- <-]. split; [|done]. split; [|done]. split; [by apply cx_inv_drop|by destruct c]. }
    destruct (cx_new_handle c) as [[c2 r2]| |] eqn:Hh; [|done..].
    apply cx_new_handle_Done in Hh as (Hn & -> & ->). intros [= <- <- <- <-]. split; [|done].
    replace (cx_endpoint_servers (cx_set_next _ c)) with (cx_endpoint_servers c) by (by destruct c).
    split; [split; [|by destruct c]|].
    + apply cx_inv_draws, cx_inv_new_ep; [done..|]. by apply ep_good_new.
    + apply Forall_app. split; [done|]. by constructor.
Qed.

Lemma handle_tor_event_ok te c evs :
  cx_ok c → Forall event_ok evs →
  cx_ok (handle_tor_event (c, evs) te).1 ∧ Forall event_ok (handle_tor_event (c, evs) te).2.
Proof.
  intros [Hi Hsid] He. assert (∀ e, event_ok e → Forall event_ok (evs ++ [e])) as Ha.
  { intros e Hok. apply Forall_app. split; [done|by constructor]. }
  destruct te; simpl; try (by split; [|apply Ha]).
  - split; [|by apply Ha]. split; [by apply cx_inv_bootstrap|by destruct c].
  - case_decide; [destruct (negb _)|].
    + split; [|by apply Ha]. split; [by apply cx_inv_published|by destruct c].
    + done.
    + destruct (hm_get _ _) as [l|] eqn:Hg; [|done]. destruct (negb _); [|done]. split; [|by apply Ha].
      split; [|by destruct c]. apply hm_get_elem in Hg.
      assert (S_Endpoint service_id (el_allowed_client l) ∈ said) as Hs.
      { pose proof (inv_listeners_said _ _ Hi) as Hf. rewrite Forall_forall in Hf. by apply Hf in Hg. }
      destruct Hi, c. split; simpl in *; try done; [by apply hm_insert_NoDup|by apply hm_insert_Forall].
Qed.

Lemma consume_tor_events_ok evs :
  Forall event_ok evs → yields cx_ok event_ok (consume_tor_events evs : CX_ events).
Proof.
  intros He c c' r [Hi Hsid]. unfold consume_tor_events, mbind, M_bind, get_state, modify.
  destruct (cx_on_tor tp_update c) as [[c1 x]| |] eqn:Ht; [|done..].
  assert (cx_ok c1) as Hc1.
  { split; [by eapply cx_on_tor_inv|]. unfold cx_on_tor in Ht.
    destruct (tp_update (cx_tor_provider c)) as [[p y]| |]; [|done..]. injection Ht as <- _. by destruct c. }
  destruct x as [tes|e]; [|by intros [= <- <-]].
  assert (∀ c evs, cx_ok c → Forall event_ok evs →
    cx_ok (fold_left handle_tor_event tes (c, evs)).1 ∧
    Forall event_ok (fold_left handle_tor_event tes (c, evs)).2) as Hfold.
  { clear. induction tes as [|te tes IH]; intros c evs Hc He; cbn [fold_left]; [done|].
    destruct (handle_tor_event_ok te c evs Hc He) as [H1 H2].
    destruct (handle_tor_event (c, evs) te) as [c' evs']. by apply IH. }
  destruct (Hfold c1 evs Hc1 He) as [H1 H2]. destruct (fold_left _ _ _) as [c2 evs2].
  by intros [= <- <-].
Qed.

(** A map of handshakes whose updates keep [Q] and report only events in order. *)
Lemma update_handshakes_entries {V} `{!Handshake RW V} (Q : HandshakeHandle → V → Prop) field set_field fuel evs c c' r :
  (∀ h n v, Q h v → Q h (hs_set_draws n v)) →
  (∀ h v v' x, Q h v → hs_update fuel v = Done (v', x) →
     match hs_report h v' x with (o, keep) => (keep = true → Q h v') ∧ (∀ e, o = Some e → event_ok e) end) →
  Forall event_ok evs → Forall (λ x, Q x.1 x.2) (field c) →
  (update_handshakes field set_field fuel evs : CX_ events) c = Done (c', r) →
  ∃ m n evs', c' = cx_set_draws n (set_field m c) ∧ r = Ok evs' ∧ Forall event_ok evs' ∧
    Forall (λ x, Q x.1 x.2) m ∧ sublist m.*1 (field c).*1.
Proof.
  intros Hdr Hup He Hq. unfold update_handshakes.
  destruct (retain _ _ _) as [[[d evs'] m]| |] eqn:Hr; [|done..]. intros [= <- <-].
  exists m, d, evs'. pose proof (retain_sublist _ _ _ _ _ Hr) as Hsub.
  apply (retain_keeps _ (λ de, Forall event_ok de.2) Q) in Hr as [He' Hm]; [by split_and!| |done..].
  intros h v [d0 evs0] [d1 evs1] v' b He0 Hv. unfold handshake_turn. simpl in *.
  destruct (hs_update fuel (hs_set_draws d0 v)) as [[w x]| |] eqn:Hu; [|done..].
  specialize (Hup h _ _ _ (Hdr h d0 v Hv) Hu). destruct (hs_report h w x) as [o keep].
  intros [= <- <- <- <-]. destruct Hup as [Hk Ho]. split; [|done].
  destruct o as [e|]; [|done]. apply Forall_app. split; [done|]. constructor; [by apply Ho|done].
Qed.

Lemma is_update_good fuel h s s' x :
  is_good said sid h s → is_update fuel s = Done (s', x) →
  is_good said sid h s' ∧ ∀ e, (hs_report h s' x : option (ContextEvent RW) * bool).1 = Some e → event_ok e.
Proof.
  intros [Hi Hid Hreq Hresp] Hu. pose proof (is_update_frame _ _ _ _ Hu) as Hf.
  unfold is_frame in Hf. injection Hf as E1 E2 E3 E4.
  assert (is_good said sid h s') as Hg.
  { split; [by eapply is_update_inv|by rewrite E1|by rewrite E2, E3|by rewrite E4]. }
  split; [done|]. intros e. destruct x as [[[]|]|]; simpl; intros [= <-]; try done.
  destruct (is_update_completed _ _ _ _ _ _ _ Hi Hu) as (Ha & Hb & Hc & Hv & (sc & cc & sig & key & _ & Hcc & Hk & Hver) & Haux & _).
  simpl. rewrite E2 in Ha. rewrite E3 in Hb. rewrite E4 in Hc. split_and!; auto.
  rewrite E1, Hid in Hver. by eexists _, sc, cc, sig, key.
Qed.

Lemma ep_update_good fuel h s s' x :
  ep_good said h s → ep_update fuel s = Done (s', x) →
  ep_good said h s' ∧ ∀ e, (hs_report h s' x : option (ContextEvent RW) * bool).1 = Some e → event_ok e.
Proof.
  intros [Hi Hrpc Hend Hch] Hu. pose proof (ep_update_frame _ _ _ _ Hu) as Hf.
  unfold ep_frame in Hf. injection Hf as E1 E2 E3 E4.
  destruct (ep_update_inv fuel s s' x (conj Hi Hrpc) Hu) as [Hi' Hrpc'].
  assert (ep_good said h s') as Hg.
  { split; [done..|by rewrite E1, E2|by rewrite E3, E4]. }
  split; [done|]. intros e. destruct x as [[ev|]|]; simpl; [|done|by intros [= <-]].
  pose proof (ep_update_event _ _ _ _ Hi Hrpc Hu) as Hev.
  destruct ev as [cl ch|cl ch st|]; simpl; intros [= <-]; try done.
  destruct Hev as (-> & Hval & _ & sc & cc & sig & key & Hsc & Hcc & Hk & Hver). split_and!.
  - by rewrite E1, E2.
  - rewrite <- Hval, E3. apply Hch. by rewrite <- E4, Hsc.
  - by eexists ch, sc, cc, sig, key.
Qed.

Lemma update_ic_ok fuel evs : Forall event_ok evs →
  yields cx_ok event_ok (update_handshakes cx_identity_clients cx_set_identity_clients fuel evs : CX_ events).
Proof.
  intros He c c' r [Hi Hsid] Hu.
  eapply (update_handshakes_entries (λ _ _, True)) in Hu as (m & n & evs' & -> & -> & He' & _ & Hsub); try done.
  - split; [|done]. split; [apply cx_inv_draws|by destruct c].
    destruct Hi, c. split; simpl in *; try done. by eapply handles_below_sublist.
  - intros h v v' x _ _. destruct x as [[[]|]|]; (split; [done|]); by intros ? [= <-].
  - by apply Forall_true.
Qed.

Lemma update_ec_ok fuel evs : Forall event_ok evs →
  yields cx_ok event_ok (update_handshakes cx_endpoint_clients cx_set_endpoint_clients fuel evs : CX_ events).
Proof.
  intros He c c' r [Hi Hsid] Hu.
  eapply (update_handshakes_entries (λ _ _, True)) in Hu as (m & n & evs' & -> & -> & He' & _ & Hsub); try done.
  - split; [|done]. split; [apply cx_inv_draws|by destruct c].
    destruct Hi, c. split; simpl in *; try done. by eapply handles_below_sublist.
  - intros h v v' x _ _. destruct x as [[[]|]|]; (split; [done|]); by intros ? [= <-].
  - by apply Forall_true.
Qed.

Lemma update_is_ok fuel evs : Forall event_ok evs →
  yields cx_ok event_ok (update_handshakes cx_identity_servers cx_set_identity_servers fuel evs : CX_ events).
Proof.
  intros He c c' r [Hi Hsid] Hu.
  eapply (update_handshakes_entries (is_good said sid)) in Hu as (m & n & evs' & -> & -> & He' & Hm & Hsub); try done.
  - split; [|done]. split; [apply cx_inv_draws|by destruct c].
    destruct Hi, c. split; simpl in *; try done; [by eapply handles_below_sublist|by rewrite Hsid].
  - intros h k v. apply is_good_draws.
  - intros h v v' x Hv Hx. destruct (is_update_good fuel h v v' x Hv Hx) as [Hg Hr].
    destruct (hs_report h v' x) as [o b]. split; [done|]. apply Hr.
  - rewrite <- Hsid. apply (inv_is_good _ _ Hi).
Qed.

Lemma update_ep_ok fuel evs : Forall event_ok evs →
  yields cx_ok event_ok (update_handshakes cx_endpoint_servers cx_set_endpoint_servers fuel evs : CX_ events).
Proof.
  intros He c c' r [Hi Hsid] Hu.
  eapply (update_handshakes_entries (ep_good said)) in Hu as (m & n & evs' & -> & -> & He' & Hm & Hsub); try done.
  - split; [|done]. split; [apply cx_inv_draws|by destruct c].
    destruct Hi, c. split; simpl in *; try done. by eapply handles_below_sublist.
  - intros h k v. apply ep_good_draws.
  - intros h v v' x Hv Hx. destruct (ep_update_good fuel h v v' x Hv Hx) as [Hg Hr].
    destruct (hs_report h v' x) as [o b]. split; [done|]. apply Hr.
  - apply (inv_ep_good _ _ Hi).
Qed.

Lemma cx_update_ok fuel : yields cx_ok event_ok (cx_update fuel : CX_ events).
Proof.
  apply yields_bind; [apply accept_identity_ok|]. intros e1 H1.
  apply yields_bind; [by apply accept_endpoints_ok|]. intros e2 H2.
  apply yields_bind; [by apply consume_tor_events_ok|]. intros e3 H3.
  apply yields_bind; [by apply update_ic_ok|]. intros e4 H4.
  apply yields_bind; [by apply update_is_ok|]. intros e5 H5.
  apply yields_bind; [by apply update_ec_ok|]. intros e6 H6. by apply update_ep_ok.
Qed.
End update.

(** * Reachable contexts *)

Section reachable.
Context `{BL : BsonLaws} `{CL : CryptoLaws} {RW TL P : Type} `{SL : StreamLaws RW} `{!Sockets RW TL}
  `{!TorProvider P RW TL} `{!HashOrder V3OnionServiceId}.
Implicit Types (c : Context RW TL P).
Abbreviation CX_ := (M (Context RW TL P) CXError).

(** [said] grows by an answer or an endpoint when the call that made it succeeded. *)
Definition heard {E A} (s : Said) (r : result E A) (said : list Said) : list Said :=
  match r with Ok _ => s :: said | Err _ => said end.

(** Everything an application can do with a context, in any order, together with what it
    has said so far. *)
Inductive cx_reachable : list Said → Context RW TL P → Prop :=
| cx_reach_new p port port' t mx et key n :
    cx_reachable [] (context_new p port port' t mx et key n)
| cx_reach_bootstrap said c c' r :
    cx_reachable said c → cx_bootstrap c = Done (c', r) → cx_reachable said c'
| cx_reach_update said c fuel c' r :
    cx_reachable said c → cx_update fuel c = Done (c', r) → cx_reachable said c'
| cx_reach_identity_client_begin said c id endpoint c' r :
    cx_reachable said c → identity_client_begin_handshake id endpoint c = Done (c', r) → cx_reachable said c'
| cx_reach_identity_client_abort said c h c' r :
    cx_reachable said c → identity_client_abort_handshake h c = Done (c', r) → cx_reachable said c'
| cx_reach_challenge_received said c h resp c' r :
    cx_reachable said c → identity_client_handle_challenge_received h resp c = Done (c', r) → cx_reachable said c'
| cx_reach_identity_server_start said c c' r :
    cx_reachable said c → identity_server_start c = Done (c', r) → cx_reachable said c'
| cx_reach_identity_server_stop said c c' r :
    cx_reachable said c → identity_server_stop c = Done (c', r) → cx_reachable said c'
| cx_reach_endpoint_request said c h allowed valid challenge c' r :
    cx_reachable said c →
    identity_server_handle_endpoint_request_received h allowed valid challenge c = Done (c', r) →
    cx_reachable (heard (S_Request h allowed valid) r said) c'
| cx_reach_challenge_response said c h valid c' r :
    cx_reachable said c → identity_server_handle_challenge_response_received h valid c = Done (c', r) →
    cx_reachable (heard (S_Response h valid) r said) c'
| cx_reach_endpoint_client_begin said c id key channel c' r :
    cx_reachable said c → endpoint_client_begin_handshake id key channel c = Done (c', r) → cx_reachable said c'
| cx_reach_endpoint_client_abort said c h c' r :
    cx_reachable said c → endpoint_client_abort_handshake h c = Done (c', r) → cx_reachable said c'
| cx_reach_endpoint_server_start said c key name client auth c' r :
    cx_reachable said c → endpoint_server_start key name client auth c = Done (c', r) →
    cx_reachable (heard (S_Endpoint (service_id_from_private_key key) client) r said) c'
| cx_reach_channel_request said c h valid c' r :
    cx_reachable said c → endpoint_server_handle_channel_request_received h valid c = Done (c', r) →
    cx_reachable (heard (S_Channel h valid) r said) c'
| cx_reach_endpoint_server_stop said c id c' r :
    cx_reachable said c → endpoint_server_stop id c = Done (c', r) → cx_reachable said c'
| cx_reach_connect said c addr token c' r :
    cx_reachable said c → cx_connect addr token c = Done (c', r) → cx_reachable said c'
| cx_reach_generate_token said c :
    cx_reachable said c → cx_reachable said (generate_circuit_token c).2
| cx_reach_release_token said c token :
    cx_reachable said c → cx_reachable said (release_circuit_token token c).

Lemma cx_reachable_inv said c : cx_reachable said c → cx_inv said c.
Proof.
  induction 1 as
    [ |? ? ? ? ? ? Hm|? ? ? ? ? ? ? Hm|? ? ? ? ? ? ? ? Hm|? ? ? ? ? ? ? Hm|? ? ? ? ? ? ? ? Hm|? ? ? ? ? ? Hm
    |? ? ? ? ? ? Hm|? ? ? ? ? ? ? ? ? ? Hm|? ? ? ? ? ? ? ? Hm|? ? ? ? ? ? ? ? ? Hm|? ? ? ? ? ? ? Hm
    |? ? ? ? ? ? ? ? ? ? Hm|? ? ? ? ? ? ? ? Hm|? ? ? ? ? ? ? Hm|? ? ? ? ? ? ? ? Hm| | ].
  - apply cx_inv_new.
  - by eapply cx_on_tor_inv.
  - match goal with IH : cx_inv _ ?c |- _ =>
      by destruct (cx_update_ok _ (cx_identity_service_id c) _ _ _ _ (conj IH eq_refl) Hm) as [[? _] _] end.
  - by eapply identity_client_begin_inv.
  - by eapply identity_client_abort_inv.
  - by eapply challenge_received_inv.
  - by eapply identity_server_start_inv.
  - by eapply identity_server_stop_inv.
  - by eapply endpoint_request_inv.
  - by eapply challenge_response_inv.
  - by eapply endpoint_client_begin_inv.
  - by eapply endpoint_client_abort_inv.
  - by eapply endpoint_server_start_inv.
  - by eapply channel_request_inv.
  - by eapply endpoint_server_stop_inv.
  - by eapply cx_on_tor_inv.
  - unfold generate_circuit_token. destruct (tp_generate_token _). by apply cx_inv_tor.
  - by apply cx_inv_tor.
Qed.
End reachable.
