(* ===== verification/ContextLife.v ===== *)
(** The life of the handshakes of a context: every handshake that enters one of the maps of
    handshakes or leaves it during an update is reported, once, under its own handle. *)

From Stdlib Require Import ZArith Lia.
From S2P Require Import Prelude Bson HonkWire HonkSize VecDeque Maps HonkSession HonkRead HonkWrite HonkUpdate.
From S2P Require Import Crypto TorCrypto GoslingProto IdentityServer IdentityClient EndpointServer.
From S2P Require Import EndpointClient TorProvider Context ContextTheory.
From stdpp Require Import prelude strings list.

Open Scope nat_scope.

(** * Events and the handshakes they are about *)

Inductive HsKind := K_IdentityClient | K_IdentityServer | K_EndpointClient | K_EndpointServer.
Inductive HsPhase := P_Started | P_Progress | P_Ended.

#[export] Instance hs_kind_eq_dec : EqDecision HsKind.
Proof. solve_decision. Defined.

Section life.
Context `{BL : BsonLib} `{CL : CryptoLib} {RW TL P : Type} `{!Stream RW} `{!Sockets RW TL}
  `{!TorProvider P RW TL} `{!HashOrder V3OnionServiceId}.
Implicit Types (c : Context RW TL P) (e : ContextEvent RW) (evs : list (ContextEvent RW)).
Abbreviation CX_ := (M (Context RW TL P) CXError).
Abbreviation events := (list (ContextEvent RW)).

(** The handshake an event is about, and what it says of it. *)
Definition ce_handshake e : option (HsKind * HandshakeHandle * HsPhase) :=
  match e with
  | CE_IdentityClientChallengeReceived h _ => Some (K_IdentityClient, h, P_Progress)
  | CE_IdentityClientHandshakeCompleted h _ _ _ _ => Some (K_IdentityClient, h, P_Ended)
  | CE_IdentityClientHandshakeFailed h _ => Some (K_IdentityClient, h, P_Ended)
  | CE_IdentityServerHandshakeStarted h => Some (K_IdentityServer, h, P_Started)
  | CE_IdentityServerEndpointRequestReceived h _ _ => Some (K_IdentityServer, h, P_Progress)
  | CE_IdentityServerChallengeResponseReceived h _ => Some (K_IdentityServer, h, P_Progress)
  | CE_IdentityServerHandshakeCompleted h _ _ _ _ => Some (K_IdentityServer, h, P_Ended)
  | CE_IdentityServerHandshakeRejected h _ _ _ _ _ => Some (K_IdentityServer, h, P_Ended)
  | CE_IdentityServerHandshakeFailed h _ => Some (K_IdentityServer, h, P_Ended)
  | CE_EndpointClientHandshakeCompleted h _ _ _ => Some (K_EndpointClient, h, P_Ended)
  | CE_EndpointClientHandshakeFailed h _ => Some (K_EndpointClient, h, P_Ended)
  | CE_EndpointServerHandshakeStarted h => Some (K_EndpointServer, h, P_Started)
  | CE_EndpointServerChannelRequestReceived h _ _ => Some (K_EndpointServer, h, P_Progress)
  | CE_EndpointServerHandshakeCompleted h _ _ _ _ => Some (K_EndpointServer, h, P_Ended)
  | CE_EndpointServerHandshakeRejected h _ _ _ => Some (K_EndpointServer, h, P_Ended)
  | CE_EndpointServerHandshakeFailed h _ => Some (K_EndpointServer, h, P_Ended)
  | _ => None
  end.

Definition reported k h ph evs : Prop := ∃ e, e ∈ evs ∧ ce_handshake e = Some (k, h, ph).

(** The handshake whose turn an event reports. *)
Definition turn_of e : option (HsKind * HandshakeHandle) :=
  match ce_handshake e with Some (k, h, P_Started) => None | Some (k, h, _) => Some (k, h) | None => None end.

(** The handles of the handshakes in progress. *)
Definition cx_handles (k : HsKind) c : list HandshakeHandle :=
  match k with
  | K_IdentityClient => (cx_identity_clients c).*1
  | K_IdentityServer => (cx_identity_servers c).*1
  | K_EndpointClient => (cx_endpoint_clients c).*1
  | K_EndpointServer => (cx_endpoint_servers c).*1
  end.

Lemma reported_app k h ph evs evs' :
  reported k h ph (evs ++ evs') ↔ reported k h ph evs ∨ reported k h ph evs'.
Proof. unfold reported. set_solver. Qed.

Lemma reported_nil k h ph : ¬ reported k h ph [].
Proof. by intros (e & ?%elem_of_nil & _). Qed.

Lemma reported_turn k h ph evs : reported k h ph evs → ph ≠ P_Started → (k, h) ∈ omap turn_of evs.
Proof.
  intros (e & He & Hc) Hp. apply list_elem_of_omap. exists e. split; [done|].
  unfold turn_of. rewrite Hc. by destruct ph.
Qed.

Lemma turn_reported k h evs :
  (k, h) ∈ omap turn_of evs → reported k h P_Progress evs ∨ reported k h P_Ended evs.
Proof.
  intros (e & He & Ht)%list_elem_of_omap. unfold turn_of in Ht.
  destruct (ce_handshake e) as [[[k' h'] []]|] eqn:Hc; simplify_eq; [left|right]; by exists e.
Qed.

(** * One step of an update *)

Definition below c : Prop := ∀ k h, h ∈ cx_handles k c → (h < cx_next_handshake_handle c)%Z.

(** How the maps of [c'] follow from those of [c] and the events [evs] in between. *)
Record life c c' evs : Prop := {
  life_next : (cx_next_handshake_handle c ≤ cx_next_handshake_handle c')%Z;
  life_handles k h :
    h ∈ cx_handles k c' ↔
      (h ∈ cx_handles k c ∨ reported k h P_Started evs) ∧ ¬ reported k h P_Ended evs;
  life_started k h :
    reported k h P_Started evs → (cx_next_handshake_handle c ≤ h < cx_next_handshake_handle c')%Z;
  life_turns k h :
    (k, h) ∈ omap turn_of evs → h ∈ cx_handles k c ∨ reported k h P_Started evs;
}.

Lemma life_below c c' evs : below c → life c c' evs → below c'.
Proof.
  intros Hb [Hn Hh Hs _] k h Hin. apply Hh in Hin as [[Hin|Hin] _].
  - specialize (Hb _ _ Hin). lia.
  - apply Hs in Hin. lia.
Qed.

Lemma life_refl c c' evs :
  (∀ k, cx_handles k c' = cx_handles k c) → cx_next_handshake_handle c' = cx_next_handshake_handle c →
  Forall (λ e, ce_handshake e = None) evs → life c c' evs.
Proof.
  intros Hh Hn He. rewrite Forall_forall in He.
  assert (∀ k h ph, ¬ reported k h ph evs) as Hr.
  { intros k h ph (e & Hin & Hc). by rewrite (He e Hin) in Hc. }
  split; [lia|..].
  - intros k h. rewrite Hh. naive_solver.
  - naive_solver.
  - intros k h [?|?]%turn_reported; naive_solver.
Qed.

Lemma life_trans c c1 c2 evs1 evs2 :
  below c → life c c1 evs1 → life c1 c2 evs2 → life c c2 (evs1 ++ evs2).
Proof.
  intros Hb L1 L2. pose proof (life_below _ _ _ Hb L1) as Hb1.
  destruct L1 as [Hn1 Hh1 Hs1 Ht1], L2 as [Hn2 Hh2 Hs2 Ht2]. split.
  - lia.
  - intros k h. rewrite Hh2, Hh1, !reported_app. split; [|tauto].
    intros [[Hin|Hin] Hne]; [tauto|]. split; [tauto|]. intros [He|He]; [|done].
    (* a handle started in the second part is above all of the first *)
    apply Hs2 in Hin. destruct (Ht1 k h) as [H|H]; [by eapply reported_turn|..].
    + apply Hb in H. lia.
    + apply Hs1 in H. lia.
  - intros k h. rewrite reported_app. intros [H|H]; [apply Hs1 in H|apply Hs2 in H]; lia.
  - intros k h. rewrite omap_app, elem_of_app, reported_app. intros [H|H].
    + apply Ht1 in H. tauto.
    + apply Ht2 in H as [H|H]; [|tauto]. apply Hh1 in H. tauto.
Qed.

(** [steps m evs]: what [m] returns is [evs] and the events of its own, which account for
    what it did to the maps, and each is the only turn of its handshake. *)
Definition steps (allowed : list HsKind) (m : events → CX_ events) : Prop :=
  ∀ evs c c' evs', (∀ k, NoDup (cx_handles k c)) → below c → m evs c = Done (c', Ok evs') →
  ∃ new, evs' = evs ++ new ∧ life c c' new ∧ (∀ k, NoDup (cx_handles k c')) ∧
    NoDup (omap turn_of new) ∧ ∀ k h, (k, h) ∈ omap turn_of new → k ∈ allowed.

Lemma steps_bind ks ks' (m f : events → CX_ events) :
  (∀ k, k ∈ ks → k ∈ ks' → False) →
  steps ks m → steps ks' f → steps (ks ++ ks') (λ evs, m evs ≫= f).
Proof.
  intros Hdis Hm Hf evs c c' evs' Hnd Hb. unfold mbind, M_bind.
  destruct (m evs c) as [[c1 [evs1|e]]| |] eqn:H1; [|done..]. intros H2.
  destruct (Hm _ _ _ _ Hnd Hb H1) as (n1 & -> & L1 & Hnd1 & Hd1 & Ht1).
  destruct (Hf _ _ _ _ Hnd1 (life_below _ _ _ Hb L1) H2) as (n2 & -> & L2 & Hnd2 & Hd2 & Ht2).
  exists (n1 ++ n2). rewrite omap_app. split_and!.
  - by rewrite (assoc_L (++)).
  - by eapply life_trans.
  - done.
  - apply NoDup_app. split_and!; [done| |done]. intros [k h] Hk1 Hk2.
    apply Ht1 in Hk1. apply Ht2 in Hk2. by eapply Hdis.
  - intros k h [H|H]%elem_of_app; [apply Ht1 in H|apply Ht2 in H]; set_solver.
Qed.

(** ** New connections *)

Lemma life_start k c c' e :
  (∀ k', k' ≠ k → cx_handles k' c' = cx_handles k' c) →
  cx_handles k c' ≡ₚ cx_next_handshake_handle c :: cx_handles k c →
  cx_next_handshake_handle c' = (cx_next_handshake_handle c + 1)%Z →
  ce_handshake e = Some (k, cx_next_handshake_handle c, P_Started) → life c c' [e].
Proof.
  intros Ho Hk Hn He.
  assert (∀ k' h ph, reported k' h ph [e] ↔ k' = k ∧ h = cx_next_handshake_handle c ∧ ph = P_Started) as Hr.
  { intros k' h ph. unfold reported. split.
    - intros (e' & ->%list_elem_of_singleton & Hc). rewrite He in Hc. by simplify_eq.
    - intros (-> & -> & ->). exists e. split; [left|done]. }
  split.
  - lia.
  - intros k' h. rewrite !Hr. destruct (decide (k' = k)) as [->|Hne].
    + rewrite Hk, elem_of_cons. naive_solver.
    + rewrite (Ho k' Hne). naive_solver.
  - intros k' h (_ & -> & _)%Hr. lia.
  - intros k' h [H|H]%turn_reported; apply Hr in H; naive_solver.
Qed.

(** The state the context enters with a new handshake of kind [k]. *)
Lemma enter_is c s n :
  (∀ k, NoDup (cx_handles k c)) → below c →
  let c' := cx_set_draws n (cx_set_identity_servers
    (bt_insert (cx_identity_servers c) (cx_next_handshake_handle c) s)
    (cx_set_next (cx_next_handshake_handle c + 1)%Z c)) in
  life c c' [CE_IdentityServerHandshakeStarted (cx_next_handshake_handle c)] ∧
  (∀ k, NoDup (cx_handles k c')).
Proof.
  intros Hnd Hb c'. assert (cx_next_handshake_handle c ∉ cx_handles K_IdentityServer c) as Hf.
  { intros Hin. apply Hb in Hin. lia. }
  assert (cx_handles K_IdentityServer c' ≡ₚ cx_next_handshake_handle c :: cx_handles K_IdentityServer c) as Hk.
  { unfold c'. destruct c. by apply bt_insert_fresh. }
  assert (∀ k, k ≠ K_IdentityServer → cx_handles k c' = cx_handles k c) as Ho.
  { intros []; unfold c'; by destruct c. }
  split; [eapply life_start; [done..| |done]; unfold c'; by destruct c|].
  intros k. destruct (decide (k = K_IdentityServer)) as [->|Hne]; [|by rewrite Ho].
  rewrite Hk. by apply NoDup_cons.
Qed.

Lemma enter_ep c s n :
  (∀ k, NoDup (cx_handles k c)) → below c →
  let c' := cx_set_draws n (cx_set_endpoint_servers
    (bt_insert (cx_endpoint_servers c) (cx_next_handshake_handle c) s)
    (cx_set_next (cx_next_handshake_handle c + 1)%Z c)) in
  life c c' [CE_EndpointServerHandshakeStarted (cx_next_handshake_handle c)] ∧
  (∀ k, NoDup (cx_handles k c')).
Proof.
  intros Hnd Hb c'. assert (cx_next_handshake_handle c ∉ cx_handles K_EndpointServer c) as Hf.
  { intros Hin. apply Hb in Hin. lia. }
  assert (cx_handles K_EndpointServer c' ≡ₚ cx_next_handshake_handle c :: cx_handles K_EndpointServer c) as Hk.
  { unfold c'. destruct c. by apply bt_insert_fresh. }
  assert (∀ k, k ≠ K_EndpointServer → cx_handles k c' = cx_handles k c) as Ho.
  { intros []; unfold c'; by destruct c. }
  split; [eapply life_start; [done..| |done]; unfold c'; by destruct c|].
  intros k. destruct (decide (k = K_EndpointServer)) as [->|Hne]; [|by rewrite Ho].
  rewrite Hk. by apply NoDup_cons.
Qed.

(** Two contexts with the same handshakes. *)
Lemma life_same c c' :
  (∀ k, cx_handles k c' = cx_handles k c) → cx_next_handshake_handle c' = cx_next_handshake_handle c →
  (∀ k, NoDup (cx_handles k c)) → life c c' [] ∧ (∀ k, NoDup (cx_handles k c')).
Proof. intros Hh Hn Hnd. split; [by apply life_refl|]. intros k. by rewrite Hh. Qed.

Lemma accept_identity_life c c' evs :
  (∀ k, NoDup (cx_handles k c)) → below c → accept_identity_connection c = Done (c', Ok evs) →
  life c c' evs ∧ (∀ k, NoDup (cx_handles k c')) ∧ omap turn_of evs = [].
Proof.
  intros Hnd Hb. unfold accept_identity_connection, mbind, M_bind, get_state.
  assert (∀ c', (∀ k, cx_handles k c' = cx_handles k c) →
    cx_next_handshake_handle c' = cx_next_handshake_handle c →
    life c c' [] ∧ (∀ k, NoDup (cx_handles k c')) ∧ omap turn_of ([] : events) = []) as Hsame.
  { intros d H1 H2. destruct (life_same c d H1 H2 Hnd). by split_and!. }
  destruct (cx_identity_listener c) as [l|]; [|intros [= <- <-]; by apply Hsame].
  unfold identity_server_handle_accept. destruct (ol_accept l) as [x l']. simpl.
  destruct x as [[st|]|kd]; [|intros [= <- <-]; apply Hsame; [intros []|]; by destruct c..].
  destruct (ts_set_nonblocking true (os_stream st)) as [[u|kd] st'];
    [|intros [= <- <-]; apply Hsame; [intros []|]; by destruct c].
  destruct (new_session _ _ _) as [rpc|er];
    [|intros [= <- <-]; apply Hsame; [intros []|]; by destruct c].
  unfold modify. set (c1 := cx_set_identity_listener (Some l') c).
  destruct (cx_new_handle c1) as [[c2 r2]| |] eqn:Hh; [|done..].
  apply cx_new_handle_Done in Hh as (Hn & -> & ->). intros [= <- <-].
  assert (∀ k, cx_handles k c1 = cx_handles k c) as Hk1 by (intros []; by destruct c).
  assert (cx_next_handshake_handle c1 = cx_next_handshake_handle c) as Hn1 by by destruct c.
  destruct (life_same c c1 Hk1 Hn1 Hnd) as [L1 Hnd1].
  destruct (enter_is c1 (identity_server_new rpc (service_id_from_private_key (cx_identity_private_key c)) (cx_draws c))
    (cx_draws c) Hnd1 (life_below _ _ _ Hb L1)) as [L2 Hnd2].
  replace (cx_identity_servers (cx_set_next _ c1)) with (cx_identity_servers c1) by (by destruct c).
  split_and!; [|done..]. apply (life_trans c c1 _ [] _ Hb L1 L2).
Qed.

Lemma accept_endpoints_life : steps [] accept_endpoint_connections.
Proof.
  intros evs c c' evs' Hnd Hb. unfold accept_endpoint_connections.
  destruct (retain _ _ _) as [[[c1 evs1] m]| |] eqn:Hr; [|done..]. intros [= <- <-].
  assert (∃ new, evs1 = evs ++ new ∧ life c c1 new ∧ (∀ k, NoDup (cx_handles k c1)) ∧ omap turn_of new = [])
    as (new & -> & L & Hnd1 & Ht).
  { eapply (retain_keeps _ (λ ce, ∃ new, ce.2 = evs ++ new ∧ life c ce.1 new ∧
      (∀ k, NoDup (cx_handles k ce.1)) ∧ omap turn_of new = []) (λ _ _, True)) in Hr as [H _]; [exact H|..].
    - clear Hr. intros id l [d es] [d' es'] l' b. simpl. intros (new & -> & L & Hd & Ht) _.
      unfold endpoint_server_handle_accept. destruct (ol_accept (el_listener l)) as [x ol].
      assert (∀ d', (∀ k, cx_handles k d' = cx_handles k d) →
        cx_next_handshake_handle d' = cx_next_handshake_handle d →
        ∃ new0, evs ++ new = evs ++ new0 ∧ life c d' new0 ∧ (∀ k, NoDup (cx_handles k d')) ∧
          omap turn_of new0 = []) as Hsame.
      { intros d1 H1 H2. exists new. destruct (life_same d d1 H1 H2 Hd) as [L' Hd'].
        pose proof (life_trans _ _ _ _ _ Hb L L') as Lx. rewrite app_nil_r in Lx. by split_and!. }
      destruct x as [[st|]|kd]; [|intros [= <- <- <- <-]; split; [|done]; apply Hsame; [intros []|]; by destruct d..].
      destruct (ts_set_nonblocking true (os_stream st)) as [[u|kd] st'];
        [|intros [= <- <- <- <-]; split; [|done]; apply Hsame; [intros []|]; by destruct d].
      destruct (new_session _ _ _) as [rpc|er];
        [|intros [= <- <- <- <-]; split; [|done]; apply Hsame; [intros []|]; by destruct d].
      destruct (cx_new_handle d) as [[c2 r2]| |] eqn:Hh; [|done..].
      apply cx_new_handle_Done in Hh as (Hn & -> & ->). intros [= <- <- <- <-]. split; [|done].
      replace (cx_endpoint_servers (cx_set_next _ d)) with (cx_endpoint_servers d) by (by destruct d).
      match goal with |- context [bt_insert _ _ ?s] =>
        destruct (enter_ep d s (ep_draws s) Hd (life_below _ _ _ Hb L)) as [L2 Hd2] end.
      exists (new ++ [CE_EndpointServerHandshakeStarted (cx_next_handshake_handle d)]).
      split_and!; [by rewrite (assoc_L (++))|by eapply life_trans|done|]. by rewrite omap_app, Ht.
    - exists []. rewrite app_nil_r. destruct (life_same c c) as [L Hd]; [done..|]. by split_and!.
    - by apply Forall_true. }
  exists new. rewrite Ht. split_and!; [done| | |apply NoDup_nil_2|by intros k h ?%elem_of_nil].
  - destruct (life_same c1 (cx_set_endpoint_listeners m c1)) as [L' _]; [by intros []; destruct c1|by destruct c1|done|].
    pose proof (life_trans _ _ _ _ _ Hb L L') as Lx. by rewrite app_nil_r in Lx.
  - intros k. specialize (Hnd1 k). by destruct k, c1.
Qed.

(** ** Tor events *)

Lemma handle_tor_event_life c evs te :
  ∃ new, (handle_tor_event (c, evs) te).2 = evs ++ new ∧ Forall (λ e, ce_handshake e = None) new ∧
    (∀ k, cx_handles k (handle_tor_event (c, evs) te).1 = cx_handles k c) ∧
    cx_next_handshake_handle (handle_tor_event (c, evs) te).1 = cx_next_handshake_handle c.
Proof.
  assert (∀ c', (∀ k, cx_handles k c' = cx_handles k c) → cx_next_handshake_handle c' = cx_next_handshake_handle c →
    ∀ l, Forall (λ e, ce_handshake e = None) l →
    ∃ new, evs ++ l = evs ++ new ∧ Forall (λ e, ce_handshake e = None) new ∧
      (∀ k, cx_handles k c' = cx_handles k c) ∧ cx_next_handshake_handle c' = cx_next_handshake_handle c) as H.
  { intros c' H1 H2 l Hl. by exists l. }
  assert (∃ new, evs = evs ++ new ∧ Forall (λ e, ce_handshake e = None) new ∧
      (∀ k, cx_handles k c = cx_handles k c) ∧ cx_next_handshake_handle c = cx_next_handshake_handle c) as H0.
  { exists []. by rewrite app_nil_r. }
  destruct te; simpl; repeat case_match; simpl; try done;
    (apply H; [intros []; by destruct c|by destruct c|by constructor]).
Qed.

Lemma consume_tor_events_life : steps [] consume_tor_events.
Proof.
  intros evs c c' evs' Hnd Hb. unfold consume_tor_events, mbind, M_bind, get_state, modify.
  destruct (cx_on_tor tp_update c) as [[c1 [tes|er]]| |] eqn:Ht; [|done..].
  assert ((∀ k, cx_handles k c1 = cx_handles k c) ∧ cx_next_handshake_handle c1 = cx_next_handshake_handle c) as [Hk1 Hn1].
  { unfold cx_on_tor in Ht. destruct (tp_update _) as [[p y]| |]; [|done..]. injection Ht as <- _.
    split; [intros []|]; by destruct c. }
  assert (∀ c evs, ∃ new, (fold_left handle_tor_event tes (c, evs)).2 = evs ++ new ∧
    Forall (λ e, ce_handshake e = None) new ∧
    (∀ k, cx_handles k (fold_left handle_tor_event tes (c, evs)).1 = cx_handles k c) ∧
    cx_next_handshake_handle (fold_left handle_tor_event tes (c, evs)).1 = cx_next_handshake_handle c) as Hfold.
  { clear. induction tes as [|te tes IH]; intros c evs; cbn [fold_left].
    { exists []. by rewrite app_nil_r. }
    destruct (handle_tor_event_life c evs te) as (n1 & H1 & H2 & H3 & H4).
    destruct (handle_tor_event (c, evs) te) as [c1 evs1]. simpl in *.
    destruct (IH c1 evs1) as (n2 & G1 & G2 & G3 & G4). exists (n1 ++ n2).
    split_and!; [by rewrite G1, H1, (assoc_L (++))|by apply Forall_app|intros k; by rewrite G3|by rewrite G4]. }
  destruct (Hfold c1 evs) as (new & G1 & G2 & G3 & G4).
  destruct (fold_left _ _ _) as [c2 evs2]. simpl in *. intros [= <- <-].
  assert (∀ k, cx_handles k c2 = cx_handles k c) as Hk2 by (intros k; by rewrite G3).
  exists new. assert (omap turn_of new = []) as Hnone.
  { clear -G2. induction G2 as [|e l He _ IH]; simpl; [done|]. unfold turn_of at 1. by rewrite He. }
  rewrite Hnone. split_and!; [done|by apply life_refl; [..|congruence|]|intros k; by rewrite Hk2|
    apply NoDup_nil_2|by intros k h ?%elem_of_nil].
Qed.

(** ** The turns of the handshakes *)

(** What the report of a handshake promises: an event about this handshake, which ends
    exactly when the event says so, and nothing is removed in silence. *)
Class HandshakeLaws (V : Type) `{!Handshake RW V} : Type := {
  hs_kind : HsKind;
  hs_report_event h v r :
    match hs_report h v r with
    | (Some e, keep) => ce_handshake e = Some (hs_kind, h, if keep : bool then P_Progress else P_Ended)
    | (None, keep) => keep = true
    end;
}.

#[export] Instance identity_client_handshake_laws : HandshakeLaws (IdentityClient RW).
Proof. refine {| hs_kind := K_IdentityClient |}. by intros h v [[[]|]|]. Defined.
#[export] Instance identity_server_handshake_laws : HandshakeLaws (IdentityServer RW).
Proof. refine {| hs_kind := K_IdentityServer |}. by intros h v [[[]|]|]. Defined.
#[export] Instance endpoint_client_handshake_laws : HandshakeLaws (EndpointClient RW).
Proof. refine {| hs_kind := K_EndpointClient |}. by intros h v [[[]|]|]. Defined.
#[export] Instance endpoint_server_handshake_laws : HandshakeLaws (EndpointServer RW).
Proof. refine {| hs_kind := K_EndpointServer |}. by intros h v [[[]|]|]. Defined.

Section turns.
Context {V : Type} `{HS : !Handshake RW V} `{HL : !HandshakeLaws V}.

(** Walking through a map: each handshake is reported at most once, and is gone exactly
    if it was reported to have ended. *)
Lemma retain_turns fuel (m m' : BTreeMap V) d d' evs evs' :
  NoDup m.*1 → retain (handshake_turn fuel) m (d, evs) = Done ((d', evs'), m') →
  ∃ new, evs' = evs ++ new ∧ sublist m'.*1 m.*1 ∧
    (∀ k h ph, reported k h ph new → k = hs_kind ∧ h ∈ m.*1 ∧ ph ≠ P_Started) ∧
    (∀ h, h ∈ m'.*1 ↔ h ∈ m.*1 ∧ ¬ reported hs_kind h P_Ended new) ∧
    NoDup (omap turn_of new).
Proof.
  revert m' d d' evs evs'. induction m as [|[h v] m IH]; intros m' d d' evs evs' Hnd; cbn [retain].
  { intros [= <- <- <-]. exists []. rewrite app_nil_r. split_and!; try done.
    - by intros k h ph ?%reported_nil.
    - intros h. split; [|tauto]. by intros ?%elem_of_nil.
    - apply NoDup_nil_2. }
  unfold handshake_turn at 1. destruct (hs_update fuel (hs_set_draws d v)) as [[v' r]| |]; [|done..].
  pose proof (hs_report_event h v' r) as Hrep. destruct (hs_report h v' r) as [o keep].
  csimpl in Hnd. apply NoDup_cons in Hnd as [Hh Hnd].
  set (evs1 := match o with Some e => evs ++ [e] | None => evs end).
  destruct (retain _ m _) as [[[d1 evs2] m1]| |] eqn:Hr; [|done..]. intros [= <- <- <-].
  apply (IH m1 _ d1 evs1 evs2 Hnd) in Hr as (new & -> & Hsub & Hk & Hin & Hd). clear IH.
  destruct o as [e|]; [|subst keep].
  - exists (e :: new). unfold evs1. rewrite <- (assoc_L (++)).
    assert (∀ k x ph, reported k x ph (e :: new) ↔
      (k = hs_kind ∧ x = h ∧ ph = (if keep then P_Progress else P_Ended)) ∨ reported k x ph new) as Hcons.
    { intros k x ph. unfold reported. setoid_rewrite elem_of_cons. split.
      - intros (e' & [->|He] & Hc); [left; rewrite Hrep in Hc; by simplify_eq|right; by exists e'].
      - intros [(-> & -> & ->)|(e' & He & Hc)]; [exists e|exists e']; auto. }
    split_and!.
    + done.
    + destruct keep; csimpl; by constructor.
    + intros k x ph. rewrite Hcons. csimpl. rewrite elem_of_cons. intros [(-> & -> & ->)|H].
      * split_and!; [done|by left|by destruct keep].
      * apply Hk in H as (-> & ? & ?). split_and!; [done|by right|done].
    + intros x. rewrite Hcons. csimpl. rewrite elem_of_cons.
      assert (¬ reported hs_kind h P_Ended new) as Hnh by (intros (_ & ? & _)%Hk; done).
      destruct keep; csimpl; rewrite ?elem_of_cons, Hin; naive_solver.
    + simpl. unfold turn_of at 1. rewrite Hrep.
      assert ((hs_kind, h) ∉ omap turn_of new) as Hn
        by (intros [H|H]%turn_reported; apply Hk in H as (_ & ? & _); done).
      destruct keep; apply NoDup_cons; by split.
  - exists new. split_and!; [done| | | |done].
    + csimpl. by constructor.
    + intros k x ph. csimpl. rewrite elem_of_cons. intros H. apply Hk in H as (-> & ? & ?). by split_and!; [|right|].
    + intros x. csimpl. rewrite !elem_of_cons, Hin.
      assert (¬ reported hs_kind h P_Ended new) as Hnh by (intros (_ & ? & _)%Hk; done). naive_solver.
Qed.

(** The map of a kind of handshake, as a field of the context. *)
Lemma update_handshakes_life fuel (field : Context RW TL P → BTreeMap V) set_field :
  (∀ c, cx_handles hs_kind c = (field c).*1) →
  (∀ c m n, field (cx_set_draws n (set_field m c)) = m) →
  (∀ c m n k, k ≠ hs_kind → cx_handles k (cx_set_draws n (set_field m c)) = cx_handles k c) →
  (∀ c m n, cx_next_handshake_handle (cx_set_draws n (set_field m c)) = cx_next_handshake_handle c) →
  steps [hs_kind] (update_handshakes field set_field fuel).
Proof.
  intros Hf Hg Ho Hn evs c c' evs' Hnd Hb. unfold update_handshakes.
  destruct (retain _ _ _) as [[[d evs1] m]| |] eqn:Hr; [|done..]. intros [= <- <-].
  pose proof (Hnd hs_kind) as Hndk. rewrite Hf in Hndk.
  destruct (retain_turns fuel _ _ _ _ _ _ Hndk Hr) as (new & -> & Hsub & Hk & Hin & Hd).
  assert (∀ k h, ¬ reported k h P_Started new) as Hns by (intros k h (_ & _ & ?)%Hk; done).
  assert (∀ k h, (k, h) ∈ omap turn_of new → k = hs_kind ∧ h ∈ (field c).*1) as Ht.
  { intros k h [H|H]%turn_reported; apply Hk in H as (? & ? & _); done. }
  exists new. split_and!; [done| | |done|].
  - split.
    + rewrite Hn. lia.
    + intros k h. destruct (decide (k = hs_kind)) as [->|Hne].
      * rewrite !Hf, Hg, Hin. naive_solver.
      * rewrite Ho by done. split; [|naive_solver]. intros H. split; [by left|]. intros (? & _)%Hk. done.
    + intros k h H. by apply Hns in H.
    + intros k h [-> H]%Ht. left. by rewrite Hf.
  - intros k. destruct (decide (k = hs_kind)) as [->|Hne]; [|by rewrite Ho].
    rewrite Hf, Hg. by eapply sublist_NoDup.
  - intros k h [-> _]%Ht. left.
Qed.
End turns.

Lemma update_handshakes_all fuel :
  steps ([K_IdentityClient] ++ [K_IdentityServer] ++ [K_EndpointClient] ++ [K_EndpointServer])
    (λ evs : events,
      evs ← update_handshakes cx_identity_clients cx_set_identity_clients fuel evs;
      evs ← update_handshakes cx_identity_servers cx_set_identity_servers fuel evs;
      evs ← update_handshakes cx_endpoint_clients cx_set_endpoint_clients fuel evs;
      update_handshakes cx_endpoint_servers cx_set_endpoint_servers fuel evs).
Proof.
  apply steps_bind; [set_solver| |apply steps_bind; [set_solver| |apply steps_bind; [set_solver|..]]].
  - apply (update_handshakes_life (HL:=identity_client_handshake_laws) fuel cx_identity_clients cx_set_identity_clients);
      [done|by intros []|intros [] ?? []; done|by intros []].
  - apply (update_handshakes_life (HL:=identity_server_handshake_laws) fuel cx_identity_servers cx_set_identity_servers);
      [done|by intros []|intros [] ?? []; done|by intros []].
  - apply (update_handshakes_life (HL:=endpoint_client_handshake_laws) fuel cx_endpoint_clients cx_set_endpoint_clients);
      [done|by intros []|intros [] ?? []; done|by intros []].
  - apply (update_handshakes_life (HL:=endpoint_server_handshake_laws) fuel cx_endpoint_servers cx_set_endpoint_servers);
      [done|by intros []|intros [] ?? []; done|by intros []].
Qed.

(** A whole update. *)
Lemma cx_update_life fuel c c' evs :
  (∀ k, NoDup (cx_handles k c)) → below c → cx_update fuel c = Done (c', Ok evs) →
  life c c' evs ∧ NoDup (omap turn_of evs) ∧ (∀ k, NoDup (cx_handles k c')).
Proof.
  intros Hnd Hb. unfold cx_update, mbind at 1, M_bind.
  destruct (accept_identity_connection c) as [[c1 [evs1|er]]| |] eqn:H1; [|done..]. intros Hrest.
  destruct (accept_identity_life _ _ _ Hnd Hb H1) as (L1 & Hnd1 & Ht1).
  assert (∀ k, k ∈ @nil HsKind → False) as Hnil by by intros k ?%elem_of_nil.
  pose proof (steps_bind [] _ _ _ ltac:(intros k Hk _; by apply Hnil in Hk) accept_endpoints_life
    (steps_bind [] _ _ _ ltac:(intros k Hk _; by apply Hnil in Hk) consume_tor_events_life
      (update_handshakes_all fuel))) as Hsteps.
  destruct (Hsteps _ _ _ _ Hnd1 (life_below _ _ _ Hb L1) Hrest) as (new & -> & L2 & Hnd2 & Hd & _).
  split_and!; [by eapply life_trans| |done]. by rewrite omap_app, Ht1.
Qed.
End life.
