(* ===== verification/TorScript.v ===== *)
(** A scripted tor provider: a model of the interfaces [TorProvider], [Sockets] and
    [HashOrder] on which contexts can be run.  The script lists what each update of the
    provider returns, the streams that connections get and the connections that arrive at
    the listeners. *)

From Stdlib Require Import ZArith Lia.
From S2P Require Import Prelude Bson BsonModel HonkSize HonkSession HonkScript Maps Crypto TorCrypto CryptoModel.
From S2P Require Import TorProvider.
From stdpp Require Import prelude strings list.

Open Scope nat_scope.

(** What each [accept] of a listener finds; nothing is waiting when the list runs out. *)
Abbreviation ScriptListener := (list (io_result Script)).

#[export] Instance script_sockets : Sockets Script ScriptListener := {
  tl_accept l := match l with [] => (IoErr WouldBlock, []) | r :: l => (r, l) end;
  tl_set_nonblocking _ l := (IoOk tt, l);
  ts_set_nonblocking _ s := (IoOk tt, s);
}.

Record ScriptTor := mkScriptTor {
  st_updates : list (result TorProviderError (list TorEvent));
  st_connects : list Script;
  st_listeners : list ScriptListener;
  st_dropped : list OnionAddr;
}.

Definition script_tor_update : M ScriptTor TorProviderError (list TorEvent) := λ t,
  match st_updates t with
  | [] => Done (t, Ok [])
  | r :: us => Done (mkScriptTor us (st_connects t) (st_listeners t) (st_dropped t), r)
  end.

Definition script_tor_connect (addr : TargetAddr) (token : option CircuitToken) :
    M ScriptTor TorProviderError (OnionStream Script) := λ t,
  match st_connects t with
  | [] => Done (t, Err TP_Generic)
  | s :: cs => Done (mkScriptTor (st_updates t) cs (st_listeners t) (st_dropped t),
                     Ok (mkOnionStream s None (Some addr)))
  end.

Definition script_tor_listener (key : Ed25519PrivateKey) (port : Z) (auth : option (list X25519PublicKey)) :
    M ScriptTor TorProviderError (OnionListener ScriptListener) := λ t,
  let addr := OA_V3 (mkOnionAddrV3 (service_id_from_private_key key) port) in
  match st_listeners t with
  | [] => Done (t, Err TP_Generic)
  | l :: ls => Done (mkScriptTor (st_updates t) (st_connects t) ls (st_dropped t), Ok (mkOnionListener l addr))
  end.

#[export] Instance script_tor : TorProvider ScriptTor Script ScriptListener := {
  tp_update := script_tor_update;
  tp_bootstrap t := Done (t, Ok tt);
  tp_add_client_auth _ _ t := Done (t, Ok tt);
  tp_remove_client_auth _ t := Done (t, Ok tt);
  tp_connect := script_tor_connect;
  tp_listener := script_tor_listener;
  tp_generate_token t := (0, t);
  tp_release_token _ t := t;
  tp_drop_listener l t :=
    mkScriptTor (st_updates t) (st_connects t) (st_listeners t) (ol_onion_addr l :: st_dropped t);
}.

#[export] Instance script_hash_order : HashOrder V3OnionServiceId.
Proof. refine {| hash_order := λ ks, ks |}. done. Defined.
