(* ===== verification/ContextProps.v ===== *)
(** The properties of the Gosling context: whom it lets in, how its events account for its
    handshakes, and what its failures leave behind. *)

From Stdlib Require Import ZArith Lia.
From S2P Require Import Prelude Bson BsonModel HonkWire HonkSize VecDeque Maps HonkSession HonkRead HonkScript.
From S2P Require Import HonkWrite HonkUpdate Crypto TorCrypto CryptoModel GoslingProto.
From S2P Require Import IdentityServer IdentityClient EndpointServer EndpointClient Handshake GoslingProps.
From S2P Require Import TorProvider TorScript Context ContextTheory ContextLife.
From stdpp Require Import prelude strings list.

Open Scope nat_scope.

Section props.
Context `{BL : BsonLaws} `{CL : CryptoLaws} {RW TL P : Type} `{SL : StreamLaws RW} `{!Sockets RW TL}
  `{!TorProvider P RW TL} `{!HashOrder V3OnionServiceId}.
Implicit Types (c : Context RW TL P).

(** ** Reachable contexts and their handles *)

Lemma bt_sorted_NoDup {V} (m : BTreeMap V) : bt_sorted m → NoDup m.*1.
Proof.
  induction m as [|[k v] m IH]; [intros _; apply NoDup_nil_2|]. intros [Hall Hs]. csimpl.
  apply NoDup_cons. split; [|by apply IH]. intros ((k' & v') & -> & Hin)%list_elem_of_fmap.
  rewrite Forall_forall in Hall. apply Hall in Hin. simpl in Hin. lia.
Qed.

Lemma handles_below_elem {V} n (m : BTreeMap V) h : handles_below n m → h ∈ m.*1 → (0 ≤ h < n)%Z.
Proof. intros [_ Hm] Hin. apply (keys_Forall (λ k, 0 ≤ k < n)%Z) in Hm. rewrite Forall_forall in Hm. by apply Hm. Qed.

Lemma cx_inv_handles said c : cx_inv said c → (∀ k, NoDup (cx_handles k c)) ∧ below c.
Proof.
  intros []. split.
  - intros []; simpl; apply bt_sorted_NoDup; by match goal with H : handles_below _ ?m |- bt_sorted ?m => apply H end.
  - intros [] h; simpl; intros Hin; (eapply handles_below_elem in Hin; [|done]); lia.
Qed.

(** C35. The context lets in only whom the application accepted and who proved their
    identity.  Whatever an application has done with a context and whatever peers have
    sent, each event of an update holds: a completed incoming identity handshake was
    allowed, its endpoint and its challenge response were accepted by the application under
    this very handle, its client signed the proof of a handshake with this context's
    identity and its authorization key; a completed incoming endpoint handshake belongs to
    an endpoint the application started for this very client, the channel was accepted
    under this handle, and the client signed the proof of a handshake with this endpoint. *)
Theorem context_authenticates said c c' fuel evs e :
  cx_reachable said c → cx_update fuel c = Done (c', Ok evs) → e ∈ evs →
  event_ok said (cx_identity_service_id c) e.
Proof.
  intros Hr Hu He. apply cx_reachable_inv in Hr.
  destruct (cx_update_ok said (cx_identity_service_id c) fuel _ _ _ (conj Hr eq_refl) Hu) as [_ Hf].
  rewrite Forall_forall in Hf. by apply Hf.
Qed.

(** C36. The events account for the handshakes.  In every reachable context, an update that
    succeeds leaves in each map exactly the handshakes that were there or are reported
    to have started, less those reported completed, rejected or failed; a handshake
    starts under a handle no handshake of this context ever had; it is reported at most
    once per update, and only while it is in progress. *)
Theorem context_accounts_for_handshakes said c c' fuel evs :
  cx_reachable said c → cx_update fuel c = Done (c', Ok evs) →
  (∀ k h, h ∈ cx_handles k c' ↔
     (h ∈ cx_handles k c ∨ reported k h P_Started evs) ∧ ¬ reported k h P_Ended evs) ∧
  (∀ k h, reported k h P_Started evs → (cx_next_handshake_handle c ≤ h < cx_next_handshake_handle c')%Z) ∧
  (∀ k h, h ∈ cx_handles k c → (0 ≤ h < cx_next_handshake_handle c)%Z) ∧
  NoDup (omap turn_of evs) ∧
  (∀ k h, (k, h) ∈ omap turn_of evs → h ∈ cx_handles k c ∨ reported k h P_Started evs).
Proof.
  intros Hr Hu. apply cx_reachable_inv in Hr as Hi. destruct (cx_inv_handles _ _ Hi) as [Hnd Hb].
  destruct (cx_update_life fuel c c' evs Hnd Hb Hu) as ([Hn Hh Hs Ht] & Hd & _). split_and!; try done.
  intros k h Hin. split; [|by eapply Hb].
  destruct Hi; destruct k; simpl in Hin; (eapply handles_below_elem in Hin; [|done]); lia.
Qed.

(** ** Failures *)

Lemma accept_identity_no_error c c' e : accept_identity_connection c ≠ Done (c', Err e).
Proof.
  unfold accept_identity_connection, mbind, M_bind, get_state.
  destruct (cx_identity_listener c); [|done]. destruct (identity_server_handle_accept _ _ _ _ _) as [[[s|]|] l]; [|done..].
  unfold modify. destruct (cx_new_handle _) as [[c1 [h|e1]]| |] eqn:Hh; try done.
  apply cx_new_handle_Done in Hh as (_ & ? & _). done.
Qed.

Lemma accept_endpoints_no_error evs c c' e : accept_endpoint_connections evs c ≠ Done (c', Err e).
Proof. unfold accept_endpoint_connections. by destruct (retain _ _ _) as [[[? ?] ?]| |]. Qed.

Lemma update_handshakes_no_error {V} `{!Handshake RW V} field set_field fuel evs c c' e :
  update_handshakes (V:=V) field set_field fuel evs c ≠ Done (c', Err e).
Proof. unfold update_handshakes. by destruct (retain _ _ _) as [[[? ?] ?]| |]. Qed.

Lemma bind_err {S E A B} (m : M S E A) (f : A → M S E B) s s' e :
  (m ≫= f) s = Done (s', Err e) →
  m s = Done (s', Err e) ∨ ∃ s1 x, m s = Done (s1, Ok x) ∧ f x s1 = Done (s', Err e).
Proof.
  unfold mbind, M_bind. destruct (m s) as [[s1 [x|e1]]| |]; [|naive_solver..]. intros Hx. right. by exists s1, x.
Qed.

Lemma consume_error evs c c' e :
  consume_tor_events evs c = Done (c', Err e) →
  (∃ err, e = CX_TorProvider err) ∧ ∃ p, c' = cx_set_tor p c.
Proof.
  unfold consume_tor_events, mbind, M_bind, get_state, modify, cx_on_tor.
  destruct (tp_update _) as [[p [x|err]]| |]; [|intros [= <- <-]; eauto|done..].
  simpl. by destruct (fold_left _ _ _).
Qed.

(** Only the provider makes an update fail, after the new connections were taken in. *)
Lemma cx_update_error fuel c c' e :
  cx_update fuel c = Done (c', Err e) →
  ∃ c1 evs1 c2 evs2 p err, accept_identity_connection c = Done (c1, Ok evs1) ∧
    accept_endpoint_connections evs1 c1 = Done (c2, Ok evs2) ∧ e = CX_TorProvider err ∧ c' = cx_set_tor p c2.
Proof.
  intros [Hx|(c1 & evs1 & H1 & Hx)]%bind_err; [by apply accept_identity_no_error in Hx|].
  apply bind_err in Hx as [Hx|(c2 & evs2 & H2 & Hx)]; [by apply accept_endpoints_no_error in Hx|].
  apply bind_err in Hx as [Hx|(c3 & evs3 & _ & Hx)].
  { apply consume_error in Hx as [[err ->] [p ->]]. by exists c1, evs1, c2, evs2, p, err. }
  do 3 (apply bind_err in Hx as [Hx|(? & ? & _ & Hx)]; [by apply update_handshakes_no_error in Hx|]).
  by apply update_handshakes_no_error in Hx.
Qed.

(** The only failure of an update is the tor provider's.  Then no handshake has ended
    or moved, but connections may already have been taken in: each handshake that is new
    has a handle above all earlier ones, and its [HandshakeStarted] event is lost with the
    error.  No later update reports the start of a handshake that is already there. *)
Lemma context_update_failure said c c' fuel e :
  cx_reachable said c → cx_update fuel c = Done (c', Err e) →
  (∃ err, e = CX_TorProvider err) ∧
  (∀ k h, h ∈ cx_handles k c → h ∈ cx_handles k c') ∧
  (∀ k h, h ∈ cx_handles k c' → h ∉ cx_handles k c →
     (cx_next_handshake_handle c ≤ h < cx_next_handshake_handle c')%Z) ∧
  (∀ fuel' c'' evs k h, h ∈ cx_handles k c' → cx_update fuel' c' = Done (c'', Ok evs) →
     ¬ reported k h P_Started evs).
Proof.
  intros Hr Hu. assert (cx_reachable said c') as Hr' by by eapply cx_reach_update.
  apply cx_update_error in Hu as (c1 & evs1 & c2 & evs2 & p & err & H1 & H2 & -> & ->).
  destruct (cx_inv_handles _ _ (cx_reachable_inv _ _ Hr)) as [Hnd Hb].
  destruct (cx_inv_handles _ _ (cx_reachable_inv _ _ Hr')) as [Hnd' Hb'].
  destruct (accept_identity_life c c1 evs1 Hnd Hb H1) as (L1 & Hnd1 & Ht1).
  destruct (accept_endpoints_life _ _ _ _ Hnd1 (life_below _ _ _ Hb L1) H2) as (new & -> & L2 & _ & _ & Ht2).
  destruct (life_trans _ _ _ _ _ Hb L1 L2) as [Hn Hh Hs _].
  assert (∀ k, cx_handles k (cx_set_tor p c2) = cx_handles k c2) as Hk by (intros []; by destruct c2).
  assert (cx_next_handshake_handle (cx_set_tor p c2) = cx_next_handshake_handle c2) as Hnx by by destruct c2.
  assert (∀ k h, ¬ reported k h P_Ended (evs1 ++ new)) as Hne.
  { intros k h [Hx|Hx]%reported_app; (apply reported_turn in Hx; [|done]); [|by apply Ht2, elem_of_nil in Hx].
    rewrite Ht1 in Hx. by apply elem_of_nil in Hx. }
  split_and!.
  - by exists err.
  - intros k h Hin. rewrite Hk, Hh. split; [by left|]. apply Hne.
  - intros k h. rewrite Hk, Hh, Hnx. intros [[?|?] _] ?; [done|by eapply Hs].
  - intros fuel' c'' evs k h Hin Hu' Hst.
    destruct (cx_update_life fuel' _ c'' evs Hnd' Hb' Hu') as ([_ _ Hs' _] & _).
    apply Hs' in Hst. apply Hb' in Hin. lia.
Qed.
(** ** The published flag *)

(** Parts of an update that leave the flag and report no publication. *)
Definition unpublishing (m : list (ContextEvent RW) → M (Context RW TL P) CXError (list (ContextEvent RW))) : Prop :=
  ∀ evs c c' r, cx_identity_server_published c = true → CE_IdentityServerPublished ∉ evs →
    m evs c = Done (c', r) →
    cx_identity_server_published c' = true ∧
    match r with Ok evs' => CE_IdentityServerPublished ∉ evs' | Err _ => True end.

Lemma unpublishing_bind m f : unpublishing m → unpublishing f → unpublishing (λ evs, m evs ≫= f).
Proof.
  intros Hm Hf evs c c' r Hp He. unfold mbind, M_bind.
  destruct (m evs c) as [[c1 [evs1|e]]| |] eqn:H1; [|intros [= <- <-]|done..].
  - destruct (Hm _ _ _ _ Hp He H1) as [Hp1 He1]. by apply Hf.
  - by destruct (Hm _ _ _ _ Hp He H1).
Qed.

Lemma cx_new_handle_published c c' r :
  cx_new_handle c = Done (c', r) → cx_identity_server_published c' = cx_identity_server_published c.
Proof. intros (_ & _ & ->)%cx_new_handle_Done. by destruct c. Qed.

Lemma accept_identity_unpublishing : unpublishing (λ _, accept_identity_connection).
Proof.
  intros _ c c' r Hp _. unfold accept_identity_connection, mbind, M_bind, get_state.
  destruct (cx_identity_listener c); [|intros [= <- <-]; split; [done|by intros ?%elem_of_nil]].
  destruct (identity_server_handle_accept _ _ _ _ _) as [[[s|]|] l];
    [|intros [= <- <-]; destruct c; (split; [done|by intros ?%elem_of_nil])..].
  unfold modify. destruct (cx_new_handle _) as [[c1 [h|e1]]| |] eqn:Hh; [|by apply cx_new_handle_Done in Hh as (_ & ? & _)|done..].
  apply cx_new_handle_published in Hh. intros [= <- <-].
  split; [destruct c, c1; simpl in *; congruence|]. by intros ?%list_elem_of_singleton.
Qed.

Lemma accept_endpoints_unpublishing : unpublishing accept_endpoint_connections.
Proof.
  intros evs c c' r Hp He. unfold accept_endpoint_connections.
  destruct (retain _ _ _) as [[[c1 evs1] m]| |] eqn:Hr; [|done..]. intros [= <- <-].
  apply (retain_keeps _ (λ ce, cx_identity_server_published ce.1 = true ∧ CE_IdentityServerPublished ∉ ce.2)
    (λ _ _, True)) in Hr as [[Hp1 He1] _]; [by destruct c1| |done|by apply Forall_true].
  clear -RW. intros id l [d es] [d' es'] l' b [Hp He] _. unfold accept_endpoint_connection.
  destruct (endpoint_server_handle_accept _ _ _ _ _) as [[[s|]|] ol];
    [|intros [= <- <- <- <-]; split; [by destruct d|done]..].
  destruct (cx_new_handle d) as [[c1 [h|e1]]| |] eqn:Hh; [|done..].
  apply cx_new_handle_published in Hh. simpl in *. intros [= <- <- <- <-]. split; [|done].
  split; [destruct c1; simpl in *; congruence|]. set_solver.
Qed.

Lemma consume_unpublishing : unpublishing consume_tor_events.
Proof.
  intros evs c c' r Hp He. unfold consume_tor_events, mbind, M_bind, get_state, modify, cx_on_tor.
  destruct (tp_update _) as [[p [tes|err]]| |]; [|intros [= <- <-]; by destruct c|done..]. simpl.
  assert (∀ (d : Context RW TL P) (es : list (ContextEvent RW)), cx_identity_server_published d = true → CE_IdentityServerPublished ∉ es →
    cx_identity_server_published (fold_left handle_tor_event tes (d, es)).1 = true ∧
    CE_IdentityServerPublished ∉ (fold_left handle_tor_event tes (d, es)).2) as Hfold.
  { clear. induction tes as [|te tes IH]; intros d es Hp He; cbn [fold_left]; [done|].
    destruct te; simpl.
    - apply IH; [done|set_solver].
    - apply IH; [by destruct d|set_solver].
    - apply IH; [done|set_solver].
    - rewrite Hp. simpl. case_decide; [by apply IH|]. destruct (hm_get _ _); [|by apply IH].
      destruct (negb _); [|by apply IH]. apply IH; [by destruct d|set_solver]. }
  destruct (Hfold (cx_set_tor p c) evs) as [Hp1 He1]; [by destruct c|done|].
  destruct (fold_left _ _ _) as [c2 evs2]. by intros [= <- <-].
Qed.

Lemma update_handshakes_unpublishing {V} `{HS : !Handshake RW V} `{HL : !HandshakeLaws V} field set_field fuel :
  (∀ c m n, cx_identity_server_published (cx_set_draws n (set_field m c)) = cx_identity_server_published c) →
  unpublishing (update_handshakes (V:=V) field set_field fuel).
Proof.
  intros Hs evs c c' r Hp He. unfold update_handshakes.
  destruct (retain _ _ _) as [[[d evs1] m]| |] eqn:Hr; [|done..]. intros [= <- <-]. rewrite Hs. split; [done|].
  apply (retain_keeps _ (λ de, CE_IdentityServerPublished ∉ de.2) (λ _ _, True)) in Hr as [He1 _];
    [done| |done|by apply Forall_true].
  clear -HL. intros h v [d es] [d' es'] v' b He _. unfold handshake_turn.
  destruct (hs_update _ _) as [[w x]| |]; [|done..].
  pose proof (hs_report_event h w x) as Hrep. destruct (hs_report h w x) as [o keep].
  intros [= <- <- <- <-]. split; [|done]. simpl in *. destruct o as [e|]; [|done].
  rewrite elem_of_app, list_elem_of_singleton. intros [?|<-]; [done|]. by destruct keep.
Qed.

Lemma cx_update_unpublishing fuel : unpublishing (λ _, cx_update fuel).
Proof.
  apply (unpublishing_bind _ _ accept_identity_unpublishing).
  apply unpublishing_bind; [apply accept_endpoints_unpublishing|].
  apply unpublishing_bind; [apply consume_unpublishing|].
  do 3 (apply unpublishing_bind; [apply update_handshakes_unpublishing; by intros []|]).
  apply update_handshakes_unpublishing; by intros [].
Qed.

(** Updates and starts of the identity server. *)
Definition serve_step c c' : Prop :=
  (∃ fuel r, cx_update fuel c = Done (c', r)) ∨ ∃ r, identity_server_start c = Done (c', r).

Lemma serve_step_published c c' :
  cx_identity_server_published c = true → serve_step c c' → cx_identity_server_published c' = true.
Proof.
  intros Hp [(fuel & r & Hu)|[r Hu]].
  - by apply (cx_update_unpublishing fuel [] c c' r Hp (not_elem_of_nil _)) in Hu as [].
  - revert Hu. unfold identity_server_start, mbind, M_bind, get_state, modify, cx_on_tor.
    destruct (negb _); [by intros [= <- <-]|]. destruct (cx_identity_listener c); [by intros [= <- <-]|].
    destruct (tp_listener _ _ _ _) as [[p [l|e]]| |]; [|intros [= <- <-]; by destruct c|done..]. simpl.
    destruct (ol_set_nonblocking true l) as [[] ?]; intros [= <- <-]; by destruct c.
Qed.

(** The rest of an update does not touch the identity listener. *)
Lemma accept_endpoints_listener evs c c' r :
  accept_endpoint_connections evs c = Done (c', r) → cx_identity_listener c' = cx_identity_listener c.
Proof.
  unfold accept_endpoint_connections.
  destruct (retain _ _ _) as [[[c1 evs1] m]| |] eqn:Hr; [|done..]. intros [= <- <-].
  apply (retain_keeps _ (λ ce, cx_identity_listener ce.1 = cx_identity_listener c)
    (λ _ _, True)) in Hr as [Hp1 _]; [by destruct c1| |done|by apply Forall_true].
  clear. intros id l [d es] [d' es'] l' b Hp _. unfold accept_endpoint_connection.
  destruct (endpoint_server_handle_accept _ _ _ _ _) as [[[s|]|] ol];
    [|intros [= <- <- <- <-]; split; [by destruct d|done]..].
  destruct (cx_new_handle d) as [[c1 [h|e1]]| |] eqn:Hh; [|done..].
  apply cx_new_handle_Done in Hh as (_ & _ & ->). simpl in *. intros [= <- <- <- <-]. split; [|done]. by destruct d.
Qed.

Lemma consume_listener evs c c' r :
  consume_tor_events evs c = Done (c', r) → cx_identity_listener c' = cx_identity_listener c.
Proof.
  unfold consume_tor_events, mbind, M_bind, get_state, modify, cx_on_tor.
  destruct (tp_update _) as [[p [tes|err]]| |]; [|intros [= <- <-]; by destruct c|done..]. simpl.
  assert (∀ (d : Context RW TL P) (es : list (ContextEvent RW)),
    cx_identity_listener (fold_left handle_tor_event tes (d, es)).1 = cx_identity_listener d) as Hfold.
  { clear. induction tes as [|te tes IH]; intros d es; cbn [fold_left]; [done|].
    destruct te; simpl; repeat case_match; rewrite IH; by destruct d. }
  specialize (Hfold (cx_set_tor p c) evs). destruct (fold_left _ _ _) as [c2 evs2].
  intros [= <- <-]. simpl in Hfold. rewrite Hfold. by destruct c.
Qed.

Lemma update_handshakes_listener {V} `{HS : !Handshake RW V} field set_field fuel evs c c' r :
  (∀ c m n, cx_identity_listener (cx_set_draws n (set_field m c)) = cx_identity_listener c) →
  update_handshakes (V:=V) field set_field fuel evs c = Done (c', r) →
  cx_identity_listener c' = cx_identity_listener c.
Proof. intros Hs. unfold update_handshakes. destruct (retain _ _ _) as [[[d evs1] m]| |]; [|done..]. by intros [= <- <-]. Qed.

Lemma bind_ok {S E A B} (m : M S E A) (f : A → M S E B) s s' y :
  (m ≫= f) s = Done (s', Ok y) → ∃ s1 x, m s = Done (s1, Ok x) ∧ f x s1 = Done (s', Ok y).
Proof. unfold mbind, M_bind. destruct (m s) as [[s1 [x|e1]]| |]; [|naive_solver..]. intros Hx. by exists s1, x. Qed.

Lemma cx_update_failed_listener fuel c c' evs l kind l' :
  cx_identity_listener c = Some l → ol_accept l = (IoErr kind, l') → cx_update fuel c = Done (c', Ok evs) →
  cx_identity_listener c' = None.
Proof.
  intros Hl Ha (c1 & e1 & H1 & Hu)%bind_ok.
  apply bind_ok in Hu as (c2 & e2 & H2%accept_endpoints_listener & Hu).
  apply bind_ok in Hu as (c3 & e3 & H3%consume_listener & Hu).
  apply bind_ok in Hu as (c4 & e4 & H4%update_handshakes_listener & Hu); [|by intros []].
  apply bind_ok in Hu as (c5 & e5 & H5%update_handshakes_listener & Hu); [|by intros []].
  apply bind_ok in Hu as (c6 & e6 & H6%update_handshakes_listener & Hu); [|by intros []].
  apply update_handshakes_listener in Hu; [|by intros []].
  rewrite Hu, H6, H5, H4, H3, H2. revert H1.
  unfold accept_identity_connection, mbind, M_bind, get_state, modify, identity_server_handle_accept.
  rewrite Hl, Ha. intros [= <- <-]. by destruct c.
Qed.

(** A failed identity listener leaves the context marked as published.  When [accept]
    fails on the listener of a published identity server, the update drops the listener
    without an event and keeps the flag; [identity_server_stop] then refuses to reset it;
    and however often the server is started again and the context updated, whatever the
    provider and the peers do, no update reports [IdentityServerPublished]. *)
Lemma failed_listener_stays_published c l kind l' c' fuel evs :
  cx_identity_server_published c = true → cx_identity_listener c = Some l →
  ol_accept l = (IoErr kind, l') → cx_update fuel c = Done (c', Ok evs) →
  cx_identity_listener c' = None ∧ CE_IdentityServerPublished ∉ evs ∧
  identity_server_stop c' = Done (c', Err CX_IncorrectUsage) ∧
  (∀ c2 fuel' c3 evs', rtc serve_step c' c2 → cx_update fuel' c2 = Done (c3, Ok evs') →
     CE_IdentityServerPublished ∉ evs').
Proof.
  intros Hp Hl Ha Hu. pose proof (cx_update_failed_listener _ _ _ _ _ _ _ Hl Ha Hu) as Hn.
  apply (cx_update_unpublishing fuel [] c _ _ Hp (not_elem_of_nil _)) in Hu as [Hp' He].
  split_and!; [done..|unfold identity_server_stop; by rewrite Hn|].
  intros c2 fuel' c3 evs' Hrun Hu2.
  assert (cx_identity_server_published c2 = true) as Hp2.
  { clear -Hp' Hrun. induction Hrun; [done|]. eauto using serve_step_published. }
  by apply (cx_update_unpublishing fuel' [] c2 _ _ Hp2 (not_elem_of_nil _)) in Hu2 as [].
Qed.
(** C37. What the failures of a context leave behind.  The only failure of an update is the
    tor provider's.  Then no handshake has ended or moved, but connections may already have
    been taken in: each handshake that is new has a handle above all earlier ones, its
    [HandshakeStarted] event is lost with the error, and no later update reports it.  When
    [accept] fails on the listener of a published identity server, the update drops the
    listener without an event and keeps the context marked as published;
    [identity_server_stop] then refuses to reset it; and however often the server is started
    again and the context updated, whatever the provider and the peers do, no update
    reports [IdentityServerPublished]. *)
Theorem context_failures :
  (∀ said c c' fuel e,
     cx_reachable said c → cx_update fuel c = Done (c', Err e) →
     (∃ err, e = CX_TorProvider err) ∧
     (∀ k h, h ∈ cx_handles k c → h ∈ cx_handles k c') ∧
     (∀ k h, h ∈ cx_handles k c' → h ∉ cx_handles k c →
        (cx_next_handshake_handle c ≤ h < cx_next_handshake_handle c')%Z) ∧
     (∀ fuel' c'' evs k h, h ∈ cx_handles k c' → cx_update fuel' c' = Done (c'', Ok evs) →
        ¬ reported k h P_Started evs)) ∧
  (∀ c l kind l' c' fuel evs,
     cx_identity_server_published c = true → cx_identity_listener c = Some l →
     ol_accept l = (IoErr kind, l') → cx_update fuel c = Done (c', Ok evs) →
     cx_identity_listener c' = None ∧ CE_IdentityServerPublished ∉ evs ∧
     identity_server_stop c' = Done (c', Err CX_IncorrectUsage) ∧
     (∀ c2 fuel' c3 evs', rtc serve_step c' c2 → cx_update fuel' c2 = Done (c3, Ok evs') →
        CE_IdentityServerPublished ∉ evs')).
Proof. split; [apply context_update_failure|apply failed_listener_stays_published]. Qed.
End props.

(** * A context that runs *)

(** Who answered and succeeded, as a state. *)
Lemma reach_done {A} said (c : Context Script ScriptListener ScriptTor) (o : outcome (Context Script ScriptListener ScriptTor * A)) :
  (∀ c' r, o = Done (c', r) → cx_reachable said c') → cx_reachable said c → cx_reachable said (state_of c o).
Proof. destruct o as [[c' r]| |]; simpl; eauto. Qed.

(** An identity server that bootstraps, listens, and is contacted by the client of the
    other witnesses. *)
Definition demo_cx_tor : ScriptTor := {|
  st_updates := [Ok [TE_BootstrapComplete]; Ok [TE_OnionServicePublished demo_server_id]];
  st_connects := [];
  st_listeners := [[IoOk (script_of [Some demo_begin_bytes; None; None; Some demo_response_bytes] [])]];
  st_dropped := [];
|}.
Definition demo_cx0 : Context Script ScriptListener ScriptTor :=
  context_new demo_cx_tor 420 420 DEFAULT_ENDPOINT_TIMEOUT 4096 None demo_server_key 100.
Definition demo_cx1 := state_of demo_cx0 (cx_update 10 demo_cx0).
Definition demo_cx2 := state_of demo_cx1 (identity_server_start demo_cx1).
Definition demo_cx3 := state_of demo_cx2 (cx_update 10 demo_cx2).
Definition demo_cx4 := state_of demo_cx3
  (identity_server_handle_endpoint_request_received 0 true true (doc [("question", BInt32 6)]) demo_cx3).
Definition demo_cx5 := state_of demo_cx4 (cx_update 10 demo_cx4).
Definition demo_cx6 := state_of demo_cx5 (cx_update 10 demo_cx5).
Definition demo_cx7 := state_of demo_cx6 (identity_server_handle_challenge_response_received 0 true demo_cx6).
Definition demo_cx8 := state_of demo_cx7 (cx_update 10 demo_cx7).
Definition demo_said : list Said := [S_Response 0 true; S_Request 0 true true].

Lemma demo_cx_update said c fuel : cx_reachable said c → cx_reachable said (state_of c (cx_update fuel c)).
Proof. intros Hr. apply reach_done; [|done]. eauto using cx_reach_update. Qed.

Lemma demo_cx3_reachable : cx_reachable [] demo_cx3.
Proof.
  apply demo_cx_update, reach_done; [|apply demo_cx_update; constructor].
  intros c' r. apply cx_reach_identity_server_start, demo_cx_update. constructor.
Qed.

Lemma demo_cx7_reachable : cx_reachable demo_said demo_cx7.
Proof.
  assert (cx_reachable [S_Request 0 true true] demo_cx4) as Hr.
  { apply (cx_reach_endpoint_request [] demo_cx3 0 true true (doc [("question", BInt32 6)]) demo_cx4 (Ok tt) demo_cx3_reachable). by_eval. }
  apply (cx_reach_challenge_response [S_Request 0 true true] demo_cx6 0 true demo_cx7 (Ok tt)).
  - by apply demo_cx_update, demo_cx_update.
  - by_eval.
Qed.

Definition demo_completed : ContextEvent Script :=
  CE_IdentityServerHandshakeCompleted 0 demo_endpoint_key "chat" demo_client_id
    (x25519_public_from_private demo_auth_key).

Lemma demo_cx7_update : cx_update 10 demo_cx7 = Done (demo_cx8, Ok [demo_completed]).
Proof. by_eval. Qed.

Lemma context_authenticates_witness : event_ok demo_said demo_server_id demo_completed.
Proof.
  apply (context_authenticates demo_said demo_cx7 demo_cx8 10 [demo_completed] demo_completed
    demo_cx7_reachable demo_cx7_update). left.
Defined.

(** The handshake of handle 0 is gone after its completion was reported. *)
Lemma context_accounts_for_handshakes_witness :
  (∀ k h, h ∈ cx_handles k demo_cx8 ↔
     (h ∈ cx_handles k demo_cx7 ∨ reported k h P_Started [demo_completed]) ∧
     ¬ reported k h P_Ended [demo_completed]) ∧
  cx_handles K_IdentityServer demo_cx7 = [0%Z].
Proof.
  split; [|by_eval].
  apply (context_accounts_for_handshakes demo_said demo_cx7 demo_cx8 10 [demo_completed]
    demo_cx7_reachable demo_cx7_update).
Defined.

(** The provider fails in the update that takes in a connection. *)
Definition demo_fail_tor : ScriptTor := {|
  st_updates := [Ok [TE_BootstrapComplete]; Err TP_Generic];
  st_connects := [];
  st_listeners := [[IoOk (script_of [Some demo_begin_bytes] [])]];
  st_dropped := [];
|}.
Definition demo_fail0 : Context Script ScriptListener ScriptTor :=
  context_new demo_fail_tor 420 420 DEFAULT_ENDPOINT_TIMEOUT 4096 None demo_server_key 100.
Definition demo_fail1 := state_of demo_fail0 (cx_update 10 demo_fail0).
Definition demo_fail2 := state_of demo_fail1 (identity_server_start demo_fail1).
Definition demo_fail3 := state_of demo_fail2 (cx_update 10 demo_fail2).

Lemma demo_fail2_reachable : cx_reachable [] demo_fail2.
Proof.
  apply reach_done; [|apply demo_cx_update; constructor].
  intros c' r. apply cx_reach_identity_server_start, demo_cx_update. constructor.
Qed.

(** A published identity server whose listener fails at the third look. *)
Definition demo_lost_tor : ScriptTor := {|
  st_updates := [Ok [TE_BootstrapComplete]; Ok [TE_OnionServicePublished demo_server_id]];
  st_connects := [];
  st_listeners := [[IoErr WouldBlock; IoErr (OtherKind 1)]; []];
  st_dropped := [];
|}.
Definition demo_lost0 : Context Script ScriptListener ScriptTor :=
  context_new demo_lost_tor 420 420 DEFAULT_ENDPOINT_TIMEOUT 4096 None demo_server_key 100.
Definition demo_lost1 := state_of demo_lost0 (cx_update 10 demo_lost0).
Definition demo_lost2 := state_of demo_lost1 (identity_server_start demo_lost1).
Definition demo_lost3 := state_of demo_lost2 (cx_update 10 demo_lost2).
Definition demo_lost4 := state_of demo_lost3 (cx_update 10 demo_lost3).
Definition demo_lost5 := state_of demo_lost4 (identity_server_start demo_lost4).

Lemma context_failures_witness :
  (cx_handles K_IdentityServer demo_fail2 = [] ∧ cx_handles K_IdentityServer demo_fail3 = [0%Z] ∧
   ∀ fuel' c'' evs, cx_update fuel' demo_fail3 = Done (c'', Ok evs) →
     ¬ reported K_IdentityServer 0 P_Started evs) ∧
  identity_server_start demo_lost4 = Done (demo_lost5, Ok tt) ∧
  ∀ fuel' c3 evs', cx_update fuel' demo_lost5 = Done (c3, Ok evs') → CE_IdentityServerPublished ∉ evs'.
Proof.
  destruct context_failures as [C1 C2]. split.
  - split; [by_eval|]. split; [by_eval|]. intros fuel' c'' evs.
    destruct (C1 [] demo_fail2 demo_fail3 10 (CX_TorProvider TP_Generic) demo_fail2_reachable)
      as (_ & _ & _ & H4); [by_eval|].
    apply H4. assert (cx_handles K_IdentityServer demo_fail3 = [0%Z]) as -> by by_eval. left.
  - assert (identity_server_start demo_lost4 = Done (demo_lost5, Ok tt)) as Hs by by_eval.
    split; [exact Hs|]. intros fuel' c3 evs' Hu.
    destruct (C2 demo_lost3
      (mkOnionListener [IoErr (OtherKind 1)] (OA_V3 (mkOnionAddrV3 demo_server_id 420))) (OtherKind 1)
      (mkOnionListener [] (OA_V3 (mkOnionAddrV3 demo_server_id 420))) demo_lost4 10 [])
      as (_ & _ & _ & H4); [by_eval..|].
    apply (H4 demo_lost5 fuel' c3 evs'); [|exact Hu].
    apply rtc_once. right. by exists (Ok tt).
Defined.
