(* ===== verification/ArtiProps.v ===== *)
(** The properties of the provider over the arti crates: its pumps, its events, and what a
    context can and cannot do with it. *)

From Stdlib Require Import ZArith Lia.
From Stdlib Require Import Floats.SpecFloat.
From S2P Require Import Prelude Bson HonkSize HonkSession Maps Str NetAddr Crypto TorCrypto GoslingProto TorProvider.
From S2P Require Import MockTorClient TorConfig TorProcess ArtiClient Context.
From S2P Require Import BsonModel CryptoModel HonkScript Handshake GoslingProps TorScript.
From stdpp Require Import prelude strings list.
From coqutil Require Import Byte.

Open Scope nat_scope.

(** * Pumps *)

(** [forward_stream] over what its passes find: the flag at their heads and at their
    timeouts, and the turns.  Whether it has ended is given with the pump. *)
Fixpoint forward_stream (passes : list (bool * bool * PumpTurn)) (p : Pump) : Pump * bool :=
  match passes with
  | [] => (p, false)
  | (alive, alive', turn) :: passes =>
      match pump_turn alive alive' turn p with
      | Broken p => (p, true)
      | Pumping p => forward_stream passes p
      end
  end.

(** The bytes the reader gave, and the number of timeouts. *)
Definition reads (turn : PumpTurn) : bytes := match turn with Pump_Read (IoOk buf) _ _ _ => buf | _ => [] end.
Definition is_timeout (turn : PumpTurn) : bool := match turn with Pump_Timeout _ => true | _ => false end.
Definition timeouts (passes : list (bool * bool * PumpTurn)) : nat := length (filter (λ x, is_timeout x.2 = true) passes).

(** Nothing goes wrong with the reader or the writer. *)
Definition healthy (turn : PumpTurn) : bool :=
  match turn with
  | Pump_Read (IoOk (_ :: _)) (IoOk _) _ (IoOk _) | Pump_Timeout (IoOk _) => true
  | _ => false
  end.

(** The flag is only ever cleared. *)
Fixpoint only_cleared (alive : bool) (passes : list (bool * bool * PumpTurn)) : Prop :=
  match passes with
  | [] => True
  | (a, a', _) :: passes => (a = true → alive = true) ∧ (a' = true → a = true) ∧ only_cleared a' passes
  end.

Lemma pump_turn_written alive alive' turn p :
  match pump_turn alive alive' turn p with
  | Pumping p' => pu_written p' = pu_written p ++ reads turn
  | Broken p' => ∃ n, pu_written p' = pu_written p ++ take n (reads turn)
  end.
Proof.
  assert (∃ n, pu_written p = pu_written p ++ take n (reads turn)) as Hnone by (exists 0; simpl; by rewrite app_nil_r).
  unfold pump_turn. destruct (negb alive && _); [done|].
  destruct turn as [[[|b buf]|] wr written fl|[]]; try done.
  - destruct wr as [|]; [destruct fl; [done|]|by exists written]. exists (length (b :: buf)). simpl reads. by rewrite take_ge by lia.
  - simpl. rewrite app_nil_r. by destruct alive'.
Qed.

Lemma forward_stream_written passes p p' ended :
  forward_stream passes p = (p', ended) →
  ∃ n, pu_written p' = pu_written p ++ take n (concat (map (λ x, reads x.2) passes)) ∧
    (ended = false → pu_written p' = pu_written p ++ concat (map (λ x, reads x.2) passes)).
Proof.
  revert p. induction passes as [|[[alive alive'] turn] passes IH]; intros p; simpl.
  - intros [= -> <-]. exists 0. simpl. by rewrite !app_nil_r.
  - pose proof (pump_turn_written alive alive' turn p) as Ht. destruct (pump_turn alive alive' turn p) as [p1|p1].
    + intros (n & Hn & He)%IH. exists (length (reads turn) + n). split.
      * rewrite Hn, Ht, <- app_assoc, take_app_ge by lia. by replace (length (reads turn) + n - length (reads turn)) with n by lia.
      * intros Hf. rewrite He, Ht by done. by rewrite app_assoc.
    + intros [= -> <-]. destruct Ht as [n Ht]. destruct (decide (n ≤ length (reads turn))) as [Hle|Hgt].
      * exists n. split; [|done]. by rewrite Ht, take_app_le by lia.
      * exists (length (reads turn)). split; [|done]. rewrite Ht, take_app_le, !take_ge by lia. done.
Qed.

(** Each timeout after the other half died uses up a retry, and nothing else does. *)
Lemma forward_stream_retries passes alive p p' :
  only_cleared alive passes → (0 ≤ pu_remaining_retries p)%Z → (alive = true → pu_remaining_retries p = 3%Z) →
  forward_stream passes p = (p', false) → (0 ≤ pu_remaining_retries p' ≤ pu_remaining_retries p)%Z.
Proof.
  revert alive p. induction passes as [|[[a a'] turn] passes IH]; intros alive p; simpl.
  - intros _ ? _ [= ->]. lia.
  - intros (Ha & Ha' & Hc) Hp H3. unfold pump_turn. destruct (negb a && _) eqn:Hhead; [done|].
    assert (a = true ∨ (0 < pu_remaining_retries p)%Z) as Hpos.
    { destruct a; [by left|right]. simpl in Hhead. apply Z.eqb_neq in Hhead. lia. }
    destruct turn as [[[|b buf]|] [] written []|[]]; try done.
    + intros Hf. apply (IH a' (mkPump (pu_remaining_retries p) (pu_written p ++ b :: buf))) in Hf; simpl in *; [lia|done|lia|].
      intros ?. apply H3, Ha, Ha'. done.
    + destruct a'; simpl.
      * intros Hf. apply (IH true p) in Hf; [lia|done|lia|]. intros _. apply H3, Ha, Ha'. done.
      * assert (0 < pu_remaining_retries p)%Z by (destruct Hpos as [->|]; [rewrite H3 by (by apply Ha); lia|done]).
        intros Hf. apply (IH false (mkPump (pu_remaining_retries p - 1)%Z (pu_written p))) in Hf; simpl in *; [lia|done|lia|done].
Qed.

Definition dead (pass : bool * bool * PumpTurn) : Prop := pass.1 = (false, false).
Definition undisturbed (pass : bool * bool * PumpTurn) : Prop := pass.1 = (true, true) ∧ healthy pass.2 = true.

Lemma forward_stream_dead passes p p' :
  Forall dead passes → forward_stream passes p = (p', false) →
  (pu_remaining_retries p' = pu_remaining_retries p - Z.of_nat (timeouts passes))%Z.
Proof.
  intros Hd. revert p. induction Hd as [|[[a a'] turn] passes Hx _ IH]; intros p; simpl.
  - intros [= ->]. unfold timeouts. simpl. lia.
  - injection Hx as -> ->. unfold pump_turn, timeouts. rewrite filter_cons. simpl. destruct (_ =? 0)%Z; [done|].
    destruct turn as [[[|b buf]|] [] written []|[]]; try done; intros Hf%IH; rewrite Hf; unfold timeouts; simpl; lia.
Qed.

Lemma forward_stream_undisturbed passes p : Forall undisturbed passes → (forward_stream passes p).2 = false.
Proof.
  intros Hu. revert p. induction Hu as [|[[a a'] turn] passes [Hx Hh] _ IH]; intros p; [done|].
  injection Hx as -> ->. simpl in *. destruct turn as [[[|b buf]|] [] written []|[]]; try done; apply IH.
Qed.


(** Two reads, then the other half dies, and three timeouts pass. *)
Definition demo_passes : list (bool * bool * PumpTurn) :=
  let read s := Pump_Read (IoOk (as_bytes s)) (IoOk tt) 0 (IoOk tt) in
  [(true, true, read "hello "); (true, false, read "world"); (false, false, Pump_Timeout (IoOk tt));
   (false, false, Pump_Timeout (IoOk tt)); (false, false, Pump_Timeout (IoOk tt))].


(** * Events *)

(** Progress is cut off to whole percents; what is not a fraction is clamped, a NaN is 0. *)
Example bootstrap_progress_values :
  map bootstrap_progress [f32_zero; f32_one; S754_finite false 8388608 (-24); S754_finite false 11184811 (-25);
                          S754_infinity false; f32_hundred; S754_finite true 8388608 (-23); S754_infinity true; S754_nan] =
    [0; 100; 50; 33; 100; 100; 0; 0; 0]%Z.
Proof. vm_compute. reflexivity. Qed.

(** How many elements a test holds of. *)
Definition countb {A} (f : A → bool) (l : list A) : nat := length (filter (λ x, f x = true) l).

Lemma countb_app {A} (f : A → bool) l l' : countb f (l ++ l') = countb f l + countb f l'.
Proof. unfold countb. by rewrite filter_app, length_app. Qed.
Lemma countb_nil {A} (f : A → bool) : countb f [] = 0.
Proof. done. Qed.
Lemma countb_cons {A} (f : A → bool) x l : countb f (x :: l) = Nat.b2n (f x) + countb f l.
Proof. unfold countb. rewrite filter_cons. by destruct (f x). Qed.
Lemma countb_take_drop {A} (f : A → bool) i x l :
  l !! i = Some x → countb f l = countb f (take i l) + Nat.b2n (f x) + countb f (drop (S i) l).
Proof. intros Hx. rewrite <- (take_drop_middle l i x Hx) at 1. rewrite countb_app, countb_cons. lia. Qed.
Lemma countb_delete {A} (f : A → bool) i x l :
  l !! i = Some x → countb f l = Nat.b2n (f x) + countb f (delete i l).
Proof. intros Hx. rewrite delete_take_drop, countb_app, (countb_take_drop f i x l Hx). lia. Qed.
Lemma countb_insert {A} (f : A → bool) i x y l :
  l !! i = Some x → countb f l + Nat.b2n (f y) = Nat.b2n (f x) + countb f (<[i := y]> l).
Proof.
  intros Hx. rewrite insert_take_drop by (by eapply lookup_lt_Some). rewrite countb_app, countb_cons, (countb_take_drop f i x l Hx). lia.
Qed.

Section client.
Context `{CL : CryptoLib} {H RW TL : Type} `{LB : !Loopback H RW TL} `{AL : !ArtiLib H RW TL}.
Implicit Types (s : ArtiClientTorClient).

Definition is_complete (e : TorEvent) : bool := match e with TE_BootstrapComplete => true | _ => false end.
Definition publishes (id : V3OnionServiceId) (e : TorEvent) : bool :=
  match e with TE_OnionServicePublished id' => bool_decide (id = id') | _ => false end.
Definition bootstraps (t : Task) : bool := match t with T_Bootstrap => true | _ => false end.
Definition watches (id : V3OnionServiceId) (t : Task) : bool :=
  match t with T_StatusEvents id' => bool_decide (id = id') | _ => false end.
Definition serves (virt_port : Z) (addr : SocketAddr) (t : Task) : bool :=
  match t with T_RendRequests port a => (port =? virt_port)%Z && bool_decide (a = addr) | _ => false end.
Definition carries (virt_port : Z) (addr : SocketAddr) (t : Task) : bool :=
  match t with T_StreamRequests port a => (port =? virt_port)%Z && bool_decide (a = addr) | _ => false end.

(** A kind of event and the kind of task that is used up when it reports it. *)
Definition one_shot (ev : TorEvent → bool) (task : Task → bool) : Prop :=
  ∀ t w s t' s' fate, run_task t w s = Some (t', s', fate) →
    ∃ evs ts, ac_pending_events s' = ac_pending_events s ++ evs ∧ ac_tasks s' = ac_tasks s ++ ts ∧ countb task ts = 0 ∧
      countb ev evs + from_option (λ t', Nat.b2n (task t')) 0 t' ≤ Nat.b2n (task t).

Ltac run_cases :=
  match goal with H : run_task ?t ?w ?s = Some _ |- _ =>
    destruct t, w; simpl in H; try discriminate H; repeat case_match; simplify_eq/= end.
Ltac counts := rewrite ?countb_cons, ?countb_nil; simpl; repeat case_bool_decide; simpl; lia.
Ltac one_shot_cases :=
  intros t w s t' s' fate Hrun; destruct s; run_cases;
  first [exists [], []; rewrite !app_nil_r; split_and!; simpl; [done|done|done|counts]
        |eexists [_], []; rewrite app_nil_r; split_and!; simpl; [done|done|done|counts]
        |eexists [], [_]; rewrite app_nil_r; split_and!; simpl; [done|done|counts|counts]
        |eexists [], [_; _]; rewrite app_nil_r; split_and!; simpl; [done|done|counts|counts]].

Lemma bootstrap_one_shot : one_shot is_complete bootstraps.
Proof. one_shot_cases. Qed.
Lemma status_one_shot id : one_shot (publishes id) (watches id).
Proof. one_shot_cases. Qed.

Lemma run_task_appends t w s t' s' fate : run_task t w s = Some (t', s', fate) → ∃ ts, ac_tasks s' = ac_tasks s ++ ts.
Proof. intros Hr. by destruct (bootstrap_one_shot _ _ _ _ _ _ Hr) as (_ & ts & _ & ? & _); eexists. Qed.

Lemma wake_counts ev task i w s s' fate :
  one_shot ev task → wake i w s = Some (s', fate) →
  ∃ evs, ac_pending_events s' = ac_pending_events s ++ evs ∧
    countb ev evs + countb task (ac_tasks s') ≤ countb task (ac_tasks s).
Proof.
  intros Ho. unfold wake. destruct (ac_tasks s !! i) as [t|] eqn:Ht; [|done].
  destruct (run_task t w s) as [[[t' s1] f]|] eqn:Hr; [|done]. intros [= <- <-].
  destruct (Ho _ _ _ _ _ _ Hr) as (evs & ts & Hp & Hts & H0 & Hle). exists evs.
  assert (ac_tasks s1 !! i = Some t) as Ht1 by (rewrite Hts; by apply lookup_app_l_Some).
  assert (countb task (ac_tasks s1) = countb task (ac_tasks s)) as Hc by (rewrite Hts, countb_app; lia).
  destruct s1 as [x0 x1 x2 x3 x4 tasks x6]. simpl in *. split; [done|].
  destruct t' as [t'|]; simpl in Hle.
  - pose proof (countb_insert task i t t' tasks Ht1). lia.
  - pose proof (countb_delete task i t tasks Ht1). lia.
Qed.

(** Nothing but the host and pumps change. *)
Definition is_pump (t : Task) : bool := match t with T_ForwardStream _ _ => true | _ => false end.
Definition quiet s s' : Prop :=
  ac_pending_events s' = ac_pending_events s ∧ ∃ ts, ac_tasks s' = ac_tasks s ++ ts ∧ Forall (λ t, is_pump t = true) ts.

Lemma quiet_refl s : quiet s s.
Proof. split; [done|]. exists []. by rewrite app_nil_r. Qed.

Lemma preserves_arti {A} e (f : H → option A * H) s : preserves (quiet s) (ac_arti e f).
Proof. intros s1 s2 r Hq. unfold ac_arti. destruct (f _) as [[a|] h]; intros [= <- _]; by destruct s1. Qed.
Lemma preserves_io {A} e (f : H → io_result A * H) s : preserves (quiet s) (ac_io e f).
Proof. intros s1 s2 r Hq. unfold ac_io. destruct (f _) as [[a|] h]; intros [= <- _]; by destruct s1. Qed.
Lemma preserves_option {A} e (o : option A) s : preserves (quiet s) (ac_option e o).
Proof. intros s1 s2 r Hq. unfold ac_option. destruct o; by intros [= <- _]. Qed.
Lemma preserves_pumps s : preserves (quiet s) (modify spawn_pumps : M _ ACError unit).
Proof.
  intros s1 s2 r (Hp & ts & Ht & Hf). unfold modify. intros [= <- _]. destruct s1. simpl in *. split; [done|].
  exists (ts ++ [T_ForwardStream (length ac_flags) pump_new; T_ForwardStream (length ac_flags) pump_new]). simpl.
  rewrite Ht, app_assoc. split; [done|]. apply Forall_app. split; [done|]. by repeat constructor.
Qed.
Ltac quiet_step :=
  first [apply preserves_ret|apply preserves_get|apply preserves_arti|apply preserves_io|apply preserves_option
        |apply preserves_pumps|apply preserves_throw|apply preserves_panic
        |apply preserves_bind; [|intros ?]|case_match].

Lemma ac_connect_quiet target circuit s s' r : ac_connect target circuit s = Done (s', r) → quiet s s'.
Proof.
  intros Hc. eapply (_ : preserves (quiet s) (ac_connect target circuit)); [apply quiet_refl|exact Hc].
  Unshelve. unfold ac_connect, ac_io_pure. repeat quiet_step.
Qed.

(** What [listener] does before it starts its tasks. *)
Definition ac_prepare (private_key : Ed25519PrivateKey) : M ArtiClientTorClient ACError (TL * SocketAddr) :=
  listener ← ac_io AC_TcpListenerBindFailed (lb_bind any_port);
  socket_addr ← ac_io_pure AC_TcpListenerLocalAddrFailed (lb_local_addr listener);
  keymgr ← ac_option AC_TorKeyMgrBuilderError ar_keymgr_build;
  let service_id := service_id_from_private_key private_key in
  hs_nickname ← (match ar_nickname (sid_data service_id) with Some n => mret n | None => panic end);
  expanded_keypair ←
    (match keypair_from_secret_key_bytes (keypair_to_secret_key_bytes (expanded_keypair private_key)) with
     | Some k => mret k | None => panic end);
  inserted ← ac_option AC_TorKeyMgrError (ar_keymgr_insert keymgr expanded_keypair hs_nickname);
  let '(present, keymgr) := inserted in
  if (present : bool) then throw AC_KeyMgrInsertionFailure
  else
    onion_service_config ← ac_option AC_OnionServiceConfigBuilderError (ar_service_config hs_nickname);
    s ← get_state;
    state_dir ← ac_arti AC_TorPersistError (ar_state_directory (ac_state_dir s) (ac_fs_mistrust s));
    onion_service ← ac_option AC_TorHsServiceStartupError (ar_service_new onion_service_config keymgr state_dir);
    _ ← ac_arti AC_TorHsServiceStartupError (ar_launch onion_service (ac_arti_client s));
    mret (listener, socket_addr).

Lemma ac_listener_prepare key port s :
  ac_listener key port None s =
    ('(listener, socket_addr) ← ac_prepare key;
     _ ← modify (ac_spawn [T_StatusEvents (service_id_from_private_key key); T_RendRequests port socket_addr]);
     mret (mkOnionListener listener (OA_V3 (mkOnionAddrV3 (service_id_from_private_key key) port)))) s.
Proof.
  unfold ac_listener, ac_prepare, mbind, M_bind, get_state.
  repeat first [done|match goal with |- match ?x with _ => _ end = _ => destruct x as [[? []]| |] end
               |match goal with |- (let '(_, _) := ?x in _) _ = _ => destruct x end
               |match goal with |- (if ?x then _ else _) _ = _ => destruct x end].
Qed.

Lemma ac_prepare_quiet key s s' r : ac_prepare key s = Done (s', r) → quiet s s'.
Proof.
  intros Hc. eapply (_ : preserves (quiet s) (ac_prepare key)); [apply quiet_refl|exact Hc].
  Unshelve. unfold ac_prepare, ac_io_pure. repeat quiet_step.
Qed.

(** A call of [listener] either fails and starts nothing, or starts the tasks of one
    service. *)
Lemma ac_listener_starts key port clients s s' r :
  ac_listener key port clients s = Done (s', r) →
  match r with
  | Err _ => quiet s s'
  | Ok l => clients = None ∧ ∃ s1 addr, quiet s s1 ∧
      s' = ac_spawn [T_StatusEvents (service_id_from_private_key key); T_RendRequests port addr] s1 ∧
      ol_onion_addr l = OA_V3 (mkOnionAddrV3 (service_id_from_private_key key) port)
  end.
Proof.
  destruct clients; [intros [= <- <-]; apply quiet_refl|]. rewrite ac_listener_prepare.
  unfold mbind, M_bind. destruct (ac_prepare key s) as [[s1 [[l a]|e]]| |] eqn:Hp; [| |done..].
  - unfold modify. intros [= <- <-]. split; [done|]. exists s1, a. by apply ac_prepare_quiet in Hp.
  - intros [= <- <-]. by apply ac_prepare_quiet in Hp.
Qed.

(** ** Runs of the provider *)

(** A provider with the events taken from it so far, the number of bootstraps and the
    services that were listened on. *)
Inductive ac_reach : list TorEvent → nat → list V3OnionServiceId → ArtiClientTorClient → Prop :=
| ac_reach_new root h s h' : arti_client_new root h = (Ok s, h') → ac_reach [] 0 [] s
| ac_reach_update taken n ids s evs s' :
    ac_reach taken n ids s → ac_update s = Done (s', Ok evs) → ac_reach (taken ++ evs) n ids s'
| ac_reach_bootstrap taken n ids s r s' :
    ac_reach taken n ids s → ac_bootstrap s = Done (s', r) → ac_reach taken (S n) ids s'
| ac_reach_connect taken n ids s target circuit r s' :
    ac_reach taken n ids s → ac_connect target circuit s = Done (s', r) → ac_reach taken n ids s'
| ac_reach_listener taken n ids s key port clients r s' :
    ac_reach taken n ids s → ac_listener key port clients s = Done (s', r) →
    ac_reach taken n (match r with Ok _ => service_id_from_private_key key :: ids | Err _ => ids end) s'
| ac_reach_wake taken n ids s i w fate s' :
    ac_reach taken n ids s → wake i w s = Some (s', fate) → ac_reach taken n ids s'.

Lemma countb_pumps f ts : (∀ t, is_pump t = true → f t = false) → Forall (λ t, is_pump t = true) ts → countb f ts = 0.
Proof. intros Hf. induction 1 as [|t ts Ht _ IH]; [done|]. by rewrite countb_cons, IH, (Hf t Ht). Qed.

(** The events of a run: everything taken or pending. *)
Definition all_events (taken : list TorEvent) s : list TorEvent := taken ++ ac_pending_events s.

Lemma quiet_counts f s s' :
  (∀ t, is_pump t = true → f t = false) → quiet s s' →
  ac_pending_events s' = ac_pending_events s ∧ countb f (ac_tasks s') = countb f (ac_tasks s).
Proof. intros Hf (Hp & ts & -> & Hts). split; [done|]. rewrite countb_app, (countb_pumps f ts Hf Hts). lia. Qed.

Lemma ac_reach_counts taken n ids s :
  ac_reach taken n ids s →
  countb is_complete (all_events taken s) + countb bootstraps (ac_tasks s) ≤ n ∧
  (∀ id, countb (publishes id) (all_events taken s) + countb (watches id) (ac_tasks s) ≤ countb (λ id', bool_decide (id = id')) ids).
Proof.
  assert (∀ id t, is_pump t = true → watches id t = false) as Hw by by intros id [].
  assert (∀ t, is_pump t = true → bootstraps t = false) as Hb by by intros [].
  unfold all_events. induction 1 as [root h s h' Hn|taken n ids s evs s' _ [I1 I2] Hu|taken n ids s r s' _ [I1 I2] Hu|
    taken n ids s target circuit r s' _ [I1 I2] Hc|taken n ids s key port clients r s' _ [I1 I2] Hl|taken n ids s i w fate s' _ [I1 I2] Hw'].
  - unfold arti_client_new in Hn. destruct (ar_build _); [|done]. destruct (ar_create_unbootstrapped _ h) as [[c|] h1]; [|done].
    injection Hn as <- _. split; [done|]. intros id. done.
  - unfold ac_update in Hu. injection Hu as <- <-. destruct s. simpl in *. rewrite !app_nil_r. by split.
  - unfold ac_bootstrap, modify in Hu. injection Hu as <- _. destruct s. simpl in *. split.
    + rewrite (countb_app bootstraps), !countb_cons, countb_nil. simpl. lia.
    + intros id. rewrite (countb_app (watches id)), !countb_cons, countb_nil. simpl. specialize (I2 id). lia.
  - apply ac_connect_quiet in Hc. split.
    + destruct (quiet_counts bootstraps _ _ Hb Hc) as [-> ->]. done.
    + intros id. destruct (quiet_counts (watches id) _ _ (Hw id) Hc) as [-> ->]. done.
  - apply ac_listener_starts in Hl. destruct r as [l|e].
    + destruct Hl as (_ & s1 & addr & Hq & -> & _). split.
      * destruct (quiet_counts bootstraps _ _ Hb Hq) as [Hp Hts]. destruct s1. simpl in *.
        rewrite (countb_app bootstraps), !countb_cons, countb_nil, Hp, Hts. simpl. lia.
      * intros id. destruct (quiet_counts (watches id) _ _ (Hw id) Hq) as [Hp Hts]. destruct s1. simpl in *.
        rewrite (countb_app (watches id)), !countb_cons, countb_nil, Hp, Hts. simpl. specialize (I2 id). lia.
    + split.
      * destruct (quiet_counts bootstraps _ _ Hb Hl) as [-> ->]. done.
      * intros id. destruct (quiet_counts (watches id) _ _ (Hw id) Hl) as [-> ->]. done.
  - split.
    + destruct (wake_counts _ _ _ _ _ _ _ bootstrap_one_shot Hw') as (evs & -> & Hle).
      rewrite app_assoc, countb_app. lia.
    + intros id. destruct (wake_counts _ _ _ _ _ _ _ (status_one_shot id) Hw') as (evs & -> & Hle).
      rewrite app_assoc, countb_app. specialize (I2 id). lia.
Qed.

(** ** Streams *)

(** A task that does not serve a port does not lead to new streams for it. *)
Lemma run_task_unserved port addr t w s t' s' fate :
  serves port addr t = false → run_task t w s = Some (t', s', fate) →
  ∃ ts, ac_tasks s' = ac_tasks s ++ ts ∧ countb (serves port addr) ts = 0 ∧ countb (carries port addr) ts = 0 ∧
    from_option (serves port addr) false t' = false ∧
    from_option (λ t', Nat.b2n (carries port addr t')) 0 t' ≤ Nat.b2n (carries port addr t).
Proof.
  intros Hs Hrun. destruct s. run_cases;
    first [exists []; rewrite app_nil_r; split_and!; simpl; (done || lia)
          |eexists [_; _]; split_and!; simpl; [done|counts|counts|done|lia]
          |exists [T_StreamRequests virt_port socket_addr]; rewrite !countb_cons, !countb_nil; simpl; rewrite Hs;
           split_and!; (done || lia)].
Qed.

Definition woken s s' : Prop := ∃ i w fate, wake i w s = Some (s', fate).

Lemma wake_unserved port addr s s' :
  countb (serves port addr) (ac_tasks s) = 0 → woken s s' →
  countb (serves port addr) (ac_tasks s') = 0 ∧
  countb (carries port addr) (ac_tasks s') ≤ countb (carries port addr) (ac_tasks s).
Proof.
  intros H0 (i & w & fate & Hw). revert Hw. unfold wake. destruct (ac_tasks s !! i) as [t|] eqn:Ht; [|done].
  destruct (run_task t w s) as [[[t' s1] f]|] eqn:Hr; [|done]. intros [= <- <-].
  pose proof (countb_delete (serves port addr) i t _ Ht) as Hst.
  assert (serves port addr t = false) as Hsf by (destruct (serves port addr t); [simpl in Hst; lia|done]).
  destruct (run_task_unserved port addr _ _ _ _ _ _ Hsf Hr)
    as (ts & Hts & Hs0 & Hc0 & Ht' & Hc').
  assert (ac_tasks s1 !! i = Some t) as Ht1 by (rewrite Hts; by apply lookup_app_l_Some).
  assert (∀ test, countb test (ac_tasks s1) = countb test (ac_tasks s) + countb test ts) as Hc by (intros test; by rewrite Hts, countb_app).
  destruct s1 as [x0 x1 x2 x3 x4 tasks x6]. simpl in *.
  pose proof (Hc (serves port addr)). pose proof (Hc (carries port addr)).
  destruct t' as [t'|]; simpl in *.
  - pose proof (countb_insert (serves port addr) i t t' tasks Ht1). pose proof (countb_insert (carries port addr) i t t' tasks Ht1).
    rewrite Ht' in *. simpl in *. lia.
  - pose proof (countb_delete (serves port addr) i t tasks Ht1). pose proof (countb_delete (carries port addr) i t tasks Ht1). lia.
Qed.

(** The task that takes the rendezvous requests of a service ends on the first request it
    cannot accept. *)
Lemma failed_rendezvous i port addr s :
  ac_tasks s !! i = Some (T_RendRequests port addr) →
  ∃ s', wake i (W_RendRequest (Some false)) s = Some (s', None) ∧ ac_tasks s' = delete i (ac_tasks s) ∧
    (countb (serves port addr) (ac_tasks s) = 1 → ∀ s2, rtc woken s' s2 →
       countb (serves port addr) (ac_tasks s2) = 0 ∧
       countb (carries port addr) (ac_tasks s2) ≤ countb (carries port addr) (ac_tasks s')).
Proof.
  intros Ht. eexists. unfold wake. rewrite Ht. simpl. split; [done|]. split; [by destruct s|].
  intros H1 s2 Hrun. pose proof (countb_delete (serves port addr) i _ _ Ht) as Hd. simpl in Hd.
  rewrite Z.eqb_refl, bool_decide_eq_true_2 in Hd by done. simpl in Hd.
  set (s0 := ac_set_tasks _ s) in *.
  assert (countb (serves port addr) (ac_tasks s0) = 0) as H0 by (unfold s0; destruct s; simpl in *; lia).
  clearbody s0. clear -H0 Hrun. induction Hrun as [s|s s1 s2 Hw _ IH]; [done|].
  destruct (wake_unserved port addr _ _ H0 Hw) as [H1 Hc]. destruct (IH H1) as [H2 Hc2]. split; [done|lia].
Qed.

(** Only streams to the port of the service are forwarded; the circuits of others are shut
    down. *)
Lemma stream_request_fate port addr request accepted connected s :
  run_task (T_StreamRequests port addr) (W_StreamRequest (Some request) accepted connected) s =
    Some (Some (T_StreamRequests port addr),
          if bool_decide (request = Some port) && accepted && connected then spawn_pumps s else s,
          Some (if bool_decide (request = Some port) then
                  if accepted && connected then SF_Forwarded else SF_Dropped
                else SF_ShutDown)).
Proof.
  simpl. unfold should_accept. destruct request as [p|]; [|by rewrite bool_decide_eq_false_2].
  destruct (Z.eqb_spec p port) as [->|Hne].
  - rewrite bool_decide_eq_true_2 by done. by destruct accepted, connected.
  - by rewrite bool_decide_eq_false_2 by congruence.
Qed.
End client.

(** * Contexts over this provider *)

Section contexts.
Context `{BL : BsonLib} `{CL : CryptoLib} {H RW TL : Type} `{LB : !Loopback H RW TL} `{AL : !ArtiLib H RW TL}.
Context `{!Stream RW} `{!Sockets RW TL} `{!HashOrder V3OnionServiceId}.
Implicit Types (c : Context RW TL (ArtiClientTorClient (H:=H) (RW:=RW) (TL:=TL))).

Lemma set_same_tor c : cx_set_tor (cx_tor_provider c) c = c.
Proof. by destruct c. Qed.

(** Endpoint servers need client authorization, and so do their clients. *)
Lemma arti_no_endpoint_server key name id auth c : ∃ e, endpoint_server_start key name id auth c = Done (c, Err e).
Proof.
  unfold endpoint_server_start, mbind, M_bind, get_state. destruct (negb _); [by eexists|].
  case_decide; [by eexists|]. destruct (hm_contains_key _ _); [by eexists|].
  unfold cx_on_tor. simpl. eexists. by rewrite set_same_tor.
Qed.

Lemma arti_no_endpoint_client id key channel c : ∃ e, endpoint_client_begin_handshake id key channel c = Done (c, Err e).
Proof.
  unfold endpoint_client_begin_handshake. destruct (ascii_string_new channel); [|by eexists].
  unfold mbind, M_bind, get_state. destruct (negb _); [by eexists|]. unfold cx_on_tor. simpl. eexists. by rewrite set_same_tor.
Qed.

End contexts.

(** * A run *)

(** Libraries on which everything succeeds. *)
#[local] Instance demo_sockets : Loopback unit Script ScriptListener := {|
  lb_connect _ h := (IoOk (script_of [] []), h); lb_bind _ h := (IoOk [], h);
  lb_local_addr _ := IoOk (SA_V4 [127; 0; 0; 1]%Z 4000) |}.
#[local] Instance demo_arti : ArtiLib unit Script ScriptListener := {|
  TorClientConfig := unit; FsMistrust := unit; TorClient := unit; TorAddr := unit; DataStream := unit; KeyMgr := unit;
  HsNickname := unit; OnionServiceConfig := unit; StateDirectory := unit; OnionService := unit; TokioListener := unit;
  TokioStream := Script;
  ar_build _ := Some tt; ar_fs_mistrust _ := tt; ar_create_unbootstrapped _ h := (Some tt, h);
  ar_tor_addr _ := Some tt; ar_connect _ _ h := (Some tt, h); ar_keymgr_build := Some tt; ar_nickname _ := Some tt;
  ar_keymgr_insert _ _ _ := Some (false, tt); ar_service_config _ := Some tt; ar_state_directory _ _ h := (Some tt, h);
  ar_service_new _ _ _ := Some tt; ar_launch _ _ h := (Some tt, h); tk_bind _ h := (IoOk tt, h);
  tk_local_addr _ := IoOk (SA_V4 [127; 0; 0; 1]%Z 4001); tk_connect _ h := (IoOk (script_of [] []), h);
  tk_accept _ h := (IoOk (script_of [] []), h); tk_into_std s := IoOk s |}.

Abbreviation DemoArti := (ArtiClientTorClient (H:=unit) (RW:=Script) (TL:=ScriptListener)).

(** A provider that bootstraps and listens; its bootstrap ends. *)
Definition demo_ac0 : DemoArti :=
  match arti_client_new (lit "/tmp") tt with
  | (Ok s, _) => s
  | _ => mkArtiClientTorClient tt tt (lit "") tt [] [] []
  end.
Definition demo_ac1 : DemoArti := state_of demo_ac0 (ac_bootstrap demo_ac0).
Definition demo_ac2 : DemoArti := state_of demo_ac1 (ac_listener demo_server_key 420 None demo_ac1).
Definition demo_ac3 : DemoArti := from_option fst demo_ac2 (wake 1 (W_BootstrapDone true) demo_ac2).
Definition demo_addr : SocketAddr := SA_V4 [127; 0; 0; 1]%Z 4000.

Lemma demo_ac3_reach : ac_reach [] 1 [demo_server_id] demo_ac3.
Proof.
  apply (ac_reach_wake [] 1 [demo_server_id] demo_ac2 1 (W_BootstrapDone true) None demo_ac3); [|reflexivity].
  pose proof (ac_reach_listener [] 1 [] demo_ac1 demo_server_key 420 None) as Hl.
  apply (Hl (Ok (mkOnionListener [] (OA_V3 (mkOnionAddrV3 demo_server_id 420)))) demo_ac2); [|reflexivity].
  apply (ac_reach_bootstrap [] 0 [] demo_ac0 (Ok tt) demo_ac1); [|reflexivity].
  apply (ac_reach_new (lit "/tmp") tt demo_ac0 tt). reflexivity.
Qed.

