(* ===== verification/TorVersion.v ===== *)
(** tor-interface/src/legacy_tor_version.rs: the version of a tor daemon, its text and its
    order. *)

From Stdlib Require Import ZArith Lia.
From S2P Require Import Prelude Str.
From stdpp Require Import prelude strings list.
From coqutil Require Import Byte.

Open Scope Z_scope.

(** [legacy_tor_version::Error], without the text *)
Inductive VersionError := VersionParseError.

Record LegacyTorVersion := mkLegacyTorVersion {
  v_major : Z;
  v_minor : Z;
  v_micro : Z;
  v_patch_level : Z;
  v_status_tag : option str;
}.

#[export] Instance version_eq_dec : EqDecision LegacyTorVersion.
Proof. solve_decision. Defined.

(** [status_tag_pattern_is_match] *)
Definition status_tag_pattern_is_match (status_tag : str) : bool :=
  if bool_decide (status_tag = []) then false
  else forallb (λ c, negb (is_whitespace c)) (chars status_tag).

(** [LegacyTorVersion::new] *)
Definition version_new (major minor micro : Z) (patch_level : option Z) (status_tag : option str) :
    result VersionError LegacyTorVersion :=
  match
    match status_tag with
    | Some status_tag =>
        if status_tag_pattern_is_match status_tag then Ok (Some status_tag) else Err VersionParseError
    | None => Ok None
    end
  with
  | Ok status_tag => Ok (mkLegacyTorVersion major minor micro (default 0 patch_level) status_tag)
  | Err e => Err e
  end.

(** The next piece of a split, parsed. *)
Definition next_u32 (tokens : list str) : result VersionError (Z * list str) :=
  match tokens with
  | [] => Err VersionParseError
  | t :: tokens => match parse_u32 t with Some n => Ok (n, tokens) | None => Err VersionParseError end
  end.

(** [MAJOR.MINOR.MICRO[.PATCHLEVEL]] *)
Definition parse_numbers (version : str) : result VersionError (Z * Z * Z * Z) :=
  let tokens := str_split dot version in
  match next_u32 tokens with
  | Err e => Err e
  | Ok (major, tokens) =>
  match next_u32 tokens with
  | Err e => Err e
  | Ok (minor, tokens) =>
  match next_u32 tokens with
  | Err e => Err e
  | Ok (micro, tokens) =>
      match tokens with
      | [] => Ok (major, minor, micro, 0)
      | _ => match next_u32 tokens with
             | Err e => Err e
             | Ok (patch_level, _) => Ok (major, minor, micro, patch_level)
             end
      end
  end end end.

(** [impl FromStr for LegacyTorVersion] *)
Definition version_from_str (s : str) : result VersionError LegacyTorVersion :=
  match str_split space s with
  | [] => Err VersionParseError (* [unreachable!()] *)
  | version_status_tag :: extra =>
      match str_split hyphen version_status_tag with
      | [] => Err VersionParseError (* [unreachable!()] *)
      | version :: tokens =>
          match parse_numbers version with
          | Err e => Err e
          | Ok (major, minor, micro, patch_level) =>
              let status_tag := head tokens in
              if forallb (λ extra_info, starts_with_byte extra_info lparen && ends_with_byte extra_info rparen) extra
              then version_new major minor micro (Some patch_level) status_tag
              else Err VersionParseError
          end
      end
  end.

(** [impl ToString for LegacyTorVersion] *)
Definition version_to_string (v : LegacyTorVersion) : str :=
  let numbers := show_uint (v_major v) ++ [dot] ++ show_uint (v_minor v) ++ [dot] ++
                 show_uint (v_micro v) ++ [dot] ++ show_uint (v_patch_level v) in
  match v_status_tag v with
  | Some status_tag => numbers ++ [hyphen] ++ status_tag
  | None => numbers
  end.

(** [impl PartialEq for LegacyTorVersion] *)
Definition version_eq (v w : LegacyTorVersion) : bool :=
  (v_major v =? v_major w) && (v_minor v =? v_minor w) && (v_micro v =? v_micro w) &&
  (v_patch_level v =? v_patch_level w) && bool_decide (v_status_tag v = v_status_tag w).

(** [impl PartialOrd for LegacyTorVersion] *)
Definition version_partial_cmp (v w : LegacyTorVersion) : option comparison :=
  match v_major v ?= v_major w with
  | Eq =>
  match v_minor v ?= v_minor w with
  | Eq =>
  match v_micro v ?= v_micro w with
  | Eq =>
  match v_patch_level v ?= v_patch_level w with
  | Eq => if bool_decide (v_status_tag v = v_status_tag w) then Some Eq else None
  | order => Some order
  end
  | order => Some order
  end
  | order => Some order
  end
  | order => Some order
  end.

(** * Well-formed versions *)

Definition is_u32 (n : Z) : Prop := 0 ≤ n ≤ u32_max.

(** What a value of the type is: the numbers fit their fields, the tag is a non-empty
    string without white space. *)
Record version_ok (v : LegacyTorVersion) : Prop := {
  ok_major : is_u32 (v_major v);
  ok_minor : is_u32 (v_minor v);
  ok_micro : is_u32 (v_micro v);
  ok_patch : is_u32 (v_patch_level v);
  ok_tag : from_option (λ t, status_tag_pattern_is_match t = true) True (v_status_tag v);
}.

Lemma version_new_ok major minor micro patch tag v :
  is_u32 major → is_u32 minor → is_u32 micro → from_option is_u32 True patch →
  version_new major minor micro patch tag = Ok v → version_ok v.
Proof.
  intros H1 H2 H3 H4. unfold version_new.
  destruct tag as [t|]; [destruct (status_tag_pattern_is_match t) eqn:Ht; [|done]|];
    intros [= <-]; split; simpl; try done; by destruct patch.
Qed.

Lemma next_u32_Ok tokens n rest : next_u32 tokens = Ok (n, rest) → is_u32 n.
Proof.
  destruct tokens as [|t ts]; simpl; [done|]. destruct (parse_u32 t) as [m|] eqn:Hp; [|done].
  intros [= <- <-]. by eapply parse_uint_range.
Qed.

Lemma parse_numbers_Ok s a b c d :
  parse_numbers s = Ok (a, b, c, d) → is_u32 a ∧ is_u32 b ∧ is_u32 c ∧ is_u32 d.
Proof.
  unfold parse_numbers.
  destruct (next_u32 _) as [[a' t1]|] eqn:H1; [|done]. apply next_u32_Ok in H1.
  destruct (next_u32 t1) as [[b' t2]|] eqn:H2; [|done]. apply next_u32_Ok in H2.
  destruct (next_u32 t2) as [[c' t3]|] eqn:H3; [|done]. apply next_u32_Ok in H3.
  destruct t3 as [|t t3]; [intros [= <- <- <- <-]; by split_and!|].
  destruct (next_u32 (t :: t3)) as [[d' t4]|] eqn:H4; [|done]. apply next_u32_Ok in H4.
  intros [= <- <- <- <-]. by split_and!.
Qed.

(** What parsing gives: a well-formed version whose tag has no hyphen. *)
Lemma version_from_str_Ok s v :
  version_from_str s = Ok v → version_ok v ∧ from_option (λ t, hyphen ∉ t ∧ space ∉ t) True (v_status_tag v).
Proof.
  unfold version_from_str. pose proof (split_pieces space s) as Hsp.
  destruct (str_split space s) as [|vst extra]; [done|]. apply Forall_inv in Hsp.
  pose proof (split_pieces hyphen vst) as Hhy. pose proof (split_subset hyphen vst) as Hsub.
  destruct (str_split hyphen vst) as [|version tokens]; [done|].
  destruct (parse_numbers version) as [[[[a b] c] d]|] eqn:Hn; [|done].
  apply parse_numbers_Ok in Hn as (Ha & Hb & Hc & Hd). destruct (forallb _ extra); [|done].
  intros Hv. split; [by eapply version_new_ok, Hv|].
  revert Hv. unfold version_new. destruct tokens as [|t tokens]; simpl; [by intros [= <-]|].
  destruct (status_tag_pattern_is_match t); [|done]. intros [= <-]. simpl.
  apply Forall_cons in Hhy as [_ [Ht _]%Forall_cons]. split; [done|].
  intros Hin. apply Hsp. eapply Hsub; [|exact Hin]. right. left.
Qed.

(** ** Printing and reading back *)

(** A tag without white space has no space. *)
Lemma tag_no_space t : is_utf8 t = true → status_tag_pattern_is_match t = true → space ∉ t.
Proof.
  intros Hu Ht Hin. apply bool_decide_eq_true in Hu as [l Hl]. unfold status_tag_pattern_is_match, chars in Ht.
  case_bool_decide; [done|]. rewrite Hl in Ht. simpl in Ht.
  pose proof (utf8_chars_ascii t l space Hl Hin ltac:(done)) as Hc.
  rewrite forallb_forall in Ht. apply list_elem_of_In in Hc. by specialize (Ht _ Hc).
Qed.

Lemma next_u32_show n tokens : is_u32 n → next_u32 (show_uint n :: tokens) = Ok (n, tokens).
Proof. intros Hn. simpl. unfold parse_u32. by rewrite parse_show_uint. Qed.

Lemma split_numbers a b c d :
  is_u32 a → is_u32 b → is_u32 c → is_u32 d →
  parse_numbers (show_uint a ++ [dot] ++ show_uint b ++ [dot] ++ show_uint c ++ [dot] ++ show_uint d) = Ok (a, b, c, d).
Proof.
  intros Ha Hb Hc Hd. unfold parse_numbers. simpl app.
  rewrite !split_app by (apply show_uint_no; [apply Ha || apply Hb || apply Hc|done]).
  rewrite split_no by (apply show_uint_no; [apply Hd|done]). by rewrite !next_u32_show by done.
Qed.

Lemma numbers_no a b c d sep :
  is_u32 a → is_u32 b → is_u32 c → is_u32 d → digit_of sep = None → sep ≠ dot →
  sep ∉ show_uint a ++ [dot] ++ show_uint b ++ [dot] ++ show_uint c ++ [dot] ++ show_uint d.
Proof.
  unfold is_u32. intros Ha Hb Hc Hd Hs Hdot. rewrite !elem_of_app, !list_elem_of_singleton.
  pose proof (show_uint_no a sep ltac:(lia) Hs). pose proof (show_uint_no b sep ltac:(lia) Hs).
  pose proof (show_uint_no c sep ltac:(lia) Hs). pose proof (show_uint_no d sep ltac:(lia) Hs). tauto.
Qed.

Lemma version_roundtrip v :
  version_ok v → from_option (λ t, hyphen ∉ t ∧ space ∉ t) True (v_status_tag v) →
  version_from_str (version_to_string v) = Ok v.
Proof.
  destruct v as [a b c d tag]. intros [Ha Hb Hc Hd Ht] Hno. simpl in *.
  unfold version_from_str, version_to_string. simpl v_status_tag. simpl v_major. simpl v_minor. simpl v_micro. simpl v_patch_level.
  set (numbers := show_uint a ++ [dot] ++ show_uint b ++ [dot] ++ show_uint c ++ [dot] ++ show_uint d).
  assert (hyphen ∉ numbers) as Hn1 by by apply numbers_no.
  assert (space ∉ numbers) as Hn2 by by apply numbers_no.
  assert (parse_numbers numbers = Ok (a, b, c, d)) as Hp by by apply split_numbers.
  destruct tag as [t|]; simpl in *.
  - destruct Hno as [Hh Hs]. rewrite split_no; [|rewrite elem_of_app, elem_of_cons; naive_solver].
    rewrite split_app, split_no by done. simpl. rewrite Hp. simpl. unfold version_new. by rewrite Ht.
  - rewrite !split_no by done. by rewrite Hp.
Qed.

(** ** The order *)

Lemma version_eq_iff v w : version_eq v w = true ↔ v = w.
Proof.
  unfold version_eq. rewrite !andb_true_iff, !Z.eqb_eq, bool_decide_eq_true.
  destruct v, w; simpl. naive_solver.
Qed.

(** The numbers of a version, compared lexicographically. *)
Definition version_lt (v w : LegacyTorVersion) : Prop :=
  v_major v < v_major w ∨ v_major v = v_major w ∧
  (v_minor v < v_minor w ∨ v_minor v = v_minor w ∧
   (v_micro v < v_micro w ∨ v_micro v = v_micro w ∧ v_patch_level v < v_patch_level w)).

Lemma version_cmp_spec v w :
  match version_partial_cmp v w with
  | Some Lt => version_lt v w
  | Some Eq => v = w
  | Some Gt => version_lt w v
  | None => ¬ version_lt v w ∧ ¬ version_lt w v ∧ v_status_tag v ≠ v_status_tag w
  end.
Proof.
  unfold version_partial_cmp, version_lt.
  destruct (Z.compare_spec (v_major v) (v_major w)); [|lia..].
  destruct (Z.compare_spec (v_minor v) (v_minor w)); [|lia..].
  destruct (Z.compare_spec (v_micro v) (v_micro w)); [|lia..].
  destruct (Z.compare_spec (v_patch_level v) (v_patch_level w)); [|lia..].
  case_bool_decide; [|split_and!; [lia..|done]]. destruct v, w; simpl in *. by subst.
Qed.

Lemma version_lt_trans u v w : version_lt u v → version_lt v w → version_lt u w.
Proof. unfold version_lt. lia. Qed.
Lemma version_lt_irrefl v : ¬ version_lt v v.
Proof. unfold version_lt. lia. Qed.
Lemma version_cmp_lt v w : version_partial_cmp v w = Some Lt ↔ version_lt v w.
Proof.
  pose proof (version_cmp_spec v w) as Hc. split; [by intros Hv; rewrite Hv in Hc|].
  intros Hlt. destruct (version_partial_cmp v w) as [[]|]; [|done|..].
  - subst. by apply version_lt_irrefl in Hlt.
  - exfalso. eapply version_lt_irrefl, version_lt_trans; eauto.
  - naive_solver.
Qed.
Lemma version_cmp_gt v w : version_partial_cmp v w = Some Gt ↔ version_lt w v.
Proof.
  pose proof (version_cmp_spec v w) as Hc. split; [by intros Hv; rewrite Hv in Hc|].
  intros Hlt. destruct (version_partial_cmp v w) as [[]|]; [| |done|].
  - subst. by apply version_lt_irrefl in Hlt.
  - exfalso. eapply version_lt_irrefl, version_lt_trans; eauto.
  - naive_solver.
Qed.
