(* ===== verification/ControlStream.v ===== *)
(** tor-interface/src/legacy_tor_control_stream.rs: the lines and replies of tor's control
    port.

    The socket is the operating system's: it is the class [ControlSocket]. *)

From Stdlib Require Import ZArith Lia.
From S2P Require Import Prelude HonkSize HonkSession Str NetAddr Regexes.
From stdpp Require Import prelude strings list.
From coqutil Require Import Byte.

Open Scope nat_scope.

(** * What the stream is made of *)

(** A TCP stream with a read timeout.  [ctl_read_to_end] gives the bytes it appended and how
    it ended: at the end of the stream, or with an error. *)
Class ControlSocket (W : Type) : Type := {
  ctl_connect : SocketAddr → io_result W;
  ctl_set_read_timeout : Duration → W → io_result unit * W;
  ctl_read_to_end : W → bytes * io_result unit * W;
  ctl_write_all : bytes → W → io_result unit * W;
}.

(** [legacy_tor_control_stream::Error], without texts *)
Inductive CSError :=
| ReadTimeoutZero
| CreationFailed (kind : ErrorKind)
| ConfigurationFailed (kind : ErrorKind)
| CS_ParsingRegexCreationFailed
| CS_ReadFailed (kind : ErrorKind)
| ClosedByRemote
| InvalidResponse
| ReplyParseFailed
| CS_WriteFailed (kind : ErrorKind).

Record Reply := mkReply { status_code : Z; reply_lines : list str }.

#[export] Instance reply_eq_dec : EqDecision Reply.
Proof. solve_decision. Defined.

Section control_stream.
Context {W : Type} `{!ControlSocket W} `{RL : RegexLib}.

Record LegacyControlStream := mkLegacyControlStream {
  cs_stream : W;
  cs_closed_by_remote : bool;
  cs_pending_data : bytes;
  cs_pending_lines : list str;
  cs_pending_reply : list str;
  cs_reading_multiline_value : bool;
  cs_single_line_data : Regex;
  cs_multi_line_data : Regex;
  cs_end_reply_line : Regex;
}.

Definition cs_set_stream v s := let 'mkLegacyControlStream _ x1 x2 x3 x4 x5 x6 x7 x8 := s in mkLegacyControlStream v x1 x2 x3 x4 x5 x6 x7 x8.
Definition cs_set_closed v s := let 'mkLegacyControlStream x0 _ x2 x3 x4 x5 x6 x7 x8 := s in mkLegacyControlStream x0 v x2 x3 x4 x5 x6 x7 x8.
Definition cs_set_data v s := let 'mkLegacyControlStream x0 x1 _ x3 x4 x5 x6 x7 x8 := s in mkLegacyControlStream x0 x1 v x3 x4 x5 x6 x7 x8.
Definition cs_set_lines v s := let 'mkLegacyControlStream x0 x1 x2 _ x4 x5 x6 x7 x8 := s in mkLegacyControlStream x0 x1 x2 v x4 x5 x6 x7 x8.
Definition cs_set_reply v s := let 'mkLegacyControlStream x0 x1 x2 x3 _ x5 x6 x7 x8 := s in mkLegacyControlStream x0 x1 x2 x3 v x5 x6 x7 x8.
Definition cs_set_reading v s := let 'mkLegacyControlStream x0 x1 x2 x3 x4 _ x6 x7 x8 := s in mkLegacyControlStream x0 x1 x2 x3 x4 v x6 x7 x8.

Abbreviation CS_ := (M LegacyControlStream CSError).

(** [LegacyControlStream::new] *)
Definition control_stream_new (addr : SocketAddr) (read_timeout : Duration) :
    result CSError LegacyControlStream :=
  if (read_timeout =? 0)%Z then Err ReadTimeoutZero
  else match ctl_connect addr with
  | IoErr kind => Err (CreationFailed kind)
  | IoOk stream =>
      match ctl_set_read_timeout read_timeout stream with
      | (IoErr kind, _) => Err (ConfigurationFailed kind)
      | (IoOk _, stream) =>
          match re_new single_line_pattern, re_new multi_line_pattern, re_new end_reply_pattern with
          | Some single, Some multi, Some end_ =>
              Ok (mkLegacyControlStream stream false [] [] [] false single multi end_)
          | _, _, _ => Err CS_ParsingRegexCreationFailed
          end
      end
  end.

(** ** Lines *)

(** "split our read buffer into individual lines": the loop over the indices.  [None] in
    place of the new beginning is a line that is not UTF-8. *)
Fixpoint split_lines (data : bytes) (indices : list nat) (begin : nat) (lines : list str) :
    list str * option nat :=
  match indices with
  | [] => (lines, Some begin)
  | index :: indices =>
      if bool_decide (data !! (index - 1) = Some carriage_return ∧ data !! index = Some newline) then
        let end_ := index - 1 in
        let line_view := take (end_ - begin) (drop begin data) in
        if is_utf8 line_view then split_lines data indices (end_ + 2) (lines ++ [line_view])
        else (lines, None)
      else split_lines data indices begin lines
  end.

(** [read_line] *)
Fixpoint read_line (fuel : nat) : CS_ (option str) := λ self,
  match cs_pending_lines self with
  | line :: lines => Done (cs_set_lines lines self, Ok (Some line))
  | [] =>
      match fuel with
      | O => OutOfFuel
      | S fuel =>
          let '(got, r, stream) := ctl_read_to_end (cs_stream self) in
          let data := cs_pending_data self ++ got in
          let self := cs_set_data data (cs_set_stream stream self) in
          let split_and_go_on :=
            let '(lines, begin) := split_lines data (seq 1 (length data - 1)) 0 (cs_pending_lines self) in
            let self := cs_set_lines lines self in
            match begin with
            | None => Done (self, Err InvalidResponse)
            | Some begin => read_line fuel (cs_set_data (drop begin data) self)
            end in
          match r with
          | IoErr kind =>
              if bool_decide (kind = WouldBlock ∨ kind = TimedOut) then
                if bool_decide (length got = 0) then Done (self, Ok None) else split_and_go_on
              else Done (self, Err (CS_ReadFailed kind))
          | IoOk _ =>
              if bool_decide (length got = 0) then Done (cs_set_closed true self, Err ClosedByRemote)
              else split_and_go_on
          end
      end
  end.

(** ** Replies *)

(** "make sure the status code matches", unless in the middle of a multi-line value *)
Definition status_matches (pending_reply : list str) (reading : bool) (current_line : str) : outcome bool :=
  match pending_reply with
  | [] => Done true
  | first_line :: _ =>
      if reading then Done true
      else match str_slice first_line 0 3, str_slice current_line 0 3 with
      | Some first_status_code, Some current_status_code =>
          Done (bool_decide (first_status_code = current_status_code))
      | _, _ => Panicked
      end
  end.

(** What the loop of [read_reply] does with a line, as a change of the pending reply and of
    [reading_multiline_value]: [true] ends the reply. *)
Definition push_line (single_line_data multi_line_data end_reply_line : Regex) (current_line : str) :
    M (list str * bool) CSError bool := λ '(pending_reply, reading),
  match status_matches pending_reply reading current_line with
  | Done false => Done ((pending_reply, reading), Err ReplyParseFailed)
  | Done true =>
      if re_is_match end_reply_line current_line then
        if reading then Done ((pending_reply, reading), Err ReplyParseFailed)
        else Done ((pending_reply ++ [current_line], reading), Ok true)
      else if re_is_match single_line_data current_line then
        if reading then Done ((pending_reply, reading), Err ReplyParseFailed)
        else Done ((pending_reply ++ [current_line], reading), Ok false)
      else if re_is_match multi_line_data current_line then
        if reading then Done ((pending_reply, reading), Err ReplyParseFailed)
        else Done ((pending_reply ++ [current_line], true), Ok false)
      else if negb reading then Done ((pending_reply, reading), Err ReplyParseFailed)
      else if bool_decide (current_line = [dot]) then Done ((pending_reply, false), Ok false)
      else match last pending_reply with
      | None => Panicked (* [unreachable!()] *)
      | Some multiline =>
          Done ((take (length pending_reply - 1) pending_reply ++ [multiline ++ [newline] ++ current_line],
                 reading), Ok false)
      end
  | Panicked => Panicked
  | OutOfFuel => OutOfFuel
  end.

Definition on_reply {A} (m : LegacyControlStream → M (list str * bool) CSError A) : CS_ A := λ self,
  match m self (cs_pending_reply self, cs_reading_multiline_value self) with
  | Done ((pending_reply, reading), r) => Done (cs_set_reading reading (cs_set_reply pending_reply self), r)
  | Panicked => Panicked
  | OutOfFuel => OutOfFuel
  end.

(** "strip the redundant status code from start of lines"; [None] is a slice that panics *)
Fixpoint strip_codes (code : str) (lines : list str) : option (list str) :=
  match lines with
  | [] => Some []
  | line :: lines =>
      match (if str_starts_with line code then str_slice line 4 (length line) else Some line),
            strip_codes code lines with
      | Some line, Some lines => Some (line :: lines)
      | _, _ => None
      end
  end.

(** The rest of [read_reply], after the loop. *)
Definition take_reply : M (list str * bool) CSError (option Reply) := λ '(reply_lines, reading),
  match reply_lines with
  | [] => Panicked (* [unreachable!()] *)
  | first_line :: _ =>
      match str_slice first_line 0 3 with
      | None => Panicked
      | Some status_code_string =>
          match parse_u32 status_code_string with
          | None => Done (([], reading), Err ReplyParseFailed)
          | Some status_code =>
              match strip_codes status_code_string reply_lines with
              | None => Panicked
              | Some reply_lines => Done (([], reading), Ok (Some (mkReply status_code reply_lines)))
              end
          end
      end
  end.

(** [read_reply] *)
Fixpoint read_reply (fuel : nat) : CS_ (option Reply) :=
  match fuel with
  | O => diverge
  | S fuel =>
      line ← read_line (S fuel);
      match line with
      | None => mret None
      | Some current_line =>
          finished ← on_reply (λ self, push_line (cs_single_line_data self) (cs_multi_line_data self)
                                         (cs_end_reply_line self) current_line);
          if (finished : bool) then on_reply (λ _, take_reply) else read_reply fuel
      end
  end.

(** [write] *)
Definition cs_write (cmd : str) : CS_ unit := λ self,
  let '(r, stream) := ctl_write_all (cmd ++ [carriage_return; newline]) (cs_stream self) in
  match r with
  | IoErr kind => Done (cs_set_closed true (cs_set_stream stream self), Err (CS_WriteFailed kind))
  | IoOk _ => Done (cs_set_stream stream self, Ok tt)
  end.
End control_stream.
Arguments LegacyControlStream W {_}.
