(* ===== verification/ControlTheory.v ===== *)
(** The control stream delivers: the lines of what tor has sent, however it arrives, and the
    replies these lines spell. *)

From Stdlib Require Import ZArith Lia.
From S2P Require Import Prelude HonkSize HonkSession Str NetAddr Regexes ControlStream.
From stdpp Require Import prelude strings list.
From coqutil Require Import Byte.

Open Scope nat_scope.

(** * Lines *)

(** The lines of some bytes, each ended by CR LF, and what is left after the last of them.
    [cur] is the line so far. *)
Fixpoint lines_from (cur data : bytes) : list str * bytes :=
  match data with
  | [] => ([], cur)
  | b :: rest =>
      match rest with
      | c :: rest' =>
          if bool_decide (b = carriage_return ∧ c = newline)
          then let '(ls, rest_) := lines_from [] rest' in (cur :: ls, rest_)
          else lines_from (cur ++ [b]) rest
      | [] => ([], cur ++ [b])
      end
  end.
Definition lines_of (data : bytes) : list str * bytes := lines_from [] data.

(** The bytes of lines. *)
Definition crlf : bytes := [carriage_return; newline].
Definition unlines (ls : list str) : bytes := concat ((λ l, l ++ crlf) <$> ls).

(** Induction along the pairs of bytes [lines_from] looks at. *)
Lemma lines_ind (Q : bytes → bytes → Prop) :
  (∀ cur, Q cur []) → (∀ cur b, Q cur [b]) →
  (∀ cur rest, Q [] rest → Q cur (carriage_return :: newline :: rest)) →
  (∀ cur b c rest, ¬ (b = carriage_return ∧ c = newline) → Q (cur ++ [b]) (c :: rest) → Q cur (b :: c :: rest)) →
  ∀ data cur, Q cur data.
Proof.
  intros H0 H1 H2 H3 data. assert (∃ n, length data < n) as [n Hn] by (exists (S (length data)); lia).
  revert data Hn. induction n as [|n IH]; intros data Hn cur; [lia|].
  destruct data as [|b [|c rest]]; [apply H0|apply H1|]. simpl in Hn.
  destruct (decide (b = carriage_return ∧ c = newline)) as [[-> ->]|Hne].
  - apply H2, IH. lia.
  - apply H3; [done|]. apply IH. simpl. lia.
Qed.

Lemma lines_from_crlf cur rest :
  lines_from cur (carriage_return :: newline :: rest) =
    (cur :: (lines_of rest).1, (lines_of rest).2).
Proof. simpl. unfold lines_of. by destruct (lines_from [] rest). Qed.

Lemma lines_from_step cur b c rest :
  ¬ (b = carriage_return ∧ c = newline) → lines_from cur (b :: c :: rest) = lines_from (cur ++ [b]) (c :: rest).
Proof. intros Hne. cbn [lines_from]. by rewrite bool_decide_eq_false_2. Qed.

Lemma lines_from_join data cur : unlines (lines_from cur data).1 ++ (lines_from cur data).2 = cur ++ data.
Proof.
  revert data cur. apply lines_ind.
  - intros cur. simpl. by rewrite app_nil_r.
  - done.
  - intros cur rest IH. rewrite lines_from_crlf. unfold lines_of, unlines in *. csimpl.
    rewrite <- !(assoc_L (++)), IH. simpl. done.
  - intros cur b c rest Hne IH. rewrite lines_from_step by done. rewrite IH. by rewrite <- (assoc_L (++)).
Qed.

(** ** Splitting does not depend on how the bytes arrive *)

(** No line end inside, and none across a boundary. *)
Definition clean (l : bytes) : Prop := ∀ i, ¬ (l !! i = Some carriage_return ∧ l !! S i = Some newline).
Definition apart (cur data : bytes) : Prop := ¬ (last cur = Some carriage_return ∧ head data = Some newline).

#[export] Instance clean_dec l : Decision (clean l).
Proof.
  refine (cast_if (decide (Forall (λ i, ¬ (l !! i = Some carriage_return ∧ l !! S i = Some newline))
    (seq 0 (length l))))).
  - intros i Hi. rewrite Forall_forall in f. apply (f i); [|done]. apply elem_of_seq. destruct Hi as [Hi _].
    apply lookup_lt_Some in Hi. lia.
  - intros Hc. apply n, Forall_forall. intros i _. apply Hc.
Defined.

Lemma clean_cons b l : clean (b :: l) → clean l ∧ apart [b] l.
Proof.
  intros Hc. split.
  - intros i Hi. by apply (Hc (S i)).
  - intros [Hb Hl]. apply (Hc 0). split; [done|]. by destruct l.
Qed.

Lemma clean_snoc l b : clean l → apart l [b] → clean (l ++ [b]).
Proof.
  intros Hc Ha i [H1 H2]. apply lookup_app_Some in H2 as [H2|[Hle H2]].
  - rewrite lookup_app_l in H1 by (apply lookup_lt_Some in H2; lia). by apply (Hc i).
  - apply list_lookup_singleton_Some in H2 as [Hi ->]. apply Ha. split; [|done].
    rewrite last_lookup. rewrite lookup_app_l in H1 by lia. replace (pred (length l)) with i by lia. done.
Qed.

Lemma lines_from_app_clean cur pre data :
  clean cur → apart cur data → lines_from pre (cur ++ data) = lines_from (pre ++ cur) data.
Proof.
  revert pre. induction cur as [|b cur IH]; intros pre Hc Ha; [by rewrite app_nil_r|].
  apply clean_cons in Hc as [Hc Hb].
  assert (apart cur data) as Ha'.
  { destruct cur; [by intros [? _]|]. intros Hx. apply Ha. by rewrite last_cons_cons. }
  replace (pre ++ b :: cur) with ((pre ++ [b]) ++ cur) by (by rewrite <- (assoc_L (++))).
  rewrite <- IH by done. simpl app. destruct (cur ++ data) as [|c rest] eqn:Hrest; [done|].
  rewrite lines_from_step; [done|]. intros [-> ->]. destruct cur as [|c' cur]; simpl in Hrest.
  - subst data. by apply Ha.
  - simplify_eq. by apply Hb.
Qed.

Lemma lines_from_app d1 cur d2 :
  clean cur → apart cur (d1 ++ d2) →
  lines_from cur (d1 ++ d2) =
    ((lines_from cur d1).1 ++ (lines_of ((lines_from cur d1).2 ++ d2)).1,
     (lines_of ((lines_from cur d1).2 ++ d2)).2).
Proof.
  revert d1 cur. apply (lines_ind (λ cur d1, clean cur → apart cur (d1 ++ d2) → _)).
  - intros cur Hc Ha. simpl. unfold lines_of. rewrite (lines_from_app_clean cur [] d2) by done.
    simpl. by destruct (lines_from cur d2).
  - intros cur b Hc Ha. cbn [lines_from fst snd]. unfold lines_of. rewrite <- (assoc_L (++)).
    rewrite (lines_from_app_clean cur [] ([b] ++ d2)) by done. apply surjective_pairing.
  - intros cur rest IH Hc Ha. simpl app. rewrite !lines_from_crlf. unfold lines_of in *.
    rewrite IH; [by destruct (lines_from [] rest)|by intros i [? _]|by intros [? _]].
  - intros cur b c rest Hne IH Hc Ha. change ((b :: c :: rest) ++ d2) with (b :: c :: (rest ++ d2)).
    rewrite !lines_from_step by done. apply IH.
    + apply clean_snoc; [done|]. intros [H1 H2]. apply Ha. split; [done|]. simpl in *. done.
    + intros [H1 H2]. rewrite last_snoc in H1. simpl in H2. apply Hne. by simplify_eq.
Qed.

Lemma lines_of_app d1 d2 :
  lines_of (d1 ++ d2) =
    ((lines_of d1).1 ++ (lines_of ((lines_of d1).2 ++ d2)).1, (lines_of ((lines_of d1).2 ++ d2)).2).
Proof. apply lines_from_app; [by intros i [? _]|by intros [? _]]. Qed.

(** ** The loop over the indices *)

Lemma split_lines_spec data rest cur : ∀ i begin lines,
  drop i data = rest → take (i - begin) (drop begin data) = cur → begin ≤ i ≤ length data →
  match split_lines data (seq (S i) (length data - 1 - i)) begin lines with
  | (lines', Some b) =>
      lines' = lines ++ (lines_from cur rest).1 ∧ drop b data = (lines_from cur rest).2
  | (lines', None) =>
      ∃ pre bad post, (lines_from cur rest).1 = pre ++ bad :: post ∧ lines' = lines ++ pre ∧ is_utf8 bad = false
  end.
Proof.
  assert (∀ i b r, drop i data = b :: r → data !! i = Some b ∧ drop (S i) data = r ∧ i < length data) as Hd.
  { intros i b r Hi. assert (data !! i = Some b) as Hb.
    { pose proof (lookup_drop data i 0) as Hx. rewrite Hi, Nat.add_0_r in Hx. done. }
    split; [done|]. split; [|by eapply lookup_lt_Some]. rewrite (drop_S _ _ _ Hb) in Hi. by simplify_eq. }
  assert (∀ i begin b, data !! i = Some b → begin ≤ i →
    take (S i - begin) (drop begin data) = take (i - begin) (drop begin data) ++ [b]) as Ht.
  { intros i begin b Hb Hle. replace (S i - begin) with (S (i - begin)) by lia. apply take_S_r.
    rewrite lookup_drop. by replace (begin + (i - begin)) with i by lia. }
  revert rest cur. refine (lines_ind _ _ _ _ _).
  - intros cur i begin lines Hr Hcur Hle. apply drop_nil_inv in Hr.
    replace (length data - 1 - i) with 0 by lia. simpl. rewrite app_nil_r. split; [done|].
    rewrite <- Hcur. rewrite take_ge; [done|]. rewrite length_drop. lia.
  - intros cur b i begin lines Hr Hcur Hle. apply Hd in Hr as (Hb & Hr & Hlt). apply drop_nil_inv in Hr.
    replace (length data - 1 - i) with 0 by lia. simpl. rewrite app_nil_r. split; [done|].
    rewrite <- Hcur, <- Ht by (done || lia). rewrite take_ge; [done|]. rewrite length_drop. lia.
  - intros cur rest IH i begin lines Hr Hcur Hle. apply Hd in Hr as (Hb & Hr & Hlt).
    apply Hd in Hr as (Hc & Hr & Hlt'). rewrite lines_from_crlf. unfold lines_of.
    replace (length data - 1 - i) with (S (length data - 2 - i)) by lia. cbn [seq split_lines fst snd].
    replace (S i - 1) with i by lia. rewrite bool_decide_eq_true_2 by done. rewrite Hcur.
    destruct (is_utf8 cur) eqn:Hu; [|exists [], cur, (lines_from [] rest).1; by rewrite app_nil_r].
    specialize (IH (S (S i)) (S (S i)) (lines ++ [cur]) Hr).
    rewrite Nat.sub_diag in IH. specialize (IH (take_0 _) ltac:(lia)).
    assert (split_lines data (seq (S (S i)) (length data - 2 - i)) (i + 2) (lines ++ [cur]) =
            split_lines data (seq (S (S (S i))) (length data - 1 - S (S i))) (S (S i)) (lines ++ [cur])) as ->.
    { replace (i + 2) with (S (S i)) by lia. destruct (decide (length data = S (S i))) as [Hl|Hl].
      - by replace (length data - 2 - i) with 0 by lia; replace (length data - 1 - S (S i)) with 0 by lia.
      - replace (length data - 2 - i) with (S (length data - 1 - S (S i))) by lia. cbn [seq split_lines].
        rewrite bool_decide_eq_false_2; [done|]. replace (S (S i) - 1) with (S i) by lia. rewrite Hc. by intros [? _]. }
    destruct (split_lines _ _ _ _) as [lines' [b|]].
    + destruct IH as [-> ->]. split; [|done]. by rewrite <- (assoc_L (++)).
    + destruct IH as (pre & bad & post & -> & -> & Hbad). exists (cur :: pre), bad, post.
      split_and!; [done|by rewrite <- (assoc_L (++))|done].
  - intros cur b c rest Hne IH i begin lines Hr Hcur Hle. apply Hd in Hr as (Hb & Hr & Hlt).
    pose proof (Hd _ _ _ Hr) as (Hc & _ & Hlt'). rewrite lines_from_step by done.
    replace (length data - 1 - i) with (S (length data - 1 - S i)) by lia. cbn [seq split_lines].
    replace (S i - 1) with i by lia. rewrite bool_decide_eq_false_2.
    + apply IH; [done| |lia]. rewrite (Ht i begin b Hb) by lia. by rewrite Hcur.
    + rewrite Hb, Hc. intros [? ?]. apply Hne. by simplify_eq.
Qed.

(** The loop of [read_line] splits its buffer as [lines_of] does, up to a line that is not
    UTF-8. *)
Lemma split_lines_of data lines :
  match split_lines data (seq 1 (length data - 1)) 0 lines with
  | (lines', Some b) => lines' = lines ++ (lines_of data).1 ∧ drop b data = (lines_of data).2
  | (lines', None) =>
      ∃ pre bad post, (lines_of data).1 = pre ++ bad :: post ∧ lines' = lines ++ pre ∧ is_utf8 bad = false
  end.
Proof.
  replace (length data - 1) with (length data - 1 - 0) by lia. apply (split_lines_spec data data []); [done..|lia].
Qed.

Lemma lines_of_line l rest : clean l → lines_of (l ++ crlf ++ rest) = (l :: (lines_of rest).1, (lines_of rest).2).
Proof.
  intros Hl. unfold lines_of at 1. rewrite lines_from_app_clean; [|done|by intros [_ ?]].
  apply lines_from_crlf.
Qed.

Lemma lines_of_unlines ls : Forall clean ls → lines_of (unlines ls) = (ls, []).
Proof.
  induction 1 as [|l ls Hl _ IH]; [done|]. unfold unlines in *. csimpl. rewrite <- (assoc_L (++)).
  by rewrite lines_of_line, IH.
Qed.

(** * [read_line] *)

(** A socket that keeps what it hands out, and has finitely much waiting. *)
Class ControlSocketLaws (W : Type) `{!ControlSocket W} : Type := {
  ctl_received : W → bytes;
  ctl_waiting : W → nat;
  ctl_read_law w got r w' : ctl_read_to_end w = (got, r, w') →
    ctl_received w' = ctl_received w ++ got ∧ ctl_waiting w' + length got ≤ ctl_waiting w;
  ctl_write_law b w r w' : ctl_write_all b w = (r, w') → ctl_received w' = ctl_received w;
}.

Section lines.
Context {W : Type} `{CSL : ControlSocketLaws W} `{RL : RegexLib}.
Implicit Types (self : LegacyControlStream W).

(** The lines handed out so far, those pending, and those in the buffer are the lines of
    what was received. *)
Definition delivered (handed : list str) self : Prop :=
  lines_of (ctl_received (cs_stream self)) =
    (handed ++ cs_pending_lines self ++ (lines_of (cs_pending_data self)).1,
     (lines_of (cs_pending_data self)).2).

(** [read_line] leaves the reply alone. *)
Definition reply_frame self : list str * bool * Regex * Regex * Regex :=
  (cs_pending_reply self, cs_reading_multiline_value self, cs_single_line_data self,
   cs_multi_line_data self, cs_end_reply_line self).

(** What is still to be processed. *)
Definition backlog self : nat :=
  ctl_waiting (cs_stream self) + length (cs_pending_data self) + length (unlines (cs_pending_lines self)).

Lemma delivered_read handed self got w' :
  delivered handed self → ctl_received w' = ctl_received (cs_stream self) ++ got →
  delivered handed (cs_set_data (cs_pending_data self ++ got) (cs_set_stream w' self)).
Proof.
  unfold delivered. destruct self as [w cl data lines reply rd r1 r2 r3]. simpl. intros Hd ->.
  rewrite lines_of_app, Hd. simpl. rewrite (lines_of_app data got). simpl. by rewrite <- !(assoc_L (++)).
Qed.

Lemma delivered_split handed self b :
  cs_pending_lines self = [] → delivered handed self →
  drop b (cs_pending_data self) = (lines_of (cs_pending_data self)).2 →
  delivered handed (cs_set_data (drop b (cs_pending_data self))
    (cs_set_lines ((lines_of (cs_pending_data self)).1) self)).
Proof.
  unfold delivered. destruct self as [w cl data lines reply rd r1 r2 r3]. simpl. intros -> Hd ->. rewrite Hd. simpl.
  assert (lines_of ((lines_of data).2) = ([], (lines_of data).2)) as ->; [|simpl; by rewrite app_nil_r].
  pose proof (lines_of_app data []) as Ha. rewrite !app_nil_r in Ha.
  destruct (lines_of (lines_of data).2) as [l x]. simpl in Ha.
  rewrite (surjective_pairing (lines_of data)) in Ha at 1. injection Ha as H1 H2. f_equal; [|done].
  apply (f_equal length) in H1. rewrite length_app in H1. by destruct l; [|simpl in H1; lia].
Qed.

Lemma unlines_length_split data b :
  drop b data = (lines_of data).2 → length (drop b data) + length (unlines (lines_of data).1) = length data.
Proof.
  intros ->. pose proof (lines_from_join data []) as Hj. apply (f_equal length) in Hj.
  rewrite length_app in Hj. simpl in Hj. unfold lines_of. lia.
Qed.

Lemma unlines_cons_length l ls : length (unlines (l :: ls)) = length l + 2 + length (unlines ls).
Proof. unfold unlines. csimpl. rewrite !length_app. simpl. lia. Qed.

Lemma pop_line_delivers handed self l ls :
  delivered handed self → cs_pending_lines self = l :: ls →
  delivered (handed ++ [l]) (cs_set_lines ls self) ∧
  backlog (cs_set_lines ls self) + length l + 2 = backlog self.
Proof.
  unfold delivered, backlog. destruct self as [w cl data lines reply rd r1 r2 r3]. simpl. intros Hd ->.
  rewrite unlines_cons_length, <- (assoc_L (++)). split; [done|lia].
Qed.

(** What a [read_line] has done: it left the reply alone, received more, and handed out
    the next line if there was one. *)
Definition line_post handed self self' (r : result CSError (option str)) : Prop :=
  reply_frame self' = reply_frame self ∧
  (∃ more, ctl_received (cs_stream self') = ctl_received (cs_stream self) ++ more) ∧
  match r with
  | Ok (Some l) => delivered (handed ++ [l]) self' ∧ backlog self' + length l + 2 ≤ backlog self
  | Ok None | Err ClosedByRemote | Err (CS_ReadFailed _) => delivered handed self' ∧ backlog self' ≤ backlog self
  | Err InvalidResponse =>
      ∃ bad, bad ∈ (lines_of (ctl_received (cs_stream self'))).1 ∧ is_utf8 bad = false
  | Err _ => False
  end.

Lemma line_post_trans handed self self1 self' r :
  reply_frame self1 = reply_frame self →
  (∃ more, ctl_received (cs_stream self1) = ctl_received (cs_stream self) ++ more) →
  backlog self1 ≤ backlog self → line_post handed self1 self' r → line_post handed self self' r.
Proof.
  intros Hf [m1 Hm] Hb (H1 & [m2 H2] & H3). split_and!; [congruence|exists (m1 ++ m2)|].
  - by rewrite H2, Hm, (assoc_L (++)).
  - destruct r as [[l|]|[]]; try done; destruct H3; (split; [done|lia]).
Qed.

(** The buffer is split, and the loop goes on. *)
Lemma split_step_delivers fuel handed self self' r :
  (∀ self, delivered handed self → read_line fuel self = Done (self', r) → line_post handed self self' r) →
  delivered handed self → cs_pending_lines self = [] →
  (let '(lines, begin) := split_lines (cs_pending_data self) (seq 1 (length (cs_pending_data self) - 1)) 0 [] in
   match begin with
   | Some begin => read_line fuel (cs_set_data (drop begin (cs_pending_data self)) (cs_set_lines lines self))
   | None => Done (cs_set_lines lines self, Err InvalidResponse)
   end) = Done (self', r) →
  line_post handed self self' r.
Proof.
  intros IH Hd Hl. pose proof (split_lines_of (cs_pending_data self) []) as Hs.
  destruct (split_lines _ _ _ _) as [lines [b|]].
  - destruct Hs as [-> Hb]. intros Hrl. apply IH in Hrl; [|by apply delivered_split].
    eapply line_post_trans, Hrl; [by destruct self|exists []; rewrite app_nil_r; by destruct self|].
    pose proof (unlines_length_split _ _ Hb) as Hlen. unfold backlog. destruct self; simpl in *. lia.
  - destruct Hs as (pre & bad & post & H1 & -> & H2). intros [= <- <-].
    split_and!; [by destruct self|exists []; rewrite app_nil_r; by destruct self|]. exists bad. split; [|done].
    enough (bad ∈ (lines_of (ctl_received (cs_stream self))).1) by by destruct self.
    unfold delivered in Hd. rewrite Hd, H1. set_solver.
Qed.

(** [read_line] hands out the lines of what was received, in order, each once. *)
Lemma read_line_delivers fuel self self' r handed :
  delivered handed self → read_line fuel self = Done (self', r) → line_post handed self self' r.
Proof.
  revert self. induction fuel as [|fuel IH]; intros self Hd; cbn [read_line].
  all: destruct (cs_pending_lines self) as [|l ls] eqn:Hl;
    [|intros [= <- <-]; destruct (pop_line_delivers _ _ _ _ Hd Hl) as [H1 H2];
      split_and!; [by destruct self|exists []; rewrite app_nil_r; by destruct self|done|lia]].
  { done. }
  destruct (ctl_read_to_end (cs_stream self)) as [[got x] w'] eqn:Hread.
  apply ctl_read_law in Hread as [Hrec Hwait].
  set (self1 := cs_set_data (cs_pending_data self ++ got) (cs_set_stream w' self)).
  assert (delivered handed self1) as Hd1 by by apply delivered_read.
  assert (cs_pending_lines self1 = [] ∧ cs_pending_data self1 = cs_pending_data self ++ got) as [Hl1 Hdata]
    by by destruct self.
  assert (backlog self1 ≤ backlog self) as Hb1.
  { unfold backlog. rewrite Hl1, Hl, Hdata, length_app. unfold self1. destruct self; simpl in *. lia. }
  assert (∀ r, line_post handed self1 self' r → line_post handed self self' r) as Htrans.
  { intros r0. apply line_post_trans; [by destruct self|exists got; by destruct self|done]. }
  assert (∀ c, (∃ more, ctl_received (cs_stream (cs_set_closed c self1)) = ctl_received (cs_stream self1) ++ more) ∧
    reply_frame (cs_set_closed c self1) = reply_frame self1 ∧ delivered handed (cs_set_closed c self1) ∧
    backlog (cs_set_closed c self1) = backlog self1) as Hclosed.
  { intros c. split_and!; [exists []; rewrite app_nil_r|..]; by destruct self1. }
  cbv zeta. fold self1. rewrite Hl1, <- Hdata. intros Hx. apply Htrans. revert Hx.
  pose proof (split_step_delivers fuel handed self1 self' r (λ s, IH s) Hd1 Hl1) as Hgo.
  assert (∃ more, ctl_received (cs_stream self1) = ctl_received (cs_stream self1) ++ more) as Hex
    by (exists []; by rewrite app_nil_r).
  destruct x as [u|k]; repeat case_bool_decide; try exact Hgo; intros [= <- <-].
  - destruct (Hclosed true) as (? & ? & ? & ?). by split_and!; [..|lia].
  - by split_and!.
  - by split_and!.
Qed.

Lemma read_line_no_panic fuel self : read_line fuel self ≠ Panicked.
Proof.
  revert self. induction fuel as [|fuel IH]; intros self; cbn [read_line];
    (destruct (cs_pending_lines self) as [|l ls]; [|done]); [done|].
  destruct (ctl_read_to_end (cs_stream self)) as [[got x] w']. cbv zeta.
  destruct x as [u|k]; repeat case_bool_decide; try done;
    (destruct (split_lines _ _ _ _) as [lines [b|]]; [apply IH|done]).
Qed.

(** With enough fuel it returns. *)
Lemma read_line_returns fuel self :
  ctl_waiting (cs_stream self) < fuel → ∃ self' r, read_line fuel self = Done (self', r).
Proof.
  revert self. induction fuel as [|fuel IH]; intros self Hf; [lia|]. cbn [read_line].
  destruct (cs_pending_lines self) as [|l ls]; [|eauto].
  destruct (ctl_read_to_end (cs_stream self)) as [[got x] w'] eqn:Hread.
  apply ctl_read_law in Hread as [_ Hwait]. cbv zeta.
  assert (length got ≠ 0 → ∃ self' r,
    (let '(lines, begin) := split_lines (cs_pending_data self ++ got)
       (seq 1 (length (cs_pending_data self ++ got) - 1)) 0
       (cs_pending_lines (cs_set_data (cs_pending_data self ++ got) (cs_set_stream w' self))) in
     let self := cs_set_lines lines (cs_set_data (cs_pending_data self ++ got) (cs_set_stream w' self)) in
     match begin with
     | Some begin => read_line fuel (cs_set_data (drop begin (cs_pending_data self)) self)
     | None => Done (self, Err InvalidResponse)
     end) = Done (self', r)) as Hgo.
  { intros Hgot. destruct (split_lines _ _ _ _) as [lines [b|]]; [|eauto]. apply IH. destruct self; simpl in *. lia. }
  replace (cs_pending_data (cs_set_data (cs_pending_data self ++ got) (cs_set_stream w' self)))
    with (cs_pending_data self ++ got) in * by by destruct self.
  destruct x as [u|k]; repeat case_bool_decide; eauto;
    destruct Hgo as (self' & r & Hgo); try done; exists self', r; rewrite <- Hgo;
    destruct (split_lines _ _ _ _) as [lines [b|]]; by destruct self.
Qed.
End lines.
