(* ===== verification/ControlReplies.v ===== *)
(** Replies of the control port: the form the control specification gives them, and that
    [read_reply] reads them back. *)

From Stdlib Require Import ZArith Lia.
From S2P Require Import Prelude HonkSize HonkSession Str NetAddr Regexes ControlStream ControlTheory.
From stdpp Require Import prelude strings list.
From coqutil Require Import Byte.

Open Scope nat_scope.

(** * Replies on the wire *)

(** MidReplyLine and DataReplyLine of the control specification. *)
Inductive WireItem := Single (text : str) | Multi (text : str) (data : list str).
Record WireReply := mkWireReply { wr_code : str; wr_items : list WireItem; wr_last : str }.

Definition item_lines (code : str) (it : WireItem) : list str :=
  match it with
  | Single text => [code ++ hyphen :: text]
  | Multi text data => (code ++ plus_sign :: text) :: data ++ [[dot]]
  end.

(** All lines but the last, and the last. *)
Definition wire_init (w : WireReply) : list str := flat_map (item_lines (wr_code w)) (wr_items w).
Definition wire_end (w : WireReply) : str := wr_code w ++ space :: wr_last w.
Definition wire_lines (w : WireReply) : list str := wire_init w ++ [wire_end w].

(** The text of an item as [read_reply] gives it: data lines on lines of their own. *)
Definition item_text (it : WireItem) : str :=
  match it with
  | Single text => text
  | Multi text data => text ++ flat_map (cons newline) data
  end.

Definition reply_of (w : WireReply) : Reply :=
  mkReply (default 0%Z (parse_u32 (wr_code w))) ((item_text <$> wr_items w) ++ [wr_last w]).

(** The same with the status code still in front. *)
Definition raw_text (code : str) (it : WireItem) : str :=
  code ++ (match it with Single _ => hyphen | Multi _ _ => plus_sign end) :: item_text it.

(** ** Well-formed replies *)

Definition code_ok (code : str) : Prop := length code = 3 ∧ Forall (λ b, is_Some (digit_of b)) code.
Definition text_ok (t : str) : Prop := is_utf8 t = true ∧ clean t.

Section wire.
Context `{RE : ReplyRegexLaws}.

(** A data line must not look like the start of a reply line to [multi_line_data]. *)
Definition data_ok (d : str) : Prop := text_ok d ∧ d ≠ [dot] ∧ three_digits re_digit None d = false.
Definition item_ok (it : WireItem) : Prop :=
  match it with Single t => text_ok t | Multi t data => text_ok t ∧ Forall data_ok data end.
Record wire_ok (w : WireReply) : Prop := {
  wo_code : code_ok (wr_code w);
  wo_items : Forall item_ok (wr_items w);
  wo_last : text_ok (wr_last w);
}.

(** ** Status codes *)

Lemma digit_of_range b d : digit_of b = Some d → (0 ≤ d ≤ 9)%Z ∧ byte.unsigned b = (48 + d)%Z.
Proof.
  unfold digit_of. destruct (Z.leb_spec 48 (byte.unsigned b)), (Z.leb_spec (byte.unsigned b) 57); simplify_eq/=;
    intros; simplify_eq; lia.
Qed.

Lemma code_cases code : code_ok code →
  ∃ b1 b2 b3 d1 d2 d3, code = [b1; b2; b3] ∧ digit_of b1 = Some d1 ∧ digit_of b2 = Some d2 ∧ digit_of b3 = Some d3.
Proof.
  intros [Hl Hf]. destruct code as [|b1 [|b2 [|b3 []]]]; try done.
  apply Forall_cons in Hf as [[d1 H1] [[d2 H2] [[d3 H3] _]%Forall_cons]%Forall_cons].
  by exists b1, b2, b3, d1, d2, d3.
Qed.

Lemma digit_not_continuation b : is_Some (digit_of b) → continuation b = false.
Proof.
  intros [d [Hd Hb]%digit_of_range]. unfold continuation. rewrite Hb.
  by destruct (Z.leb_spec 128 (48 + d)%Z); [lia|].
Qed.

Lemma code_parses code : code_ok code → is_Some (parse_u32 code).
Proof.
  intros (b1 & b2 & b3 & d1 & d2 & d3 & -> & H1 & H2 & H3)%code_cases.
  unfold parse_u32, parse_uint. rewrite bool_decide_eq_false_2.
  - cbn [parse_digits]. rewrite H1, H2, H3. apply digit_of_range in H1, H2, H3. unfold u32_max.
    destruct (Z.leb_spec (((0 * 10 + d1) * 10 + d2) * 10 + d3) 4294967295)%Z; [eauto|lia].
  - intros ->. done.
Qed.

(** The first three bytes of a line with a status code. *)
Lemma slice_code code sep t : code_ok code → continuation sep = false → str_slice (code ++ sep :: t) 0 3 = Some code.
Proof.
  intros (b1 & b2 & b3 & d1 & d2 & d3 & -> & H1 & H2 & H3)%code_cases Hsep.
  unfold str_slice, is_char_boundary. simpl. rewrite (digit_not_continuation b1) by eauto. by rewrite Hsep.
Qed.

(** ** UTF-8 *)

Lemma utf8_ascii_cons b s :
  (byte.unsigned b < 128)%Z → is_utf8 s = true →
  is_utf8 (b :: s) = true ∧ chars (b :: s) = byte.unsigned b :: chars s.
Proof.
  intros Hb [l Hl]%bool_decide_eq_true. unfold is_utf8, chars. cbn [utf8_chars].
  destruct (Z.ltb_spec (byte.unsigned b) 128); [|lia]. by rewrite Hl.
Qed.

Lemma utf8_head b s : is_utf8 (b :: s) = true → continuation b = false.
Proof.
  intros [l Hl]%bool_decide_eq_true. unfold continuation. cbn [utf8_chars] in Hl.
  destruct (Z.ltb_spec (byte.unsigned b) 128); [by destruct (Z.leb_spec 128 (byte.unsigned b)); [lia|]|].
  destruct (Z.ltb_spec (byte.unsigned b) 194); [done|].
  destruct (Z.leb_spec (byte.unsigned b) 191); [lia|]. apply andb_false_r.
Qed.

Lemma digit_ascii b d : digit_of b = Some d → (byte.unsigned b < 128)%Z ∧ re_digit (byte.unsigned b) = true.
Proof.
  intros [Hd Hb]%digit_of_range. split; [lia|]. rewrite re_digit_ascii by lia. rewrite Hb.
  by destruct (Z.leb_spec 48 (48 + d)), (Z.leb_spec (48 + d) 57); try lia.
Qed.

(** A line with a status code is UTF-8, has no line end, and the expressions see its code and
    separator. *)
Lemma code_line code sep t next :
  code_ok code → (byte.unsigned sep < 128)%Z → sep ≠ newline → sep ≠ carriage_return → text_ok t →
  text_ok (code ++ sep :: t) ∧
  three_digits re_digit next (code ++ sep :: t) =
    match next with None => true | Some c => (byte.unsigned sep =? c)%Z end.
Proof.
  intros (b1 & b2 & b3 & d1 & d2 & d3 & -> & H1 & H2 & H3)%code_cases Hsep Hn Hc [Hu Hcl].
  destruct (digit_ascii _ _ H1) as [A1 R1], (digit_ascii _ _ H2) as [A2 R2], (digit_ascii _ _ H3) as [A3 R3].
  destruct (utf8_ascii_cons sep t Hsep Hu) as [U4 C4].
  destruct (utf8_ascii_cons b3 _ A3 U4) as [U3 C3]. destruct (utf8_ascii_cons b2 _ A2 U3) as [U2 C2].
  destruct (utf8_ascii_cons b1 _ A1 U2) as [U1 C1]. split.
  - split; [done|]. assert (∀ b d, digit_of b = Some d → b ≠ carriage_return) as Hd by (intros b d Hb ->; done).
    intros [|[|[|[|i]]]]; simpl; intros [E1 E2]; [..|by apply (Hcl i)]; injection E1 as E1;
      first [by apply (Hd _ _ H1)|by apply (Hd _ _ H2)|by apply (Hd _ _ H3)|done].
  - unfold three_digits. simpl app. rewrite C1, C2, C3, C4, R1, R2, R3. by destruct next.
Qed.

(** * Pushing the lines of a reply *)

Context (single multi end_ : Regex).
Context (Hsingle : ∀ s, re_is_match single s = three_digits re_digit (Some 45%Z) s).
Context (Hmulti : ∀ s, re_is_match multi s = three_digits re_digit None s).
Context (Hend : ∀ s, re_is_match end_ s = three_digits re_digit (Some 32%Z) s).

(** Lines that do not end the reply. *)
Fixpoint push_lines (ls : list str) : M (list str * bool) CSError unit :=
  match ls with
  | [] => mret tt
  | l :: ls => finished ← push_line single multi end_ l; if (finished : bool) then panic else push_lines ls
  end.

Lemma push_lines_app ls ls' st :
  push_lines (ls ++ ls') st =
    match push_lines ls st with Done (st', Ok _) => push_lines ls' st' | o => o end.
Proof.
  revert st. induction ls as [|l ls IH]; intros st; [done|]. simpl. unfold mbind, M_bind.
  destruct (push_line single multi end_ l st) as [[st' [[]|e]]| |]; by try apply IH.
Qed.

(** The reply so far starts with the status code. *)
Definition starts_reply (code : str) (pending : list str) : Prop :=
  match pending with [] => True | first :: _ => str_slice first 0 3 = Some code end.

Lemma status_matches_code code pending sep t :
  code_ok code → continuation sep = false → starts_reply code pending →
  status_matches pending false (code ++ sep :: t) = Done true.
Proof.
  intros Hc Hs Hp. destruct pending as [|first pending]; [done|]. simpl in *.
  rewrite Hp, slice_code by done. by rewrite bool_decide_eq_true_2.
Qed.

Lemma status_matches_reading pending l : status_matches pending true l = Done true.
Proof. by destruct pending. Qed.

Lemma push_single code pending t :
  code_ok code → starts_reply code pending → text_ok t →
  push_line single multi end_ (code ++ hyphen :: t) (pending, false) =
    Done ((pending ++ [code ++ hyphen :: t], false), Ok false).
Proof.
  intros Hc Hp Ht. unfold push_line. rewrite status_matches_code by done. rewrite Hend, Hsingle.
  destruct (code_line code hyphen t (Some 32%Z)) as [_ ->]; [done..|].
  by destruct (code_line code hyphen t (Some 45%Z)) as [_ ->].
Qed.

Lemma push_multi code pending t :
  code_ok code → starts_reply code pending → text_ok t →
  push_line single multi end_ (code ++ plus_sign :: t) (pending, false) =
    Done ((pending ++ [code ++ plus_sign :: t], true), Ok false).
Proof.
  intros Hc Hp Ht. unfold push_line. rewrite status_matches_code by done. rewrite Hend, Hsingle, Hmulti.
  destruct (code_line code plus_sign t (Some 32%Z)) as [_ ->]; [done..|].
  destruct (code_line code plus_sign t (Some 45%Z)) as [_ ->]; [done..|].
  by destruct (code_line code plus_sign t None) as [_ ->].
Qed.

Lemma push_end code pending t :
  code_ok code → starts_reply code pending → text_ok t →
  push_line single multi end_ (code ++ space :: t) (pending, false) =
    Done ((pending ++ [code ++ space :: t], false), Ok true).
Proof.
  intros Hc Hp Ht. unfold push_line. rewrite status_matches_code by done. rewrite Hend.
  by destruct (code_line code space t (Some 32%Z)) as [_ ->].
Qed.

(** Three digits and a separator are three digits. *)
Lemma three_digits_weaken c s : three_digits re_digit None s = false → three_digits re_digit (Some c) s = false.
Proof.
  unfold three_digits. destruct (chars s) as [|c1 [|c2 [|c3 rest]]]; try done.
  rewrite andb_true_r. by intros ->.
Qed.

Lemma push_data pending x d :
  data_ok d → push_line single multi end_ d (pending ++ [x], true) =
    Done ((pending ++ [x ++ newline :: d], true), Ok false).
Proof.
  intros ([Hu Hcl] & Hdot & Hdig). unfold push_line.
  rewrite status_matches_reading, Hend, Hsingle, Hmulti, !three_digits_weaken, Hdig by done. simpl.
  rewrite bool_decide_eq_false_2 by done. rewrite last_snoc, length_app, Nat.add_sub, take_app_length. done.
Qed.

Lemma push_datas pending x data :
  Forall data_ok data → push_lines data (pending ++ [x], true) =
    Done ((pending ++ [x ++ flat_map (cons newline) data], true), Ok tt).
Proof.
  intros Hd. revert x. induction Hd as [|d data Hd _ IH]; intros x; simpl; [by rewrite app_nil_r|].
  unfold mbind, M_bind. rewrite push_data by done. rewrite IH. by rewrite <- (assoc_L (++)).
Qed.

Lemma push_dot pending x :
  push_line single multi end_ [dot] (pending ++ [x], true) = Done ((pending ++ [x], false), Ok false).
Proof.
  unfold push_line. rewrite status_matches_reading, Hend, Hsingle, Hmulti. done.
Qed.

Lemma push_item code pending it :
  code_ok code → starts_reply code pending → item_ok it →
  push_lines (item_lines code it) (pending, false) = Done ((pending ++ [raw_text code it], false), Ok tt).
Proof.
  intros Hc Hp Hi. destruct it as [t|t data]; simpl; unfold mbind, M_bind.
  - by rewrite push_single.
  - destruct Hi as [Ht Hd]. rewrite push_multi by done. rewrite push_lines_app, push_datas by done.
    simpl. unfold mbind, M_bind. rewrite push_dot. unfold raw_text. simpl. by rewrite <- (assoc_L (++)).
Qed.

Lemma starts_reply_snoc code pending it :
  code_ok code → starts_reply code pending → starts_reply code (pending ++ [raw_text code it]).
Proof.
  intros Hc Hp. destruct pending; simpl; [|done]. apply slice_code; [done|]. by destruct it.
Qed.

Lemma push_items code items pending :
  code_ok code → starts_reply code pending → Forall item_ok items →
  push_lines (flat_map (item_lines code) items) (pending, false) =
    Done ((pending ++ (raw_text code <$> items), false), Ok tt) ∧
  starts_reply code (pending ++ (raw_text code <$> items)).
Proof.
  intros Hc Hp Hi. revert pending Hp. induction Hi as [|it items Hit _ IH]; intros pending Hp; csimpl;
    [by rewrite app_nil_r|].
  rewrite push_lines_app, push_item by done.
  destruct (IH (pending ++ [raw_text code it])) as [H1 H2]; [by apply starts_reply_snoc|].
  rewrite H1. rewrite <- (assoc_L (++)) in *. done.
Qed.

(** ** Taking the reply *)

(** A place where a string can be cut. *)
Definition cut_ok (t : str) : Prop := match t with [] => True | b :: _ => continuation b = false end.

Lemma text_cut t : text_ok t → cut_ok t.
Proof. intros [Hu _]. destruct t; [done|]. by eapply utf8_head. Qed.

Lemma item_cut it : item_ok it → cut_ok (item_text it).
Proof.
  destruct it as [t|t data]; simpl; [apply text_cut|]. intros [Ht _]. apply text_cut in Ht.
  destruct t; [|done]. by destruct data.
Qed.

Lemma strip_line code sep t :
  code_ok code → cut_ok t →
  str_starts_with (code ++ sep :: t) code = true ∧
  str_slice (code ++ sep :: t) 4 (length (code ++ sep :: t)) = Some t.
Proof.
  intros (b1 & b2 & b3 & d1 & d2 & d3 & -> & _ & _ & _)%code_cases Ht. split.
  - by apply bool_decide_eq_true.
  - unfold str_slice, is_char_boundary. simpl app. cbn [length].
    rewrite (bool_decide_eq_true_2 (4 ≤ _)) by lia.
    rewrite (bool_decide_eq_true_2 (S (S (S (S (length t)))) = _)) by done.
    replace (S (S (S (S (length t)))) - 4) with (length t) by lia. simpl drop. rewrite firstn_all.
    destruct t as [|b t]; [done|]. simpl in *. by rewrite Ht.
Qed.

Lemma strip_items code items last_ :
  code_ok code → Forall item_ok items → text_ok last_ →
  strip_codes code ((raw_text code <$> items) ++ [code ++ space :: last_]) =
    Some ((item_text <$> items) ++ [last_]).
Proof.
  intros Hc Hi Hl. induction Hi as [|it items Hit _ IH]; csimpl.
  - destruct (strip_line code space last_ Hc (text_cut _ Hl)) as [-> ->]. done.
  - destruct (strip_line code (match it with Single _ => hyphen | Multi _ _ => plus_sign end) (item_text it) Hc (item_cut _ Hit))
      as [H1 H2].
    unfold raw_text at 1 2 3. by rewrite H1, H2, IH.
Qed.

Lemma take_reply_of w :
  wire_ok w →
  take_reply ((raw_text (wr_code w) <$> wr_items w) ++ [wire_end w], false) = Done (([], false), Ok (Some (reply_of w))).
Proof.
  intros [Hc Hi Hl]. unfold take_reply.
  assert (∃ first rest, (raw_text (wr_code w) <$> wr_items w) ++ [wire_end w] = first :: rest ∧
    str_slice first 0 3 = Some (wr_code w)) as (first & rest & Hf & Hs).
  { destruct (wr_items w) as [|it items]; csimpl; eexists _, _; (split; [done|]);
      apply slice_code; try done. by destruct it. }
  rewrite Hf, Hs. destruct (code_parses _ Hc) as [n Hn]. rewrite Hn, <- Hf.
  unfold wire_end. rewrite strip_items by done. unfold reply_of. by rewrite Hn.
Qed.

(** A whole reply: its lines but the last leave it pending, the last completes it. *)
Lemma push_reply w :
  wire_ok w →
  push_lines (wire_init w) ([], false) = Done ((raw_text (wr_code w) <$> wr_items w, false), Ok tt) ∧
  push_line single multi end_ (wire_end w) (raw_text (wr_code w) <$> wr_items w, false) =
    Done (((raw_text (wr_code w) <$> wr_items w) ++ [wire_end w], false), Ok true).
Proof.
  intros [Hc Hi Hl]. destruct (push_items (wr_code w) (wr_items w) [] Hc I Hi) as [H1 H2]. split; [done|].
  by apply push_end.
Qed.

(** ** The lines of replies *)

Lemma item_lines_ok code it : code_ok code → item_ok it → Forall text_ok (item_lines code it).
Proof.
  intros Hc Hi. destruct it as [t|t data]; simpl.
  - constructor; [|done]. by apply (code_line code hyphen t None).
  - destruct Hi as [Ht Hd]. constructor; [by apply (code_line code plus_sign t None)|].
    apply Forall_app. split; [eapply Forall_impl; [exact Hd|]; by intros d []|].
    constructor; [|done]. split; [done|]. intros [|i] [? Hx]; [done|]. by destruct i.
Qed.

Lemma wire_lines_ok w : wire_ok w → Forall text_ok (wire_lines w).
Proof.
  intros [Hc Hi Hl]. apply Forall_app. split.
  - unfold wire_init. induction Hi as [|it items Hit _ IH]; simpl; [done|].
    apply Forall_app. split; [by apply item_lines_ok|done].
  - constructor; [|done]. by apply (code_line (wr_code w) space (wr_last w) None).
Qed.

(** A prefix of the lines of some replies that leaves a reply pending is a prefix of the
    first of them, without its last line. *)
Lemma pending_prefix rs ls rest st :
  Forall wire_ok rs → ls ++ rest = concat (wire_lines <$> rs) → push_lines ls ([], false) = Done (st, Ok tt) →
  match rs with
  | [] => ls = [] ∧ rest = []
  | w :: rs => ∃ more, wire_init w = ls ++ more ∧ rest = more ++ wire_end w :: concat (wire_lines <$> rs)
  end.
Proof.
  intros Hrs Hls Hp. destruct Hrs as [|w rs Hw Hrs]; [by apply app_eq_nil in Hls|].
  csimpl in Hls. unfold wire_lines at 1 in Hls. rewrite <- (assoc_L (++)) in Hls. simpl in Hls.
  apply app_eq_app in Hls as [more [[H1 H2]|[H1 H2]]]; [|by exists more].
  destruct more as [|l more].
  { exists []. rewrite app_nil_r in *. by subst. }
  (* the last line would have been pushed *)
  simpl in H2. injection H2 as <- H2. destruct (push_reply w Hw) as [P1 P2].
  rewrite H1, push_lines_app, P1 in Hp. simpl in Hp. unfold mbind, M_bind in Hp. by rewrite P2 in Hp.
Qed.

(** The next line of a pending reply. *)
Lemma push_next rs ls l rest st :
  Forall wire_ok rs → ls ++ l :: rest = concat (wire_lines <$> rs) → push_lines ls ([], false) = Done (st, Ok tt) →
  ∃ w rs', rs = w :: rs' ∧
  ((∃ st', push_line single multi end_ l st = Done (st', Ok false) ∧
           push_lines (ls ++ [l]) ([], false) = Done (st', Ok tt)) ∨
   (∃ st', push_line single multi end_ l st = Done (st', Ok true) ∧
           take_reply st' = Done (([], false), Ok (Some (reply_of w))) ∧ rest = concat (wire_lines <$> rs'))).
Proof.
  intros Hrs Hls Hp. pose proof (pending_prefix _ _ _ _ Hrs Hls Hp) as Hpre.
  destruct rs as [|w rs]; [by destruct Hpre|]. exists w, rs. split; [done|].
  apply Forall_cons in Hrs as [Hw Hrs]. destruct (push_reply w Hw) as [P1 P2].
  destruct Hpre as (more & Hinit & Hrest). destruct more as [|l' more]; simpl in Hrest; injection Hrest as -> ->.
  - rewrite app_nil_r in Hinit. subst ls. rewrite P1 in Hp. injection Hp as <-. right.
    eexists. split; [exact P2|]. split; [by apply take_reply_of|done].
  - left. rewrite Hinit in P1. replace (ls ++ l' :: more) with ((ls ++ [l']) ++ more) in P1 by (by rewrite <- (assoc_L (++))).
    rewrite push_lines_app in P1. destruct (push_lines (ls ++ [l']) ([], false)) as [[st' [[]|e]]| |] eqn:Hl'; [|done..].
    exists st'. split; [|done]. rewrite push_lines_app, Hp in Hl'. simpl in Hl'. unfold mbind, M_bind in Hl'.
    destruct (push_line single multi end_ l' st) as [[st1 [[]|e]]| |]; [done| |done..]. by injection Hl' as <-.
Qed.
End wire.

(** * [read_reply] *)

Section reading.
Context {W : Type} `{CSL : ControlSocketLaws W} `{RE : ReplyRegexLaws}.
Implicit Types (self : LegacyControlStream W).

Definition read_step (w w' : W) : Prop := ∃ got r, ctl_read_to_end w = (got, r, w').

(** Whatever is read from the socket, it belongs to [wire]. *)
Definition sends (wire : bytes) (w : W) : Prop := ∀ w', rtc read_step w w' → ctl_received w' `prefix_of` wire.

Lemma sends_reads wire w w' : sends wire w → rtc read_step w w' → sends wire w'.
Proof. intros Hs Hr w'' Hr'. apply Hs. by trans w'. Qed.

Lemma read_line_reads fuel self self' r :
  read_line fuel self = Done (self', r) → rtc read_step (cs_stream self) (cs_stream self').
Proof.
  revert self. induction fuel as [|fuel IH]; intros self; cbn [read_line];
    (destruct (cs_pending_lines self) as [|l ls]; [|intros [= <- <-]; by destruct self]); [done|].
  destruct (ctl_read_to_end (cs_stream self)) as [[got x] w'] eqn:Hread. cbv zeta.
  assert (read_step (cs_stream self) w') as Hstep by by exists got, x.
  assert (∀ s, cs_stream s = w' → rtc read_step (cs_stream self) (cs_stream s)) as Hone.
  { intros s ->. by apply rtc_once. }
  assert (∀ s, cs_stream s = w' → read_line fuel s = Done (self', r) → rtc read_step (cs_stream self) (cs_stream self')) as Hgo.
  { intros s Hs Hr. eapply rtc_l; [exact Hstep|]. rewrite <- Hs. by apply IH. }
  destruct x as [u|k]; repeat case_bool_decide; try (intros [= <- <-]; apply Hone; by destruct self);
    (destruct (split_lines _ _ _ _) as [lines [b|]];
      [apply Hgo; by destruct self|intros [= <- <-]; apply Hone; by destruct self]).
Qed.

Lemma lines_prefix b ls : Forall clean ls → b `prefix_of` unlines ls → (lines_of b).1 `prefix_of` ls.
Proof.
  intros Hc [more Hm]. apply lines_of_unlines in Hc. rewrite Hm, lines_of_app in Hc.
  injection Hc as Hc _. by eexists.
Qed.

Record regexes_ok self : Prop := {
  ro_single s : re_is_match (cs_single_line_data self) s = three_digits re_digit (Some 45%Z) s;
  ro_multi s : re_is_match (cs_multi_line_data self) s = three_digits re_digit None s;
  ro_end s : re_is_match (cs_end_reply_line self) s = three_digits re_digit (Some 32%Z) s;
}.

Definition wire_of (rs : list WireReply) : list str := concat (wire_lines <$> rs).

Lemma wire_of_ok rs : Forall wire_ok rs → Forall text_ok (wire_of rs).
Proof.
  induction 1 as [|w rs Hw _ IH]; [constructor|]. apply Forall_app. split; [by apply wire_lines_ok|done].
Qed.

(** Tor sends the replies [rs]; [n] of them were read, and the lines of the next that
    were handed out are pending. *)
Record following (rs : list WireReply) (n : nat) self : Prop := {
  fo_regexes : regexes_ok self;
  fo_sends : sends (unlines (wire_of rs)) (cs_stream self);
  fo_lines : ∃ ls rest, ls ++ rest = wire_of (drop n rs) ∧ delivered (wire_of (take n rs) ++ ls) self ∧
    push_lines (cs_single_line_data self) (cs_multi_line_data self) (cs_end_reply_line self) ls ([], false) =
      Done ((cs_pending_reply self, cs_reading_multiline_value self), Ok tt);
}.

(** What a [read_reply] may do while it is following: it never panics, and only a short
    supply of fuel stops it. *)
Definition reply_post rs n fuel self (o : outcome (LegacyControlStream W * result CSError (option Reply))) : Prop :=
  match o with
  | Done (self', Ok (Some reply)) =>
      (∃ w, rs !! n = Some w ∧ reply = reply_of w) ∧ following rs (S n) self' ∧ backlog self' < backlog self
  | Done (self', Ok None) => following rs n self' ∧ backlog self' ≤ backlog self
  | Done (self', Err e) => (e = ClosedByRemote ∨ ∃ kind, e = CS_ReadFailed kind) ∧ following rs n self'
  | Panicked => False
  | OutOfFuel => fuel ≤ backlog self
  end.

Lemma wire_of_split rs n : wire_of rs = wire_of (take n rs) ++ wire_of (drop n rs).
Proof. unfold wire_of. by rewrite <- concat_app, <- fmap_app, take_drop. Qed.

(** The frame of [read_line] keeps what [following] says of the reply. *)
Lemma following_frame rs n self self' ls rest :
  following rs n self → reply_frame self' = reply_frame self →
  rtc read_step (cs_stream self) (cs_stream self') → ls ++ rest = wire_of (drop n rs) →
  push_lines (cs_single_line_data self) (cs_multi_line_data self) (cs_end_reply_line self) ls ([], false) =
      Done ((cs_pending_reply self, cs_reading_multiline_value self), Ok tt) →
  delivered (wire_of (take n rs) ++ ls) self' → following rs n self'.
Proof.
  intros [Hre Hs _] Hf Hr Hls Hp Hd. unfold reply_frame in Hf. injection Hf as E1 E2 E3 E4 E5. split.
  - destruct Hre. split; by rewrite ?E3, ?E4, ?E5.
  - by eapply sends_reads.
  - exists ls, rest. by rewrite E1, E2, E3, E4, E5.
Qed.

(** The line that was handed out is the next one. *)
Lemma next_line rs n self ls rest l :
  Forall wire_ok rs → sends (unlines (wire_of rs)) (cs_stream self) → ls ++ rest = wire_of (drop n rs) →
  delivered ((wire_of (take n rs) ++ ls) ++ [l]) self → ∃ rest', rest = l :: rest'.
Proof.
  intros Hrs Hs Hls Hd. assert (Forall clean (wire_of rs)) as Hc.
  { eapply Forall_impl; [by apply wire_of_ok|]. by intros t []. }
  pose proof (lines_prefix _ _ Hc (Hs _ (rtc_refl _ _))) as [more Hm]. unfold delivered in Hd. rewrite Hd in Hm.
  simpl in Hm. rewrite (wire_of_split rs n), <- Hls, <- !(assoc_L (++)) in Hm.
  apply app_inv_head, app_inv_head in Hm. by eexists.
Qed.

Lemma no_invalid_line rs self bad :
  Forall wire_ok rs → sends (unlines (wire_of rs)) (cs_stream self) →
  bad ∈ (lines_of (ctl_received (cs_stream self))).1 → is_utf8 bad = false → False.
Proof.
  intros Hrs Hs Hin Hu. apply wire_of_ok in Hrs.
  assert (Forall clean (wire_of rs)) as Hc by (eapply Forall_impl; [done|]; by intros t []).
  pose proof (lines_prefix _ _ Hc (Hs _ (rtc_refl _ _))) as [more Hm].
  rewrite Forall_forall in Hrs. destruct (Hrs bad) as [Hu' _]; [|congruence].
  rewrite Hm. apply elem_of_app. by left.
Qed.

Lemma on_reply_push self l st r :
  push_line (cs_single_line_data self) (cs_multi_line_data self) (cs_end_reply_line self) l
    (cs_pending_reply self, cs_reading_multiline_value self) = Done (st, r) →
  on_reply (λ self, push_line (cs_single_line_data self) (cs_multi_line_data self) (cs_end_reply_line self) l) self =
    Done (cs_set_reading st.2 (cs_set_reply st.1 self), r).
Proof. unfold on_reply. intros ->. by destruct st. Qed.

Lemma on_reply_take self pr rd r :
  take_reply (pr, rd) = Done (([], false), r) →
  on_reply (λ _, take_reply) (cs_set_reading rd (cs_set_reply pr self)) =
    Done (cs_set_reading false (cs_set_reply [] self), r).
Proof.
  intros Ht. unfold on_reply. set (s := cs_set_reading rd (cs_set_reply pr self)).
  assert (cs_pending_reply s = pr ∧ cs_reading_multiline_value s = rd) as [-> ->] by by destruct self.
  rewrite Ht. by destruct self.
Qed.

(** After the last line of a reply, the next one is followed. *)
Lemma following_next rs n self w ls l :
  rs !! n = Some w → regexes_ok self → sends (unlines (wire_of rs)) (cs_stream self) →
  delivered ((wire_of (take n rs) ++ ls) ++ [l]) self →
  ls ++ l :: wire_of (drop (S n) rs) = wire_of (drop n rs) →
  cs_pending_reply self = [] ∧ cs_reading_multiline_value self = false → following rs (S n) self.
Proof.
  intros Hn Hre Hs Hd Hls [Hp Hr]. split; [done..|]. exists [], (wire_of (drop (S n) rs)).
  split; [done|]. rewrite Hp, Hr. split; [|done]. rewrite app_nil_r.
  assert (wire_of (take (S n) rs) = wire_of (take n rs) ++ ls ++ [l]) as ->; [|by rewrite (assoc_L (++))].
  rewrite (take_S_r _ _ _ Hn). unfold wire_of in *. rewrite fmap_app, concat_app. csimpl. rewrite app_nil_r. f_equal.
  rewrite (drop_S _ _ _ Hn) in Hls. csimpl in Hls.
  apply (app_inv_tail (concat (wire_lines <$> drop (S n) rs))). rewrite <- Hls. by rewrite <- (assoc_L (++)).
Qed.

Lemma reply_post_mono rs n fuel self self1 o :
  backlog self1 < backlog self → reply_post rs n fuel self1 o → reply_post rs n (S fuel) self o.
Proof.
  intros Hb. destruct o as [[self' [[reply|]|e]]| |]; simpl; [|..|lia]; try done; intros; destruct_and!; split_and!; try done; lia.
Qed.

Lemma read_reply_follows rs n fuel self :
  Forall wire_ok rs → following rs n self → reply_post rs n fuel self (read_reply fuel self).
Proof.
  intros Hrs. revert self. induction fuel as [|fuel IH]; intros self Hfo; [simpl; lia|].
  cbn [read_reply]. unfold mbind at 1, M_bind at 1.
  destruct (read_line (S fuel) self) as [[self1 r]| |] eqn:Hrl;
    [|by apply read_line_no_panic in Hrl|].
  2: { destruct (decide (ctl_waiting (cs_stream self) < S fuel)) as [Hw|Hw]; [|simpl; unfold backlog; lia].
       apply read_line_returns in Hw as (self' & r' & Hw). congruence. }
  pose proof (read_line_reads _ _ _ _ Hrl) as Hreads. destruct (fo_lines _ _ _ Hfo) as (ls & rest & Hls & Hd & Hp).
  destruct (read_line_delivers _ _ _ _ _ Hd Hrl) as (Hf & _ & Hpost).
  pose proof (sends_reads _ _ _ (fo_sends _ _ _ Hfo) Hreads) as Hs1.
  assert (delivered (wire_of (take n rs) ++ ls) self1 → following rs n self1) as Hsame.
  { intros Hd1. by eapply following_frame. }
  destruct r as [[l|]|e].
  2: { destruct Hpost. split; [by apply Hsame|done]. }
  2: { destruct e; try done; try (split; [eauto|by apply Hsame, Hpost]).
       destruct Hpost as (bad & Hin & Hu). exfalso. by eapply no_invalid_line. }
  destruct Hpost as [Hd1 Hb1]. destruct (next_line _ _ _ _ _ _ Hrs Hs1 Hls Hd1) as [rest' ->].
  pose proof (Forall_drop _ n _ Hrs) as Hdrop. destruct (fo_regexes _ _ _ Hfo) as [R1 R2 R3].
  destruct (push_next _ _ _ R1 R2 R3 _ _ _ _ _ Hdrop Hls Hp) as (w & rs' & Hw & Hcase).
  assert (rs !! n = Some w ∧ drop (S n) rs = rs') as [Hn Hdn].
  { assert (rs !! n = Some w) as Hn by (rewrite <- (Nat.add_0_r n), <- lookup_drop, Hw; done).
    split; [done|]. rewrite (drop_S _ _ _ Hn) in Hw. by injection Hw. }
  unfold reply_frame in Hf. injection Hf as E1 E2 E3 E4 E5. unfold mbind, M_bind.
  rewrite <- E1, <- E2, <- E3, <- E4, <- E5 in *. destruct Hcase as [(st & Hpl & Hpl')|(st & Hpl & Htake & Hrest)].
  - rewrite (on_reply_push _ _ _ _ Hpl).
    set (self2 := cs_set_reading st.2 (cs_set_reply st.1 self1)).
    assert (cs_stream self2 = cs_stream self1 ∧ backlog self2 = backlog self1) as [Es Eb] by by destruct self1.
    eapply reply_post_mono; [|apply IH]; [lia|]. split.
    + destruct self1; by split.
    + by rewrite Es.
    + exists (ls ++ [l]), rest'. split; [by rewrite <- (assoc_L (++))|]. rewrite (assoc_L (++)) in *.
      destruct st, self1; by split.
  - rewrite (on_reply_push _ _ _ _ Hpl). destruct st as [pr rd]. rewrite (on_reply_take _ _ _ _ Htake).
    split; [by exists w|]. split; [|destruct self1; unfold backlog in *; simpl in *; lia].
    eapply (following_next rs n _ w ls l); [done|destruct self1; by split|by destruct self1..| |by destruct self1].
    rewrite Hdn. unfold wire_of at 1. by rewrite <- Hrest.
Qed.
End reading.
