(* ===== verification/TorController.v ===== *)
(** tor-interface/src/legacy_tor_controller.rs: the commands of tor's control port, their
    replies, and the events tor sends in between. *)

From Stdlib Require Import ZArith Lia.
From S2P Require Import Prelude HonkSize HonkSession Str NetAddr Regexes Crypto TorCrypto TorVersion ControlStream.
From stdpp Require Import prelude strings list.
From coqutil Require Import Byte.

Open Scope nat_scope.

(** [legacy_tor_controller::Error]; texts are left out. *)
Inductive TCError :=
| TC_ParsingRegexCreationFailed
| ReadReplyFailed (err : CSError)
| UnexpectedSynchonousReplyReceived
| WriteCommandFailed (err : CSError)
| InvalidCommandArguments
| CommandFailed (code : Z) (lines : list str)
| CommandReplyParseFailed
| TorVersionParseFailed (err : VersionError).

Record AddOnionFlags := mkAddOnionFlags {
  discard_pk : bool;
  detach : bool;
  v3_auth : bool;
  non_anonymous : bool;
  max_streams_close_circuit : bool;
}.
Record OnionClientAuthAddFlags := mkOnionClientAuthAddFlags { permanent : bool }.

(** [quoted_string] *)
Definition quoted_string (string : str) : str :=
  replace_byte dquote [backslash; dquote] (replace_byte backslash [backslash; backslash] string).

Definition quote (s : str) : str := [dquote] ++ s ++ [dquote].

Section controller.
Context `{CL : CryptoLib} {W : Type} `{!ControlSocket W} `{RL : RegexLib}.

Inductive AsyncEvent :=
| AE_Unknown (lines : list str)
| AE_StatusClient (severity action : str) (arguments : list (str * str))
| AE_HsDesc (action : str) (hs_address : V3OnionServiceId).

Record LegacyTorController := mkLegacyTorController {
  tc_control_stream : LegacyControlStream W;
  tc_async_replies : list Reply;
  tc_status_event_pattern : Regex;
  tc_status_event_argument_pattern : Regex;
  tc_hs_desc_pattern : Regex;
}.
Definition tc_set_stream v s := let 'mkLegacyTorController _ x1 x2 x3 x4 := s in mkLegacyTorController v x1 x2 x3 x4.
Definition tc_set_async v s := let 'mkLegacyTorController x0 _ x2 x3 x4 := s in mkLegacyTorController x0 v x2 x3 x4.

Abbreviation TC_ := (M LegacyTorController TCError).

(** [LegacyTorController::new] *)
Definition controller_new (control_stream : LegacyControlStream W) : result TCError LegacyTorController :=
  match re_new status_event_pattern, re_new status_event_argument_pattern, re_new hs_desc_pattern with
  | Some status, Some argument, Some hs_desc => Ok (mkLegacyTorController control_stream [] status argument hs_desc)
  | _, _, _ => Err TC_ParsingRegexCreationFailed
  end.

(** A method of the control stream with its error mapped. *)
Definition on_control_stream {A} (f : CSError → TCError) (m : M (LegacyControlStream W) CSError A) : TC_ A := λ self,
  match m (tc_control_stream self) with
  | Done (s, r) => Done (tc_set_stream s self, map_err f r)
  | Panicked => Panicked
  | OutOfFuel => OutOfFuel
  end.

(** * Events *)

(** The loop of [wait_async_replies]. *)
Fixpoint read_replies (fuel : nat) (replies : list Reply) : TC_ (list Reply) :=
  match fuel with
  | O => diverge
  | S fuel' =>
      reply ← on_control_stream ReadReplyFailed (read_reply fuel);
      match reply with
      | Some reply => read_replies fuel' (replies ++ [reply])
      | None => mret replies
      end
  end.

(** [wait_async_replies] *)
Definition wait_async_replies (fuel : nat) : TC_ (list Reply) :=
  replies ← gets tc_async_replies;
  _ ← modify (tc_set_async []);
  read_replies fuel replies.

(** The key and value of an argument of a status event; [None] is a panic. *)
Definition event_argument (caps : list (string * str)) : option (str * str) :=
  match group caps "key", group caps "value" with
  | Some key, Some value =>
      if starts_with_byte value dquote && ends_with_byte value dquote then
        match str_slice value 1 (length value - 1) with Some value => Some (key, value) | None => None end
      else Some (key, value)
  | _, _ => None
  end.

Fixpoint event_arguments (l : list (list (string * str))) : option (list (str * str)) :=
  match l with
  | [] => Some []
  | caps :: l =>
      match event_argument caps, event_arguments l with
      | Some a, Some args => Some (a :: args)
      | _, _ => None
      end
  end.

(** [reply_to_event]: what it returns; the lines of a reply that becomes [AE_Unknown] are moved *)
Definition reply_to_event (self : LegacyTorController) (reply : Reply) : outcome (result TCError AsyncEvent) :=
  if negb (status_code reply =? 650)%Z then Done (Err UnexpectedSynchonousReplyReceived)
  else
    let reply_text := str_join [space] (reply_lines reply) in
    match re_captures (tc_status_event_pattern self) reply_text with
    | Some caps =>
        match group caps "severity", group caps "action",
              event_arguments (re_captures_iter (tc_status_event_argument_pattern self) reply_text) with
        | Some severity, Some action, Some arguments => Done (Ok (AE_StatusClient severity action arguments))
        | _, _, _ => Panicked
        end
    | None =>
        match re_captures (tc_hs_desc_pattern self) reply_text with
        | Some caps =>
            match group caps "action", group caps "hsaddress" with
            | Some action, Some hs_address =>
                match service_id_from_string (String.string_of_list_byte hs_address) with
                | Ok hs_address => Done (Ok (AE_HsDesc action hs_address))
                | Err _ => Done (Ok (AE_Unknown (reply_lines reply)))
                end
            | _, _ => Panicked
            end
        | None => Done (Ok (AE_Unknown (reply_lines reply)))
        end
    end.

(** The loop of [wait_async_events]. *)
Fixpoint replies_to_events (replies : list Reply) : TC_ (list AsyncEvent) := λ self,
  match replies with
  | [] => Done (self, Ok [])
  | reply :: replies =>
      match reply_to_event self reply with
      | Done (Ok event) =>
          match replies_to_events replies self with
          | Done (self, Ok events) => Done (self, Ok (event :: events))
          | o => o
          end
      | Done (Err e) => Done (self, Err e)
      | Panicked => Panicked
      | OutOfFuel => OutOfFuel
      end
  end.

(** [wait_async_events] *)
Definition wait_async_events (fuel : nat) : TC_ (list AsyncEvent) :=
  async_replies ← wait_async_replies fuel;
  replies_to_events async_replies.

(** * Commands *)

(** [wait_sync_reply]: it goes on reading when nothing has arrived yet. *)
Fixpoint wait_sync_reply (fuel : nat) : TC_ Reply :=
  match fuel with
  | O => diverge
  | S fuel' =>
      reply ← on_control_stream ReadReplyFailed (read_reply fuel);
      match reply with
      | Some reply =>
          if (status_code reply =? 650)%Z then
            _ ← modify (λ self, tc_set_async (tc_async_replies self ++ [reply]) self);
            wait_sync_reply fuel'
          else mret reply
      | None => wait_sync_reply fuel'
      end
  end.

(** [write_command] *)
Definition write_command (fuel : nat) (text : str) : TC_ Reply :=
  _ ← on_control_stream WriteCommandFailed (cs_write text);
  wait_sync_reply fuel.

(** The texts of the commands. *)
Definition setconf_text (key_values : list (str * str)) : str :=
  str_join [space] (lit "SETCONF" ::
    ((λ '(key, value), key ++ [equals] ++ quote (quoted_string (trim value))) <$> key_values)).

Definition add_onion_text (key : option Ed25519PrivateKey) (flags : AddOnionFlags) (max_streams : option Z)
    (virt_port : Z) (target : option SocketAddr) (client_auth : option (list X25519PublicKey)) : str :=
  let flag_buffer :=
    (if discard_pk flags then [lit "DiscardPK"] else []) ++
    (if detach flags then [lit "Detach"] else []) ++
    (if v3_auth flags then [lit "V3Auth"] else []) ++
    (if non_anonymous flags then [lit "NonAnonymous"] else []) ++
    (if max_streams_close_circuit flags then [lit "MaxStreamsCloseCircuit"] else []) in
  str_join [space] (
    [lit "ADD_ONION"] ++
    [match key with Some key => to_key_blob key | None => lit "NEW:ED25519-V3" end] ++
    (if bool_decide (flag_buffer = []) then [] else [lit "Flags=" ++ str_join (lit ",") flag_buffer]) ++
    match max_streams with Some n => [lit "MaxStreams=" ++ show_uint n] | None => [] end ++
    [match target with
     | Some target => lit "Port=" ++ show_uint virt_port ++ lit "," ++ socket_addr_to_string target
     | None => lit "Port=" ++ show_uint virt_port
     end] ++
    match client_auth with
    | Some keys => (λ key, lit "ClientAuthV3=" ++ x25519_to_base32 key) <$> keys
    | None => []
    end).

Definition onion_client_auth_add_text (service_id : V3OnionServiceId) (private_key : X25519PrivateKey)
    (client_name : option str) (flags : OnionClientAuthAddFlags) : str :=
  str_join [space] (
    [lit "ONION_CLIENT_AUTH_ADD"; sid_data service_id; lit "x25519:" ++ x25519_to_base64 private_key] ++
    match client_name with Some n => [lit "ClientName=" ++ n] | None => [] end ++
    (if permanent flags then [lit "Flags=Permanent"] else [])).

(** [setconf_cmd], [setevents_cmd], [getinfo_cmd]: the list must not be empty. *)
Definition setconf_cmd (fuel : nat) (key_values : list (str * str)) : TC_ Reply :=
  if bool_decide (key_values = []) then throw InvalidCommandArguments
  else write_command fuel (setconf_text key_values).
Definition setevents_cmd (fuel : nat) (event_codes : list str) : TC_ Reply :=
  if bool_decide (event_codes = []) then throw InvalidCommandArguments
  else write_command fuel (lit "SETEVENTS " ++ str_join [space] event_codes).
Definition getinfo_cmd (fuel : nat) (keywords : list str) : TC_ Reply :=
  if bool_decide (keywords = []) then throw InvalidCommandArguments
  else write_command fuel (lit "GETINFO " ++ str_join [space] keywords).
Definition authenticate_cmd (fuel : nat) (password : str) : TC_ Reply :=
  write_command fuel (lit "AUTHENTICATE " ++ quote (quoted_string password)).
Definition add_onion_cmd (fuel : nat) key flags max_streams virt_port target client_auth : TC_ Reply :=
  write_command fuel (add_onion_text key flags max_streams virt_port target client_auth).
Definition del_onion_cmd (fuel : nat) (service_id : V3OnionServiceId) : TC_ Reply :=
  write_command fuel (lit "DEL_ONION " ++ sid_data service_id).
Definition onion_client_auth_add_cmd (fuel : nat) service_id private_key client_name flags : TC_ Reply :=
  write_command fuel (onion_client_auth_add_text service_id private_key client_name flags).
Definition onion_client_auth_remove_cmd (fuel : nat) (service_id : V3OnionServiceId) : TC_ Reply :=
  write_command fuel (lit "ONION_CLIENT_AUTH_REMOVE " ++ sid_data service_id).

(** ** The typed commands *)

(** A reply with a status code of the range is a success. *)
Definition expect_reply (lo hi : Z) (reply : Reply) : TC_ unit :=
  if ((lo <=? status_code reply) && (status_code reply <=? hi))%Z then mret tt
  else throw (CommandFailed (status_code reply) (reply_lines reply)).

Definition setconf (fuel : nat) key_values : TC_ unit := setconf_cmd fuel key_values ≫= expect_reply 250 250.
Definition setevents (fuel : nat) events : TC_ unit := setevents_cmd fuel events ≫= expect_reply 250 250.
Definition authenticate (fuel : nat) password : TC_ unit := authenticate_cmd fuel password ≫= expect_reply 250 250.
Definition del_onion (fuel : nat) service_id : TC_ unit := del_onion_cmd fuel service_id ≫= expect_reply 250 250.
Definition onion_client_auth_add (fuel : nat) service_id private_key client_name flags : TC_ unit :=
  onion_client_auth_add_cmd fuel service_id private_key client_name flags ≫= expect_reply 250 252.
Definition onion_client_auth_remove (fuel : nat) service_id : TC_ unit :=
  onion_client_auth_remove_cmd fuel service_id ≫= expect_reply 250 251.

(** The keys and values of a GETINFO reply: cut at the first equals sign, which is ASCII, so
    the slices do not panic. *)
Definition getinfo_line (line : str) : list (str * str) :=
  match find_byte line equals with
  | Some index => [(take index line, drop (S index) line)]
  | None => if bool_decide (line = lit "OK") then [] else [(line, [])]
  end.

Definition getinfo (fuel : nat) (keywords : list str) : TC_ (list (str * str)) :=
  reply ← getinfo_cmd fuel keywords;
  if (status_code reply =? 250)%Z then mret (flat_map getinfo_line (reply_lines reply))
  else throw (CommandFailed (status_code reply) (reply_lines reply)).

(** The loop over the reply lines of [add_onion]. *)
Fixpoint add_onion_lines (client_auth : option (list X25519PublicKey)) (lines : list str)
    (private_key : option Ed25519PrivateKey) (service_id : option V3OnionServiceId) :
    result TCError (option Ed25519PrivateKey * option V3OnionServiceId) :=
  match lines with
  | [] => Ok (private_key, service_id)
  | line :: lines =>
      match str_find line (lit "ServiceID=") with
      | Some index =>
          match service_id with
          | Some _ => Err CommandReplyParseFailed
          | None =>
              match service_id_from_string (String.string_of_list_byte (drop (index + 10) line)) with
              | Ok id => add_onion_lines client_auth lines private_key (Some id)
              | Err _ => Err CommandReplyParseFailed
              end
          end
      | None =>
      match str_find line (lit "PrivateKey=") with
      | Some index =>
          match private_key with
          | Some _ => Err CommandReplyParseFailed
          | None =>
              match from_key_blob_legacy (drop (index + 11) line) with
              | Ok k => add_onion_lines client_auth lines (Some k) service_id
              | Err _ => Err CommandReplyParseFailed
              end
          end
      | None =>
      if str_contains line (lit "ClientAuthV3=") then
        if bool_decide (default [] client_auth = []) then Err CommandReplyParseFailed
        else add_onion_lines client_auth lines private_key service_id
      else if str_contains line (lit "OK") then add_onion_lines client_auth lines private_key service_id
      else Err CommandReplyParseFailed
      end end
  end.

(** [add_onion] *)
Definition add_onion (fuel : nat) (key : option Ed25519PrivateKey) (flags : AddOnionFlags) (max_streams : option Z)
    (virt_port : Z) (target : option SocketAddr) (client_auth : option (list X25519PublicKey)) :
    TC_ (option Ed25519PrivateKey * V3OnionServiceId) :=
  reply ← add_onion_cmd fuel key flags max_streams virt_port target client_auth;
  if (status_code reply =? 250)%Z then
    match add_onion_lines client_auth (reply_lines reply) None None with
    | Err e => throw e
    | Ok (private_key, service_id) =>
        if bool_decide (is_Some private_key) && discard_pk flags then throw CommandReplyParseFailed
        else if bool_decide (private_key = None) && negb (discard_pk flags) then throw CommandReplyParseFailed
        else match service_id with
        | Some service_id => mret (private_key, service_id)
        | None => throw CommandReplyParseFailed
        end
    end
  else throw (CommandFailed (status_code reply) (reply_lines reply)).

(** One of the quoted addresses of net/listeners/socks; [Panicked] is a slice. *)
Definition socks_listener (socket_addr : str) : outcome (result TCError SocketAddr) :=
  if negb (starts_with_byte socket_addr dquote) || negb (ends_with_byte socket_addr dquote)
  then Done (Err CommandReplyParseFailed)
  else match str_slice socket_addr 1 (length socket_addr - 1) with
  | None => Panicked
  | Some stripped =>
      match socket_addr_from_str stripped with
      | Some a => Done (Ok a)
      | None => Done (Err CommandReplyParseFailed)
      end
  end.

Fixpoint socks_listeners (l : list str) : outcome (result TCError (list SocketAddr)) :=
  match l with
  | [] => Done (Ok [])
  | x :: l =>
      match socks_listener x with
      | Done (Ok a) => match socks_listeners l with Done (Ok r) => Done (Ok (a :: r)) | o => o end
      | Done (Err e) => Done (Err e)
      | Panicked => Panicked
      | OutOfFuel => OutOfFuel
      end
  end.

(** The first value of a key in a reply. *)
Definition info_value (key : str) (response : list (str * str)) : option str :=
  snd <$> head (filter (λ kv, kv.1 = key) response).

Definition lift_outcome {A} (o : outcome (result TCError A)) : TC_ A := λ self,
  match o with Done r => Done (self, r) | Panicked => Panicked | OutOfFuel => OutOfFuel end.

(** [getinfo_net_listeners_socks] *)
Definition getinfo_net_listeners_socks (fuel : nat) : TC_ (list SocketAddr) :=
  response ← getinfo fuel [lit "net/listeners/socks"];
  match info_value (lit "net/listeners/socks") response with
  | None => throw CommandReplyParseFailed
  | Some value =>
      if bool_decide (value = []) then mret []
      else lift_outcome (socks_listeners (str_split space value))
  end.

(** [getinfo_version] *)
Definition getinfo_version (fuel : nat) : TC_ LegacyTorVersion :=
  response ← getinfo fuel [lit "version"];
  match info_value (lit "version") response with
  | None => throw CommandReplyParseFailed
  | Some value => lift_result (map_err TorVersionParseFailed (version_from_str value))
  end.
End controller.
Arguments LegacyTorController W {_}.
