(* ===== verification/LegacyTorClient.v ===== *)
(** tor-interface/src/legacy_tor_client.rs: the tor provider on top of a tor daemon and its
    control port.

    The crate socks and the listening sockets of the operating system are the class
    [TorNetwork]; the host is passed along with the client.  A listener shares a flag with
    the client that made it: the client keeps the flags, a listener the index of its own. *)

From Stdlib Require Import ZArith Lia.
From S2P Require Import Prelude Maps HonkSize HonkSession Str NetAddr Regexes Crypto TorCrypto TorProvider TorAddr.
From S2P Require Import TorConfig TorProcess TorVersion ControlStream TorController.
From stdpp Require Import prelude strings list.
From coqutil Require Import Byte.

Open Scope nat_scope.

(** [socks::TargetAddr] *)
Inductive SocksTarget := ST_Ip (addr : SocketAddr) | ST_Domain (domain : str) (port : Z).

Class TorNetwork (H RW TL : Type) : Type := {
  socks_connect : SocketAddr → SocksTarget → option (str * str) → H → io_result RW * H;
  tcp_bind : SocketAddr → H → io_result TL * H;
  tcp_local_addr : TL → io_result SocketAddr;
}.

(** [legacy_tor_client::Error], without texts *)
Inductive LCError :=
| LegacyTorProcessCreationFailed (err : ProcessError)
| LegacyControlStreamCreationFailed (err : CSError)
| LegacyTorControllerCreationFailed (err : TCError)
| LegacyTorProcessAuthenticationFailed (err : TCError)
| GetInfoVersionFailed (err : TCError)
| LegacyTorProcessTooOld
| SetEventsFailed (err : TCError)
| DelOnionFailed (err : TCError)
| WaitAsyncEventsFailed (err : TCError)
| SetConfDisableNetwork0Failed (err : TCError)
| SetConfFailed (err : TCError)
| OnionClientAuthAddFailed (err : TCError)
| OnionClientAuthRemoveFailed (err : TCError)
| GetInfoNetListenersSocksFailed (err : TCError)
| NoSocksListenersFound
| CircuitTokenInvalid
| Socks5ConnectionFailed (kind : ErrorKind)
| TcpListenerBindFailed (kind : ErrorKind)
| TcpListenerLocalAddrFailed (kind : ErrorKind)
| AddOnionFailed (err : TCError)
| LegacyTorNotBootstrapped
| PluggableTransportConfigDirectoryCreationFailed (kind : ErrorKind)
| PluggableTransportDirectoryNameCollision
| PluggableTransportSymlinkRemovalFailed (kind : ErrorKind)
| PluggableTransportSymlinkCreationFailed (kind : ErrorKind)
| PluggableTransportBinaryNameNotUtf8Representnable
| BridgeTransportTypeMultiplyDefined (name : str)
| BridgeTransportNotSupported (name : str).

Record LegacyCircuitToken := mkLegacyCircuitToken { ct_username : str; ct_password : str }.

Definition CIRCUIT_TOKEN_USERNAME_LENGTH : nat := 32.
Definition CIRCUIT_TOKEN_PASSWORD_LENGTH : nat := 32.

(** [LegacyCircuitToken::new] *)
Definition circuit_token_new `{ProcessCrypto} (draws : nat) : LegacyCircuitToken :=
  mkLegacyCircuitToken (generate_password draws CIRCUIT_TOKEN_USERNAME_LENGTH)
    (generate_password (draws + CIRCUIT_TOKEN_USERNAME_LENGTH) CIRCUIT_TOKEN_PASSWORD_LENGTH).

(** [Path::file_name], of an absolute path *)
Definition file_name (path : str) : option str :=
  match last (filter (λ c, c ≠ [] ∧ c ≠ [dot]) (str_split slash path)) with
  | Some c => if bool_decide (c = [dot; dot]) then None else Some c
  | None => None
  end.

Section client.
Context `{CL : CryptoLib} `{PC : ProcessCrypto} `{RL : RegexLib} `{DL : DomainLib}.
Context {H File Child W RW TL : Type} `{TH : !TorHost H File Child} `{!ControlSocket W} `{!TorNetwork H RW TL}.

Inductive LegacyTorClientConfig :=
| BundledTor (tor_bin_path data_directory : str) (proxy_settings : option ProxyConfig)
    (allowed_ports : option (list Z)) (pluggable_transports : option (list PluggableTransportConfig))
    (bridge_lines : option (list BridgeLine))
| SystemTor (tor_socks_addr tor_control_addr : SocketAddr) (tor_control_passwd : str).

(** The listeners of this client. *)
Record ClientListener := mkClientListener { cl_listener : TL; cl_is_active : nat }.

Record LegacyTorClient := mkLegacyTorClient {
  lc_host : H;
  lc_draws : nat;
  lc_flags : list bool;
  lc_daemon : option (LegacyTorProcess Child);
  lc_version : LegacyTorVersion;
  lc_controller : LegacyTorController W;
  lc_bootstrapped : bool;
  lc_socks_listener : option SocketAddr;
  lc_onion_services : list (V3OnionServiceId * nat);
  lc_circuit_token_counter : nat;
  lc_circuit_tokens : list (Z * LegacyCircuitToken);
}.
Definition lc_set_host v s := let 'mkLegacyTorClient _ x1 x2 x3 x4 x5 x6 x7 x8 x9 x10 := s in mkLegacyTorClient v x1 x2 x3 x4 x5 x6 x7 x8 x9 x10.
Definition lc_set_draws v s := let 'mkLegacyTorClient x0 _ x2 x3 x4 x5 x6 x7 x8 x9 x10 := s in mkLegacyTorClient x0 v x2 x3 x4 x5 x6 x7 x8 x9 x10.
Definition lc_set_flags v s := let 'mkLegacyTorClient x0 x1 _ x3 x4 x5 x6 x7 x8 x9 x10 := s in mkLegacyTorClient x0 x1 v x3 x4 x5 x6 x7 x8 x9 x10.
Definition lc_set_daemon v s := let 'mkLegacyTorClient x0 x1 x2 _ x4 x5 x6 x7 x8 x9 x10 := s in mkLegacyTorClient x0 x1 x2 v x4 x5 x6 x7 x8 x9 x10.
Definition lc_set_controller v s := let 'mkLegacyTorClient x0 x1 x2 x3 x4 _ x6 x7 x8 x9 x10 := s in mkLegacyTorClient x0 x1 x2 x3 x4 v x6 x7 x8 x9 x10.
Definition lc_set_bootstrapped v s := let 'mkLegacyTorClient x0 x1 x2 x3 x4 x5 _ x7 x8 x9 x10 := s in mkLegacyTorClient x0 x1 x2 x3 x4 x5 v x7 x8 x9 x10.
Definition lc_set_socks v s := let 'mkLegacyTorClient x0 x1 x2 x3 x4 x5 x6 _ x8 x9 x10 := s in mkLegacyTorClient x0 x1 x2 x3 x4 x5 x6 v x8 x9 x10.
Definition lc_set_services v s := let 'mkLegacyTorClient x0 x1 x2 x3 x4 x5 x6 x7 _ x9 x10 := s in mkLegacyTorClient x0 x1 x2 x3 x4 x5 x6 x7 v x9 x10.
Definition lc_set_counter v s := let 'mkLegacyTorClient x0 x1 x2 x3 x4 x5 x6 x7 x8 _ x10 := s in mkLegacyTorClient x0 x1 x2 x3 x4 x5 x6 x7 x8 v x10.
Definition lc_set_tokens v s := let 'mkLegacyTorClient x0 x1 x2 x3 x4 x5 x6 x7 x8 x9 _ := s in mkLegacyTorClient x0 x1 x2 x3 x4 x5 x6 x7 x8 x9 v.

(** * Starting *)

(** The host and the controller while the client is being made. *)
Abbreviation NEW_ := (M (H * LegacyTorController W) LCError).

Definition new_controller {A} (f : TCError → LCError) (m : M (LegacyTorController W) TCError A) : NEW_ A := λ '(h, c),
  match m c with
  | Done (c, r) => Done ((h, c), map_err f r)
  | Panicked => Panicked
  | OutOfFuel => OutOfFuel
  end.
Definition new_io {A} (f : ErrorKind → LCError) (op : H → io_result A * H) : NEW_ A := λ '(h, c),
  match op h with (IoOk a, h) => Done ((h, c), Ok a) | (IoErr kind, h) => Done ((h, c), Err (f kind)) end.

Definition new_setconf (fuel : nat) (key_values : list (str * str)) : NEW_ unit :=
  new_controller SetConfFailed (setconf fuel key_values).

(** "configure proxy" *)
Definition configure_proxy (fuel : nat) (proxy_settings : option ProxyConfig) : NEW_ unit :=
  match proxy_settings with
  | None => mret tt
  | Some (Proxy_Socks4 config) => new_setconf fuel [(lit "Socks4Proxy", target_addr_to_string (s4_address config))]
  | Some (Proxy_Socks5 config) =>
      _ ← new_setconf fuel [(lit "Socks5Proxy", target_addr_to_string (s5_address config))];
      let username := default [] (s5_username config) in
      _ ← (if negb (bool_decide (username = [])) then new_setconf fuel [(lit "Socks5ProxyUsername", username)]
           else mret tt : NEW_ unit);
      let password := default [] (s5_password config) in
      if negb (bool_decide (password = [])) then new_setconf fuel [(lit "Socks5ProxyPassword", password)]
      else mret tt
  | Some (Proxy_Https config) =>
      _ ← new_setconf fuel [(lit "HTTPSProxy", target_addr_to_string (ht_address config))];
      let username := default [] (ht_username config) in
      let password := default [] (ht_password config) in
      if negb (bool_decide (username = [])) || negb (bool_decide (password = []))
      then new_setconf fuel [(lit "HTTPSProxyAuthenticator", username ++ [colon] ++ password)]
      else mret tt
  end.

(** "configure firewall": in the format string the doubled braces stand for braces. *)
Definition allowed_addresses (allowed_ports : list Z) : str :=
  str_join (lit ", ") ((λ port, lit "*{}:" ++ show_uint port) <$> allowed_ports).
Definition configure_firewall (fuel : nat) (allowed_ports : option (list Z)) : NEW_ unit :=
  match allowed_ports with
  | None => mret tt
  | Some allowed_ports => new_setconf fuel [(lit "ReachableAddresses", allowed_addresses allowed_ports)]
  end.

(** The transports of a plugin, which no other plugin may have. *)
Fixpoint add_transports (transports supported_transports : list str) : result LCError (list str) :=
  match transports with
  | [] => Ok supported_transports
  | transport :: transports =>
      if bool_decide (transport ∈ supported_transports) then Err (BridgeTransportTypeMultiplyDefined transport)
      else add_transports transports (transport :: supported_transports)
  end.

Definition client_transport_plugin (pt_settings : PluggableTransportConfig) (binary_name : str) : str :=
  str_join (lit ",") (pt_transports pt_settings) ++ lit " exec " ++ (lit "pluggable-transports" ++ [slash] ++ binary_name) ++
  [space] ++ str_join [space] (pt_options pt_settings).

(** "symlink all our pts and configure tor": the loop, with the SETCONF values so far *)
Fixpoint link_transports (pt_directory : str) (pluggable_transports : list PluggableTransportConfig)
    (supported_transports : list str) (conf : list (str * str)) : NEW_ (list str * list (str * str)) :=
  match pluggable_transports with
  | [] => mret (supported_transports, conf)
  | pt_settings :: pluggable_transports =>
      match file_name (pt_path_to_binary pt_settings) with
      | None => λ _, Panicked
      | Some binary_name =>
          let pt_symlink := path_join pt_directory binary_name in
          if negb (is_utf8 binary_name) then throw PluggableTransportBinaryNameNotUtf8Representnable
          else
            exists_ ← gets (λ hc, fs_exists pt_symlink hc.1);
            _ ← (if (exists_ : bool) then new_io PluggableTransportSymlinkRemovalFailed (fs_remove_file pt_symlink)
                 else mret tt : NEW_ unit);
            _ ← new_io PluggableTransportSymlinkCreationFailed (fs_symlink (pt_path_to_binary pt_settings) pt_symlink);
            supported_transports ← lift_result (add_transports (pt_transports pt_settings) supported_transports);
            link_transports pt_directory pluggable_transports supported_transports
              (conf ++ [(lit "ClientTransportPlugin", client_transport_plugin pt_settings binary_name)])
      end
  end.

(** "configure pluggable transports": the transports that are supported *)
Definition configure_transports (fuel : nat) (data_directory : str)
    (pluggable_transports : option (list PluggableTransportConfig)) : NEW_ (list str) :=
  match pluggable_transports with
  | None => mret []
  | Some pluggable_transports =>
      let pt_directory := path_join data_directory (lit "pluggable-transports") in
      exists_ ← gets (λ hc, fs_exists pt_directory hc.1);
      is_dir ← gets (λ hc, fs_is_dir pt_directory hc.1);
      _ ← (if negb exists_ then new_io PluggableTransportConfigDirectoryCreationFailed (fs_create_dir pt_directory)
           else if negb is_dir then throw PluggableTransportDirectoryNameCollision
           else mret tt : NEW_ unit);
      r ← link_transports pt_directory pluggable_transports [] [];
      _ ← new_setconf fuel r.2;
      mret r.1
  end.

Fixpoint bridge_conf (supported_transports : list str) (bridge_lines : list BridgeLine) :
    result LCError (list (str * str)) :=
  match bridge_lines with
  | [] => Ok []
  | bridge_line :: bridge_lines =>
      if negb (bool_decide (bl_transport bridge_line ∈ supported_transports))
      then Err (BridgeTransportNotSupported (bl_transport bridge_line))
      else match bridge_conf supported_transports bridge_lines with
      | Ok conf => Ok ((lit "Bridge", as_legacy_tor_setconf_value bridge_line) :: conf)
      | Err e => Err e
      end
  end.

(** "configure bridge lines" *)
Definition configure_bridges (fuel : nat) (supported_transports : list str) (bridge_lines : option (list BridgeLine)) :
    NEW_ unit :=
  match bridge_lines with
  | None => mret tt
  | Some bridge_lines =>
      conf ← lift_result (bridge_conf supported_transports bridge_lines);
      new_setconf fuel (conf ++ [(lit "UseBridges", lit "1")])
  end.

Definition min_required_version : LegacyTorVersion := mkLegacyTorVersion 0 4 6 1 None.

(** "open a control stream", "create a controler" *)
Definition open_controller (addr : SocketAddr) : result LCError (LegacyTorController W) :=
  match control_stream_new addr 16000000 with
  | Err e => Err (LegacyControlStreamCreationFailed e)
  | Ok control_stream =>
      match controller_new control_stream with
      | Err e => Err (LegacyTorControllerCreationFailed e)
      | Ok controller => Ok controller
      end
  end.

(** The rest of [new], once there is a controller. *)
Definition client_setup (fuel : nat) (config : LegacyTorClientConfig) (password : str) : NEW_ LegacyTorVersion :=
  _ ← new_controller LegacyTorProcessAuthenticationFailed (authenticate fuel password);
  version ← new_controller GetInfoVersionFailed (getinfo_version fuel);
  if bool_decide (version_partial_cmp version min_required_version = Some Lt) then throw LegacyTorProcessTooOld
  else
    _ ← match config with
        | BundledTor _ data_directory proxy_settings allowed_ports pluggable_transports bridge_lines =>
            _ ← configure_proxy fuel proxy_settings;
            _ ← configure_firewall fuel allowed_ports;
            supported_transports ← configure_transports fuel data_directory pluggable_transports;
            configure_bridges fuel supported_transports bridge_lines
        | SystemTor _ _ _ => mret tt
        end;
    _ ← new_controller SetEventsFailed (setevents fuel [lit "STATUS_CLIENT"; lit "HS_DESC"]);
    mret version.

(** A daemon that is dropped is killed. *)
Definition drop_daemon (daemon : option (LegacyTorProcess Child)) (h : H) : H :=
  match daemon with Some daemon => process_drop daemon h | None => h end.

(** [LegacyTorClient::new]; randomness is drawn from [draws] on, a daemon's password and
    the salt of its hash first. *)
Definition client_new (fuel draws : nat) (config : LegacyTorClientConfig) (h : H) :
    outcome (result LCError LegacyTorClient * H) :=
  let make draws daemon controller password socks_listener h :=
    match client_setup fuel config password (h, controller) with
    | Done ((h, controller), Ok version) =>
        Done (Ok (mkLegacyTorClient h draws [] daemon version controller false socks_listener [] 0 []), h)
    | Done ((h, _), Err e) => Done (Err e, drop_daemon daemon h)
    | Panicked => Panicked
    | OutOfFuel => OutOfFuel
    end in
  match config with
  | BundledTor tor_bin_path data_directory _ _ _ _ =>
      match process_new fuel draws tor_bin_path data_directory h with
      | Done (h, Err e) => Done (Err (LegacyTorProcessCreationFailed e), h)
      | Done (h, Ok daemon) =>
          match open_controller (lp_control_addr daemon) with
          | Err e => Done (Err e, drop_daemon (Some daemon) h)
          | Ok controller =>
              make (draws + (CONTROL_PORT_PASSWORD_LENGTH + S2K_RFC2440_SPECIFIER_LEN))
                (Some daemon) controller (lp_password daemon) None h
          end
      | Panicked => Panicked
      | OutOfFuel => OutOfFuel
      end
  | SystemTor tor_socks_addr tor_control_addr tor_control_passwd =>
      match open_controller tor_control_addr with
      | Err e => Done (Err e, h)
      | Ok controller => make draws None controller tor_control_passwd (Some tor_socks_addr) h
      end
  end.

(** * The provider *)

Abbreviation LC_ := (M LegacyTorClient LCError).

(** A command of the controller, its error wrapped. *)
Definition lc_on_controller {A} (f : TCError → LCError) (m : M (LegacyTorController W) TCError A) : LC_ A := λ s,
  match m (lc_controller s) with
  | Done (c, r) => Done (lc_set_controller c s, map_err f r)
  | Panicked => Panicked
  | OutOfFuel => OutOfFuel
  end.
Definition lc_io {A} (f : ErrorKind → LCError) (op : H → io_result A * H) : LC_ A := λ s,
  match op (lc_host s) with
  | (IoOk a, h) => Done (lc_set_host h s, Ok a)
  | (IoErr kind, h) => Done (lc_set_host h s, Err (f kind))
  end.

Definition is_active (s : LegacyTorClient) (flag : nat) : bool := default false (lc_flags s !! flag).

(** "remove onion services with no active listeners": the loop of [update], from [i] on.
    The entry is gone whether or not tor can be told. *)
Fixpoint reap_services (n fuel i : nat) : LC_ unit := λ s,
  match n with
  | O => OutOfFuel
  | S n =>
      match lc_onion_services s !! i with
      | None => Done (s, Ok tt)
      | Some (service_id, flag) =>
          if negb (is_active s flag) then
            (_ ← lc_on_controller DelOnionFailed (del_onion fuel service_id);
             reap_services n fuel i) (lc_set_services (swap_remove i (lc_onion_services s)) s)
          else reap_services n fuel (S i) s
      end
  end.

(** The arguments of a bootstrap event. *)
Definition bootstrap_status (arguments : list (str * str)) : Z * str * str :=
  fold_left (λ '(progress, tag, summary) '(key, val),
    if bool_decide (key = lit "PROGRESS") then (default 0%Z (parse_u32 val), tag, summary)
    else if bool_decide (key = lit "TAG") then (progress, val, summary)
    else if bool_decide (key = lit "SUMMARY") then (progress, tag, val)
    else (progress, tag, summary)) arguments (0%Z, [], []).

(** One asynchronous event: the events it becomes, and whether tor has bootstrapped. *)
Definition handle_async_event (async_event : AsyncEvent) : list TorEvent * bool :=
  match async_event with
  | AE_StatusClient severity action arguments =>
      if bool_decide (severity = lit "NOTICE") && bool_decide (action = lit "BOOTSTRAP") then
        let '(progress, tag, summary) := bootstrap_status arguments in
        let status := TE_BootstrapStatus progress (String.string_of_list_byte tag) (String.string_of_list_byte summary) in
        if (progress =? 100)%Z then ([status; TE_BootstrapComplete], true) else ([status], false)
      else ([], false)
  | AE_HsDesc action hs_address =>
      if bool_decide (action = lit "UPLOADED") then ([TE_OnionServicePublished hs_address], false) else ([], false)
  | AE_Unknown _ => ([], false)
  end.

(** The end of [update]: the log of a daemon of our own, or the one event of a daemon that
    was there before. *)
Definition log_events : LC_ (list TorEvent) := λ s,
  match lc_daemon s with
  | Some daemon =>
      let '(lines, daemon, h) := wait_log_lines daemon (lc_host s) in
      Done (lc_set_daemon (Some daemon) (lc_set_host h s), Ok ((λ line, TE_LogReceived (String.string_of_list_byte line)) <$> lines))
  | None =>
      if negb (lc_bootstrapped s) then Done (lc_set_bootstrapped true s, Ok [TE_BootstrapComplete])
      else Done (s, Ok [])
  end.

(** [update] *)
Definition lc_update (fuel : nat) : LC_ (list TorEvent) :=
  s ← get_state;
  _ ← reap_services (S (length (lc_onion_services s))) fuel 0;
  async_events ← lc_on_controller WaitAsyncEventsFailed (wait_async_events fuel);
  let handled := handle_async_event <$> async_events in
  _ ← modify (λ s, if existsb snd handled then lc_set_bootstrapped true s else s);
  logs ← log_events;
  mret (concat handled.*1 ++ logs).

(** [bootstrap] *)
Definition lc_bootstrap (fuel : nat) : LC_ unit :=
  s ← get_state;
  if negb (lc_bootstrapped s)
  then lc_on_controller SetConfDisableNetwork0Failed (setconf fuel [(lit "DisableNetwork", lit "0")])
  else mret tt.

(** [add_client_auth], [remove_client_auth] *)
Definition lc_add_client_auth (fuel : nat) (service_id : V3OnionServiceId) (client_auth : X25519PrivateKey) : LC_ unit :=
  lc_on_controller OnionClientAuthAddFailed
    (onion_client_auth_add fuel service_id client_auth None (mkOnionClientAuthAddFlags false)).
Definition lc_remove_client_auth (fuel : nat) (service_id : V3OnionServiceId) : LC_ unit :=
  lc_on_controller OnionClientAuthRemoveFailed (onion_client_auth_remove fuel service_id).

(** The address of tor's SOCKS port, asked for once. *)
Definition find_socks_listener (fuel : nat) : LC_ SocketAddr :=
  s ← get_state;
  match lc_socks_listener s with
  | Some socks_listener => mret socks_listener
  | None =>
      listeners ← lc_on_controller GetInfoNetListenersSocksFailed (getinfo_net_listeners_socks fuel);
      match listeners with
      | [] => throw NoSocksListenersFound
      | listener :: _ => _ ← modify (lc_set_socks (Some listener)); mret listener
      end
  end.

Definition socks_target (target : TargetAddr) : SocksTarget :=
  match target with
  | TA_Socket socket_addr => ST_Ip socket_addr
  | TA_Domain domain_addr => ST_Domain (da_domain domain_addr) (da_port domain_addr)
  | TA_OnionService (OA_V3 a) => ST_Domain (sid_data (oa_service_id a) ++ lit ".onion") (oa_virt_port a)
  end.

(** [connect] *)
Definition lc_connect (fuel : nat) (target : TargetAddr) (circuit : option CircuitToken) : LC_ (OnionStream RW) :=
  s ← get_state;
  if negb (lc_bootstrapped s) then throw LegacyTorNotBootstrapped
  else
    socks_listener ← find_socks_listener fuel;
    stream ←
      (match circuit with
       | None => lc_io Socks5ConnectionFailed (socks_connect socks_listener (socks_target target) None)
       | Some circuit =>
           match bt_get (lc_circuit_tokens s) (Z.of_nat circuit) with
           | Some circuit =>
               lc_io Socks5ConnectionFailed (socks_connect socks_listener (socks_target target)
                 (Some (ct_username circuit, ct_password circuit)))
           | None => throw CircuitTokenInvalid
           end
       end : LC_ RW);
    mret (mkOnionStream stream None (Some target)).

(** [listener] *)
Definition lc_listener (fuel : nat) (private_key : Ed25519PrivateKey) (virt_port : Z)
    (authorized_clients : option (list X25519PublicKey)) : LC_ (OnionListener ClientListener) :=
  s ← get_state;
  if negb (lc_bootstrapped s) then throw LegacyTorNotBootstrapped
  else
    listener ← lc_io TcpListenerBindFailed (tcp_bind (SA_V4 [127; 0; 0; 1]%Z 0));
    match tcp_local_addr listener with
    | IoErr kind => throw (TcpListenerLocalAddrFailed kind)
    | IoOk socket_addr =>
        let flags := mkAddOnionFlags true false (bool_decide (is_Some authorized_clients)) false false in
        let onion_addr := OA_V3 (mkOnionAddrV3 (service_id_from_private_key private_key) virt_port) in
        r ← lc_on_controller AddOnionFailed
          (add_onion fuel (Some private_key) flags None virt_port (Some socket_addr) authorized_clients);
        s ← get_state;
        let flag := length (lc_flags s) in
        _ ← modify (λ s, lc_set_flags (lc_flags s ++ [true]) (lc_set_services (lc_onion_services s ++ [(r.2, flag)]) s));
        mret (mkOnionListener (mkClientListener listener flag) onion_addr)
    end.

(** [generate_token], [release_token] *)
Definition lc_generate_token (s : LegacyTorClient) : CircuitToken * LegacyTorClient :=
  let new_token := lc_circuit_token_counter s in
  (new_token,
   lc_set_draws (lc_draws s + (CIRCUIT_TOKEN_USERNAME_LENGTH + CIRCUIT_TOKEN_PASSWORD_LENGTH))
     (lc_set_tokens (bt_insert (lc_circuit_tokens s) (Z.of_nat new_token) (circuit_token_new (lc_draws s)))
       (lc_set_counter (S new_token) s))).
Definition lc_release_token (circuit_token : CircuitToken) (s : LegacyTorClient) : LegacyTorClient :=
  lc_set_tokens (bt_remove (lc_circuit_tokens s) (Z.of_nat circuit_token)) s.

(** The closure given to [OnionListener::new] *)
Definition lc_drop_listener (l : OnionListener ClientListener) (s : LegacyTorClient) : LegacyTorClient :=
  lc_set_flags (<[cl_is_active (ol_listener l) := false]> (lc_flags s)) s.

(** [impl From<Error> for tor_provider::Error] *)
Definition lc_provider {A} (m : LC_ A) : M LegacyTorClient TorProviderError A := λ s,
  match m s with
  | Done (s, r) => Done (s, map_err (λ _, TP_Generic) r)
  | Panicked => Panicked
  | OutOfFuel => OutOfFuel
  end.

(** Listening sockets of a client accept as the sockets in them do. *)
#[export] Instance client_sockets `{!Sockets RW TL} : Sockets RW ClientListener := {
  tl_accept l := let '(r, tl) := tl_accept (cl_listener l) in (r, mkClientListener tl (cl_is_active l));
  tl_set_nonblocking b l :=
    let '(r, tl) := tl_set_nonblocking (RW:=RW) b (cl_listener l) in (r, mkClientListener tl (cl_is_active l));
  ts_set_nonblocking := ts_set_nonblocking (TL:=TL);
}.

(** [impl TorProvider for LegacyTorClient]: [OutOfFuel] where a command waits for a reply
    that has not come. *)
#[export] Instance legacy_tor_provider (fuel : nat) : TorProvider LegacyTorClient RW ClientListener := {
  tp_update := lc_provider (lc_update fuel);
  tp_bootstrap := lc_provider (lc_bootstrap fuel);
  tp_add_client_auth id key := lc_provider (lc_add_client_auth fuel id key);
  tp_remove_client_auth id := lc_provider (lc_remove_client_auth fuel id);
  tp_connect target circuit := lc_provider (lc_connect fuel target circuit);
  tp_listener key port clients := lc_provider (lc_listener fuel key port clients);
  tp_generate_token := lc_generate_token;
  tp_release_token := lc_release_token;
  tp_drop_listener := lc_drop_listener;
}.
End client.
