(* ===== verification/LegacyClientTheory.v ===== *)
(** The legacy tor client over time: its onion services and the flags of their listeners,
    and its circuit tokens. *)

From Stdlib Require Import ZArith Lia.
From S2P Require Import Prelude Maps HonkSize HonkSession Str NetAddr Regexes Crypto TorCrypto TorProvider TorAddr.
From S2P Require Import TorConfig TorProcess TorVersion ControlStream TorController LegacyTorClient.
From stdpp Require Import prelude strings list.
From coqutil Require Import Byte.

Open Scope nat_scope.

Section client.
Context `{CL : CryptoLib} `{PC : ProcessCrypto} `{RL : RegexLib} `{DL : DomainLib}.
Context {H File Child W RW TL : Type} `{TH : !TorHost H File Child} `{CS : !ControlSocket W} `{TN : !TorNetwork H RW TL}.
Abbreviation Client := (LegacyTorClient (H:=H) (Child:=Child) (W:=W)).
Implicit Types (s : Client).

(** The DEL_ONION commands that succeeded, in order. *)
Inductive deletes (fuel : nat) : list V3OnionServiceId → LegacyTorController W → LegacyTorController W → Prop :=
| deletes_nil c : deletes fuel [] c c
| deletes_cons id ids c c1 c2 :
    del_onion fuel id c = Done (c1, Ok tt) → deletes fuel ids c1 c2 → deletes fuel (id :: ids) c c2.

Definition active_in s (e : V3OnionServiceId * nat) : Prop := is_active s e.2 = true.
Definition inactive_in s (e : V3OnionServiceId * nat) : Prop := is_active s e.2 = false.

(** What only the controller and the services of a client may differ in. *)
Definition with_services (l : list (V3OnionServiceId * nat)) (c : LegacyTorController W) s : Client :=
  lc_set_controller c (lc_set_services l s).

Definition reap_post fuel s (o : outcome (Client * result LCError unit)) : Prop :=
  match o with
  | Done (s', Ok _) =>
      ∃ gone, lc_onion_services s ≡ₚ gone ++ lc_onion_services s' ∧ Forall (active_in s) (lc_onion_services s') ∧
      Forall (inactive_in s) gone ∧ deletes fuel gone.*1 (lc_controller s) (lc_controller s') ∧
      s' = with_services (lc_onion_services s') (lc_controller s') s
  | Done (s', Err e) =>
      ∃ gone id flag c err, lc_onion_services s ≡ₚ gone ++ (id, flag) :: lc_onion_services s' ∧
      Forall (inactive_in s) (gone ++ [(id, flag)]) ∧ deletes fuel gone.*1 (lc_controller s) c ∧
      del_onion fuel id c = Done (lc_controller s', Err err) ∧ e = DelOnionFailed err ∧
      s' = with_services (lc_onion_services s') (lc_controller s') s
  | Panicked => ∃ id c, del_onion fuel id c = Panicked
  | OutOfFuel => ∃ id c, del_onion fuel id c = OutOfFuel
  end.

Lemma reap_services_spec n fuel i s :
  i ≤ length (lc_onion_services s) < i + n →
  (∀ j e, j < i → lc_onion_services s !! j = Some e → active_in s e) →
  reap_post fuel s (reap_services n fuel i s).
Proof.
  revert i s. induction n as [|n IH]; intros i s Hn Hbefore; [lia|]. cbn [reap_services].
  destruct (lc_onion_services s !! i) as [[id flag]|] eqn:Hi.
  2:{ apply lookup_ge_None in Hi. exists []. split_and!; [done| |constructor|constructor|by destruct s].
      apply Forall_lookup. intros j e Hj. apply Hbefore with j; [|done]. apply lookup_lt_Some in Hj. lia. }
  apply lookup_lt_Some in Hi as Hlt. destruct (is_active s flag) eqn:Ha; simpl.
  { apply IH; [lia|]. intros j e Hj He. destruct (decide (j = i)) as [->|]; [|apply Hbefore with j; [lia|done]].
    by simplify_eq. }
  pose proof (swap_remove_perm _ _ _ Hi) as Hperm.
  set (l := swap_remove i (lc_onion_services s)) in *.
  assert (lc_controller (lc_set_services l s) = lc_controller s) as Hc by by destruct s.
  unfold mbind, M_bind, lc_on_controller. rewrite Hc.
  destruct (del_onion fuel id (lc_controller s)) as [[c [[]|err]]| |] eqn:Hd; simpl; [| |by exists id, (lc_controller s)..].
  - specialize (IH i (lc_set_controller c (lc_set_services l s))). unfold reap_post in *.
    assert (lc_onion_services (lc_set_controller c (lc_set_services l s)) = l ∧
      lc_controller (lc_set_controller c (lc_set_services l s)) = c ∧
      ∀ flag, is_active (lc_set_controller c (lc_set_services l s)) flag = is_active s flag) as (H1 & H2 & H3)
      by by destruct s.
    rewrite H1, H2 in IH. pose proof (Permutation_length Hperm) as Hlen. simpl in Hlen.
    assert (∀ gone, Forall (inactive_in (lc_set_controller c (lc_set_services l s))) gone → Forall (inactive_in s) gone) as Hin
      by (intros gone Hg; eapply Forall_impl; [exact Hg|]; intros e; unfold inactive_in; by rewrite H3).
    specialize (IH ltac:(lia)).
    assert (∀ j e, j < i → l !! j = Some e → active_in (lc_set_controller c (lc_set_services l s)) e) as Hbef.
    { intros j e Hj He. unfold active_in. rewrite H3. apply Hbefore with j; [done|].
      by rewrite <- (swap_remove_before _ _ _ _ Hi Hj). }
    specialize (IH Hbef). destruct (reap_services n fuel i _) as [[s' [[]|e]]| |]; [| |done..].
    + destruct IH as (gone & P1 & P2 & P3 & P4 & P5). exists ((id, flag) :: gone). split_and!.
      * by rewrite Hperm, P1.
      * eapply Forall_impl; [exact P2|]. intros e. unfold active_in. by rewrite H3.
      * constructor; [done|]. by apply Hin.
      * simpl. by eapply deletes_cons.
      * rewrite P5. by destruct s, s'.
    + destruct IH as (gone & id' & flag' & c' & err & P1 & P2 & P3 & P4 & P5 & P6).
      exists ((id, flag) :: gone), id', flag', c', err. split_and!; [|..|done|].
      * by rewrite Hperm, P1.
      * constructor; [done|]. by apply Hin.
      * simpl. by eapply deletes_cons.
      * done.
      * rewrite P6. by destruct s, s'.
  - exists [], id, flag, (lc_controller s), err. split_and!; try done; [by destruct s|by repeat constructor|constructor|
      by destruct s|by destruct s].
Qed.

(** ** Flags

    Every service has a flag of its own. *)
Definition lc_inv s : Prop :=
  NoDup (lc_onion_services s).*2 ∧ Forall (λ flag, flag < length (lc_flags s)) (lc_onion_services s).*2.

Lemma is_active_snoc s l flag :
  flag < length (lc_flags s) → is_active (lc_set_flags (lc_flags s ++ [true]) (lc_set_services l s)) flag = is_active s flag.
Proof. intros Hf. unfold is_active. destruct s. simpl in *. by rewrite lookup_app_l. Qed.

(** A listener adds one service, which is active. *)
Lemma lc_listener_spec fuel key port clients s s' l :
  lc_inv s → lc_listener fuel key port clients s = Done (s', Ok l) →
  lc_inv s' ∧ lc_bootstrapped s = true ∧
  ∃ id, lc_onion_services s' = lc_onion_services s ++ [(id, cl_is_active (ol_listener l))] ∧
    is_active s' (cl_is_active (ol_listener l)) = true ∧
    (∀ e, e ∈ lc_onion_services s → is_active s' e.2 = is_active s e.2) ∧
    ol_onion_addr l = OA_V3 (mkOnionAddrV3 (service_id_from_private_key key) port).
Proof.
  intros [Hnd Hlt]. unfold lc_listener, mbind, M_bind, get_state. destruct (lc_bootstrapped s) eqn:Hb; [simpl|done].
  unfold lc_io. destruct (tcp_bind _ _) as [[tl|] h]; [|done].
  destruct (tcp_local_addr tl) as [addr|]; [|done].
  set (s1 := lc_set_host h s). unfold lc_on_controller.
  destruct (add_onion _ _ _ _ _ _ _ (lc_controller s1)) as [[c [r|]]| |]; [simpl|done..].
  assert (∃ s2, s2 = lc_set_controller c s1 ∧ lc_flags s2 = lc_flags s ∧ lc_onion_services s2 = lc_onion_services s)
    as (s2 & <- & Hf & Hs) by (eexists; split; [done|]; by destruct s).
  intros [= <- <-]. simpl. split_and!; [|done|].
  - assert (∀ fl sv, lc_inv (lc_set_flags fl (lc_set_services sv s2)) ↔
      NoDup sv.*2 ∧ Forall (λ flag, flag < length fl) sv.*2) as Hinv by (intros fl sv; by destruct s2).
    apply Hinv. rewrite Hf, Hs, fmap_app. simpl. split.
    + apply NoDup_app. split_and!; [done| |apply NoDup_singleton]. intros x Hx Hin%list_elem_of_singleton. subst.
      rewrite Forall_forall in Hlt. specialize (Hlt _ Hx). lia.
    + rewrite length_app. simpl. apply Forall_app. split; [|repeat constructor; lia].
      eapply Forall_impl; [exact Hlt|]. simpl. lia.
  - exists r.2. split_and!; [by destruct s2; simpl in *; subst| | |done].
    + unfold is_active. assert (∀ fl sv, lc_flags (lc_set_flags fl (lc_set_services sv s2)) = fl) as -> by by destruct s2.
      rewrite Hf. by rewrite list_lookup_middle.
    + intros e He. rewrite is_active_snoc; [by unfold is_active; rewrite Hf|]. rewrite Hf.
      rewrite Forall_forall in Hlt. apply Hlt, list_elem_of_fmap. eauto.
Qed.

(** Dropping a listener makes its service inactive, and no other. *)
Lemma lc_drop_listener_spec (l : OnionListener (ClientListener (TL:=TL))) s :
  cl_is_active (ol_listener l) < length (lc_flags s) →
  lc_onion_services (lc_drop_listener l s) = lc_onion_services s ∧ (lc_inv s → lc_inv (lc_drop_listener l s)) ∧
  is_active (lc_drop_listener l s) (cl_is_active (ol_listener l)) = false ∧
  ∀ flag, flag ≠ cl_is_active (ol_listener l) → is_active (lc_drop_listener l s) flag = is_active s flag.
Proof.
  intros Hlt. unfold lc_drop_listener, lc_inv, is_active. destruct s. simpl in *. split_and!; [done| | |].
  - by rewrite length_insert.
  - by rewrite list_lookup_insert_eq.
  - intros flag Hne. by rewrite list_lookup_insert_ne.
Qed.

(** ** Tokens *)

Definition tokens_ok s : Prop :=
  bt_sorted (lc_circuit_tokens s) ∧ Forall (λ e, e.1 < Z.of_nat (lc_circuit_token_counter s))%Z (lc_circuit_tokens s).

Lemma generate_token_spec s :
  tokens_ok s →
  let '(token, s') := lc_generate_token s in
  tokens_ok s' ∧ bt_get (lc_circuit_tokens s) (Z.of_nat token) = None ∧
  ∀ k, bt_get (lc_circuit_tokens s') k =
    if (k =? Z.of_nat token)%Z then Some (circuit_token_new (lc_draws s)) else bt_get (lc_circuit_tokens s) k.
Proof.
  intros [Hs Hf]. destruct s as [h dr fl da ve co bo so se ct tk]. unfold lc_generate_token, tokens_ok. simpl in *.
  split_and!.
  - by apply bt_insert_sorted.
  - apply bt_insert_Forall; [|cbn [fst]; lia]. eapply Forall_impl; [exact Hf|]. intros [k v]. cbn [fst]. lia.
  - apply bt_get_None. intros Hin. apply list_elem_of_fmap in Hin as ([k v] & Hk & Hin). rewrite Forall_forall in Hf.
    specialize (Hf _ Hin). simpl in *. lia.
  - intros k. by apply bt_get_insert.
Qed.

Lemma release_token_spec token s :
  tokens_ok s →
  tokens_ok (lc_release_token token s) ∧
  ∀ k, bt_get (lc_circuit_tokens (lc_release_token token s)) k =
    if (k =? Z.of_nat token)%Z then None else bt_get (lc_circuit_tokens s) k.
Proof.
  intros [Hs Hf]. destruct s as [h dr fl da ve co bo so se ct tk]. unfold lc_release_token, tokens_ok. simpl in *. split_and!.
  - by apply bt_remove_sorted.
  - by apply bt_remove_Forall.
  - intros k. by apply bt_get_remove.
Qed.
End client.
