(* ===== verification/ControlScript.v ===== *)
(** A scripted control socket and a concrete matcher for the expressions of the sources: a
    model of the interfaces [ControlSocket] and [RegexLib] on which controllers can be
    run. *)

From Stdlib Require Import ZArith Lia.
From S2P Require Import Prelude HonkSize HonkSession Str NetAddr Regexes ControlStream ControlTheory.
From stdpp Require Import prelude strings list.
From coqutil Require Import Byte.

Open Scope nat_scope.

(** * The socket *)

(** What each [read_to_end] finds before it times out, and what was written. *)
Record ControlWire := mkControlWire { cw_in : list bytes; cw_received : bytes; cw_sent : bytes }.

(** What tor sends on the port of the witnesses: a multi-line reply, an event and a last
    line, cut in the middle of a line and of a line end. *)
Definition demo_chunks (port : Z) : list bytes :=
  if (port =? 9051)%Z then
    [lit "250+info=" ++ [carriage_return];
     [newline] ++ lit "first" ++ [carriage_return; newline; dot; carriage_return; newline] ++ lit "250 O";
     lit "K" ++ [carriage_return; newline] ++ lit "650 HELLO" ++ [carriage_return; newline];
     lit "250 OK" ++ [carriage_return; newline]]
  else [].

#[export] Instance wire_socket : ControlSocket ControlWire := {
  ctl_connect addr := IoOk (mkControlWire (demo_chunks (sa_port addr)) [] []);
  ctl_set_read_timeout _ w := (IoOk tt, w);
  ctl_read_to_end w :=
    match cw_in w with
    | [] => ([], IoErr TimedOut, w)
    | chunk :: rest => (chunk, IoErr TimedOut, mkControlWire rest (cw_received w ++ chunk) (cw_sent w))
    end;
  ctl_write_all b w := (IoOk tt, mkControlWire (cw_in w) (cw_received w) (cw_sent w ++ b));
}.

#[export] Instance wire_socket_laws : ControlSocketLaws ControlWire.
Proof.
  refine {| ctl_received := cw_received; ctl_waiting := λ w, length (concat (cw_in w)) |}; simpl.
  - intros [i r s] got x w'. simpl. destruct i as [|c i]; intros [= <- <- <-]; simpl; [by rewrite app_nil_r|].
    rewrite length_app. split; [done|lia].
  - intros b [i r s] x w'. by intros [= <- <-].
Defined.

(** * The expressions *)

Definition ascii_digit (c : Z) : bool := ((48 <=? c) && (c <=? 57))%Z.

Fixpoint span_bytes (p : Init.Byte.byte → bool) (s : str) : str * str :=
  match s with
  | b :: s' => if p b then let '(x, y) := span_bytes p s' in (b :: x, y) else ([], s)
  | [] => ([], [])
  end.

Definition is_letter (b : Init.Byte.byte) : bool := in_range 97 122 b || in_range 65 90 b.

(** The first of some words a string starts with, and the rest. *)
Fixpoint strip_word (words : list str) (s : str) : option (str * str) :=
  match words with
  | [] => None
  | w :: words => if str_starts_with s w then Some (w, drop (length w) s) else strip_word words s
  end.

Definition match_status (s : str) : option (list (string * str)) :=
  match strip_word [lit "STATUS_CLIENT "] s with
  | None => None
  | Some (_, s) =>
      match strip_word [lit "NOTICE "; lit "WARN "; lit "ERR "] s with
      | None => None
      | Some (severity, s) =>
          let action := (span_bytes is_letter s).1 in
          if bool_decide (action = []) then None
          else Some [("severity", take (length severity - 1) severity); ("action", action)]
      end
  end.

Definition match_hs_desc_here (s : str) : option (list (string * str)) :=
  match strip_word [lit "HS_DESC "] s with
  | None => None
  | Some (_, s) =>
      match strip_word [lit "REQUESTED "; lit "UPLOAD "; lit "RECEIVED "; lit "UPLOADED "; lit "IGNORE ";
                        lit "FAILED "; lit "CREATED "] s with
      | None => None
      | Some (action, s) =>
          let addr := take 56 s in
          if bool_decide (length addr = 56) && forallb is_base32_char addr
          then Some [("action", take (length action - 1) action); ("hsaddress", addr)] else None
      end
  end.
Fixpoint match_hs_desc (s : str) : option (list (string * str)) :=
  match match_hs_desc_here s with
  | Some caps => Some caps
  | None => match s with [] => None | _ :: s => match_hs_desc s end
  end.

(** One argument at the front, with the rest of the string. *)
Definition match_argument (s : str) : option (list (string * str) * str) :=
  let '(key, s) := span_bytes (in_range 65 90) s in
  match key, s with
  | _ :: _, b :: s =>
      if bool_decide (b = equals) then
        match s with
        | q :: s' =>
            if bool_decide (q = dquote) then
              let '(inner, rest) := span_bytes (λ b, negb (bool_decide (b = dquote))) s' in
              match inner, rest with
              | c :: _, q' :: rest =>
                  if continuation c then None
                  else Some ([("key", key); ("value", dquote :: inner ++ [dquote])], rest)
              | _, _ => None
              end
            else
              let '(v, rest) := span_bytes (λ b, is_letter b || is_dec_digit b || bool_decide (b = Byte.x5f)) s in
              if bool_decide (v = []) then None else Some ([("key", key); ("value", v)], rest)
        | [] => None
        end
      else None
  | _, _ => None
  end.
Fixpoint match_arguments (fuel : nat) (s : str) : list (list (string * str)) :=
  match fuel with
  | O => []
  | S fuel =>
      match match_argument s with
      | Some (caps, rest) => caps :: match_arguments fuel rest
      | None => match s with [] => [] | _ :: s => match_arguments fuel s end
      end
  end.

(** An expression is its text. *)
#[export] Instance text_regex : RegexLib := {
  Regex := string;
  re_new p := Some p;
  re_is_match p s :=
    if String.eqb p single_line_pattern then three_digits ascii_digit (Some 45%Z) s
    else if String.eqb p multi_line_pattern then three_digits ascii_digit None s
    else if String.eqb p end_reply_pattern then three_digits ascii_digit (Some 32%Z) s
    else if String.eqb p transport_pattern then existsb is_identifier (str_split newline s)
    else if String.eqb p fingerprint_pattern then existsb is_hex40 (str_split newline s)
    else false;
  re_captures p s :=
    if String.eqb p onion_service_pattern then line_captures onion_line s
    else if String.eqb p domain_pattern then line_captures domain_line s
    else if String.eqb p bridge_option_pattern then
      match key_value s with Some (k, v) => Some [("key", k); ("value", v)] | None => None end
    else if String.eqb p status_event_pattern then match_status s
    else if String.eqb p hs_desc_pattern then match_hs_desc s
    else None;
  re_captures_iter p s := match_arguments (S (length s)) s;
}.

#[export] Instance text_reply_laws : ReplyRegexLaws text_regex.
Proof. refine {| re_digit := ascii_digit |}; [done|by eexists..]. Defined.
#[export] Instance text_addr_laws : AddrRegexLaws text_regex.
Proof. split; by eexists. Defined.
#[export] Instance text_bridge_laws : BridgeRegexLaws text_regex.
Proof. split; by eexists. Defined.

Lemma match_status_groups s caps :
  match_status s = Some caps → is_Some (group caps "severity") ∧ is_Some (group caps "action").
Proof.
  unfold match_status. destruct (strip_word _ s) as [[? s1]|]; [|done].
  destruct (strip_word _ s1) as [[sev s2]|]; [|done]. case_bool_decide; [done|]. intros [= <-]. simpl. eauto.
Qed.

Lemma match_hs_desc_groups s caps :
  match_hs_desc s = Some caps →
  is_Some (group caps "action") ∧
  ∃ a, group caps "hsaddress" = Some a ∧ length a = 56 ∧ forallb is_base32_char a = true.
Proof.
  assert (∀ s, match_hs_desc_here s = Some caps → is_Some (group caps "action") ∧
    ∃ a, group caps "hsaddress" = Some a ∧ length a = 56 ∧ forallb is_base32_char a = true) as Hh.
  { intros t. unfold match_hs_desc_here. destruct (strip_word _ t) as [[? s1]|]; [|done].
    destruct (strip_word _ s1) as [[act s2]|]; [|done].
    case_bool_decide as Hl; [|done]. destruct (forallb _ _) eqn:Hf; [|done]. intros [= <-]. simpl. eauto. }
  induction s as [|b s IH]; cbn [match_hs_desc].
  - destruct (match_hs_desc_here []) eqn:E; [|done]. intros [= <-]. by apply (Hh []).
  - destruct (match_hs_desc_here (b :: s)) eqn:E; [|done]. intros [= <-]. by apply (Hh (b :: s)).
Qed.

Lemma match_arguments_groups fuel s :
  Forall (λ caps, is_Some (group caps "key") ∧
    ∃ v, group caps "value" = Some v ∧ v ≠ [dquote] ∧
      (starts_with_byte v dquote = true → is_char_boundary v 1 = true)) (match_arguments fuel s).
Proof.
  revert s. induction fuel as [|fuel IH]; intros s; simpl; [constructor|].
  destruct (match_argument s) as [[caps rest]|] eqn:E; [|destruct s; [constructor|apply IH]].
  constructor; [|apply IH]. revert E. unfold match_argument.
  destruct (span_bytes _ s) as [key s1]. destruct key as [|k0 key]; [done|]. destruct s1 as [|b s1]; [done|].
  case_bool_decide; [|done]. destruct s1 as [|q s1]; [done|]. case_bool_decide.
  - destruct (span_bytes _ s1) as [inner rest1]. destruct inner as [|c inner]; [done|]. destruct rest1 as [|q' rest1]; [done|].
    destruct (continuation c) eqn:Hc; [done|]. intros [= <- <-]. simpl. split; [eauto|]. eexists. split; [done|].
    split; [by destruct inner|]. intros _. unfold is_char_boundary. simpl. by rewrite Hc.
  - destruct (span_bytes _ (q :: s1)) as [v rest1] eqn:Hv. case_bool_decide; [done|]. intros [= <- <-]. simpl. split; [eauto|].
    exists v. cbn [span_bytes] in Hv. destruct (is_letter q || _ || _); [|by simplify_eq].
    destruct (span_bytes _ s1) as [x y]. injection Hv as <- <-. split; [done|]. split; [congruence|]. simpl.
    by rewrite bool_decide_eq_false_2.
Qed.

#[export] Instance text_event_laws : EventRegexLaws text_regex.
Proof.
  split; eexists; (split; [done|]).
  - apply match_status_groups.
  - intros s. apply match_arguments_groups.
  - apply match_hs_desc_groups.
Defined.
