(* ===== verification/ControllerTheory.v ===== *)
(** The controller over time: replies to commands and events in between are kept apart and
    in order; what commands look like on the wire. *)

From Stdlib Require Import ZArith Lia.
From S2P Require Import Prelude HonkSize HonkSession Str NetAddr Regexes Crypto TorCrypto TorVersion ControlStream.
From S2P Require Import ControlTheory ControlReplies TorController.
From stdpp Require Import prelude strings list.
From coqutil Require Import Byte.

Open Scope nat_scope.

Section controller.
Context `{CL : CryptoLib} {W : Type} `{CSL : ControlSocketLaws W} `{RE : ReplyRegexLaws}.
Implicit Types (self : LegacyTorController W).

(** ** A new stream follows what tor sends *)

Lemma control_stream_new_follows rs addr timeout s :
  control_stream_new addr timeout = Ok s → ctl_received (cs_stream s) = [] →
  sends (unlines (wire_of rs)) (cs_stream s) → following rs 0 s.
Proof.
  unfold control_stream_new. destruct (timeout =? 0)%Z; [done|]. destruct (ctl_connect addr) as [w|]; [|done].
  destruct (ctl_set_read_timeout timeout w) as [[u|] w']; [|done].
  destruct re_single as (r1 & -> & H1), re_multi as (r2 & -> & H2), re_end as (r3 & -> & H3).
  intros [= <-] Hr Hs. simpl in *. split; [by split|done|].
  exists [], (wire_of rs). split_and!; [by rewrite drop_0|unfold delivered; simpl; by rewrite Hr|done].
Qed.

(** ** Reading through the controller *)

(** The replies from the [n]-th up to the [k]-th. *)
Definition replies_between (rs : list WireReply) (n k : nat) : list Reply := reply_of <$> take (k - n) (drop n rs).

Lemma replies_between_cons rs n k w :
  rs !! n = Some w → S n ≤ k → replies_between rs n k = reply_of w :: replies_between rs (S n) k.
Proof.
  intros Hn Hk. unfold replies_between. rewrite (drop_S _ _ _ Hn).
  replace (k - n) with (S (k - S n)) by lia. done.
Qed.

Lemma replies_between_nil rs n : replies_between rs n n = [].
Proof. unfold replies_between. by rewrite Nat.sub_diag. Qed.

Definition stream_error (e : TCError) : Prop :=
  e = ReadReplyFailed ClosedByRemote ∨ ∃ kind, e = ReadReplyFailed (CS_ReadFailed kind).

Lemma on_stream_follows rs n fuel self :
  Forall wire_ok rs → following rs n (tc_control_stream self) →
  match on_control_stream ReadReplyFailed (read_reply fuel) self with
  | Done (self', r) =>
      tc_async_replies self' = tc_async_replies self ∧
      match r with
      | Ok (Some reply) => ∃ w, rs !! n = Some w ∧ reply = reply_of w ∧ following rs (S n) (tc_control_stream self') ∧
          backlog (tc_control_stream self') < backlog (tc_control_stream self)
      | Ok None => following rs n (tc_control_stream self')
      | Err e => stream_error e ∧ following rs n (tc_control_stream self')
      end
  | Panicked => False
  | OutOfFuel => fuel ≤ backlog (tc_control_stream self)
  end.
Proof.
  intros Hrs Hf. pose proof (read_reply_follows rs n fuel _ Hrs Hf) as Hp. unfold on_control_stream.
  destruct (read_reply fuel (tc_control_stream self)) as [[s [[reply|]|e]]| |]; simpl in Hp; [..|done|done].
  - destruct Hp as ((w & Hw & ->) & Hfo & Hb). split; [by destruct self|]. exists w. by destruct self.
  - split; [by destruct self|]. destruct self. by destruct Hp.
  - destruct Hp as [He Hfo]. split; [by destruct self|]. split; [|by destruct self].
    destruct He as [->|[k ->]]; [by left|right; by exists k].
Qed.

(** Waiting for the reply to a command: the events before it are kept, in order. *)
Lemma wait_sync_reply_follows rs fuel n self :
  Forall wire_ok rs → following rs n (tc_control_stream self) →
  match wait_sync_reply fuel self with
  | Done (self', r) =>
      ∃ k, n ≤ k ∧ tc_async_replies self' = tc_async_replies self ++ replies_between rs n k ∧
      Forall (λ reply, status_code reply = 650%Z) (replies_between rs n k) ∧
      match r with
      | Ok reply => ∃ w, rs !! k = Some w ∧ reply = reply_of w ∧ status_code reply ≠ 650%Z ∧
          following rs (S k) (tc_control_stream self')
      | Err e => stream_error e ∧ following rs k (tc_control_stream self')
      end
  | Panicked => False
  | OutOfFuel => True
  end.
Proof.
  intros Hrs. revert n self. induction fuel as [|fuel IH]; intros n self Hf; [done|].
  cbn [wait_sync_reply]. unfold mbind at 1, M_bind at 1.
  pose proof (on_stream_follows rs n (S fuel) self Hrs Hf) as Hp.
  destruct (on_control_stream ReadReplyFailed (read_reply (S fuel)) self) as [[self1 [[reply|]|e]]| |]; [..|done|done].
  - destruct Hp as (Ha & w & Hw & -> & Hf1 & _). destruct (Z.eqb_spec (status_code (reply_of w)) 650) as [Hc|Hc].
    + unfold mbind, M_bind, modify. set (self2 := tc_set_async _ self1).
      assert (tc_async_replies self2 = tc_async_replies self ++ [reply_of w] ∧
        tc_control_stream self2 = tc_control_stream self1) as [Ha2 Hs2].
      { unfold self2. rewrite Ha. by destruct self1. }
      specialize (IH (S n) self2). rewrite Hs2 in IH. specialize (IH Hf1).
      destruct (wait_sync_reply fuel self2) as [[self' r]| |]; [|done|done].
      destruct IH as (k & Hk & Hasync & Hall & Hr). exists k. rewrite (replies_between_cons _ _ _ _ Hw Hk).
      split_and!; [lia| |by constructor|done]. rewrite Hasync, Ha2. by rewrite <- (assoc_L (++)).
    + exists n. rewrite replies_between_nil, app_nil_r, Ha. split_and!; [done..|].
      exists w. by split_and!.
  - destruct Hp as [Ha Hf1]. specialize (IH n self1 Hf1). rewrite Ha in IH. done.
  - destruct Hp as (Ha & He & Hf1). exists n. rewrite replies_between_nil, app_nil_r, Ha. by split_and!.
Qed.

(** Taking what has arrived: the events kept so far and all further replies, in order. *)
Lemma read_replies_follows rs fuel n self replies :
  Forall wire_ok rs → following rs n (tc_control_stream self) →
  match read_replies fuel replies self with
  | Done (self', r) =>
      tc_async_replies self' = tc_async_replies self ∧
      ∃ k, n ≤ k ∧ following rs k (tc_control_stream self') ∧
      match r with
      | Ok replies' => replies' = replies ++ replies_between rs n k
      | Err e => stream_error e
      end
  | Panicked => False
  | OutOfFuel => fuel ≤ backlog (tc_control_stream self)
  end.
Proof.
  intros Hrs. revert n self replies. induction fuel as [|fuel IH]; intros n self replies Hf; [simpl; lia|].
  cbn [read_replies]. unfold mbind at 1, M_bind at 1.
  pose proof (on_stream_follows rs n (S fuel) self Hrs Hf) as Hp.
  destruct (on_control_stream ReadReplyFailed (read_reply (S fuel)) self) as [[self1 [[reply|]|e]]| |]; [..|done|done].
  - destruct Hp as (Ha & w & Hw & -> & Hf1 & Hb). specialize (IH (S n) self1 (replies ++ [reply_of w]) Hf1).
    destruct (read_replies fuel (replies ++ [reply_of w]) self1) as [[self' r]| |]; [|done|lia].
    destruct IH as (Ha' & k & Hk & Hf' & Hr). split; [congruence|]. exists k. split_and!; [lia|done|].
    destruct r as [replies'|]; [|done]. rewrite Hr, (replies_between_cons _ _ _ _ Hw Hk). by rewrite <- (assoc_L (++)).
  - destruct Hp as [Ha Hf1]. split; [done|]. exists n. by rewrite replies_between_nil, app_nil_r.
  - destruct Hp as (Ha & He & Hf1). split; [done|]. by exists n.
Qed.

(** ** Events *)

(** The expressions of a controller match as the crate documents. *)
Record events_ok self : Prop := {
  eo_status s caps : re_captures (tc_status_event_pattern self) s = Some caps →
    is_Some (group caps "severity") ∧ is_Some (group caps "action");
  eo_argument s : Forall (λ caps, is_Some (group caps "key") ∧
      ∃ v, group caps "value" = Some v ∧ v ≠ [dquote] ∧ (starts_with_byte v dquote = true → is_char_boundary v 1 = true))
    (re_captures_iter (tc_status_event_argument_pattern self) s);
  eo_hs_desc s caps : re_captures (tc_hs_desc_pattern self) s = Some caps →
    is_Some (group caps "action") ∧ is_Some (group caps "hsaddress");
}.

Lemma controller_new_ok `{!EventRegexLaws RL} s self :
  controller_new s = Ok self → events_ok self ∧ tc_control_stream self = s ∧ tc_async_replies self = [].
Proof.
  unfold controller_new. destruct re_status as (r1 & -> & H1), re_argument as (r2 & -> & H2), re_hs_desc as (r3 & -> & H3).
  intros [= <-]. split; [|done]. split; simpl; [done..|]. intros s0 caps Hc.
  destruct (H3 _ _ Hc) as (? & a & -> & _). eauto.
Qed.

(** A value in quotes can be cut out of them. *)
Lemma quoted_slice v :
  starts_with_byte v dquote = true → ends_with_byte v dquote = true → v ≠ [dquote] → is_char_boundary v 1 = true →
  is_Some (str_slice v 1 (length v - 1)).
Proof.
  intros Hs He Hne Hb. unfold str_slice. rewrite Hb.
  destruct v as [|a [|b v]]; [done|simpl in Hs; apply bool_decide_eq_true in Hs; by subst|].
  rewrite bool_decide_eq_true_2 by (simpl; lia). unfold is_char_boundary at 1.
  unfold ends_with_byte in He. rewrite last_lookup in He. replace (length (a :: b :: v) - 1) with (pred (length (a :: b :: v))) by lia.
  destruct ((a :: b :: v) !! _) as [x|]; [|done]. apply bool_decide_eq_true in He as ->. simpl. rewrite orb_true_r. eauto.
Qed.

Lemma reply_to_event_total self reply : events_ok self → ∃ r, reply_to_event self reply = Done r.
Proof.
  intros [H1 H2 H3]. unfold reply_to_event. destruct (negb _); [eauto|].
  set (text := str_join [space] (reply_lines reply)).
  assert (is_Some (event_arguments (re_captures_iter (tc_status_event_argument_pattern self) text))) as [args Hargs].
  { specialize (H2 text). induction H2 as [|caps l ((key & Hk) & v & Hv & Hne & Hb) _ [args IH]]; simpl; [eauto|].
    unfold event_argument. rewrite Hk, Hv, IH.
    destruct (starts_with_byte v dquote) eqn:Hs; [|simpl; eauto]. destruct (ends_with_byte v dquote) eqn:He; [|simpl; eauto].
    destruct (quoted_slice v) as [x Hx]; auto. simpl. rewrite Hx. eauto. }
  destruct (re_captures (tc_status_event_pattern self) text) as [caps|] eqn:Hc.
  { destruct (H1 _ _ Hc) as [[sev ->] [act ->]]. rewrite Hargs. eauto. }
  destruct (re_captures (tc_hs_desc_pattern self) text) as [caps|] eqn:Hd; [|eauto].
  destruct (H3 _ _ Hd) as [[act ->] [addr ->]]. destruct (service_id_from_string _); eauto.
Qed.
End controller.

(** * Quoted strings *)

(** QuotedString of the control specification, after the opening quote: the string and what
    follows the closing quote. *)
Fixpoint read_quoted (s : str) : option (str * str) :=
  match s with
  | [] => None
  | b :: s' =>
      if bool_decide (b = dquote) then Some ([], s')
      else if bool_decide (b = backslash) then
        match s' with
        | [] => None
        | c :: s' => match read_quoted s' with Some (x, rest) => Some (c :: x, rest) | None => None end
        end
      else match read_quoted s' with Some (x, rest) => Some (b :: x, rest) | None => None end
  end.

Definition quoted_byte (b : Init.Byte.byte) : str :=
  if bool_decide (b = backslash) then [backslash; backslash]
  else if bool_decide (b = dquote) then [backslash; dquote] else [b].

Lemma replace_byte_app b by_ s t : replace_byte b by_ (s ++ t) = replace_byte b by_ s ++ replace_byte b by_ t.
Proof. apply flat_map_app. Qed.

Lemma quoted_string_cons b s : quoted_string (b :: s) = quoted_byte b ++ quoted_string s.
Proof.
  unfold quoted_string, quoted_byte. change (b :: s) with ([b] ++ s). rewrite !replace_byte_app. f_equal.
  unfold replace_byte. simpl. case_bool_decide; [by subst|]. simpl. case_bool_decide; [by subst|done].
Qed.

(** A quoted string ends where it should, and is read back. *)
Lemma read_quoted_string s rest : read_quoted (quoted_string s ++ dquote :: rest) = Some (s, rest).
Proof.
  induction s as [|b s IH]; [done|]. rewrite quoted_string_cons, <- (assoc_L (++)). unfold quoted_byte.
  case_bool_decide as H1; [subst; simpl; by rewrite IH|].
  case_bool_decide as H2; [subst; simpl; by rewrite IH|]. simpl.
  rewrite !bool_decide_eq_false_2 by done. by rewrite IH.
Qed.

Lemma quoted_string_plain s : dquote ∉ s → backslash ∉ s → quoted_string s = s.
Proof.
  induction s as [|b s IH]; [done|]. rewrite !not_elem_of_cons. intros [H1 H2] [H3 H4].
  rewrite quoted_string_cons, IH by done. unfold quoted_byte. by rewrite !bool_decide_eq_false_2 by done.
Qed.

(** ** SETCONF read back *)

(** One key and value at the front: the key up to the equals sign, the value in quotes. *)
Definition read_key_value (s : str) : option (str * str * str) :=
  match find_byte s equals with
  | Some i =>
      match drop (S i) s with
      | b :: s' => if bool_decide (b = dquote) then
                     match read_quoted s' with Some (v, rest) => Some (take i s, v, rest) | None => None end
                   else None
      | [] => None
      end
  | None => None
  end.

(** The arguments, separated by single spaces. *)
Fixpoint read_key_values (fuel : nat) (s : str) : option (list (str * str)) :=
  match fuel with
  | O => None
  | S fuel =>
      match s with
      | [] => Some []
      | b :: s' =>
          if bool_decide (b = space) then
            match read_key_value s' with
            | Some (k, v, rest) =>
                match read_key_values fuel rest with Some l => Some ((k, v) :: l) | None => None end
            | None => None
            end
          else None
      end
  end.

Definition read_setconf (s : str) : option (list (str * str)) :=
  if str_starts_with s (lit "SETCONF") then read_key_values (S (length s)) (drop 7 s) else None.

Lemma find_byte_app b s t : b ∉ s → find_byte (s ++ b :: t) b = Some (length s).
Proof.
  induction s as [|x s IH]; intros Hn; simpl; [by rewrite bool_decide_eq_true_2|].
  apply not_elem_of_cons in Hn as [Hx Hs]. rewrite bool_decide_eq_false_2 by done. by rewrite IH.
Qed.

Lemma read_key_value_text k v rest :
  equals ∉ k → read_key_value (k ++ [equals] ++ quote (quoted_string v) ++ rest) = Some (k, v, rest).
Proof.
  intros Hk. unfold read_key_value, quote. simpl. rewrite <- !(assoc_L (++)). simpl. rewrite find_byte_app by done.
  rewrite (drop_app_ge _ (equals :: _)) by lia. replace (S (length k) - length k) with 1 by lia. simpl.
  rewrite read_quoted_string, take_app_length. done.
Qed.

Lemma str_join_cons x l : str_join [space] (x :: l) = x ++ flat_map (cons space) l.
Proof.
  revert x. induction l as [|y l IH]; intros x; [by rewrite app_nil_r|].
  change (str_join [space] (x :: y :: l)) with (x ++ [space] ++ str_join [space] (y :: l)). by rewrite IH.
Qed.

Lemma read_key_values_text kvs fuel :
  Forall (λ kv, equals ∉ kv.1) kvs → length kvs < fuel →
  read_key_values fuel (flat_map (cons space)
    ((λ '(key, value), key ++ [equals] ++ quote (quoted_string (trim value))) <$> kvs)) =
  Some ((λ '(key, value), (key, trim value)) <$> kvs).
Proof.
  intros Hk. revert fuel. induction Hk as [|[k v] kvs Hkv _ IH]; intros fuel Hf; (destruct fuel as [|fuel]; [lia|]); [done|].
  csimpl. rewrite <- (assoc_L (++) k). simpl in Hkv.
  pose proof (read_key_value_text k (trim v)) as Hr. simpl in Hr. simpl. rewrite Hr by done.
  simpl in IH. by rewrite IH by (simpl in Hf; lia).
Qed.

Lemma str_starts_with_app s t : str_starts_with (s ++ t) s = true.
Proof. apply bool_decide_eq_true. by rewrite take_app_length. Qed.

Lemma read_setconf_text kvs :
  Forall (λ kv, equals ∉ kv.1) kvs →
  read_setconf (setconf_text kvs) = Some ((λ '(key, value), (key, trim value)) <$> kvs).
Proof.
  intros Hk. unfold read_setconf, setconf_text. rewrite str_join_cons, str_starts_with_app.
  set (x := flat_map _ _). change (drop 7 (lit "SETCONF" ++ x)) with x. apply read_key_values_text; [done|].
  rewrite length_app. enough (length kvs ≤ length x) by lia. unfold x. clear. induction kvs as [|[k v] kvs IH]; [simpl; lia|].
  csimpl. simpl flat_map. rewrite length_app in *. simpl in *. lia.
Qed.
