(* ===== verification/ControlProps.v ===== *)
(** The properties of the control port of the legacy tor provider: versions, replies, the
    controller and its commands. *)

From Stdlib Require Import ZArith Lia.
From S2P Require Import Prelude HonkSize HonkSession Str NetAddr Regexes Crypto TorCrypto CryptoModel TorVersion.
From S2P Require Import ControlStream ControlTheory ControlReplies ControlScript TorController ControllerTheory.
From stdpp Require Import prelude strings list.
From coqutil Require Import Byte.

Open Scope nat_scope.

(** * Versions *)



(** * Replies *)

Section replies.
Context `{CL : CryptoLib} {W : Type} `{CSL : ControlSocketLaws W} `{RE : ReplyRegexLaws}.

(** Calls of [read_reply], one after the other, and the replies they returned. *)
Inductive polls (s0 : LegacyControlStream W) : list Reply → LegacyControlStream W → Prop :=
| polls_none : polls s0 [] s0
| polls_call replies s fuel s' r :
    polls s0 replies s → read_reply fuel s = Done (s', r) →
    polls s0 (replies ++ match r with Ok (Some reply) => [reply] | _ => [] end) s'.

Lemma polls_replies_follow rs s0 replies s :
  Forall wire_ok rs → following rs 0 s0 → polls s0 replies s →
  following rs (length replies) s ∧ replies = reply_of <$> take (length replies) rs.
Proof.
  intros Hrs H0. induction 1 as [|replies s fuel s' r Hp [IH1 IH2] Hr]; [done|].
  pose proof (read_reply_follows rs _ fuel s Hrs IH1) as Hpost. rewrite Hr in Hpost.
  destruct r as [[reply|]|e]; simpl in Hpost.
  - destruct Hpost as ((w & Hw & ->) & Hf & _). rewrite length_app, Nat.add_1_r. split; [done|].
    rewrite (take_S_r _ _ _ Hw), fmap_app, <- IH2. done.
  - rewrite app_nil_r. by destruct Hpost.
  - rewrite app_nil_r. by destruct Hpost.
Qed.

(** The control stream delivers the replies tor sends. *)
Lemma replies_delivered rs addr timeout s0 replies s fuel :
  Forall wire_ok rs → control_stream_new addr timeout = Ok s0 → ctl_received (cs_stream s0) = [] →
  sends (unlines (wire_of rs)) (cs_stream s0) → polls s0 replies s →
  replies = reply_of <$> take (length replies) rs ∧
  (backlog s < fuel → ∃ s' r, read_reply fuel s = Done (s', r) ∧
     match r with
     | Ok (Some reply) => reply_of <$> rs !! length replies = Some reply
     | Ok None => True
     | Err e => e = ClosedByRemote ∨ ∃ kind, e = CS_ReadFailed kind
     end).
Proof.
  intros Hrs Hnew Hrec Hs Hp. pose proof (control_stream_new_follows rs _ _ _ Hnew Hrec Hs) as H0.
  destruct (polls_replies_follow rs s0 replies s Hrs H0 Hp) as [Hf Heq]. split; [done|]. intros Hfuel.
  pose proof (read_reply_follows rs _ fuel s Hrs Hf) as Hpost.
  destruct (read_reply fuel s) as [[s' r]| |]; [|done|simpl in Hpost; lia]. exists s', r. split; [done|].
  destruct r as [[reply|]|e]; simpl in Hpost; [|done|by destruct Hpost].
  destruct Hpost as ((w & -> & ->) & _). done.
Qed.

(** The next pending line goes to [push_line]. *)
Lemma read_reply_pending fuel (w : W) cl data line lines pr rd r1 r2 r3 :
  read_reply (S fuel) (mkLegacyControlStream w cl data (line :: lines) pr rd r1 r2 r3) =
    match push_line r1 r2 r3 line (pr, rd) with
    | Done ((pr, rd), Ok true) =>
        match take_reply (pr, rd) with
        | Done ((pr, rd), r) => Done (mkLegacyControlStream w cl data lines pr rd r1 r2 r3, r)
        | Panicked => Panicked
        | OutOfFuel => OutOfFuel
        end
    | Done ((pr, rd), Ok false) => read_reply fuel (mkLegacyControlStream w cl data lines pr rd r1 r2 r3)
    | Done ((pr, rd), Err e) => Done (mkLegacyControlStream w cl data lines pr rd r1 r2 r3, Err e)
    | Panicked => Panicked
    | OutOfFuel => OutOfFuel
    end.
Proof.
  cbn [read_reply]. unfold mbind, M_bind. cbn [read_line]. unfold on_reply. cbn -[push_line take_reply read_reply].
  by destruct (push_line r1 r2 r3 line _) as [[[pr' rd'] [[]|e]]| |].
Qed.

Lemma code_alone code : code_ok code → ∀ next,
  three_digits re_digit next code = match next with None => true | Some _ => false end.
Proof.
  intros (b1 & b2 & b3 & d1 & d2 & d3 & -> & H1 & H2 & H3)%code_cases next.
  destruct (digit_ascii _ _ H1) as [A1 R1], (digit_ascii _ _ H2) as [A2 R2], (digit_ascii _ _ H3) as [A3 R3].
  destruct (utf8_ascii_cons b3 [] A3) as [U3 C3]; [done|]. destruct (utf8_ascii_cons b2 _ A2 U3) as [U2 C2].
  destruct (utf8_ascii_cons b1 _ A1 U2) as [U1 C1]. unfold three_digits. rewrite C1, C2, C3, R1, R2, R3. by destruct next.
Qed.

Lemma slice_short line : length line < 3 → str_slice line 0 3 = None.
Proof. intros Hl. destruct line as [|a [|b [|c l]]]; simpl in Hl; try lia; unfold str_slice, is_char_boundary; simpl; by rewrite ?andb_false_r. Qed.

Lemma bare_code_panics r1 r2 r3 :
  (∀ s, re_is_match r1 s = three_digits re_digit (Some 45%Z) s) →
  (∀ s, re_is_match r2 s = three_digits re_digit None s) →
  (∀ s, re_is_match r3 s = three_digits re_digit (Some 32%Z) s) →
  ∀ code text, code_ok code → text_ok text →
  push_line r1 r2 r3 code ([], false) = Done (([code], true), Ok false) ∧
  push_line r1 r2 r3 [dot] ([code], true) = Done (([code], false), Ok false) ∧
  push_line r1 r2 r3 (code ++ space :: text) ([code], false) = Done (([code; code ++ space :: text], false), Ok true) ∧
  take_reply ([code; code ++ space :: text], false) = Panicked.
Proof.
  intros R1 R2 R3 code text Hc Ht.
  assert (str_slice code 0 3 = Some code ∧ str_slice code 4 (length code) = None) as [Hs Hn].
  { destruct (code_cases _ Hc) as (b1 & b2 & b3 & d1 & d2 & d3 & -> & D1 & _).
    unfold str_slice, is_char_boundary. simpl. by rewrite (digit_not_continuation b1) by eauto. }
  split_and!.
  - unfold push_line. simpl. by rewrite R3, R1, R2, !code_alone.
  - by apply (push_dot _ _ _ R1 R2 R3 []).
  - by apply (push_end _ _ _ R3 code [code]).
  - unfold take_reply. rewrite Hs. destruct (code_parses _ Hc) as [n ->]. cbn [strip_codes].
    pose proof (str_starts_with_app code []) as Hsw. rewrite app_nil_r in Hsw. by rewrite Hsw, Hn.
Qed.

(** Replies that are not well-formed can make the library panic, and some well-formed ones
    are refused. *)
Lemma reply_defects (self : LegacyControlStream W) fuel :
  (∀ first pending line lines,
     cs_pending_reply self = first :: pending → cs_reading_multiline_value self = false →
     cs_pending_lines self = line :: lines → length line < 3 → read_reply (S fuel) self = Panicked) ∧
  (∀ code text lines, regexes_ok self → code_ok code → text_ok text →
     cs_pending_reply self = [] → cs_reading_multiline_value self = false →
     cs_pending_lines self = code :: [dot] :: (code ++ space :: text) :: lines →
     read_reply (S (S (S fuel))) self = Panicked) ∧
  (∀ line lines, regexes_ok self → three_digits re_digit None line = true →
     cs_reading_multiline_value self = true → cs_pending_lines self = line :: lines →
     ∃ self', read_reply (S fuel) self = Done (self', Err ReplyParseFailed)).
Proof.
  destruct self as [w cl data lns pr rd r1 r2 r3]. split_and!.
  - intros first pending line lines Hp Hr Hl Hlen. simpl in Hp, Hr, Hl. subst. rewrite read_reply_pending.
    unfold push_line. simpl. rewrite (slice_short line Hlen). by destruct (str_slice first 0 3).
  - intros code text lines [R1 R2 R3] Hc Ht Hp Hr Hl. simpl in R1, R2, R3, Hp, Hr, Hl. subst.
    destruct (bare_code_panics r1 r2 r3 R1 R2 R3 code text Hc Ht) as (P1 & P2 & P3 & P4).
    by rewrite read_reply_pending, P1, read_reply_pending, P2, read_reply_pending, P3, P4.
  - intros line lines [R1 R2 R3] Hd Hr Hl. simpl in R1, R2, R3, Hr, Hl. subst. rewrite read_reply_pending.
    unfold push_line. rewrite status_matches_reading, R3, R1, R2, Hd. repeat case_match; simplify_eq; by eexists.
Qed.


(** * The controller *)

End replies.

(** ** A controller that runs *)

Definition demo_replies : list WireReply :=
  [mkWireReply (lit "250") [Multi (lit "info=") [lit "first"]] (lit "OK");
   mkWireReply (lit "650") [] (lit "HELLO"); mkWireReply (lit "250") [] (lit "OK")].
Definition demo_addr : SocketAddr := SA_V4 [127; 0; 0; 1]%Z 9051.
Definition demo_stream (addr : SocketAddr) : LegacyControlStream ControlWire :=
  mkLegacyControlStream (mkControlWire (demo_chunks (sa_port addr)) [] []) false [] [] [] false
    single_line_pattern multi_line_pattern end_reply_pattern.

Lemma demo_replies_ok : Forall wire_ok demo_replies.
Proof.
  assert (code_ok (lit "250") ∧ code_ok (lit "650")) as [H1 H2].
  { split; (split; [done|]); apply (bool_decide_eq_true_1 _); by_eval. }
  repeat constructor; try done; try (apply (bool_decide_eq_true_1 _); by_eval); by_eval.
Qed.

(** A script sends nothing else. *)
Lemma script_sends w : sends (cw_received w ++ concat (cw_in w)) w.
Proof.
  intros w' Hr. enough (cw_received w' ++ concat (cw_in w') = cw_received w ++ concat (cw_in w)) as <- by by eexists.
  induction Hr as [|w w1 w2 (got & x & Hs) _ IH]; [done|]. rewrite IH. destruct w as [i r s]. simpl in Hs.
  destruct i as [|c i]; injection Hs as <- <- <-; simpl; [done|]. by rewrite <- (assoc_L (++)).
Qed.

Lemma demo_stream_sends : sends (unlines (wire_of demo_replies)) (cs_stream (demo_stream demo_addr)).
Proof.
  assert (unlines (wire_of demo_replies) = cw_received (cs_stream (demo_stream demo_addr)) ++
    concat (cw_in (cs_stream (demo_stream demo_addr)))) as -> by by_eval. apply script_sends.
Qed.

Definition demo_after (k : nat) : LegacyControlStream ControlWire :=
  Nat.iter k (λ s, match read_reply 200 s with Done (s', _) => s' | _ => s end) (demo_stream demo_addr).

(** A short line after a pending one. *)
Definition demo_short : LegacyControlStream ControlWire :=
  cs_set_lines [lit "x"] (cs_set_reply [lit "250-a"] (demo_stream demo_addr)).


Definition demo_controller : LegacyTorController ControlWire :=
  mkLegacyTorController (demo_after 1) [] status_event_pattern status_event_argument_pattern hs_desc_pattern.


(** * Commands *)

(** A value with line ends smuggles commands.  [quoted_string] escapes quotes and
    backslashes but not line ends, which end the line of the control port even inside quotes:
    the text between two line ends of a value reaches tor as a command of its own. *)
Lemma setconf_injects_commands key before cmd after :
  clean (lit "SETCONF " ++ key ++ [equals; dquote] ++ before) → clean cmd → clean (after ++ [dquote]) →
  dquote ∉ before ++ cmd ++ after → backslash ∉ before ++ cmd ++ after →
  trim (before ++ crlf ++ cmd ++ crlf ++ after) = before ++ crlf ++ cmd ++ crlf ++ after →
  lines_of (setconf_text [(key, before ++ crlf ++ cmd ++ crlf ++ after)] ++ crlf) =
    ([lit "SETCONF " ++ key ++ [equals; dquote] ++ before; cmd; after ++ [dquote]], []).
Proof.
  intros H1 H2 H3 Hq Hb Ht. set (value := before ++ crlf ++ cmd ++ crlf ++ after) in *.
  assert (quoted_string (trim value) = value) as Hv.
  { rewrite Ht. unfold value, crlf. rewrite !elem_of_app in *. apply quoted_string_plain; set_solver. }
  transitivity (lines_of (unlines [lit "SETCONF " ++ key ++ [equals; dquote] ++ before; cmd; after ++ [dquote]])).
  - f_equal. unfold setconf_text. csimpl. rewrite Hv. unfold unlines, quote, value. csimpl.
    repeat progress (rewrite <- ?(assoc_L (++)); simpl). done.
  - apply lines_of_unlines. by repeat constructor.
Qed.

(** Reading a SETCONF command gives back the keys and the trimmed values; a value with line
    ends smuggles commands. *)
Lemma setconf_lines :
  (∀ kvs, Forall (λ kv, equals ∉ kv.1) kvs →
     read_setconf (setconf_text kvs) = Some ((λ '(key, value), (key, trim value)) <$> kvs)) ∧
  (∀ key before cmd after,
     clean (lit "SETCONF " ++ key ++ [equals; dquote] ++ before) → clean cmd → clean (after ++ [dquote]) →
     dquote ∉ before ++ cmd ++ after → backslash ∉ before ++ cmd ++ after →
     trim (before ++ crlf ++ cmd ++ crlf ++ after) = before ++ crlf ++ cmd ++ crlf ++ after →
     lines_of (setconf_text [(key, before ++ crlf ++ cmd ++ crlf ++ after)] ++ crlf) =
       ([lit "SETCONF " ++ key ++ [equals; dquote] ++ before; cmd; after ++ [dquote]], [])).
Proof. split; [apply read_setconf_text|apply setconf_injects_commands]. Qed.
