(* ===== verification/TorProps.v ===== *)
(** The properties of the tor provider over a daemon: addresses and settings, the control
    password, and the onion services and connections of the client. *)

From Stdlib Require Import ZArith Lia.
From S2P Require Import Prelude Maps HonkSize HonkSession Str NetAddr NetAddrTheory Regexes Crypto TorCrypto CryptoModel.
From S2P Require Import Handshake TorProvider TorAddr TorConfig TorProcess TorVersion ControlStream TorController.
From S2P Require Import LegacyTorClient LegacyClientTheory ControlTheory ControllerTheory ControlScript ControlProps.
From stdpp Require Import prelude strings list.
From coqutil Require Import Byte.

Open Scope nat_scope.

(** * Addresses *)

Section addresses.
Context `{CL : CryptoLaws} `{RL : RegexLib} `{!AddrRegexLaws RL} `{SC : StrCase} `{!StrCaseLaws SC} `{DL : DomainLib}.

Lemma parse_digits_ge acc s n : (0 ≤ acc)%Z → parse_digits acc s = Some n → (acc ≤ n)%Z.
Proof.
  revert acc. induction s as [|b s IH]; intros acc Ha; simpl; [by intros [= <-]|].
  destruct (digit_of b) as [d|] eqn:Hd; [|done].
  assert (0 ≤ d)%Z by (unfold digit_of in Hd; case_match eqn:Hc; [|done]; apply andb_prop in Hc as [Hc _]; simplify_eq; lia).
  intros Hp. apply IH in Hp; lia.
Qed.

Lemma is_port_parse s p : is_port s = true → parse_uint u16_max s = Some p → (1 ≤ p ≤ u16_max)%Z.
Proof.
  intros Hs Hp. pose proof (parse_uint_range _ _ _ Hp) as Hr. destruct s as [|b s]; [done|].
  apply andb_prop in Hs as [[Hb _]%andb_prop _]. unfold parse_uint in Hp.
  assert (∃ d, digit_of b = Some d ∧ (1 ≤ d)%Z) as (d & Hd & H1).
  { unfold in_range in Hb. apply andb_prop in Hb as [Hb1 Hb2]. apply Z.leb_le in Hb1, Hb2. unfold digit_of.
    rewrite (proj2 (Z.leb_le _ _)) by lia. rewrite (proj2 (Z.leb_le _ _)) by lia. eexists. split; [done|]. lia. }
  rewrite bool_decide_eq_false_2 in Hp by (intros ->; by vm_compute in Hd). cbn [parse_digits] in Hp. rewrite Hd in Hp.
  replace (0 * 10 + d)%Z with d in Hp by lia. destruct (parse_digits d s) as [n|] eqn:Hn; [|done]. apply parse_digits_ge in Hn; [|lia].
  case_match; simplify_eq. lia.
Qed.

Lemma line_captures_elem m s caps : line_captures m s = Some caps → ∃ l, m l = Some caps.
Proof.
  unfold line_captures. induction (str_split newline s) as [|l ls IH]; simpl; [done|].
  destruct (m l) eqn:Hm; simpl; [intros [= <-]; eauto|done].
Qed.

Lemma onion_addr_from_str_total s :
  ∃ r, onion_addr_from_str s = Done r ∧
    match r with Ok (OA_V3 a) => is_valid (sid_data (oa_service_id a)) = true ∧ (1 ≤ oa_virt_port a ≤ u16_max)%Z | Err _ => True end.
Proof.
  unfold onion_addr_from_str. destruct re_onion as (re & -> & Hc). rewrite Hc.
  destruct (line_captures onion_line _) as [caps|] eqn:Hl; [|by eexists].
  apply line_captures_elem in Hl as [l Hl]. unfold onion_line in Hl. case_match eqn:Hcond; [|done]. injection Hl as <-.
  simpl. apply andb_prop in Hcond as [_ Hport].
  destruct (service_id_from_string _) as [id|] eqn:Hid; [|by eexists].
  destruct (parse_uint u16_max _) as [p|] eqn:Hp; [|by eexists]. eexists. split; [done|]. simpl.
  apply service_id_from_string_Ok in Hid as [? _]. split; [done|]. by eapply is_port_parse.
Qed.

Lemma domain_addr_from_str_total s :
  ∃ r, domain_addr_from_str s = Done r ∧
    match r with Ok a => str_ends_with (da_domain a) (lit ".onion") = false ∧ (1 ≤ da_port a ≤ u16_max)%Z | Err _ => True end.
Proof.
  unfold domain_addr_from_str. destruct re_domain as (re & -> & Hc). rewrite Hc.
  destruct (line_captures domain_line _) as [caps|] eqn:Hl; [|by eexists].
  apply line_captures_elem in Hl as [l Hl]. unfold domain_line in Hl. destruct (split_last_colon l) as [[d p]|]; [|done].
  destruct (is_port p) eqn:Hport; [|done]. injection Hl as <-. simpl.
  destruct (parse_uint u16_max p) as [n|] eqn:Hp; [|by eexists]. eexists. split; [done|]. unfold domain_addr_try_from.
  destruct (domain_to_ascii d) as [a|]; [|done]. destruct (name_from_str a) as [nm|]; [|done].
  destruct (str_ends_with nm _) eqn:He; simpl; [done|]. split; [done|]. by eapply is_port_parse.
Qed.

(** A service id does not begin an address of a socket. *)
Lemma onion_text_no_socket s : forallb is_base32_char (take 56 s) = true → length (take 56 s) = 56 → socket_addr_from_str s = None.
Proof.
  intros Hb Hl. unfold socket_addr_from_str.
  assert (∀ c, is_base32_char c = true → c ≠ dot ∧ c ≠ lbracket) as Hc by (intros c Hc; split; intros ->; done).
  assert (read_socket_addr_v6 s = None) as H6.
  { unfold read_socket_addr_v6, read_given_char. destruct s as [|c s]; [done|]. case_bool_decide; [|done]. subst.
    apply andb_prop in Hb as [Hb _]. by destruct (Hc _ Hb). }
  assert (read_socket_addr_v4 s = None) as ->; [|by rewrite H6].
  unfold read_socket_addr_v4, read_ipv4_addr. cbn [read_octets read_separator].
  destruct (read_number 10 _ _ _ s) as [[x rest]|] eqn:Hr; [|done].
  assert (∃ ds, take_digits 10 s = (ds, rest) ∧ length ds ≤ 3) as (ds & Hd & Hlen).
  { apply read_number_rest in Hr as Hrest. unfold read_number in Hr. destruct (take_digits 10 s) as [ds rest0]. simpl in Hrest. subst.
    exists ds. split; [done|]. by destruct (Nat.ltb_spec 3 (length ds)). }
  assert (∃ b rest', rest = b :: rest' ∧ b ≠ dot) as (b & rest' & -> & Hne).
  { assert (drop (length ds) s = rest) as <-.
    { clear -Hd. revert ds rest Hd. induction s as [|b s IH]; simpl; intros ds rest; [by intros [= <- <-]|].
      destruct (to_digit 10 b); [|by intros [= <- <-]]. destruct (take_digits 10 s) as [ds' rest'].
      intros [= <- <-]. simpl. by apply IH. }
    assert (length ds < length (take 56 s)) as Hlt by lia.
    destruct (lookup_lt_is_Some_2 _ _ Hlt) as [b Hb']. exists b.
    rewrite forallb_forall in Hb. apply list_elem_of_lookup_2 in Hb' as Hin. apply list_elem_of_In, Hb, Hc in Hin as [Hin _].
    rewrite lookup_take_lt in Hb' by lia. apply (drop_S s b) in Hb'. by eexists. }
  unfold read_given_char at 1. by rewrite bool_decide_eq_false_2.
Qed.

End addresses.

(** Libraries for the witnesses: cases of ASCII letters, and domain names left as they are. *)
#[export] Instance ascii_case : StrCase := { to_lowercase := map ascii_lower }.
#[export] Instance ascii_case_laws : StrCaseLaws ascii_case.
Proof. by intros s _. Qed.
#[export] Instance plain_domains : DomainLib :=
  { domain_to_ascii := Some; name_from_str := Some; to_user_interface s := s }.


(** * Bridges *)

Section bridges.
Context `{RL : RegexLib} `{!BridgeRegexLaws RL}.

Lemma split_join_pieces sep l : l ≠ [] → Forall (λ p, sep ∉ p) l → str_split sep (str_join [sep] l) = l.
Proof.
  intros Hl Hf. destruct Hf as [|x l Hx Hf]; [done|]. clear Hl. rewrite join_sep_all. revert x Hx.
  induction Hf as [|y l Hy Hf IH]; intros x Hx; [by rewrite app_nil_r, split_no|].
  rewrite sep_all_cons, split_app by done. by rewrite IH.
Qed.

Lemma key_value_text k v : equals ∉ k → k ≠ [] → key_value (keyvalue_text (k, v)) = Some (k, v).
Proof.
  intros Hk Hne. unfold key_value, keyvalue_text. cbn [fst snd app]. rewrite find_byte_app by done.
  destruct k as [|b k]; [done|]. cbn [length]. f_equal. f_equal.
  - by rewrite (take_app_length' (b :: k)).
  - replace (S (S (length k))) with (length (b :: k) + 1) by (simpl; lia). by rewrite <- drop_drop, drop_app_length.
Qed.

Lemma key_value_parts t k v : key_value t = Some (k, v) → t = keyvalue_text (k, v).
Proof.
  unfold key_value. destruct (find_byte t equals) as [[|i]|] eqn:Hf; [done| |done]. intros [= <- <-].
  assert (∀ t i, find_byte t equals = Some i → t = take i t ++ [equals] ++ drop (S i) t) as Hcut; [|by apply Hcut].
  clear. intros t. induction t as [|b t IH]; intros i; simpl; [done|]. case_bool_decide; [intros [= <-]; by subst|].
  destruct (find_byte t equals) as [j|]; [|done]. intros [= <-]. simpl. f_equal. by apply IH.
Qed.

Lemma read_keyvalues_text re kvs acc :
  (∀ s, newline ∉ s → re_captures re s = match key_value s with Some (k, v) => Some [("key", k); ("value", v)] | None => None end) →
  Forall (λ kv, key_invalid kv.1 = false ∧ newline ∉ kv.1 ∧ space ∉ kv.2 ∧ newline ∉ kv.2) kvs →
  read_keyvalues re (keyvalue_text <$> kvs) acc = Done (Ok (acc ++ kvs)).
Proof.
  intros Hre Hkvs. revert acc. induction Hkvs as [|[k v] kvs (Hk & Hk' & _ & Hv) Hkvs IH]; intros acc; simpl; [by rewrite app_nil_r|].
  cbn [fst snd] in *. unfold key_invalid in Hk. apply orb_false_iff in Hk as [[_ Heq%bool_decide_eq_false]%orb_false_iff Hlen].
  rewrite Hre.
  - rewrite key_value_text; [|done|by intros ->]. simpl. rewrite IH. by rewrite <- (assoc_L (++)).
  - unfold keyvalue_text. cbn [fst snd]. rewrite !not_elem_of_app. split_and!; [done| |done]. by rewrite list_elem_of_singleton.
Qed.

Lemma read_keyvalues_total re tokens acc :
  (∀ s, newline ∉ s → re_captures re s = match key_value s with Some (k, v) => Some [("key", k); ("value", v)] | None => None end) →
  Forall (λ t, space ∉ t ∧ newline ∉ t) tokens →
  ∃ r, read_keyvalues re tokens acc = Done r ∧
    match r with
    | Ok kvs => ∃ new, kvs = acc ++ new ∧ Forall (λ kv, newline ∉ kv.1 ∧ space ∉ kv.2 ∧ newline ∉ kv.2) new
    | Err e => e = BL_KeyValueInvalid
    end.
Proof.
  intros Hre Ht. revert acc. induction Ht as [|t tokens [Hs Hn] Ht IH]; intros acc; simpl.
  { eexists. split; [done|]. exists []. split; [by rewrite app_nil_r|constructor]. }
  rewrite Hre by done. destruct (key_value t) as [[k v]|] eqn:Hkv; [|by eexists]. simpl.
  destruct (IH (acc ++ [(k, v)])) as (r & -> & Hr). exists r. split; [done|]. destruct r as [kvs|]; [|done].
  destruct Hr as (new & -> & Hnew). exists ((k, v) :: new). split; [by rewrite <- (assoc_L (++))|]. constructor; [|done].
  apply key_value_parts in Hkv. subst t. unfold keyvalue_text in Hs, Hn. cbn [fst snd] in *.
  rewrite !not_elem_of_app in Hs, Hn. tauto.
Qed.

Lemma bridge_line_new_ok b :
  bridge_ok b → bridge_line_new (bl_transport b) (bl_address b) (bl_fingerprint b) (bl_keyvalues b) = Done (Ok b).
Proof.
  intros [H1 H2 H3 H4 H5]. unfold bridge_line_new.
  destruct re_transport as (r1 & -> & Ht), re_fingerprint as (r2 & -> & Hf). rewrite Ht, Hf.
  rewrite (split_no newline (bl_transport b)) by by eapply identifier_no.
  rewrite (split_no newline (bl_fingerprint b)) by by eapply hex40_no. cbn [existsb]. rewrite H1, H4. cbn [orb negb].
  destruct (Z.eqb_spec (sa_port (bl_address b)) 0); [done|].
  assert (existsb (λ kv, key_invalid kv.1) (bl_keyvalues b) = false) as ->; [|by destruct b].
  clear -H5. induction H5 as [|kv kvs (Hk & _) _ IH]; [done|]. simpl. by rewrite Hk.
Qed.

Lemma bridge_parts b :
  bridge_ok b → space ∉ bl_transport b ∧ space ∉ socket_addr_to_string (bl_address b) ∧ space ∉ bl_fingerprint b ∧
    Forall (λ t, space ∉ t) (keyvalue_text <$> bl_keyvalues b).
Proof.
  intros [H1 H2 H3 H4 H5]. split_and!.
  - by eapply identifier_no.
  - apply addr_char_no; [done|]. intros [Hd|Hd]; [by vm_compute in Hd; destruct Hd|]. set_solver.
  - by eapply hex40_no.
  - apply Forall_fmap. eapply Forall_impl; [exact H5|]. intros [k v] (Hk & _ & Hv & _). unfold compose, keyvalue_text. cbn [fst snd] in *.
    apply orb_false_iff in Hk as [[Hsp%bool_decide_eq_false _]%orb_false_iff _].
    rewrite !not_elem_of_app. split_and!; [done| |done]. by rewrite list_elem_of_singleton.
Qed.

(** What a bridge line prints is what it was, unless it has no options. *)
Lemma bridge_line_printed b :
  bridge_ok b →
  match bl_keyvalues b with
  | [] => bridge_line_from_str (as_legacy_tor_setconf_value b) = Done (Err BL_KeyValueInvalid) ∧
      bridge_line_from_str (bl_transport b ++ [space] ++ socket_addr_to_string (bl_address b) ++ [space] ++ bl_fingerprint b) =
        Done (Ok b)
  | _ => bridge_line_from_str (as_legacy_tor_setconf_value b) = Done (Ok b)
  end.
Proof.
  intros Hb. pose proof (bridge_line_new_ok b Hb) as Hnew.
  destruct (bridge_parts b Hb) as (S1 & S2 & S3 & S4). pose proof Hb as [H1 H2 H3 H4 H5].
  destruct re_option as (ro & Ho & Hro).
  assert (∀ tail tokens, str_split space (bl_transport b ++ [space] ++ socket_addr_to_string (bl_address b) ++ [space] ++
      bl_fingerprint b ++ tail) = bl_transport b :: socket_addr_to_string (bl_address b) :: tokens →
    bridge_line_from_str (bl_transport b ++ [space] ++ socket_addr_to_string (bl_address b) ++ [space] ++
      bl_fingerprint b ++ tail) =
    match tokens with
    | [] => Done (Err BL_FingerprintMissing)
    | fpr :: tokens => match read_keyvalues ro tokens [] with
      | Done (Ok kvs) => bridge_line_new (bl_transport b) (bl_address b) fpr kvs
      | Done (Err e) => Done (Err e) | Panicked => Panicked | OutOfFuel => OutOfFuel end
    end) as Hfrom.
  { intros tail tokens Hs. unfold bridge_line_from_str. rewrite Hs, socket_addr_roundtrip by done. by rewrite Ho. }
  assert (∀ kvs, str_split space (bl_transport b ++ [space] ++ socket_addr_to_string (bl_address b) ++ [space] ++
      bl_fingerprint b ++ [space] ++ kvs) = bl_transport b :: socket_addr_to_string (bl_address b) :: bl_fingerprint b :: str_split space kvs)
    as Hsplit by (intros kvs; cbn [app]; by rewrite !split_app).
  destruct (bl_keyvalues b) as [|kv kvs] eqn:Hkvs.
  * split.
    -- unfold as_legacy_tor_setconf_value. rewrite Hkvs.
       rewrite (Hfrom _ _ (Hsplit (str_join [space] (keyvalue_text <$> [])))). simpl. by rewrite Hro by set_solver.
    -- pose proof (Hfrom [] [bl_fingerprint b]) as Hf. rewrite app_nil_r in Hf. rewrite Hf; [|cbn [app]; rewrite !split_app by done; by rewrite split_no].
       simpl. done.
  * unfold as_legacy_tor_setconf_value. rewrite Hkvs, (Hfrom _ _ (Hsplit (str_join [space] (keyvalue_text <$> kv :: kvs)))), split_join_pieces; [|done|done].
    by rewrite read_keyvalues_text.
Qed.

(** The pattern of transports looks at one line. *)
Lemma bridge_line_spans b junk :
  bridge_ok b → newline ∉ junk →
  ∃ b', bridge_line_new (junk ++ [newline] ++ bl_transport b) (bl_address b) (bl_fingerprint b)
    (bl_keyvalues b) = Done (Ok b') ∧ bl_transport b' = junk ++ [newline] ++ bl_transport b.
Proof.
  intros Hb Hj. pose proof (bridge_line_new_ok b Hb) as Hnew.
  unfold bridge_line_new in Hnew |- *.
  destruct re_transport as (r1 & Hr1 & Ht). rewrite Hr1 in Hnew |- *. rewrite Ht in Hnew |- *. cbn [app] in *.
  rewrite split_app by done. cbn [existsb]. destruct (existsb is_identifier (str_split newline (bl_transport b))); [|done].
  rewrite orb_true_r. simpl in *. repeat (case_match; [done|]). destruct (re_new fingerprint_pattern) as [r2|]; [|done].
  repeat (case_match; [done|]). eexists. done.
Qed.

Lemma bridge_line_from_str_total s :
  newline ∉ s → ∃ r, bridge_line_from_str s = Done r ∧ match r with Ok b => bridge_ok b | Err _ => True end.
Proof.
  intros Hs. unfold bridge_line_from_str. pose proof (split_pieces space s) as Hsp.
  assert (∀ t, t ∈ str_split space s → newline ∉ t) as Hnl by (intros t Ht Hin; by eapply Hs, split_subset).
  destruct (str_split space s) as [|transport [|address tokens]]; [by eexists..|].
  destruct (socket_addr_from_str address) as [a|] eqn:Ha; [|by eexists].
  destruct tokens as [|fpr tokens]; [by eexists|]. destruct re_option as (ro & -> & Hro).
  rewrite !Forall_cons in Hsp. destruct Hsp as (_ & _ & _ & Hsp).
  destruct (read_keyvalues_total ro tokens [] Hro) as (r & -> & Hr).
  { apply Forall_forall. intros t Ht. rewrite Forall_forall in Hsp. split; [by apply Hsp|]. apply Hnl. set_solver. }
  destruct r as [kvs|]; [|by eexists]. destruct Hr as (new & -> & Hnew). cbn [app]. unfold bridge_line_new.
  destruct re_transport as (r1 & -> & Ht), re_fingerprint as (r2 & -> & Hf). rewrite Ht, Hf.
  rewrite (split_no newline transport) by (apply Hnl; set_solver).
  rewrite (split_no newline fpr) by (apply Hnl; set_solver). cbn [existsb]. rewrite !orb_false_r.
  destruct (is_identifier transport) eqn:Hid; [|by eexists]. cbn [negb].
  destruct (Z.eqb_spec (sa_port a) 0); [by eexists|]. destruct (is_hex40 fpr) eqn:Hh; [|by eexists]. cbn [negb].
  destruct (existsb _ new) eqn:Hk; [by eexists|]. eexists. split; [done|].
  split; simpl; try done; [by eapply socket_addr_from_str_ok|].
  clear -Hk Hnew. induction Hnew as [|kv kvs Hkv Hn IH]; [constructor|]. simpl in Hk. apply orb_false_iff in Hk as [Hk1 Hk2].
  constructor; [by split|]. by apply IH.
Qed.

(** Bridge lines, their texts, and names that span lines. *)
Lemma bridge_lines :
  (∀ b, bridge_ok b →
     bridge_line_new (bl_transport b) (bl_address b) (bl_fingerprint b) (bl_keyvalues b) = Done (Ok b) ∧
     match bl_keyvalues b with
     | [] => bridge_line_from_str (as_legacy_tor_setconf_value b) = Done (Err BL_KeyValueInvalid) ∧
         bridge_line_from_str (bl_transport b ++ [space] ++ socket_addr_to_string (bl_address b) ++ [space] ++ bl_fingerprint b) =
           Done (Ok b)
     | _ => bridge_line_from_str (as_legacy_tor_setconf_value b) = Done (Ok b)
     end ∧
     ∀ junk, newline ∉ junk → ∃ b', bridge_line_new (junk ++ [newline] ++ bl_transport b) (bl_address b) (bl_fingerprint b)
       (bl_keyvalues b) = Done (Ok b') ∧ bl_transport b' = junk ++ [newline] ++ bl_transport b) ∧
  (∀ s, newline ∉ s → ∃ r, bridge_line_from_str s = Done r ∧ match r with Ok b => bridge_ok b | Err _ => True end).
Proof.
  split; [|apply bridge_line_from_str_total].
  intros b Hb. split_and!; [by apply bridge_line_new_ok|by apply bridge_line_printed|].
  intros junk. by apply bridge_line_spans.
Qed.
(** C16. The texts given to tor.  A bridge line of single lines, with no spaces in its
    values, is accepted by [new] and read back from the text it is given to tor in, except
    that the text of one without key-values ends in a space, with which it cannot be read;
    reading a single line never panics and gives such a bridge line or an error; but the
    name of a transport may span lines.  Reading a SETCONF command as the control
    specification has it gives back the keys and the trimmed values, whatever quotes and
    backslashes they contain.  But [quoted_string] escapes no line ends, which end the line
    of the control port even inside quotes: the text between two line ends of a value
    reaches tor as a command of its own. *)
Theorem configuration_texts :
  (∀ b, bridge_ok b →
     bridge_line_new (bl_transport b) (bl_address b) (bl_fingerprint b) (bl_keyvalues b) = Done (Ok b) ∧
     match bl_keyvalues b with
     | [] => bridge_line_from_str (as_legacy_tor_setconf_value b) = Done (Err BL_KeyValueInvalid) ∧
         bridge_line_from_str (bl_transport b ++ [space] ++ socket_addr_to_string (bl_address b) ++ [space] ++ bl_fingerprint b) =
           Done (Ok b)
     | _ => bridge_line_from_str (as_legacy_tor_setconf_value b) = Done (Ok b)
     end ∧
     ∀ junk, newline ∉ junk → ∃ b', bridge_line_new (junk ++ [newline] ++ bl_transport b) (bl_address b) (bl_fingerprint b)
       (bl_keyvalues b) = Done (Ok b') ∧ bl_transport b' = junk ++ [newline] ++ bl_transport b) ∧
  (∀ s, newline ∉ s → ∃ r, bridge_line_from_str s = Done r ∧ match r with Ok b => bridge_ok b | Err _ => True end) ∧
  (∀ kvs, Forall (λ kv, equals ∉ kv.1) kvs →
     read_setconf (setconf_text kvs) = Some ((λ '(key, value), (key, trim value)) <$> kvs)) ∧
  (∀ key before cmd after,
     clean (lit "SETCONF " ++ key ++ [equals; dquote] ++ before) → clean cmd → clean (after ++ [dquote]) →
     dquote ∉ before ++ cmd ++ after → backslash ∉ before ++ cmd ++ after →
     trim (before ++ crlf ++ cmd ++ crlf ++ after) = before ++ crlf ++ cmd ++ crlf ++ after →
     lines_of (setconf_text [(key, before ++ crlf ++ cmd ++ crlf ++ after)] ++ crlf) =
       ([lit "SETCONF " ++ key ++ [equals; dquote] ++ before; cmd; after ++ [dquote]], [])).
Proof. destruct bridge_lines as [H1 H2], setconf_lines as [H3 H4]. split_and!; [exact H1|exact H2|exact H3|exact H4]. Qed.
End bridges.

Definition demo_bridge : BridgeLine :=
  mkBridgeLine (lit "obfs4") (SA_V4 [192; 0; 2; 1]%Z 443) (lit "0123456789ABCDEF0123456789abcdef01234567")
    [(lit "cert", lit "AbC="); (lit "iat-mode", lit "0")].

Definition tricky_value : str := lit "a " ++ [dquote; backslash; space; dquote] ++ lit " B=1".

Lemma configuration_texts_witness :
  read_setconf (setconf_text [(lit "Log", tricky_value); (lit "DisableNetwork", lit " 0 ")]) =
    Some [(lit "Log", tricky_value); (lit "DisableNetwork", lit "0")] ∧
  lines_of (setconf_text [(lit "Bridge", lit "x" ++ crlf ++ lit "SIGNAL HALT" ++ crlf ++ lit "y")] ++ crlf) =
    ([lit "SETCONF Bridge=" ++ [dquote] ++ lit "x"; lit "SIGNAL HALT"; lit "y" ++ [dquote]], []) ∧
  bridge_line_from_str (lit "obfs4 192.0.2.1:443 0123456789ABCDEF0123456789abcdef01234567 cert=AbC= iat-mode=0") =
    Done (Ok demo_bridge) ∧
  ∃ b, bridge_line_new (lit "x y" ++ [newline] ++ lit "obfs4") (bl_address demo_bridge) (bl_fingerprint demo_bridge)
    (bl_keyvalues demo_bridge) = Done (Ok b).
Proof.
  destruct configuration_texts as (H & _ & H3 & H4). split; [|split].
  { assert (trim tricky_value = tricky_value ∧ trim (lit " 0 ") = lit "0") as [E1 E2] by (split; by_eval).
    rewrite (H3 [(lit "Log", tricky_value); (lit "DisableNetwork", lit " 0 ")]).
    + simpl. rewrite E1. exact eq_refl.
    + repeat constructor; apply (bool_decide_eq_true_1 _); by_eval. }
  { apply (H4 (lit "Bridge") (lit "x") (lit "SIGNAL HALT") (lit "y")).
    all: try (apply (bool_decide_eq_true_1 _); by_eval). }
  destruct (H demo_bridge) as (_ & H1 & H2).
  - split; [reflexivity| |discriminate|reflexivity|].
    + split; [reflexivity|]. split; [|cbn [u16_max]; unfold u16_max; lia].
      repeat (constructor; [unfold is_octet; lia|]). constructor.
    + repeat constructor; apply (bool_decide_eq_true_1 _); by_eval.
  - split; [exact H1|]. destruct (H2 (lit "x y")) as (b & Hb & _); [apply (bool_decide_eq_true_1 _); by_eval|].
    exists b. exact Hb.
Defined.

(** * The control password *)

(** The password hash, as tor computes it. *)
Lemma password_hash `{PC : ProcessCrypto} (salt8 : bytes) (specifier : Init.Byte.byte) (password : str) :
  length salt8 = 8 →
  if bool_decide (byte.unsigned specifier = 96%Z)
  then ∃ data, Z.of_nat (length data) = 65536%Z ∧
    (∀ i, (Z.of_nat i < 65536)%Z → data !! i = (salt8 ++ password) !! (i mod (8 + length password))) ∧
    hash_tor_password_with_salt (salt8 ++ [specifier]) password =
      Done (lit "16:" ++ encode HEXUPPER (salt8 ++ [specifier]) ++ encode HEXUPPER (sha1 data))
  else hash_tor_password_with_salt (salt8 ++ [specifier]) password = Panicked.
Proof.
  intros Hl. unfold hash_tor_password_with_salt. change (S2K_RFC2440_SPECIFIER_LEN - 1) with 8.
  rewrite (list_lookup_middle salt8 [] specifier 8), take_app_length' by done.
  case_bool_decide as Hs.
  - assert (specifier = byte.of_Z TOR_C) as -> by (rewrite <- (byte.of_Z_unsigned specifier), Hs; done).
    rewrite bool_decide_eq_true_2 by done. cbn [negb].
    pose proof COUNT_value as HC. revert HC. generalize COUNT as count. intros count HC.
    destruct (hashed_cycled (S count) count (salt8 ++ password)) as (data & Hd & Hcyc); [by destruct salt8|lia|].
    rewrite Hd. exists data. split_and!; [| |done].
    + apply (f_equal length) in Hcyc. unfold cycled in Hcyc. rewrite !length_fmap, length_seq in Hcyc. lia.
    + intros i Hi. apply (f_equal (λ l, l !! i)) in Hcyc. unfold cycled in Hcyc.
      rewrite !list_lookup_fmap, lookup_seq_lt in Hcyc by lia. cbn [fmap option_fmap option_map Nat.add] in Hcyc.
      rewrite length_app, Hl in Hcyc. revert Hcyc.
      generalize ((salt8 ++ password) !! (i mod (8 + length password))) as o. intros o.
      destruct (data !! i); [by intros [= <-]|done].
  - rewrite bool_decide_eq_false_2; [done|]. intros [= ->]. by apply Hs.
Qed.

(** * The log of the daemon *)

Section log.
Context {H File Child : Type} `{TH : !TorHost H File Child}.
Implicit Types (p : LegacyTorProcess Child).

(** A process in use: its thread takes up reads, and [wait_log_lines] is called, in any
    order.  The reads taken up so far, and the lines delivered. *)
Inductive log_steps p : list (io_result bytes) → list str → LegacyTorProcess Child → Prop :=
| log_start : log_steps p [] [] p
| log_thread reads taken p' more : log_steps p reads taken p' → log_steps p (reads ++ more) taken (run_reader more p')
| log_take reads taken p' h lines p'' h' :
    log_steps p reads taken p' → wait_log_lines p' h = (lines, p'', h') →
    log_steps p (reads ++ (ps_stdout (lp_process p') h).1) (taken ++ lines) p''.

Lemma run_reader_log reads taken line more p :
  (taken ++ lp_stdout_lines p, lp_line p) = read_stdout_task reads [] line →
  (taken ++ lp_stdout_lines (run_reader more p), lp_line (run_reader more p)) = read_stdout_task (reads ++ more) [] line.
Proof.
  intros Hp. rewrite read_stdout_task_app, <- Hp. unfold run_reader.
  rewrite (read_stdout_task_acc more (lp_stdout_lines p)), (read_stdout_task_acc more (taken ++ _)). simpl. by rewrite app_assoc.
Qed.

(** Interleaving does not matter: what was delivered and what waits is what one uninterrupted
    run of the thread would have pushed. *)
Lemma log_steps_task p reads taken p' :
  log_steps p reads taken p' → lp_stdout_lines p = [] → lp_line p = [] →
  (taken ++ lp_stdout_lines p', lp_line p') = read_stdout_task reads [] [].
Proof.
  intros Hs Hl Hb. induction Hs as [|reads taken p' more _ IH|reads taken p' h lines p'' h' _ IH Hw].
  - by rewrite Hl, Hb.
  - by apply run_reader_log.
  - unfold wait_log_lines in Hw. destruct (ps_stdout (lp_process p') h) as [more h1]. injection Hw as <- <- <-.
    simpl. rewrite app_nil_r. by apply run_reader_log.
Qed.

Lemma log_lines p reads taken p' ls rest chunks tail :
  log_steps p reads taken p' → lp_stdout_lines p = [] → lp_line p = [] →
  Forall (λ l, is_utf8 l = true ∧ newline ∉ l) ls → newline ∉ rest →
  Forall (λ c, c ≠ []) chunks → concat chunks = log_text ls ++ rest →
  reads = (IoOk <$> chunks) ++ tail →
  taken ++ lp_stdout_lines p' = ls ++ (read_stdout_task tail [] rest).1.
Proof.
  intros Hs Hl Hb Hls Hrest Hc Hcat ->. apply (log_steps_task _ _ _ _ Hs) in Hl; [|done].
  apply (f_equal fst) in Hl. simpl in Hl. rewrite Hl, read_stdout_task_app, read_stdout_task_chunks, Hcat by done.
  rewrite cut_lines_text, stdout_lines_ended; [|by eapply Forall_impl; [done|intros ? []]..|done].
  by rewrite read_stdout_task_acc.
Qed.
End log.

(** C19. What a client has of the daemon it starts.  The password hash is the one tor
    computes (RFC 2440, iterated and salted): for a salt of eight bytes and the specifier
    byte it is the hexadecimal form of the salt and of SHA-1 over exactly 65536 bytes, in
    which byte [i] is byte [i] modulo the length of the salt followed by the password; any
    other specifier panics.  The log lines of the daemon are delivered once each, in order
    and unchanged, whatever way its output is cut, and however its reading thread and the
    calls of [wait_log_lines] interleave.  But each read at the end of the output delivers a
    line more, the first of them what is left without its last character and the others
    empty ones, without end; and a read that fails loses the line it is in. *)
Theorem daemon_password_and_log :
  (∀ (PC : ProcessCrypto) (salt8 : bytes) (specifier : Init.Byte.byte) (password : str),
     length salt8 = 8 →
     if bool_decide (byte.unsigned specifier = 96%Z)
     then ∃ data, Z.of_nat (length data) = 65536%Z ∧
       (∀ i, (Z.of_nat i < 65536)%Z → data !! i = (salt8 ++ password) !! (i mod (8 + length password))) ∧
       hash_tor_password_with_salt (salt8 ++ [specifier]) password =
         Done (lit "16:" ++ encode HEXUPPER (salt8 ++ [specifier]) ++ encode HEXUPPER (sha1 data))
     else hash_tor_password_with_salt (salt8 ++ [specifier]) password = Panicked) ∧
  (∀ {H File Child} `{TH : !TorHost H File Child} (p p' : LegacyTorProcess Child) chunks tail taken ls rest,
     lp_stdout_lines p = [] → lp_line p = [] →
     Forall (λ l, is_utf8 l = true ∧ newline ∉ l) ls → newline ∉ rest →
     Forall (λ c, c ≠ []) chunks → concat chunks = log_text ls ++ rest →
     log_steps p ((IoOk <$> chunks) ++ tail) taken p' →
     (tail = [] → taken ++ lp_stdout_lines p' = ls) ∧
     (∀ n, tail = replicate (S n) (IoOk []) → taken ++ lp_stdout_lines p' = ls ++ stdout_line rest ++ replicate n []) ∧
     (∀ kind, tail = [IoErr kind] → taken ++ lp_stdout_lines p' = ls ∧ lp_line p' = [])).
Proof.
  split; [intros; by apply password_hash|]. intros H File Child TH p p' chunks tail taken ls rest Hl Hb Hls Hrest Hc Hcat Hs.
  pose proof (log_lines _ _ _ _ _ _ _ _ Hs Hl Hb Hls Hrest Hc Hcat eq_refl) as Hd. rewrite Hd. split_and!.
  - intros ->. simpl. by rewrite app_nil_r.
  - intros n ->. by rewrite read_stdout_task_end.
  - intros kind ->. change (read_stdout_task [IoErr kind] [] rest) with ([] : list str, [] : bytes).
    apply (log_steps_task _ _ _ _ Hs) in Hl; [|done]. apply (f_equal snd) in Hl. simpl in Hl.
    rewrite read_stdout_task_app in Hl. destruct (read_stdout_task _ [] []). split; [by rewrite app_nil_r|done].
Qed.

#[local] Instance demo_process_crypto : ProcessCrypto :=
  { os_alphanumeric i := Byte.x61; sha1 b := take 20 (digest b); HEXUPPER := HEXLOWER }.

(** A host whose state is what the daemon's output gives next. *)
#[local] Instance log_host : TorHost (list (io_result bytes)) unit unit := {|
  fs_exists _ _ := true; fs_is_file _ _ := false; fs_is_dir _ _ := true;
  fs_create_dir _ h := (IoOk tt, h); fs_create_dir_all _ h := (IoOk tt, h); fs_create _ h := (IoOk tt, h);
  fs_write_all _ _ h := (IoOk tt, h); fs_remove_file _ h := (IoOk tt, h); fs_symlink _ _ h := (IoOk tt, h);
  fs_open _ _ := IoOk tt; fs_len _ _ := IoOk 0%Z; fs_read_to_string _ _ := IoOk [];
  ps_id _ := 1%Z; ps_spawn _ _ _ h := (IoOk tt, h); ps_spawn_reader _ h := (IoOk tt, h); ps_kill _ h := h;
  ps_stdout _ h := (h, []); os_elapsed _ h := (0%Z, h); os_now h := (0%Z, h) |}.
Definition demo_daemon : LegacyTorProcess unit := mkLegacyTorProcess (SA_V4 [127; 0; 0; 1]%Z 9051) tt [] [] [].
Definition demo_output : list bytes := [lit "one" ++ [newline] ++ lit "tw"; lit "o" ++ [newline] ++ lit "last"].

(** Two lines and a beginning, then the end of the output, twice. *)
Lemma daemon_password_and_log_witness :
  hash_tor_password_with_salt (os_random 1 8 ++ [Byte.x20]) (lit "password") = Panicked ∧
  (∃ data, Z.of_nat (length data) = 65536%Z ∧ hash_tor_password_with_salt (os_random 1 8 ++ [Byte.x60]) (lit "password") =
    Done (lit "16:" ++ encode HEXUPPER (os_random 1 8 ++ [Byte.x60]) ++ encode HEXUPPER (sha1 data))) ∧
  ∃ p lines h, wait_log_lines demo_daemon ((IoOk <$> demo_output) ++ replicate 2 (IoOk [])) = (lines, p, h) ∧
    ([] ++ lines) ++ lp_stdout_lines p = [lit "one"; lit "two"] ++ [lit "las"] ++ replicate 1 [].
Proof.
  destruct daemon_password_and_log as [Hpass Hlog].
  assert (length (os_random 1 8) = 8) as Hl by by_eval.
  pose proof (Hpass _ (os_random 1 8) Byte.x20 (lit "password") Hl) as H1.
  pose proof (Hpass _ (os_random 1 8) Byte.x60 (lit "password") Hl) as H2.
  rewrite bool_decide_eq_false_2 in H1 by (vm_compute; discriminate).
  rewrite bool_decide_eq_true_2 in H2 by (vm_compute; reflexivity).
  destruct H2 as (data & H2 & _ & H3). split; [exact H1|]. split; [exists data; split; [exact H2|exact H3]|].
  set (h := (IoOk <$> demo_output) ++ replicate 2 (IoOk [])).
  destruct (wait_log_lines demo_daemon h) as [[lines p] h'] eqn:Hw. exists p, lines, h'. split; [reflexivity|].
  destruct (Hlog _ _ _ log_host demo_daemon p demo_output (replicate 2 (IoOk [])) ([] ++ lines) [lit "one"; lit "two"] (lit "last"))
    as (_ & Hend & _).
  - reflexivity.
  - reflexivity.
  - repeat constructor; apply (bool_decide_eq_true_1 _); by_eval.
  - apply (bool_decide_eq_true_1 _); by_eval.
  - repeat constructor; discriminate.
  - reflexivity.
  - pose proof (log_take demo_daemon [] [] demo_daemon h lines p h' (log_start _) Hw) as Hs.
    cbn [app ps_stdout fst log_host] in Hs. exact Hs.
  - exact (Hend 1 eq_refl).
Defined.

(** * The client *)

Section client.
Context `{CL : CryptoLib} `{PC : ProcessCrypto} `{RL : RegexLib} `{DL : DomainLib}.
Context {H File Child W RW TL : Type} `{TH : !TorHost H File Child} `{CS : !ControlSocket W} `{TN : !TorNetwork H RW TL}.
Abbreviation Client := (LegacyTorClient (H:=H) (Child:=Child) (W:=W)).
Implicit Types (s : Client) (l : OnionListener (ClientListener (TL:=TL))).

(** What follows the removal of services in an update leaves services and flags alone. *)
Lemma lc_update_split fuel s o :
  lc_update fuel s = o →
  match reap_services (S (length (lc_onion_services s))) fuel 0 s with
  | Done (s1, Ok _) =>
      match o with
      | Done (s', r) => lc_onion_services s' = lc_onion_services s1 ∧ lc_flags s' = lc_flags s1 ∧
          ∀ err, r ≠ Err (DelOnionFailed err)
      | _ => True
      end
  | Done (s1, Err e) => o = Done (s1, Err e)
  | _ => True
  end.
Proof.
  intros Ho. unfold lc_update in Ho. unfold mbind at 1, M_bind at 1, get_state in Ho. unfold mbind at 1, M_bind at 1 in Ho.
  destruct (reap_services _ fuel 0 s) as [[s1 [[]|e]]| |]; [|by subst|done..]. revert Ho.
  unfold mbind, M_bind, lc_on_controller, modify. destruct (wait_async_events fuel (lc_controller s1)) as [[c [evs|]]| |]; simpl.
  - unfold log_events, wait_log_lines. intros <-. destruct s1 as [h dr fl da ve co bo so se ct tk]. simpl.
    destruct (existsb snd _); simpl; (destruct da as [da|]; [destruct (ps_stdout _ _)|destruct bo]); simpl; by split_and!.
  - intros <-. destruct s1. by split_and!.
  - by intros <-.
  - by intros <-.
Qed.

(** C27. Onion services live as long as their listeners.  Every service of the client has a
    flag of its own, shared with its listener.  Making a listener adds one active service
    and leaves the others as they are; dropping it makes that service inactive and no
    other.  An update that succeeds has told tor, once each, to delete exactly the services
    whose listeners are gone, and keeps the rest.  When tor refuses a deletion the update
    fails, and the service it was about is forgotten with the ones before it: it is not
    tried again. *)
Theorem services_follow_listeners fuel s :
  lc_inv s →
  (∀ key port clients s' l, lc_listener fuel key port clients s = Done (s', Ok l) →
     lc_inv s' ∧ ∃ id, lc_onion_services s' = lc_onion_services s ++ [(id, cl_is_active (ol_listener l))] ∧
       is_active s' (cl_is_active (ol_listener l)) = true ∧
       (∀ e, e ∈ lc_onion_services s → is_active s' e.2 = is_active s e.2) ∧
       lc_onion_services (lc_drop_listener l s') = lc_onion_services s' ∧ lc_inv (lc_drop_listener l s') ∧
       is_active (lc_drop_listener l s') (cl_is_active (ol_listener l)) = false ∧
       ∀ e, e ∈ lc_onion_services s → is_active (lc_drop_listener l s') e.2 = is_active s e.2) ∧
  (∀ s' r, lc_update fuel s = Done (s', r) →
     lc_inv s' ∧
     match r with
     | Ok _ =>
         ∃ gone c, lc_onion_services s ≡ₚ gone ++ lc_onion_services s' ∧ Forall (active_in s) (lc_onion_services s') ∧
         Forall (inactive_in s) gone ∧ deletes fuel gone.*1 (lc_controller s) c
     | Err (DelOnionFailed err) =>
         ∃ gone id flag c c', lc_onion_services s ≡ₚ gone ++ (id, flag) :: lc_onion_services s' ∧
         Forall (inactive_in s) (gone ++ [(id, flag)]) ∧ deletes fuel gone.*1 (lc_controller s) c ∧
         del_onion fuel id c = Done (c', Err err)
     | Err _ => True
     end).
Proof.
  intros Hinv. split.
  - intros key port clients s' l Hl. destruct (lc_listener_spec _ _ _ _ _ _ _ Hinv Hl) as (Hi & _ & id & H1 & H2 & H3 & _).
    split; [done|]. exists id. pose proof Hi as [Hnd Hlt]. rewrite H1, fmap_app in Hnd, Hlt. simpl in *.
    rewrite Forall_app, Forall_cons in Hlt. destruct Hlt as (_ & Hf & _).
    destruct (lc_drop_listener_spec l s' Hf) as (D1 & D2 & D3 & D4). split_and!; try done; [by apply D2|].
    intros e He. rewrite D4; [by apply H3|]. intros Heq. apply NoDup_app in Hnd as (_ & Hdis & _).
    apply (Hdis e.2); [apply list_elem_of_fmap; eauto|]. rewrite Heq. by apply list_elem_of_singleton.
  - intros s' r Hu. pose proof (lc_update_split _ _ _ Hu) as Hsplit.
    pose proof (reap_services_spec (S (length (lc_onion_services s))) fuel 0 s ltac:(lia) ltac:(lia)) as Hr.
    unfold reap_post in Hr.
    assert (∀ gone s1, lc_onion_services s ≡ₚ gone ++ lc_onion_services s1 → lc_flags s1 = lc_flags s → lc_inv s1) as Hkeep.
    { intros gone s1 Hp Hf. destruct Hinv as [Hnd Hlt]. unfold lc_inv. rewrite Hf.
      rewrite (fmap_Permutation snd _ _ Hp), fmap_app in Hnd, Hlt. apply NoDup_app in Hnd as (_ & _ & ?).
      by apply Forall_app in Hlt as [_ ?]. }
    destruct (reap_services _ fuel 0 s) as [[s1 [[]|e]]| |] eqn:Hreap.
    + destruct Hr as (gone & P1 & P2 & P3 & P4 & P5). destruct Hsplit as (S1 & S2 & S3).
      assert (lc_flags s1 = lc_flags s) as Hf by (rewrite P5; by destruct s). split.
      * apply (Hkeep gone); [by rewrite S1|by rewrite S2].
      * destruct r as [evs|e]; [|by destruct e; try done; edestruct S3].
        exists gone, (lc_controller s1). rewrite S1. done.
    + destruct Hr as (gone & id & flag & c & err & P1 & P2 & P3 & P4 & -> & P6). injection Hsplit as -> ->. split.
      * apply (Hkeep (gone ++ [(id, flag)])); [by rewrite <- (assoc_L (++))|rewrite P6; by destruct s].
      * by exists gone, id, flag, c, (lc_controller s1).
    + destruct Hr as (id & c & Hd). exfalso. unfold lc_update in Hu. unfold mbind at 1, M_bind at 1, get_state in Hu.
      unfold mbind at 1, M_bind at 1 in Hu. by rewrite Hreap in Hu.
    + exfalso. unfold lc_update in Hu. unfold mbind at 1, M_bind at 1, get_state in Hu.
      unfold mbind at 1, M_bind at 1 in Hu. by rewrite Hreap in Hu.
Qed.

Lemma reap_services_frame n fuel i s s' r :
  reap_services n fuel i s = Done (s', r) → lc_bootstrapped s' = lc_bootstrapped s ∧ lc_daemon s' = lc_daemon s.
Proof.
  revert i s. induction n as [|n IH]; intros i s; cbn [reap_services]; [done|].
  destruct (lc_onion_services s !! i) as [[id flag]|]; [|by intros [= <- _]].
  destruct (is_active s flag); simpl; [apply IH|]. unfold mbind, M_bind, lc_on_controller.
  destruct (del_onion fuel id _) as [[c [[]|err]]| |]; simpl; [| |done..].
  - intros Hr. apply IH in Hr as [-> ->]. by destruct s.
  - intros [= <- _]. by destruct s.
Qed.

Lemma handle_event_complete e : (handle_async_event e).2 = true ↔ TE_BootstrapComplete ∈ (handle_async_event e).1.
Proof.
  destruct e as [lines|severity action arguments|action addr]; simpl; [set_solver| |case_match; set_solver].
  destruct (_ && _); [|simpl; set_solver]. destruct (bootstrap_status arguments) as [[progress tag] summary].
  case_match; simpl; set_solver.
Qed.

Lemma handled_complete evs :
  existsb snd (handle_async_event <$> evs) = true ↔ TE_BootstrapComplete ∈ concat (handle_async_event <$> evs).*1.
Proof.
  induction evs as [|e evs IH]; [simpl; set_solver|]. rewrite !fmap_cons. cbn [existsb concat].
  rewrite orb_true_iff, elem_of_app, IH, handle_event_complete. done.
Qed.

Lemma lc_update_bootstrapped fuel s s' evs :
  lc_update fuel s = Done (s', Ok evs) →
     (lc_bootstrapped s' = true ↔ lc_bootstrapped s = true ∨ TE_BootstrapComplete ∈ evs) ∧
     (lc_daemon s = None → lc_bootstrapped s' = true).
Proof.
  intros Hu. unfold lc_update in Hu. unfold mbind at 1, M_bind at 1, get_state in Hu.
  unfold mbind at 1, M_bind at 1 in Hu.
  destruct (reap_services _ fuel 0 s) as [[s1 [[]|e]]| |] eqn:Hr; [|done..].
  apply reap_services_frame in Hr as [<- <-]. revert Hu.
  unfold mbind, M_bind, lc_on_controller, modify. destruct (wait_async_events fuel (lc_controller s1)) as [[c [as_|]]| |]; simpl; [|done..].
  pose proof (handled_complete as_) as Hc. destruct s1 as [h dr fl da ve co bo so se ct tk]. simpl.
  assert (∀ (lines : list str), TE_BootstrapComplete ∉ (λ line, TE_LogReceived (String.string_of_list_byte line)) <$> lines) as Hlog
    by (intros lines (line & ? & _)%list_elem_of_fmap; done).
  destruct (existsb snd (handle_async_event <$> as_)); unfold log_events, wait_log_lines; simpl.
  { assert (TE_BootstrapComplete ∈ concat (handle_async_event <$> as_).*1) as Hin by by apply Hc.
    destruct da as [da|]; [destruct (ps_stdout _ _) as [lines h']|]; simpl; intros [= <- <-]; simpl;
      (split; [|done]); (split; [|done]); intros _; right; apply elem_of_app; by left. }
  destruct da as [da|]; [destruct (ps_stdout _ _) as [lines h']|destruct bo]; simpl; intros [= <- <-]; simpl.
  + split; [|done]. split; [by left|]. intros [?|[Hin|Hin]%elem_of_app]; [done|by apply Hc in Hin|by apply Hlog in Hin].
  + split; [|done]. split; [by left|done].
  + split; [|done]. split; [|done]. intros _. right. apply elem_of_app. right. by left.
Qed.

Lemma lc_connect_token fuel s socks target :
  tokens_ok s → lc_bootstrapped s = true → lc_socks_listener s = Some socks →
     let '(token, s') := lc_generate_token s in
     bt_get (lc_circuit_tokens s) (Z.of_nat token) = None ∧ tokens_ok s' ∧
     (let credentials := circuit_token_new (lc_draws s) in
      lc_connect (RW:=RW) (TL:=TL) fuel target (Some token) s' =
        match socks_connect socks (socks_target target) (Some (ct_username credentials, ct_password credentials)) (lc_host s') with
        | (IoOk stream, h) => Done (lc_set_host h s', Ok (mkOnionStream stream None (Some target)))
        | (IoErr kind, h) => Done (lc_set_host h s', Err (Socks5ConnectionFailed kind))
        end) ∧
     lc_connect (RW:=RW) (TL:=TL) fuel target (Some token) (lc_release_token token s') =
       Done (lc_release_token token s', Err CircuitTokenInvalid).
Proof.
  intros Ht Hb Hsocks. pose proof (generate_token_spec s Ht) as Hg.
  destruct (lc_generate_token s) as [token s'] eqn:Hgen. destruct Hg as (Hok & Hfresh & Hget).
  assert (lc_bootstrapped s' = true ∧ lc_socks_listener s' = Some socks) as [Hb' Hs'].
  { injection Hgen as _ <-. by destruct s. }
  destruct (release_token_spec token s' Hok) as [_ Hget'].
  assert (∀ x : Client, lc_bootstrapped x = true → lc_socks_listener x = Some socks →
    lc_connect (RW:=RW) (TL:=TL) fuel target (Some token) x =
    match bt_get (lc_circuit_tokens x) (Z.of_nat token) with
    | Some c => match socks_connect socks (socks_target target) (Some (ct_username c, ct_password c)) (lc_host x) with
      | (IoOk stream, h) => Done (lc_set_host h x, Ok (mkOnionStream stream None (Some target)))
      | (IoErr kind, h) => Done (lc_set_host h x, Err (Socks5ConnectionFailed kind)) end
    | None => Done (x, Err CircuitTokenInvalid)
    end) as Hconn.
  { intros x Hx Hsx. unfold lc_connect, find_socks_listener, mbind, M_bind, get_state. rewrite Hx. simpl. rewrite Hsx. simpl.
    destruct (bt_get (lc_circuit_tokens x) (Z.of_nat token)); [|done]. unfold lc_io.
    destruct (socks_connect _ _ _ _) as [[stream|] h]; done. }
  split_and!; [done|done| |].
  + rewrite Hconn by done. by rewrite Hget, Z.eqb_refl.
  + rewrite Hconn; [|by destruct s'..]. by rewrite Hget', Z.eqb_refl.
Qed.

End client.

(** A host and a network on which everything succeeds, and a client whose one listener is
    gone. *)
#[local] Instance demo_host : TorHost unit unit unit := {|
  fs_exists _ _ := true; fs_is_file _ _ := false; fs_is_dir _ _ := true;
  fs_create_dir _ h := (IoOk tt, h); fs_create_dir_all _ h := (IoOk tt, h); fs_create _ h := (IoOk tt, h);
  fs_write_all _ _ h := (IoOk tt, h); fs_remove_file _ h := (IoOk tt, h); fs_symlink _ _ h := (IoOk tt, h);
  fs_open _ _ := IoOk tt; fs_len _ _ := IoOk 0%Z; fs_read_to_string _ _ := IoOk [];
  ps_id _ := 1%Z; ps_spawn _ _ _ h := (IoOk tt, h); ps_spawn_reader _ h := (IoOk tt, h); ps_kill _ h := h;
  ps_stdout _ h := ([], h); os_elapsed _ h := (0%Z, h); os_now h := (0%Z, h) |}.
#[local] Instance demo_network : TorNetwork unit unit unit := {|
  socks_connect _ _ _ h := (IoOk tt, h); tcp_bind _ h := (IoOk tt, h);
  tcp_local_addr _ := IoOk (SA_V4 [127; 0; 0; 1]%Z 4000) |}.

Definition demo_client_controller : LegacyTorController ControlWire :=
  mkLegacyTorController
    (mkLegacyControlStream (mkControlWire [lit "250 OK" ++ [carriage_return; newline]] [] []) false [] [] [] false
       single_line_pattern multi_line_pattern end_reply_pattern)
    [] status_event_pattern status_event_argument_pattern hs_desc_pattern.
Definition demo_legacy_client (bootstrapped : bool) : LegacyTorClient (H:=unit) (Child:=unit) (W:=ControlWire) :=
  mkLegacyTorClient tt 0 [false] None (mkLegacyTorVersion 0 4 7 1 None) demo_client_controller bootstrapped
    (Some (SA_V4 [127; 0; 0; 1]%Z 9050)) [(demo_server_id, 0)] 0 [].

Lemma services_follow_listeners_witness :
  ∃ s' evs gone c, lc_update 20 (demo_legacy_client true) = Done (s', Ok evs) ∧
    [(demo_server_id, 0)] ≡ₚ gone ++ lc_onion_services s' ∧ lc_onion_services s' = [] ∧
    deletes 20 gone.*1 demo_client_controller c.
Proof.
  destruct (services_follow_listeners (RW:=unit) (TL:=unit) 20 (demo_legacy_client true)) as [_ Hu].
  - split; [apply NoDup_singleton|]. constructor; [simpl; lia|constructor].
  - destruct (succeeds_spec (lc_update 20 (demo_legacy_client true))
      (λ s' _, match lc_onion_services s' with [] => true | _ => false end)) as (s' & evs & Heq & Hs); [by_eval|].
    assert (lc_onion_services s' = []) as Hs' by by destruct (lc_onion_services s').
    destruct (Hu s' (Ok evs) Heq) as (_ & gone & c & H1 & _ & _ & H2). exists s', evs, gone, c.
    split; [exact Heq|]. split; [exact H1|]. split; [exact Hs'|exact H2].
Defined.

