(* ===== verification/ObjectRegistry.v ===== *)
(** cgosling/src/object_registry.rs: the objects behind the opaque pointers of the C
    interface, [usize] keys whose low bits tag the registry they belong to. *)

From Stdlib Require Import ZArith Lia.
From S2P Require Import Prelude Maps.
From stdpp Require Import prelude list.

Open Scope Z_scope.

(** [std::mem::size_of::<usize>() * BITS_PER_BYTE] *)
Definition USIZE_BITS : Z := 64.

(** [x << n], [x >> n] on [usize]: bits shifted out are lost. *)
Definition usize_shl (x n : Z) : Z := Z.land (Z.shiftl x n) usize_max.
Definition usize_shr (x n : Z) : Z := Z.shiftr x n.

Section registry.
Context {T : Type} (TAG TAG_BITS : Z).

Record ObjectRegistry := mkObjectRegistry {
  or_map : option (list (Z * T));
  or_counter : Z;
}.

Definition COUNTER_BITS : Z := USIZE_BITS - TAG_BITS.
Definition COUNTER_MAX : Z := usize_shr usize_max TAG_BITS.

(** [next_key] *)
Definition next_key (r : ObjectRegistry) : outcome (Z * ObjectRegistry) :=
  if or_counter r <? COUNTER_MAX then
    let counter := or_counter r + 1 in
    Done (Z.lor (usize_shl counter TAG_BITS) TAG, mkObjectRegistry (or_map r) counter)
  else Panicked.

(** [ObjectRegistry::new]: the assertion that the tag fits *)
Definition registry_new : outcome ObjectRegistry :=
  if (TAG_BITS =? 0) || (usize_shr (usize_shl TAG COUNTER_BITS) COUNTER_BITS =? TAG)
  then Done (mkObjectRegistry None 0) else Panicked.

(** [contains_key], [get] *)
Definition registry_get (r : ObjectRegistry) (key : Z) : option T :=
  match or_map r with Some map => bt_get map key | None => None end.
Definition contains_key (r : ObjectRegistry) (key : Z) : bool :=
  match or_map r with Some map => bool_decide (is_Some (bt_get map key)) | None => false end.

(** [*registry.get_mut(key)? = v] *)
Definition registry_set (r : ObjectRegistry) (key : Z) (v : T) : ObjectRegistry :=
  match or_map r with Some map => mkObjectRegistry (Some (bt_set map key v)) (or_counter r) | None => r end.

(** [remove] *)
Definition registry_remove (r : ObjectRegistry) (key : Z) : option T * ObjectRegistry :=
  match or_map r with
  | Some map => (bt_get map key, mkObjectRegistry (Some (bt_remove map key)) (or_counter r))
  | None => (None, r)
  end.

(** [insert] *)
Definition registry_insert (r : ObjectRegistry) (val : T) : outcome (Z * ObjectRegistry) :=
  match next_key r with
  | Done (key, r) =>
      match or_map r with
      | Some map =>
          match bt_get map key with
          | Some _ => Panicked
          | None => Done (key, mkObjectRegistry (Some (bt_insert map key val)) (or_counter r))
          end
      | None => Done (key, mkObjectRegistry (Some (bt_insert [] key val)) (or_counter r))
      end
  | Panicked => Panicked
  | OutOfFuel => OutOfFuel
  end.

(** * Registries over time *)

(** The keys handed out so far, latest first. *)
Inductive reg_reachable : list Z → ObjectRegistry → Prop :=
| reg_reach_new r : registry_new = Done r → reg_reachable [] r
| reg_reach_insert issued r v key r' :
    reg_reachable issued r → registry_insert r v = Done (key, r') → reg_reachable (key :: issued) r'
| reg_reach_remove issued r key : reg_reachable issued r → reg_reachable issued (registry_remove r key).2
| reg_reach_set issued r key v : reg_reachable issued r → reg_reachable issued (registry_set r key v).

(** The tag fits its bits. *)
Record tag_ok : Prop := {
  tag_bits_range : 0 ≤ TAG_BITS < USIZE_BITS;
  tag_range : 0 ≤ TAG < 2 ^ TAG_BITS;
}.

(** What a key is made of. *)
Definition key_of (counter : Z) : Z := counter * 2 ^ TAG_BITS + TAG.

Section ok.
Context (Hok : tag_ok).

Lemma counter_max_eq : COUNTER_MAX = 2 ^ (USIZE_BITS - TAG_BITS) - 1.
Proof.
  destruct Hok as [Hb _]. unfold COUNTER_MAX, usize_shr. rewrite Z.shiftr_div_pow2 by lia.
  change usize_max with (2 ^ USIZE_BITS - 1).
  replace (2 ^ USIZE_BITS) with (2 ^ (USIZE_BITS - TAG_BITS) * 2 ^ TAG_BITS).
  2: { rewrite <- Z.pow_add_r by (unfold USIZE_BITS in *; lia). f_equal. lia. }
  pose proof (Z.pow_pos_nonneg 2 TAG_BITS ltac:(lia) ltac:(lia)) as Hp.
  symmetry. apply Z.div_unique with (2 ^ TAG_BITS - 1); nia.
Qed.

Lemma key_range counter : 0 ≤ counter ≤ COUNTER_MAX → 0 ≤ key_of counter ≤ usize_max.
Proof.
  rewrite counter_max_eq. destruct Hok as [Hb Ht]. intros Hc. unfold key_of.
  change usize_max with (2 ^ USIZE_BITS - 1).
  replace (2 ^ USIZE_BITS) with (2 ^ (USIZE_BITS - TAG_BITS) * 2 ^ TAG_BITS).
  2: { rewrite <- Z.pow_add_r by (unfold USIZE_BITS in *; lia). f_equal. lia. }
  pose proof (Z.pow_pos_nonneg 2 TAG_BITS ltac:(lia) ltac:(lia)) as Hp. nia.
Qed.

Lemma key_of_bits counter :
  0 ≤ counter ≤ COUNTER_MAX → Z.lor (usize_shl counter TAG_BITS) TAG = key_of counter.
Proof.
  intros Hc. pose proof (key_range counter Hc) as Hk. destruct Hok as [Hb Ht]. unfold usize_shl, key_of in *.
  assert (Z.land (Z.shiftl counter TAG_BITS) usize_max = Z.shiftl counter TAG_BITS) as ->.
  { change usize_max with (Z.ones 64). rewrite Z.land_ones by lia. apply Z.mod_small.
    rewrite Z.shiftl_mul_pow2 by lia. change (2 ^ 64) with (usize_max + 1). lia. }
  by rewrite lor_shiftl_add by lia.
Qed.

Lemma key_of_inj c c' : key_of c = key_of c' → c = c'.
Proof.
  unfold key_of. destruct Hok as [Hb _]. pose proof (Z.pow_pos_nonneg 2 TAG_BITS ltac:(lia) ltac:(lia)). nia.
Qed.

Lemma key_of_tag c : 0 ≤ c → key_of c mod 2 ^ TAG_BITS = TAG.
Proof.
  intros Hc. destruct Hok as [Hb Ht]. unfold key_of. rewrite Z.add_comm, Z.mul_comm.
  symmetry. apply Z.mod_unique with c; lia.
Qed.

(** The keys handed out are those of the counter's values, and what is in the map was
    handed out. *)
Record reg_inv (issued : list Z) (r : ObjectRegistry) : Prop := {
  ri_counter : 0 ≤ or_counter r ≤ COUNTER_MAX;
  ri_issued key : key ∈ issued ↔ ∃ c, 1 ≤ c ≤ or_counter r ∧ key = key_of c;
  ri_sorted : from_option bt_sorted True (or_map r);
  ri_map key : is_Some (registry_get r key) → key ∈ issued;
}.

Lemma next_key_Done r key r1 :
  0 ≤ or_counter r → next_key r = Done (key, r1) →
  or_counter r < COUNTER_MAX ∧ key = key_of (or_counter r + 1) ∧ r1 = mkObjectRegistry (or_map r) (or_counter r + 1).
Proof.
  intros Hc. unfold next_key. destruct (Z.ltb_spec (or_counter r) COUNTER_MAX); [|done].
  intros [= <- <-]. by rewrite key_of_bits by lia.
Qed.

Lemma fresh_key issued r :
  reg_inv issued r → key_of (or_counter r + 1) ∉ issued ∧ registry_get r (key_of (or_counter r + 1)) = None.
Proof.
  intros [Hc Hi _ Hm]. assert (key_of (or_counter r + 1) ∉ issued) as Hn.
  { intros (c & Hc' & Heq)%Hi. apply key_of_inj in Heq. lia. }
  split; [done|]. destruct (registry_get r _) eqn:Hg; [|done]. exfalso. apply Hn, Hm. by rewrite Hg.
Qed.

(** [insert] fails only when the counter is used up. *)
Lemma registry_insert_spec issued r v :
  reg_inv issued r →
  if or_counter r <? COUNTER_MAX then
    ∃ r', registry_insert r v = Done (key_of (or_counter r + 1), r') ∧
      or_counter r' = or_counter r + 1 ∧ from_option bt_sorted True (or_map r') ∧
      ∀ k, registry_get r' k = if k =? key_of (or_counter r + 1) then Some v else registry_get r k
  else registry_insert r v = Panicked.
Proof.
  intros Hi. destruct (fresh_key _ _ Hi) as [_ Hg]. destruct Hi as [Hc _ Hs _].
  unfold registry_insert, next_key. destruct (Z.ltb_spec (or_counter r) COUNTER_MAX); [|done].
  rewrite key_of_bits by lia. destruct r as [[m|] c]; simpl in *.
  - unfold registry_get in Hg. simpl in Hg. rewrite Hg. eexists.
    split_and!; [done|done|by apply bt_insert_sorted|]. intros k. by apply bt_get_insert.
  - eexists. split_and!; [done|done|done|]. intros k. unfold registry_get. simpl. by destruct (k =? _).
Qed.

Lemma registry_remove_spec issued r key :
  reg_inv issued r →
  (registry_remove r key).1 = registry_get r key ∧ or_counter (registry_remove r key).2 = or_counter r ∧
  from_option bt_sorted True (or_map (registry_remove r key).2) ∧
  ∀ k, registry_get (registry_remove r key).2 k = if k =? key then None else registry_get r k.
Proof.
  intros [_ _ Hs _]. destruct r as [[m|] c]; simpl in *.
  - split_and!; [done..|by apply bt_remove_sorted|]. intros k. by apply bt_get_remove.
  - split_and!; [done..|]. intros k. by destruct (k =? key).
Qed.

Lemma registry_set_spec issued r key v :
  reg_inv issued r →
  or_counter (registry_set r key v) = or_counter r ∧ from_option bt_sorted True (or_map (registry_set r key v)) ∧
  ∀ k, registry_get (registry_set r key v) k =
    if (k =? key) && bool_decide (is_Some (registry_get r key)) then Some v else registry_get r k.
Proof.
  intros [_ _ Hs _]. destruct r as [[m|] c]; simpl in *.
  - split_and!; [done|by apply bt_set_sorted|]. intros k. unfold registry_get. simpl. rewrite bt_get_set.
    destruct (Z.eqb_spec k key) as [->|]; simpl; [|done]. by destruct (bt_get m key).
  - split_and!; [done..|]. intros k. unfold registry_get. simpl. by rewrite andb_false_r.
Qed.

Lemma reg_reachable_inv issued r : reg_reachable issued r → reg_inv issued r.
Proof.
  induction 1 as [r Hn|issued r v key r' _ IH Hins|issued r key _ IH|issued r key v _ IH].
  - unfold registry_new in Hn. destruct (_ || _); [|done]. injection Hn as <-. split; simpl; try done.
    + rewrite counter_max_eq. destruct Hok as [Hb _].
      pose proof (Z.pow_pos_nonneg 2 (USIZE_BITS - TAG_BITS) ltac:(lia) ltac:(lia)). lia.
    + intros key. split; [by intros ?%elem_of_nil|]. intros (c & Hc & _). lia.
    + by intros key [].
  - pose proof (registry_insert_spec _ _ v IH) as Hs. destruct (Z.ltb_spec (or_counter r) COUNTER_MAX) as [Hlt|]; [|congruence].
    destruct Hs as (r'' & Hs & Hc & Hsort & Hget). rewrite Hins in Hs. injection Hs as -> <-.
    destruct IH as [Hc0 Hi _ Hm]. split; [lia| |done|].
    + intros k. rewrite elem_of_cons, Hi, Hc. split.
      * intros [->|(c & Hc' & ->)]; [exists (or_counter r + 1)|exists c]; (split; [lia|done]).
      * intros (c & Hc' & ->). destruct (decide (c = or_counter r + 1)) as [->|]; [by left|right]. exists c. split; [lia|done].
    + intros k. rewrite Hget. destruct (Z.eqb_spec k (key_of (or_counter r + 1))) as [->|]; [by left|]. right. by apply Hm.
  - destruct (registry_remove_spec _ _ key IH) as (_ & Hc & Hs & Hget). destruct IH as [Hc0 Hi _ Hm].
    split; [by rewrite Hc|by rewrite Hc|done|]. intros k. rewrite Hget. destruct (k =? key); [by intros []|apply Hm].
  - destruct (registry_set_spec _ _ key v IH) as (Hc & Hs & Hget). destruct IH as [Hc0 Hi _ Hm].
    split; [by rewrite Hc|by rewrite Hc|done|]. intros k. rewrite Hget. intros Hk. apply Hm.
    revert Hk. destruct (Z.eqb_spec k key) as [->|Hne]; simpl; [|done]. by case_bool_decide.
Qed.
End ok.
End registry.
Arguments ObjectRegistry T : clear implicits.
