(* ===== verification/SourceTests.v ===== *)
(** The unit tests of the source, run on the models: each [Example] repeats the assertions
    of the test it names.  Left out are what a test draws at random, and the assertions on
    signatures, on public keys derived from private ones, and on names that only Unicode
    tables can judge. *)

From Stdlib Require Import ZArith Lia.
From S2P Require Import Prelude Bson BsonModel HonkWire HonkSize VecDeque HonkSession HonkScript Maps Str NetAddr Regexes.
From S2P Require Import Crypto CryptoModel TorCrypto GoslingProto IdentityServer IdentityClient EndpointServer EndpointClient.
From S2P Require Import TorProvider TorAddr TorVersion TorProcess Hashes Handshake ControlScript TorProps ObjectRegistry.
From stdpp Require Import prelude strings list.
From coqutil Require Import Byte.

Open Scope nat_scope.

(** Every item of a table passes. *)
Definition every {A} (test : A → bool) (table : list A) : bool := forallb test table.
Definition is_ok {E A} (r : result E A) : bool := match r with Ok _ => true | Err _ => false end.
Definition raw (l : list Z) : bytes := map byte.of_Z l.

(** * tor-interface/src/legacy_tor_version.rs: [test_version] *)

Definition parses_as (s : string) (v : result VersionError LegacyTorVersion) : bool :=
  match version_from_str (lit s), v with Ok a, Ok b => version_eq a b | _, _ => false end.
Definition less (a b : result VersionError LegacyTorVersion) : bool :=
  match a, b with Ok a, Ok b => bool_decide (version_partial_cmp a b = Some Lt) | _, _ => false end.

Example test_version :
  every (λ '(s, v), parses_as s v)
    [("1.2.3", version_new 1 2 3 None None);
     ("1.2.3.4", version_new 1 2 3 (Some 4%Z) None);
     ("1.2.3-test", version_new 1 2 3 None (Some (lit "test")));
     ("1.2.3.4-test", version_new 1 2 3 (Some 4%Z) (Some (lit "test")));
     ("1.2.3 (extra_info)", version_new 1 2 3 None None);
     ("1.2.3.4 (extra_info)", version_new 1 2 3 (Some 4%Z) None);
     ("1.2.3.4-tag (extra_info)", version_new 1 2 3 (Some 4%Z) (Some (lit "tag")));
     ("1.2.3.4-tag (extra_info) (extra_info)", version_new 1 2 3 (Some 4%Z) (Some (lit "tag")))]%string &&
  every (λ r, negb (is_ok r))
    [version_new 1 2 3 (Some 4%Z) (Some (lit "spaced tag")); version_new 1 2 3 (Some 4%Z) (Some (lit ""))] &&
  every (λ s, negb (is_ok (version_from_str (lit s))))
    [""; "1.2"; "1.2-foo"; "1.2.3.4-foo bar"; "1.2.3.4-foo bar (extra_info)"; "1.2.3.4-foo (extra_info) badtext"]%string &&
  every (less (version_new 0 0 0 (Some 0%Z) None))
    [version_new 1 0 0 (Some 0%Z) None; version_new 0 1 0 (Some 0%Z) None; version_new 0 0 1 (Some 0%Z) None] = true.
Proof. vm_compute. reflexivity. Qed.

(** Versions that differ in their tags only do not compare. *)
Example test_version_tags :
  match version_new 0 0 0 (Some 0%Z) None, version_new 0 0 0 (Some 0%Z) (Some (lit "tag")) with
  | Ok zero_version, Ok zero_version_tag => version_partial_cmp zero_version zero_version_tag = None
  | _, _ => False
  end.
Proof. vm_compute. reflexivity. Qed.

(** * gosling/src/ascii_string.rs: [test_ascii_string] *)

Example test_ascii_string :
  every (λ s, is_ok (ascii_string_new s))
    [""; String.string_of_list_byte (raw (seqZ 32 16)); "0123456789"; ":<=>?@"; "ABCDEFGHIJKLMNOPQRSTUVWXYZ"; "[\]^_`"; "abcdefghijklmnopqstuvwxyz"; "{|}~"]%string &&
  every (λ s, negb (is_ok (ascii_string_new s)))
    [String.string_of_list_byte (raw [226; 157; 164]%Z);
     String.string_of_list_byte (lit "heart " ++ raw [226; 157; 164]%Z)] = true.
Proof. vm_compute. reflexivity. Qed.

(** * cgosling/src/object_registry.rs *)

(** The key of an insertion and the registry after it. *)
Definition inserts {T} (tag bits : Z) (vs : list T) : option (list Z * @ObjectRegistry T) :=
  match registry_new tag bits with
  | Done r =>
      fold_left (λ acc v,
        match acc with
        | Some (keys, r) => match registry_insert tag bits r v with Done (k, r) => Some (keys ++ [k], r) | _ => None end
        | None => None
        end) vs (Some ([], r))
  | _ => None
  end.

Example test_object_registry :
  match inserts 1234 16 [10; 20; 30]%Z with
  | Some ([key1; key2; key3], registry) =>
      COUNTER_BITS 16 = (64 - 16)%Z ∧
      every (contains_key registry) [key1; key2; key3] = true ∧
      map (registry_get registry) [key1; key2; key3] = [Some 10; Some 20; Some 30]%Z ∧
      registry_get (registry_set registry key1 100%Z) key1 = Some 100%Z ∧
      (registry_remove registry key2).1 = Some 20%Z ∧
      contains_key (registry_remove registry key2).2 key2 = false ∧
      map (λ key, Z.land key (2 ^ 16 - 1)) [key1; key2; key3] = [1234; 1234; 1234]%Z ∧
      map (λ key, Z.shiftr key 16) [key1; key2; key3] = [1; 2; 3]%Z ∧
      [key1; key2; key3] = map (λ counter, Z.lor (Z.shiftl counter 16) 1234) [1; 2; 3]%Z
  | _ => False
  end.
Proof. vm_compute. split_and!; reflexivity. Qed.

Example test_object_registry_key_collision :
  match inserts 1 8 ["a1"; "a2"]%string, inserts 2 8 ["b1"; "b2"]%string with
  | Some (keys_a, _), Some (keys_b, _) =>
      map (λ key, Z.shiftr key 8) keys_a = map (λ key, Z.shiftr key 8) keys_b ∧
      every (λ key, negb (bool_decide (key ∈ keys_b))) keys_a = true
  | _, _ => False
  end.
Proof. vm_compute. split; reflexivity. Qed.

Example test_object_registry_empty_tag : fst <$> inserts 0 0 [1; 2]%Z = Some [1; 2]%Z.
Proof. vm_compute. reflexivity. Qed.

(** * tor-interface/src/legacy_tor_process.rs: [test_password_hash] *)

Example test_password_hash :
  hash_tor_password_with_salt (PC := HashedProcess)
    (raw [0xbe; 0x2a; 0x25; 0x1d; 0xe6; 0x2c; 0xb2; 0x7a; 0x60]%Z) (lit "abcdefghijklmnopqrstuvwxyz") =
    Done (lit "16:BE2A251DE62CB27A60AC9178A937990E8ED0AB662FA82A5C7DE3EBB23A") ∧
  hash_tor_password_with_salt (PC := HashedProcess)
    (raw [0x36; 0x73; 0x0e; 0xef; 0xd1; 0x8c; 0x60; 0xd6; 0x60]%Z) (lit "password") =
    Done (lit "16:36730EEFD18C60D66052E7EA535438761C0928D316EEA56A190C99B50A").
Proof. vm_compute. split; reflexivity. Qed.

(** * tor-interface/tests/tor_crypto.rs *)

Definition private_key_blob : bytes :=
  lit "ED25519-V3:rP3u8mZaKohap0lKsB8Z8qXbXqK456JKKGONDBhV+gPBVKa2mHVQqnRTVuFXe3inU3YW6qvc7glYEwe9rK0LhQ==".
Definition private_raw : bytes := raw
  [0xac; 0xfd; 0xee; 0xf2; 0x66; 0x5a; 0x2a; 0x88; 0x5a; 0xa7; 0x49; 0x4a; 0xb0; 0x1f; 0x19; 0xf2; 0xa5; 0xdb; 0x5e; 0xa2;
   0xb8; 0xe7; 0xa2; 0x4a; 0x28; 0x63; 0x8d; 0x0c; 0x18; 0x55; 0xfa; 0x03; 0xc1; 0x54; 0xa6; 0xb6; 0x98; 0x75; 0x50; 0xaa;
   0x74; 0x53; 0x56; 0xe1; 0x57; 0x7b; 0x78; 0xa7; 0x53; 0x76; 0x16; 0xea; 0xab; 0xdc; 0xee; 0x09; 0x58; 0x13; 0x07; 0xbd;
   0xac; 0xad; 0x0b; 0x85]%Z.
Definition public_raw : bytes := raw
  [0xf2; 0xfd; 0xa2; 0xdb; 0xf3; 0x80; 0xa6; 0xba; 0x74; 0xa4; 0x90; 0xe1; 0x45; 0x55; 0xee; 0xb9; 0x32; 0xa0; 0x5c; 0x39;
   0x5a; 0xe2; 0x02; 0x83; 0x55; 0x27; 0x89; 0x6a; 0x1f; 0x2f; 0x3d; 0xc5]%Z.
Definition service_id_text : string := "6l62fw7tqctlu5fesdqukvpoxezkaxbzllrafa2ve6ewuhzphxczsjyd".
Definition invalid_raw : bytes := raw
  [0x2e; 0x26; 0x0a; 0x77; 0x77; 0x77; 0x77; 0x77; 0x0a; 0x77; 0x77; 0x77; 0x77; 0x5d; 0x77; 0x77; 0x77; 0x77; 0x77; 0x77;
   0x77; 0x77; 0x82; 0xb4; 0x77; 0x77; 0x77; 0x77; 0x77; 0x77; 0x77; 0x77; 0x77; 0x77; 0x77; 0x77; 0x77; 0x77; 0x77; 0x77;
   0x77; 0x77; 0x77; 0xff; 0xff; 0xff; 0xff; 0xff; 0xff; 0xff; 0xff; 0xff; 0xff; 0xff; 0xff; 0xff; 0xff; 0x77; 0x77; 0x77;
   0x77; 0x77; 0x82; 0x88]%Z.

Section keys.
#[local] Existing Instance HashedCrypto | 0.
Let CL : CryptoLib := HashedCrypto.

(** What a result prints as. *)
Definition ok_text {E A} (print : A → bytes) (r : result E A) : option bytes :=
  match r with Ok a => Some (print a) | Err _ => None end.

Example test_crypto_ed25519 :
  is_valid (CL := CL) (lit service_id_text) &&
  match ed25519_private_from_raw (CL := CL) private_raw, from_key_blob (CL := CL) private_key_blob with
  | Ok private_key, Ok private_key' =>
      ed25519_private_eq private_key private_key' && bool_decide (to_key_blob private_key = private_key_blob)
  | _, _ => false
  end &&
  match service_id_from_string (CL := CL) service_id_text, ed25519_public_from_raw (CL := CL) public_raw with
  | Ok service_id, Ok public_key =>
      bool_decide (ed25519_public_as_bytes public_key = public_raw) &&
      bool_decide (ok_text ed25519_public_as_bytes (from_service_id service_id) = Some public_raw) &&
      bool_decide (sid_data (service_id_from_public_key public_key) = lit service_id_text)
  | _, _ => false
  end &&
  every (λ s, negb (is_valid (CL := CL) s))
    [lit ""; newline :: repeat space 8 ++ repeat Byte.x61 56;
     lit "6L62FW7TQCTLU5FESDQUKVPOXEZKAXBZLLRAFA2VE6EWUHZPHXCZSJYD"] &&
  match ed25519_private_from_raw (CL := CL) invalid_raw with Err KeyInvalid => true | _ => false end = true.
Proof. vm_compute. reflexivity. Qed.

Definition SECRET_BASE64 : bytes := lit "0GeSReJXdNcgvWRQdnDXhJGdu5UiwP2fefgT93/oqn0=".
Definition SECRET_RAW : bytes := raw
  [0xd0; 0x67; 0x92; 0x45; 0xe2; 0x57; 0x74; 0xd7; 0x20; 0xbd; 0x64; 0x50; 0x76; 0x70; 0xd7; 0x84; 0x91; 0x9d; 0xbb; 0x95;
   0x22; 0xc0; 0xfd; 0x9f; 0x79; 0xf8; 0x13; 0xf7; 0x7f; 0xe8; 0xaa; 0x7d]%Z.
Definition PUBLIC_BASE32 : bytes := lit "AEXCBCEDJ5KU34YGGMZ7PVHVDEA7D7YB7VQAPJTMTZGRJLN3JASA".
Definition PUBLIC_RAW : bytes := raw
  [0x01; 0x2e; 0x20; 0x88; 0x83; 0x4f; 0x55; 0x4d; 0xf3; 0x06; 0x33; 0x33; 0xf7; 0xd4; 0xf5; 0x19; 0x01; 0xf1; 0xff; 0x01;
   0xfd; 0x60; 0x07; 0xa6; 0x6c; 0x9e; 0x4d; 0x14; 0xad; 0xbb; 0x48; 0x24]%Z.

Example test_crypto_x25519 :
  bool_decide (ok_text x25519_to_base64 (x25519_private_from_raw (CL := CL) SECRET_RAW) = Some SECRET_BASE64) &&
  bool_decide (x25519_to_base32 (x25519_public_from_raw (CL := CL) PUBLIC_RAW) = PUBLIC_BASE32) &&
  bool_decide (ok_text x25519_to_base64 (x25519_from_base64 (CL := CL) SECRET_BASE64) = Some SECRET_BASE64) &&
  bool_decide (ok_text x25519_to_base32 (x25519_from_base32 (CL := CL) PUBLIC_BASE32) = Some PUBLIC_BASE32) = true.
Proof. vm_compute. reflexivity. Qed.

(** * tor-interface/tests/tor_provider.rs: [test_tor_provider_target_addr] *)

Definition target (s : string) : option TargetAddr :=
  match target_addr_from_str (CL := CL) (lit s) with Done (Ok a) => Some a | _ => None end.

Example test_tor_provider_target_addr :
  every (λ s, match target s with Some (TA_Socket _) => true | _ => false end)
    ["192.168.1.1:80"; "10.0.0.1:443"; "255.255.255.255:65535"; "0.0.0.0:22"; "192.168.0.254:21"; "127.0.0.1:3306";
     "[2001:0db8:85a3:0000:0000:8a2e:0370:7334]:80"; "[2001:db8:85a3::8a2e:370:7334]:443"; "[::1]:8080";
     "[::ffff:192.168.1.1]:53"; "[2001:0db8::1]:22"; "[fe80::1ff:fe23:4567:890a]:21"; "[2001:db8::1:0:0:1]:3306";
     "[2001:0db8:0000:0042:0000:8a2e:0370:7334]:123"; "[ff02::1]:554"; "[fe80::abcd:ef01:2345:6789]:179";
     "[::ffff:c0a8:101]:53"; "[2001:db8:0000:0042:0000:8a2e:0370:7334]:3306"; "[2001:db8::1]:179"]%string &&
  every (λ s, match target s with Some (TA_OnionService _) => true | _ => false end)
    ["6l62fw7tqctlu5fesdqukvpoxezkaxbzllrafa2ve6ewuhzphxczsjyd.onion:65535";
     "6L62FW7TQCTLU5FESDQUKVPOXEZKAXBZLLRAFA2VE6EWUHZPHXCZSJYD.onion:1"]%string &&
  every (λ s, match target s with Some (TA_Domain _) => true | _ => false end)
    ["example.com:80"; "subdomain.example.com:443"; "xn--e1afmkfd.xn--p1ai:8080"; "xn--fiqs8s:80"]%string &&
  every (λ s, match target s with None => true | _ => false end)
    ["192.168.1.1:99999"; "192.168.1.1:abc"; "192.168.1.1:"; "192.168.1.1: 80"; "192.168.1.1:80a";
     "[2001:db8:85a3::8a2e:370:7334]:99999"; "[2001:db8:85a3::8a2e:370:7334]"; "[2001:db8:85a3::8a2e:370:7334]: 80";
     "[2001:db8:85a3::8a2e:370:7334]:80a";
     "6l62fw7tqctlu5fesdqukvpoxezkaxbzllrafa2ve6ewuhzphxczsjyd234567.onion:80";
     "6l62fw7tqctlu5fesdqukvpoxezkaxbzllrafa2ve6ewuhzphxcz.onion:443";
     "6l62fw7tqctlu5fesdqukvpoxezkaxbzllrafa2ve6ewuhzphxczsjyd.onion:99999";
     "abcdefghijklmnopqrstuvwxyz0123456789abcdefghijklmnopqrst.onion:21";
     "6l62fw7tqctlu5fesdqukvpoxezkaxbzllrafa2ve6ewuhzphxczsjyd.onion:abc";
     "6l62fw7tqctlu5fesdqukvpoxezkaxbzllrafa2ve6ewuhzphxczsjyd.onion: 80";
     "6l62fw7tqctlu5fesdqukvpoxezkaxbzllrafa2ve6ewuhzphxczsjyd.onion:80a";
     "aaaaaaaaaaaaaaaaaaaaaaaaaaaaaaaaaaaaaaaaaaaaaaaaaaaaaaaa.onion:80";
     "example.com:99999"; "exaample.com:abc"; "exaample.com:"; "exaample.com: 80"; "example.com:80a";
     "xn--exmple-cua.com: 80"; "xn--exmple-cua.com:80a"]%string &&
  (** malformed socket addresses, which the domain crates refuse as names *)
  every (λ s, bool_decide (socket_addr_from_str (lit s) = None))
    ["[2001:db8:::1]:80"; "[2001:db8:85a3::8a2e:370:7334:1234::abcd]:80"; "[2001:db8:85a3::8a2e:370g:7334]:80";
     "[2001:db8:85a3:8a2e:370:7334]:80"; "[::12345]:80"; "[2001:db8:85a3::8a2e:370:7334:]:80";
     "2001:db8:85a3::8a2e:370:7334:80"]%string = true.
Proof. vm_compute. reflexivity. Qed.
End keys.

(** * Sessions joined by a connection *)

(** What the other end of a connection has sent and this end does not have yet arrives. *)
Definition receive (from to : Session Script) : Session Script :=
  set_stream (carry (stream from) (stream to) (length (sc_received (stream to)))) to.
Definition sleep (seconds : Z) (s : Session Script) : Session Script :=
  let 'mkScript i a c r out := stream s in set_stream (mkScript i a (c + seconds * 1000000000) r out) s.

(** A call that must not fail: its state, and its value. *)
Definition run {S E A B} (m : M S E A) (s : S) (k : S → A → option B) : option B :=
  match m s with Done (s, Ok a) => k s a | _ => None end.

(** ** honk-rpc/src/honk_rpc.rs: [test_honk_client_read_write] *)

Definition custom_error (code : Z) : ErrorSection :=
  mkErrorSection (Some 42069%Z) (Runtime code) (Some "Custom Error!"%string) None.
Definition alice_sections : list Section_ :=
  [SError (custom_error 2);
   SRequest (mkRequestSection None "std" "print" 0 (doc [("message", BString "hello!")]));
   SResponse (mkResponseSection 123456%Z Pending None)].
Definition send (sections : list Section_) : M (Session Script) HonkError unit :=
  _ ← fold_left (λ m section, (_ ← m; push_outbound_section section)) sections (mret tt);
  _ ← serialize_messages;
  write_pending_data 10.

Definition is_custom_error (code : Z) (section : Section_) : bool :=
  match section with
  | SError s =>
      bool_decide (es_cookie s = Some 42069%Z) && bool_decide (i32_from_error_code (es_code s) = code) &&
      bool_decide (es_message s = Some "Custom Error!"%string) && match es_data s with None => true | _ => false end
  | _ => false
  end.
Definition no_message (r : option Message) : bool := match r with None => true | _ => false end.

(** Pat reads nothing before and after alice sends nothing; alice reads pat's error; pat
    reads alice's three sections. *)
Definition read_write_run : option bool :=
  let alice := demo_session in
  run read_message demo_session (λ pat r1,
  run (send []) alice (λ alice _,
  run read_message (receive alice pat) (λ pat r2,
  run (send [SError (custom_error 1)]) pat (λ pat _,
  run read_message (receive pat alice) (λ alice r3,
  run (send alice_sections) alice (λ alice _,
  run read_message (receive alice pat) (λ pat r4,
    Some (no_message r1 && no_message r2 &&
      match msg_sections <$> r3 with Some [s] => is_custom_error 1 s | _ => false end &&
      match msg_sections <$> r4 with
      | Some [s1; SRequest s2; SResponse s3] =>
          is_custom_error 2 s1 &&
          bool_decide ((rq_cookie s2, rq_namespace s2, rq_function s2, rq_version s2) = (None, "std", "print", 0%Z)%string) &&
          bool_decide (rs_cookie s3 = 123456%Z) && match rs_state s3, rs_result s3 with Pending, None => true | _, _ => false end
      | _ => false
      end)))))))).

Example test_honk_client_read_write : read_write_run = Some true.
Proof. vm_compute. reflexivity. Qed.

(** ** [test_honk_timeout] *)

(** A peer's call is counted when it is the function the test calls. *)
Record CountSet := mkCountSet { call_count : nat }.
#[local] Instance count_set : ApiSet CountSet := {
  namespace _ := "namespace"%string;
  exec_function s name version _ _ :=
    (Some (Ok None),
     if bool_decide (name = "function"%string) && (version =? 0)%Z then mkCountSet (S (call_count s)) else s);
  api_update s := s;
  next_result s := Done (None, s);
}.

Definition update_alone (s : Session Script) (k : Session Script → option bool) : option bool :=
  run (update (A := CountSet) 30) (s, []) (λ '(s, _) _, k s).
Definition call_function : M (Session Script) HonkError RequestCookie := client_call "namespace" "function" 0 (doc []).

(** Pat calls twice, after pauses of two seconds, and alice answers; after four seconds
    without a call, alice's update times out. *)
Definition timeout_run : option bool :=
  let wait := (3 * 1000000000)%Z in
  update_alone demo_session (λ alice,
  update_alone (set_max_wait_time wait alice) (λ alice,
  run call_function (sleep 2 demo_session) (λ pat _,
  update_alone pat (λ pat,
  run (update 30) (receive pat (sleep 2 alice), [mkCountSet 0]) (λ '(alice, sets1) _,
  update_alone (receive alice (sleep 2 pat)) (λ pat,
  update_alone (sleep 2 alice) (λ alice,
  run call_function pat (λ pat _,
  update_alone pat (λ pat,
  run (update 30) (receive pat alice, sets1) (λ '(alice, sets2) _,
    Some (bool_decide (map call_count sets1 = [1]) && bool_decide (map call_count sets2 = [2]) &&
      match update (A := CountSet) 30 (pat, []), update (A := CountSet) 30 (sleep 4 alice, []) with
      | Done (_, Ok _), Done (_, Err (MessageReadTimedOut _)) => true
      | _, _ => false
      end))))))))))).

Example test_honk_timeout : timeout_run = Some true.
Proof. vm_compute. reflexivity. Qed.

(** ** honk-rpc/tests/honk_rpc.rs: [test_honk_client_apiset] *)

Record TestApiSet := mkTestApiSet { delay_echo_results : list (RequestCookie * result ErrorCode (option Bson)) }.
Definition RUNTIME_ERROR_INVALID_ARG : ErrorCode := Runtime 1.
Definition RUNTIME_ERROR_NOT_IMPLEMENTED : ErrorCode := Runtime 2.

Definition echo_0 (args : Document) : option (result ErrorCode (option Bson)) :=
  match doc_get args "val" with
  | Some (BString val) => Some (Ok (Some (BString val)))
  | _ => Some (Err RUNTIME_ERROR_INVALID_ARG)
  end.
Definition echo_1 (_ : Document) : option (result ErrorCode (option Bson)) := Some (Err RUNTIME_ERROR_NOT_IMPLEMENTED).
Definition delay_echo_0 (set : TestApiSet) (request_cookie : option RequestCookie) (args : Document) :
    option (result ErrorCode (option Bson)) * TestApiSet :=
  match doc_get args "val" with
  | Some (BString val) =>
      (None,
       match request_cookie with
       | Some request_cookie =>
           mkTestApiSet (delay_echo_results set ++ [(request_cookie, Ok (Some (BString (val +:+ " - Delayed!"))))])
       | None => set
       end)
  | _ => (Some (Err RUNTIME_ERROR_INVALID_ARG), set)
  end.
Definition sha256_0 (args : Document) : option (result ErrorCode (option Bson)) :=
  match doc_get args "data" with
  | Some (BBinary _ val) =>
      Some (Ok (Some (BString (String.string_of_list_byte (encode (HEXLOWER (CryptoLib := HashedCrypto)) (sha3_256_digest val))))))
  | _ => Some (Err RUNTIME_ERROR_INVALID_ARG)
  end.
Definition test_functions (set : TestApiSet) (name : string) (version : Z) (args : Document)
    (request_cookie : option RequestCookie) : option (result ErrorCode (option Bson)) * TestApiSet :=
  if bool_decide ((name, version) = ("echo"%string, 0%Z)) then (echo_0 args, set)
  else if bool_decide ((name, version) = ("echo"%string, 1%Z)) then (echo_1 args, set)
  else if bool_decide ((name, version) = ("delay_echo"%string, 0%Z)) then delay_echo_0 set request_cookie args
  else if bool_decide ((name, version) = ("sha256"%string, 0%Z)) then (sha256_0 args, set)
  else (Some (Err RequestFunctionInvalid), set).
#[local] Instance test_api_set : ApiSet TestApiSet := {
  namespace _ := "test"%string;
  exec_function := test_functions;
  api_update s := s;
  next_result s :=
    match delay_echo_results s with
    | [] => Done (None, s)
    | r :: rs => Done (Some r, mkTestApiSet rs)
    end;
}.

(** What a response says, with its cookie. *)
Inductive Said := SaidPending (cookie : Z) | SaidText (cookie : Z) (text : string) | SaidError (cookie code : Z) | SaidOther.
#[local] Instance said_eq_dec : EqDecision Said.
Proof. solve_decision. Defined.
Definition said (r : Response) : Said :=
  match r with
  | RespPending cookie => SaidPending cookie
  | RespSuccess cookie (Some (BString text)) => SaidText cookie text
  | RespSuccess _ _ => SaidOther
  | RespError cookie code => SaidError cookie (i32_from_error_code code)
  end.

(** Pat makes calls, alice answers with her set, and pat reads the responses. *)
Definition call_alice (calls : list (string * Z * Document)) (st : Session Script * Session Script * list TestApiSet) :
    option (list Said * (Session Script * Session Script * list TestApiSet)) :=
  let '(pat, alice, sets) := st in
  let client_calls := fold_left (λ m '(function, version, args), (_ ← m; _ ← client_call "test" function version args; mret tt))
    calls (mret tt : M (Session Script) HonkError unit) in
  match client_calls pat with
  | Done (pat, Ok _) =>
      match update (A := TestApiSet) 30 (pat, []) with
      | Done ((pat, _), Ok _) =>
          match update 30 (receive pat alice, sets) with
          | Done ((alice, sets), Ok _) =>
              match update (A := TestApiSet) 30 (receive alice pat, []) with
              | Done ((pat, _), Ok _) =>
                  let '(responses, pat) := client_drain_responses pat in Some (map said responses, (pat, alice, sets))
              | _ => None
              end
          | _ => None
          end
      | _ => None
      end
  | _ => None
  end.
Fixpoint call_all (rounds : list (list (string * Z * Document))) (st : Session Script * Session Script * list TestApiSet) :
    option (list (list Said)) :=
  match rounds with
  | [] => Some []
  | calls :: rounds =>
      match call_alice calls st with
      | Some (responses, st) => match call_all rounds st with Some rest => Some (responses :: rest) | None => None end
      | None => None
      end
  end.

Definition data_of (b : Init.Byte.byte) : Document :=
  doc [("data", BBinary Generic (repeat b (DEFAULT_MAX_MESSAGE_SIZE / 2)))].

Example test_honk_client_apiset :
  call_all
    [[("echo", 0%Z, doc [("val", BString "Hello Alice!")])]; [("echo", 0%Z, doc [("string", BString "Hello Alice!")])];
     [("echo", 1%Z, doc [("val", BString "Hello Again!")])]; [("delay_echo", 0%Z, doc [("val", BString "Hello Delayed?")])];
     [("sha256", 0%Z, data_of Byte.x00); ("sha256", 0%Z, data_of Byte.xff)]]%string
    (demo_session, demo_session, [mkTestApiSet []]) =
  Some [[SaidText 0 "Hello Alice!"]; [SaidError 1 1]; [SaidError 2 2];
        [SaidPending 3; SaidText 3 "Hello Delayed? - Delayed!"];
        [SaidText 4 "463c61ad03873aa9e82581205205acc3d3c8346c7037c43e4e241ee529f2dc27";
         SaidText 5 "9bd2dc706dd5251ae8fad858931585c71a1b4587aa7ecb30e15880e1b9dcda16"]].
Proof. vm_compute. reflexivity. Qed.

(** * gosling/src/gosling.rs *)

(** ** [test_identity_handshake] *)

Definition says (d : Document) (text : string) : bool :=
  match doc_get d "msg" with Some (BString s) => String.eqb s text | _ => false end.
Definition msg (text : string) : Document := doc [("msg", BString text)].

(** The settings of one run of [identity_test]. *)
Record IdentityTest := mkIdentityTest {
  it_client_blocked : bool;
  it_endpoint : string;
  it_endpoint_valid : bool;
  it_client_response : string;
  it_expected_response : string;
}.

(** What a turn leaves: the side, and whether its handshake goes on, is over and has failed
    or not, or the test stops because an assertion fails or a call does that must not. *)
Inductive Verdict := GoesOn | Over (failed : bool) | Stops.
Abbreviation Turn A := (A * Verdict)%type.
Definition goes {S E} (self : S) (o : outcome (S * result E unit)) : Turn S :=
  match o with Done (s, Ok _) => (s, GoesOn) | Done (s, Err _) => (s, Stops) | _ => (self, Stops) end.
Definition asserts (b : bool) : Verdict := if b then Over false else Stops.

Definition identity_server_turn (t : IdentityTest) (s : IdentityServer Script) : Turn (IdentityServer Script) :=
  match is_update 30 s with
  | Done (s, Ok None) => (s, GoesOn)
  | Done (s, Ok (Some (IS_EndpointRequestReceived _ _))) =>
      goes s (is_handle_endpoint_request_received (negb (it_client_blocked t)) (it_endpoint_valid t)
                (msg "Speak friend and enter") s)
  | Done (s, Ok (Some (IS_ChallengeResponseReceived resp))) =>
      goes s (is_handle_challenge_response_received (says resp (it_expected_response t)) s)
  | Done (s, Ok (Some (IS_HandshakeCompleted _ name _ _))) => (s, asserts (String.eqb (ascii_value name) (it_endpoint t)))
  | Done (s, Ok (Some (IS_HandshakeRejected _ _ _ _ _))) | Done (s, Err _) => (s, Over true)
  | _ => (s, Stops)
  end.

Definition identity_client_turn (t : IdentityTest) (c : IdentityClient Script) : Turn (IdentityClient Script) :=
  match ic_update 30 c with
  | Done (c, Ok None) => (c, GoesOn)
  | Done (c, Ok (Some (IC_ChallengeReceived _))) => goes c (ic_send_response (msg (it_client_response t)) c)
  | Done (c, Ok (Some (IC_HandshakeCompleted identity _ name _))) =>
      (c, asserts (bool_decide (identity = demo_server_id) && String.eqb name (it_endpoint t)))
  | Done (c, Err _) => (c, Over true)
  | _ => (c, Stops)
  end.

(** A pass of the loop; it goes on while neither side is over. *)
Definition pass (server client : Verdict) : Verdict :=
  match server, client with
  | Stops, _ | _, Stops => Stops
  | GoesOn, v | v, GoesOn => v
  | Over server_failed, Over client_failed => Over (server_failed || client_failed)
  end.

Fixpoint identity_loop (fuel : nat) (t : IdentityTest) (s : IdentityServer Script) (c : IdentityClient Script) : option bool :=
  match fuel with
  | O => None
  | S fuel =>
      let s := is_set_rpc (receive (ic_rpc c) <$> is_rpc s) s in
      let '(s, server) := identity_server_turn t s in
      let c := match is_rpc s with Some srpc => ic_set_rpc (receive srpc (ic_rpc c)) c | None => c end in
      let '(c, client) := identity_client_turn t c in
      match pass server client with
      | GoesOn => identity_loop fuel t s c
      | Over failed => Some failed
      | Stops => None
      end
  end.

Definition identity_test (t : IdentityTest) : option bool :=
  match ascii_string_new (it_endpoint t) with
  | Err _ => Some true
  | Ok endpoint =>
      match identity_client_new demo_session demo_server_id endpoint demo_client_key demo_auth_key 0 with
      | Ok client => identity_loop 10 t (identity_server_new demo_session demo_server_id 100) client
      | Err _ => None
      end
  end.

Definition non_ascii : string := String.string_of_list_byte (raw [240; 157; 149; 166]%Z).

(** The runs, with what is expected of them: whether they fail. *)
Definition identity_tests : list (IdentityTest * bool) :=
  [(mkIdentityTest false "endpoint" true "Mellon" "Mellon", false);
   (mkIdentityTest false "endpoint" false "Mellon" "Mellon", true);
   (mkIdentityTest false "endpoint" true "Friend?" "Mellon", true);
   (mkIdentityTest true "endpoint" true "Mellon" "Mellon", true);
   (mkIdentityTest false non_ascii true "Mellon" "Mellon", true)].

Example test_identity_handshake : map (identity_test ∘ fst) identity_tests = map (Some ∘ snd) identity_tests.
Proof. vm_compute. reflexivity. Qed.

(** ** [test_endpoint_handshake] *)

(** The settings of one run of [endpoint_test]. *)
Record EndpointTest := mkEndpointTest { et_client_allowed : bool; et_channel : string; et_channel_allowed : bool }.

(** A server's turn, with the stream it has handed out. *)
Definition endpoint_server_turn (t : EndpointTest) (s : EndpointServer Script) : Turn (EndpointServer Script * option Script) :=
  match ep_update 30 s with
  | Done (s, Ok None) => ((s, None), GoesOn)
  | Done (s, Ok (Some (EP_ChannelRequestReceived client channel))) =>
      if bool_decide (client = demo_client_id) && String.eqb (ascii_value channel) (et_channel t) then
        let '(s, verdict) := goes s (ep_handle_channel_request_received (et_channel_allowed t) s) in ((s, None), verdict)
      else ((s, None), Stops)
  | Done (s, Ok (Some (EP_HandshakeCompleted client channel st))) =>
      ((s, Some st), asserts (bool_decide (client = demo_client_id) && String.eqb (ascii_value channel) (et_channel t)))
  | Done (s, Ok (Some (EP_HandshakeRejected _ _ _))) | Done (s, Err _) => ((s, None), Over true)
  | _ => ((s, None), Stops)
  end.

Definition endpoint_client_turn (c : EndpointClient Script) : Turn (EndpointClient Script) :=
  match ec_update 30 c with
  | Done (c, Ok None) => (c, GoesOn)
  | Done (c, Ok (Some (EC_HandshakeCompleted _))) => (c, Over false)
  | Done (c, Err _) => (c, Over true)
  | _ => (c, Stops)
  end.

Fixpoint endpoint_loop (fuel : nat) (t : EndpointTest) (s : EndpointServer Script) (c : EndpointClient Script) : option bool :=
  match fuel with
  | O => None
  | S fuel =>
      let s := match ec_rpc c with Some crpc => ep_set_rpc (receive crpc <$> ep_rpc s) s | None => s end in
      let '((s, handed_out), server) := endpoint_server_turn t s in
      let from := match handed_out, ep_rpc s with
                  | Some st, _ => Some (set_stream st demo_session)
                  | None, srpc => srpc
                  end in
      let c := match from with Some from => ec_set_rpc (receive from <$> ec_rpc c) c | None => c end in
      let '(c, client) := endpoint_client_turn c in
      match pass server client with
      | GoesOn => endpoint_loop fuel t s c
      | Over failed => Some failed
      | Stops => None
      end
  end.

Definition endpoint_test (t : EndpointTest) : option bool :=
  let other := service_id_from_private_key (ed25519_generate (as_bytes "other")) in
  match ascii_string_new (et_channel t) with
  | Err _ => Some true
  | Ok channel =>
      endpoint_loop 10 t
        (endpoint_server_new demo_session (if et_client_allowed t then demo_client_id else other) demo_server_id 100)
        (endpoint_client_new demo_session demo_server_id channel demo_client_key 0)
  end.

Definition endpoint_tests : list (EndpointTest * bool) :=
  [(mkEndpointTest true "channel" true, false); (mkEndpointTest false "channel" true, true);
   (mkEndpointTest true "channel" false, true); (mkEndpointTest false "channel" false, true);
   (mkEndpointTest true non_ascii true, true)].

Example test_endpoint_handshake : map (endpoint_test ∘ fst) endpoint_tests = map (Some ∘ snd) endpoint_tests.
Proof. vm_compute. reflexivity. Qed.
