(* ===== verification/ProviderTests.v ===== *)
(** tor-interface/tests/tor_provider.rs: the tests of tor providers, over the class
    [TorProvider], and their runs on the mock provider.

    The two providers of a test live in one process on one host: what one does to the world
    outside it is there for the other.  Sockets are wires that keep what was written. *)

From Stdlib Require Import ZArith Lia.
From S2P Require Import Prelude Maps HonkSize HonkSession Str NetAddr Crypto CryptoModel TorCrypto TorProvider TorAddr.
From S2P Require Import MockTorClient SourceTests.
From stdpp Require Import prelude strings list.

Open Scope nat_scope.

Section provider_tests.
Context `{CL : CryptoLib} {P RW TL : Type} `{!TorProvider P RW TL} `{!Sockets RW TL}.

(** The world as the first provider has left it, for the second; [write_all] and [flush] on
    a stream and [read_to_end] at its other end; and the connections that wait at a
    listener. *)
Context (share : P → P → P) (write_all : RW → bytes → P → P) (read_to_end : RW → P → bytes)
  (arrive : P → OnionListener TL → OnionListener TL).

Definition is_log (e : TorEvent) : bool := match e with TE_LogReceived _ => true | _ => false end.
Definition is_complete (e : TorEvent) : bool := match e with TE_BootstrapComplete => true | _ => false end.
Definition is_published (service_id : V3OnionServiceId) (e : TorEvent) : bool :=
  match e with TE_OnionServicePublished id => bool_decide (id = service_id) | _ => false end.

(** [bootstrap_test] *)
Fixpoint bootstrap_loop (fuel : nat) (tor : P) (received_log : bool) : option bool :=
  match fuel with
  | O => None
  | S fuel =>
      run tp_update tor (λ tor events,
        let received_log := received_log || existsb is_log events in
        if existsb is_complete events then Some received_log else bootstrap_loop fuel tor received_log)
  end.
Definition bootstrap_test (tor : P) : option bool :=
  run tp_bootstrap tor (λ tor _, bootstrap_loop 10 tor false).

(** The loop with which the other tests wait for both providers. *)
Fixpoint bootstrap_both (fuel : nat) (server client : P) (server_complete client_complete : bool) : option (P * P) :=
  match fuel with
  | O => None
  | S fuel =>
      if negb server_complete || negb client_complete then
        run tp_update server (λ server server_events,
        run tp_update client (λ client client_events,
          bootstrap_both fuel server client
            (server_complete || existsb is_complete server_events)
            (client_complete || existsb is_complete client_events)))
      else Some (server, client)
  end.
Definition both_bootstrapped (server client : P) : option (P * P) :=
  run tp_bootstrap server (λ server _, run tp_bootstrap client (λ client _,
    bootstrap_both 10 server client false false)).

Fixpoint wait_published (fuel : nat) (tor : P) (service_id : V3OnionServiceId) : option P :=
  match fuel with
  | O => None
  | S fuel =>
      run tp_update tor (λ tor events,
        if existsb (is_published service_id) events then Some tor else wait_published fuel tor service_id)
  end.

(** [connect], up to three times *)
Fixpoint connect_attempts (attempts : nat) (target : TargetAddr) (tor : P) : option (P * OnionStream RW) :=
  match attempts with
  | O => None
  | S attempts =>
      match tp_connect target None tor with
      | Done (tor, Ok client) => Some (tor, client)
      | Done (tor, Err _) => connect_attempts attempts target tor
      | _ => None
      end
  end.

Definition VIRT_PORT : Z := 42069.
Definition MESSAGE : bytes := lit "Hello World!".

Definition accepts_message (server : P) (listener : OnionListener TL) : option bool :=
  match ol_accept (arrive server listener) with
  | (IoOk (Some stream), _) => Some (bool_decide (read_to_end (os_stream stream) server = MESSAGE))
  | _ => None
  end.

(** [basic_onion_service_test] *)
Definition basic_onion_service_test (private_key : Ed25519PrivateKey) (server client : P) : option bool :=
  let service_id := service_id_from_private_key private_key in
  '(server, client) ← both_bootstrapped server client;
  run (tp_listener private_key VIRT_PORT None) server (λ server listener,
    server ← wait_published 10 server service_id;
    '(client, stream) ← connect_attempts 3 (target_addr_from service_id VIRT_PORT) (share server client);
    let client := write_all (os_stream stream) MESSAGE client in
    accepts_message (share client server) listener).

(** [authenticated_onion_service_test] *)
Definition authenticated_onion_service_test (private_key : Ed25519PrivateKey) (private_auth_key : X25519PrivateKey)
    (server client : P) : option bool :=
  let service_id := service_id_from_private_key private_key in
  let public_auth_key := x25519_public_from_private private_auth_key in
  let target := target_addr_from service_id VIRT_PORT in
  '(server, client) ← both_bootstrapped server client;
  run (tp_listener private_key VIRT_PORT (Some [public_auth_key])) server (λ server listener,
    server ← wait_published 10 server service_id;
    match tp_connect target None (share server client) with
    | Done (client, Err _) =>
        run (tp_add_client_auth service_id private_auth_key) client (λ client _,
        run (tp_connect target None) client (λ client stream,
        let client := write_all (os_stream stream) MESSAGE client in
        run (tp_remove_client_auth service_id) client (λ client _,
        accepts_message (share client server) listener)))
    | _ => None
    end).
End provider_tests.

(** * The mock provider *)

(** A host: the addresses that are listened on, and the connections made so far with what
    was written to them.  A stream is the number of its connection, a listener its address
    and the connections that wait there. *)
Record LocalHost := mkLocalHost { lh_bound : list SocketAddr; lh_wires : list (SocketAddr * bytes) }.
Definition LocalListener : Type := SocketAddr * list nat.

#[local] Instance local_loopback : Loopback LocalHost nat LocalListener := {
  lb_connect addr h :=
    if decide (addr ∈ lh_bound h)
    then (IoOk (length (lh_wires h)), mkLocalHost (lh_bound h) (lh_wires h ++ [(addr, [])]))
    else (IoErr (OtherKind 111), h);
  lb_bind _ h :=
    let addr := SA_V4 [127; 0; 0; 1]%Z (1001 + Z.of_nat (length (lh_bound h))) in
    (IoOk (addr, []), mkLocalHost (lh_bound h ++ [addr]) (lh_wires h));
  lb_local_addr l := IoOk l.1;
}.
#[local] Instance local_sockets : Sockets nat LocalListener := {
  tl_accept l :=
    match l with (addr, stream :: waiting) => (IoOk stream, (addr, waiting)) | (_, []) => (IoErr WouldBlock, l) end;
  tl_set_nonblocking _ l := (IoOk tt, l);
  ts_set_nonblocking _ s := (IoOk tt, s);
}.
#[local] Instance local_curve_eq : CurveEq :=
  { curve_eqb a b := bool_decide (curve_as_bytes a = curve_as_bytes b) }.

Abbreviation LocalMock := (MockTorClient (H := LocalHost) (TL := LocalListener)).

Definition mock_share (from to : LocalMock) : LocalMock := mc_set_network (mc_network from) (mc_set_host (mc_host from) to).
Definition mock_write (stream : nat) (b : bytes) (s : LocalMock) : LocalMock :=
  let h := mc_host s in
  mc_set_host (mkLocalHost (lh_bound h) (alter (λ '(addr, sent), (addr, sent ++ b)) stream (lh_wires h))) s.
Definition mock_read (stream : nat) (s : LocalMock) : bytes := default [] (snd <$> lh_wires (mc_host s) !! stream).
Definition mock_arrive (s : LocalMock) (l : OnionListener (MockListener (TL := LocalListener))) :
    OnionListener (MockListener (TL := LocalListener)) :=
  let 'mkOnionListener (mkMockListener (addr, _) flag) onion_addr := l in
  let waiting := fst <$> filter (λ '(_, wire), wire.1 = addr) (imap pair (lh_wires (mc_host s))) in
  mkOnionListener (mkMockListener (addr, waiting) flag) onion_addr.

(** Two providers of one process. *)
Definition mock_pair : option (LocalMock * LocalMock) :=
  match mock_client_new mock_network_new (mkLocalHost [] []) with
  | Done server =>
      match mock_client_new (mc_network server) (mc_host server) with
      | Done client => Some (mock_share client server, client)
      | _ => None
      end
  | _ => None
  end.
Definition mock_private_key : Ed25519PrivateKey := ed25519_generate (as_bytes "service").

Example test_mock_bootstrap : ('(server, _) ← mock_pair; bootstrap_test server) = Some true.
Proof. vm_compute. reflexivity. Qed.

Example test_mock_onion_service :
  ('(server, client) ← mock_pair;
   basic_onion_service_test mock_share mock_write mock_read mock_arrive mock_private_key server client) = Some true.
Proof. vm_compute. reflexivity. Qed.

Example test_mock_authenticated_onion_service :
  ('(server, client) ← mock_pair;
   authenticated_onion_service_test mock_share mock_write mock_read mock_arrive mock_private_key
     (x25519_generate (as_bytes "client")) server client) = Some true.
Proof. vm_compute. reflexivity. Qed.
