(* ===== verification/CFfi.v ===== *)
(** cgosling/src/error.rs, ffi.rs, macros.rs and crypto.rs: the C interface to keys and
    service ids.  The objects live in registries behind mutexes; a call is wrapped so that
    errors and panics become error objects.

    A pointer and length that the caller passes in is [option bytes], [None] for a null
    pointer; an out pointer is whether it is not null, with the size of its buffer where it
    has one; what a call writes through its out pointers is returned.  Texts of errors are
    left out. *)

From Stdlib Require Import ZArith Lia.
From S2P Require Import Prelude Maps Str Crypto TorCrypto ObjectRegistry.
From stdpp Require Import prelude strings list.
From coqutil Require Import Byte.

Open Scope nat_scope.

(** * Locks, errors, tags *)

(** A [Mutex] around a registry: [None] once a thread panicked while holding it. *)
Abbreviation lock T := (option (ObjectRegistry T)).

(** The types of the objects that the other parts of the interface register, and of the
    errors of what they call. *)
Class OtherObjects : Type := {
  C_IpAddr : Type;
  C_TargetAddr : Type;
  C_ProxyConfig : Type;
  C_PluggableTransportConfig : Type;
  C_BridgeLine : Type;
  C_TorProviderConfig : Type;
  C_TorProvider : Type;
  C_ContextTuple : Type;
  C_Error : Type;
}.

(** What an error object says. *)
Inductive FfiError `{OO : OtherObjects} :=
| FE_Null
| FE_InvalidHandle
| FE_Length
| FE_AlreadyInitialized
| FE_Utf8
| FE_Crypto (err : CryptoError)
| FE_Zero
| FE_NotAscii
| FE_Unsupported
| FE_Missing
| FE_Other (err : C_Error)
| FE_Panic.

Definition ERROR_TAG : Z := 1.
Definition ED25519_PRIVATE_KEY_TAG : Z := 2.
Definition X25519_PRIVATE_KEY_TAG : Z := 3.
Definition X25519_PUBLIC_KEY_TAG : Z := 4.
Definition V3_ONION_SERVICE_ID_TAG : Z := 5.
Definition IP_ADDR_TAG : Z := 6.
Definition TARGET_ADDR_TAG : Z := 7.
Definition PROXY_CONFIG_TAG : Z := 8.
Definition PLUGGABLE_TRANSPORT_CONFIG_TAG : Z := 9.
Definition BRIDGE_LINE_TAG : Z := 10.
Definition TOR_PROVIDER_CONFIG_TAG : Z := 11.
Definition TOR_PROVIDER_TAG : Z := 12.
Definition CONTEXT_TUPLE_TAG : Z := 13.
Definition REGISTRY_TAG_BITS : Z := 4.

Definition GOSLING_LIBRARY_HANDLE : Z := (Z.shiftl 96 56 + 94)%Z.

(** How the closure of a call ends. *)
Inductive ffi_result `{OO : OtherObjects} (A : Type) := FOk (a : A) | FErr (e : FfiError) | FPanic | FDiverge.
Arguments FOk {OO A} a.
Arguments FErr {OO A} e.
Arguments FPanic {OO A}.
Arguments FDiverge {OO A}.

(** The statics of the library. *)
Section state.
Context `{CL : CryptoLib} `{OO : OtherObjects}.

Record Library := mkLibrary {
  g_inited : bool;
  g_error : lock FfiError;
  g_ed25519_private_key : lock Ed25519PrivateKey;
  g_x25519_private_key : lock X25519PrivateKey;
  g_x25519_public_key : lock X25519PublicKey;
  g_v3_onion_service_id : lock V3OnionServiceId;
  g_ip_addr : lock C_IpAddr;
  g_target_addr : lock C_TargetAddr;
  g_proxy_config : lock C_ProxyConfig;
  g_pluggable_transport_config : lock C_PluggableTransportConfig;
  g_bridge_line : lock C_BridgeLine;
  g_tor_provider_config : lock C_TorProviderConfig;
  g_tor_provider : lock C_TorProvider;
  g_context_tuple : lock C_ContextTuple;
}.

Definition g_set_inited v s := let 'mkLibrary _ x1 x2 x3 x4 x5 x6 x7 x8 x9 x10 x11 x12 x13 := s in mkLibrary v x1 x2 x3 x4 x5 x6 x7 x8 x9 x10 x11 x12 x13.
Definition g_set_error v s := let 'mkLibrary x0 _ x2 x3 x4 x5 x6 x7 x8 x9 x10 x11 x12 x13 := s in mkLibrary x0 v x2 x3 x4 x5 x6 x7 x8 x9 x10 x11 x12 x13.
Definition g_set_ed25519_private_key v s := let 'mkLibrary x0 x1 _ x3 x4 x5 x6 x7 x8 x9 x10 x11 x12 x13 := s in mkLibrary x0 x1 v x3 x4 x5 x6 x7 x8 x9 x10 x11 x12 x13.
Definition g_set_x25519_private_key v s := let 'mkLibrary x0 x1 x2 _ x4 x5 x6 x7 x8 x9 x10 x11 x12 x13 := s in mkLibrary x0 x1 x2 v x4 x5 x6 x7 x8 x9 x10 x11 x12 x13.
Definition g_set_x25519_public_key v s := let 'mkLibrary x0 x1 x2 x3 _ x5 x6 x7 x8 x9 x10 x11 x12 x13 := s in mkLibrary x0 x1 x2 x3 v x5 x6 x7 x8 x9 x10 x11 x12 x13.
Definition g_set_v3_onion_service_id v s := let 'mkLibrary x0 x1 x2 x3 x4 _ x6 x7 x8 x9 x10 x11 x12 x13 := s in mkLibrary x0 x1 x2 x3 x4 v x6 x7 x8 x9 x10 x11 x12 x13.
Definition g_set_ip_addr v s := let 'mkLibrary x0 x1 x2 x3 x4 x5 _ x7 x8 x9 x10 x11 x12 x13 := s in mkLibrary x0 x1 x2 x3 x4 x5 v x7 x8 x9 x10 x11 x12 x13.
Definition g_set_target_addr v s := let 'mkLibrary x0 x1 x2 x3 x4 x5 x6 _ x8 x9 x10 x11 x12 x13 := s in mkLibrary x0 x1 x2 x3 x4 x5 x6 v x8 x9 x10 x11 x12 x13.
Definition g_set_proxy_config v s := let 'mkLibrary x0 x1 x2 x3 x4 x5 x6 x7 _ x9 x10 x11 x12 x13 := s in mkLibrary x0 x1 x2 x3 x4 x5 x6 x7 v x9 x10 x11 x12 x13.
Definition g_set_pluggable_transport_config v s := let 'mkLibrary x0 x1 x2 x3 x4 x5 x6 x7 x8 _ x10 x11 x12 x13 := s in mkLibrary x0 x1 x2 x3 x4 x5 x6 x7 x8 v x10 x11 x12 x13.
Definition g_set_bridge_line v s := let 'mkLibrary x0 x1 x2 x3 x4 x5 x6 x7 x8 x9 _ x11 x12 x13 := s in mkLibrary x0 x1 x2 x3 x4 x5 x6 x7 x8 x9 v x11 x12 x13.
Definition g_set_tor_provider_config v s := let 'mkLibrary x0 x1 x2 x3 x4 x5 x6 x7 x8 x9 x10 _ x12 x13 := s in mkLibrary x0 x1 x2 x3 x4 x5 x6 x7 x8 x9 x10 v x12 x13.
Definition g_set_tor_provider v s := let 'mkLibrary x0 x1 x2 x3 x4 x5 x6 x7 x8 x9 x10 x11 _ x13 := s in mkLibrary x0 x1 x2 x3 x4 x5 x6 x7 x8 x9 x10 x11 v x13.
Definition g_set_context_tuple v s := let 'mkLibrary x0 x1 x2 x3 x4 x5 x6 x7 x8 x9 x10 x11 x12 _ := s in mkLibrary x0 x1 x2 x3 x4 x5 x6 x7 x8 x9 x10 x11 x12 v.

(** * Calls *)

Definition F (A : Type) : Type := Library → Library * ffi_result A.

#[export] Instance F_ret : MRet F := λ A a g, (g, FOk a).
#[export] Instance F_bind : MBind F := λ A B f m g,
  match m g with
  | (g, FOk a) => f a g
  | (g, FErr e) => (g, FErr e)
  | (g, FPanic) => (g, FPanic)
  | (g, FDiverge) => (g, FDiverge)
  end.
Definition bail {A} (e : FfiError) : F A := λ g, (g, FErr e).
Definition ensure (b : bool) (e : FfiError) : F unit := if b then mret tt else bail e.

(** [define_registry!]: the lock of a type and its tag. *)
Class Registered (T : Type) : Type := {
  rg_tag : Z;
  rg_get : Library → lock T;
  rg_set : lock T → Library → Library;
}.
#[export] Instance registered_error : Registered FfiError :=
  { rg_tag := ERROR_TAG; rg_get := g_error; rg_set := g_set_error }.
#[export] Instance registered_ed25519_private_key : Registered Ed25519PrivateKey :=
  { rg_tag := ED25519_PRIVATE_KEY_TAG; rg_get := g_ed25519_private_key; rg_set := g_set_ed25519_private_key }.
#[export] Instance registered_x25519_private_key : Registered X25519PrivateKey :=
  { rg_tag := X25519_PRIVATE_KEY_TAG; rg_get := g_x25519_private_key; rg_set := g_set_x25519_private_key }.
#[export] Instance registered_x25519_public_key : Registered X25519PublicKey :=
  { rg_tag := X25519_PUBLIC_KEY_TAG; rg_get := g_x25519_public_key; rg_set := g_set_x25519_public_key }.
#[export] Instance registered_v3_onion_service_id : Registered V3OnionServiceId :=
  { rg_tag := V3_ONION_SERVICE_ID_TAG; rg_get := g_v3_onion_service_id; rg_set := g_set_v3_onion_service_id }.

Section registered.
Context {T : Type} `{!Registered T}.

(** [get_.._registry().insert(v)]: a panic while the registry is held poisons its lock. *)
Definition reg_insert (v : T) : F Z := λ g,
  match rg_get g with
  | None => (g, FPanic)
  | Some r =>
      match registry_insert rg_tag REGISTRY_TAG_BITS r v with
      | Done (key, r) => (rg_set (Some r) g, FOk key)
      | _ => (rg_set None g, FPanic)
      end
  end.

(** [get_.._registry().get(handle as usize)], with [bail_invalid_handle!] *)
Definition reg_lookup (handle : Z) : F T := λ g,
  match rg_get g with
  | None => (g, FPanic)
  | Some r => match registry_get r handle with Some v => (g, FOk v) | None => (g, FErr FE_InvalidHandle) end
  end.

(** [get_.._registry().get_mut(handle as usize)], and what is done with the object while
    the registry is held: a panic poisons its lock. *)
Definition reg_with {A} (handle : Z) (f : T → outcome (T * result FfiError A)) : F A := λ g,
  match rg_get g with
  | None => (g, FPanic)
  | Some r =>
      match registry_get r handle with
      | None => (g, FErr FE_InvalidHandle)
      | Some v =>
          match f v with
          | Done (v, Ok a) => (rg_set (Some (registry_set r handle v)) g, FOk a)
          | Done (v, Err e) => (rg_set (Some (registry_set r handle v)) g, FErr e)
          | Panicked => (rg_set None g, FPanic)
          | OutOfFuel => (g, FDiverge)
          end
      end
  end.

(** What happens while a registry is held: a panic poisons its lock. *)
Definition holding {A} (m : F A) : F A := λ g,
  match (rg_get g : lock T) with
  | None => (g, FPanic)
  | Some _ => match m g with (g, FPanic) => (rg_set (None : lock T) g, FPanic) | x => x end
  end.

(** [get_.._registry().remove(handle as usize)], with [bail_invalid_handle!] *)
Definition reg_take (handle : Z) : F T := λ g,
  match rg_get g with
  | None => (g, FPanic)
  | Some r =>
      match registry_remove r handle with
      | (Some v, r) => (rg_set (Some r) g, FOk v)
      | (None, r) => (rg_set (Some r) g, FErr FE_InvalidHandle)
      end
  end.

(** [impl_registry_free!]: a poisoned lock aborts *)
Definition reg_free (handle : Z) (g : Library) : outcome Library :=
  if (handle =? 0)%Z then Done g
  else match rg_get g with
  | None => Panicked
  | Some r => Done (rg_set (Some (registry_remove r handle).2) g)
  end.

(** [clear_.._registry] *)
Definition reg_clear (g : Library) : outcome Library :=
  match rg_get g with
  | None => Panicked
  | Some _ =>
      match registry_new (T:=T) rg_tag REGISTRY_TAG_BITS with
      | Done r => Done (rg_set (Some r) g)
      | _ => Panicked
      end
  end.
End registered.

(** ** error.rs *)

(** [translate_failures]: what the call returns and what it stores in [out_error].  The
    insertion of the error object is not protected: there a panic leaves the call. *)
Definition translate_failures {A} (default : A) (out_error : bool) (closure : F A) (g : Library) :
    outcome (Library * A * option Z) :=
  match closure g with
  | (g, FOk retval) => Done (g, retval, None)
  | (_, FDiverge) => OutOfFuel
  | (g, failure) =>
      let err := match failure with FErr e => e | _ => FE_Panic end in
      if out_error then
        match reg_insert err g with
        | (g, FOk key) => Done (g, default, Some key)
        | _ => Panicked
        end
      else Done (g, default, None)
  end.

(** [gosling_error_get_message]; [None] is a null pointer *)
Definition gosling_error_get_message (error : Z) (g : Library) : outcome (option FfiError) :=
  if (error =? 0)%Z then Done None
  else match g_error g with
  | None => Panicked
  | Some registry => Done (if contains_key registry error then registry_get registry error else None)
  end.

(** A clone function, for a type whose [clone] is [clone_]; a panic in it, while the
    registry is held, poisons the lock. *)
Definition object_clone {T} `{!Registered T} (clone_ : T → outcome T) (out_object : bool) (object : Z) (error : bool) :
    Library → outcome (Library * option Z * option Z) :=
  translate_failures None error (
    _ ← ensure out_object FE_Null;
    _ ← ensure (negb (object =? 0)%Z) FE_Null;
    orig ← reg_lookup object;
    copy ← (match clone_ orig with
            | Done copy => mret copy
            | _ => λ g, (rg_set (None : lock T) g, FPanic)
            end : F T);
    handle ← reg_insert copy;
    mret (Some handle)).

Definition gosling_error_clone := object_clone (T:=FfiError) Done.
Definition gosling_error_free : Z → Library → outcome Library := reg_free (T:=FfiError).

(** ** ffi.rs *)

Definition begin_library : F (option Z) := λ g,
  if g_inited g then (g, FErr FE_AlreadyInitialized)
  else (g_set_inited true g, FOk (Some GOSLING_LIBRARY_HANDLE)).

(** [gosling_library_init] *)
Definition gosling_library_init (out_library error : bool) :
    Library → outcome (Library * option Z * option Z) :=
  translate_failures None error (
    _ ← ensure out_library FE_Null;
    begin_library).

(** The registries of the other parts of the interface. *)
#[export] Instance registered_ip_addr : Registered C_IpAddr :=
  { rg_tag := IP_ADDR_TAG; rg_get := g_ip_addr; rg_set := g_set_ip_addr }.
#[export] Instance registered_target_addr : Registered C_TargetAddr :=
  { rg_tag := TARGET_ADDR_TAG; rg_get := g_target_addr; rg_set := g_set_target_addr }.
#[export] Instance registered_proxy_config : Registered C_ProxyConfig :=
  { rg_tag := PROXY_CONFIG_TAG; rg_get := g_proxy_config; rg_set := g_set_proxy_config }.
#[export] Instance registered_pluggable_transport_config : Registered C_PluggableTransportConfig :=
  { rg_tag := PLUGGABLE_TRANSPORT_CONFIG_TAG; rg_get := g_pluggable_transport_config;
    rg_set := g_set_pluggable_transport_config }.
#[export] Instance registered_bridge_line : Registered C_BridgeLine :=
  { rg_tag := BRIDGE_LINE_TAG; rg_get := g_bridge_line; rg_set := g_set_bridge_line }.
#[export] Instance registered_tor_provider_config : Registered C_TorProviderConfig :=
  { rg_tag := TOR_PROVIDER_CONFIG_TAG; rg_get := g_tor_provider_config; rg_set := g_set_tor_provider_config }.
#[export] Instance registered_tor_provider : Registered C_TorProvider :=
  { rg_tag := TOR_PROVIDER_TAG; rg_get := g_tor_provider; rg_set := g_set_tor_provider }.
#[export] Instance registered_context_tuple : Registered C_ContextTuple :=
  { rg_tag := CONTEXT_TUPLE_TAG; rg_get := g_context_tuple; rg_set := g_set_context_tuple }.

Definition then_clear (clear : Library → outcome Library) (o : outcome Library) : outcome Library :=
  match o with Done g => clear g | o => o end.

(** [gosling_library_free] *)
Definition gosling_library_free (g : Library) : outcome Library :=
  if g_inited g then
    match
      then_clear (reg_clear (T:=C_ContextTuple)) (
      then_clear (reg_clear (T:=C_TorProviderConfig)) (
      then_clear (reg_clear (T:=C_TorProvider)) (
      then_clear (reg_clear (T:=C_BridgeLine)) (
      then_clear (reg_clear (T:=C_PluggableTransportConfig)) (
      then_clear (reg_clear (T:=C_ProxyConfig)) (
      then_clear (reg_clear (T:=C_TargetAddr)) (
      then_clear (reg_clear (T:=C_IpAddr)) (
      then_clear (reg_clear (T:=V3OnionServiceId)) (
      then_clear (reg_clear (T:=X25519PublicKey)) (
      then_clear (reg_clear (T:=X25519PrivateKey)) (
      then_clear (reg_clear (T:=Ed25519PrivateKey)) (
      then_clear (reg_clear (T:=FfiError)) (Done g)))))))))))))
    with
    | Done g => Done (g_set_inited false g)
    | o => o
    end
  else Done g.

(** ** crypto.rs *)

Definition gosling_ed25519_private_key_free : Z → Library → outcome Library := reg_free (T:=Ed25519PrivateKey).
Definition gosling_x25519_private_key_free : Z → Library → outcome Library := reg_free (T:=X25519PrivateKey).
Definition gosling_x25519_public_key_free : Z → Library → outcome Library := reg_free (T:=X25519PublicKey).
Definition gosling_v3_onion_service_id_free : Z → Library → outcome Library := reg_free (T:=V3OnionServiceId).

Definition gosling_ed25519_private_key_clone := object_clone ed25519_private_clone.
Definition gosling_x25519_public_key_clone := object_clone (T:=X25519PublicKey) Done.
Definition gosling_x25519_private_key_clone := object_clone (T:=X25519PrivateKey) Done.
Definition gosling_v3_onion_service_id_clone := object_clone (T:=V3OnionServiceId) Done.

(** [gosling_ed25519_private_key_generate], with the random bytes it draws *)
Definition gosling_ed25519_private_key_generate (seed : bytes) (out_private_key error : bool) :
    Library → outcome (Library * option Z * option Z) :=
  translate_failures None error (
    _ ← ensure out_private_key FE_Null;
    handle ← reg_insert (ed25519_generate seed);
    mret (Some handle)).

(** The functions that read an object from a text of a given length. *)
Definition object_from_text {T} `{!Registered T} (text_length : nat) (parse : bytes → result CryptoError T)
    (out_object : bool) (text : option bytes) (error : bool) : Library → outcome (Library * option Z * option Z) :=
  translate_failures None error (
    _ ← ensure out_object FE_Null;
    match text with
    | None => bail FE_Null
    | Some text =>
        _ ← ensure (bool_decide (length text = text_length)) FE_Length;
        _ ← ensure (is_utf8 text) FE_Utf8;
        match parse text with
        | Err e => bail (FE_Crypto e)
        | Ok object => handle ← reg_insert object; mret (Some handle)
        end
    end).

Definition gosling_ed25519_private_key_from_keyblob :=
  object_from_text ED25519_PRIVATE_KEY_KEYBLOB_LENGTH from_key_blob.
Definition gosling_x25519_private_key_from_base64 :=
  object_from_text X25519_PRIVATE_KEY_BASE64_LENGTH x25519_from_base64.
Definition gosling_x25519_public_key_from_base32 :=
  object_from_text X25519_PUBLIC_KEY_BASE32_LENGTH x25519_from_base32.
Definition gosling_v3_onion_service_id_from_string :=
  object_from_text V3_ONION_SERVICE_ID_STRING_LENGTH (λ s, service_id_from_string (String.string_of_list_byte s)).

(** The functions that write the text of an object and a null byte to a buffer, which must
    have room for both: what is written. *)
Definition object_to_text {T} `{!Registered T} (text_length : nat) (print : T → bytes)
    (object : Z) (out_text : option nat) (error : bool) : Library → outcome (Library * option bytes * option Z) :=
  translate_failures None error (
    _ ← ensure (negb (object =? 0)%Z) FE_Null;
    match out_text with
    | None => bail FE_Null
    | Some size =>
        _ ← ensure (negb (size <? text_length + 1)) FE_Length;
        v ← reg_lookup object;
        mret (Some (take text_length (print v) ++ [Byte.x00]))
    end).

Definition gosling_ed25519_private_key_to_keyblob := object_to_text ED25519_PRIVATE_KEY_KEYBLOB_LENGTH to_key_blob.
Definition gosling_x25519_private_key_to_base64 := object_to_text X25519_PRIVATE_KEY_BASE64_LENGTH x25519_to_base64.
Definition gosling_x25519_public_key_to_base32 := object_to_text X25519_PUBLIC_KEY_BASE32_LENGTH x25519_to_base32.
Definition gosling_v3_onion_service_id_to_string := object_to_text V3_ONION_SERVICE_ID_STRING_LENGTH sid_data.

(** [gosling_v3_onion_service_id_from_ed25519_private_key] *)
Definition gosling_v3_onion_service_id_from_ed25519_private_key (out_service_id : bool) (ed25519_private_key : Z)
    (error : bool) : Library → outcome (Library * option Z * option Z) :=
  translate_failures None error (
    _ ← ensure out_service_id FE_Null;
    _ ← ensure (negb (ed25519_private_key =? 0)%Z) FE_Null;
    key ← reg_lookup ed25519_private_key;
    handle ← reg_insert (service_id_from_private_key key);
    mret (Some handle)).

(** [gosling_string_is_valid_v3_onion_service_id] *)
Definition gosling_string_is_valid_v3_onion_service_id (service_id_string : option bytes) (error : bool) :
    Library → outcome (Library * bool * option Z) :=
  translate_failures false error (
    match service_id_string with
    | None => bail FE_Null
    | Some s =>
        _ ← ensure (bool_decide (length s = V3_ONION_SERVICE_ID_STRING_LENGTH)) FE_Length;
        _ ← ensure (is_utf8 s) FE_Utf8;
        mret (is_valid s)
    end).
End state.
