(* ===== verification/CObjects.v ===== *)
(** The objects behind the handles of the C interface: the types that cgosling/src/utils.rs,
    tor_provider.rs, context.rs and callbacks.rs register, the boxed tor provider, and the
    errors these files pass on.

    [gosling_objects] gives them to the registries of CFfi; the provider of a context is a
    parameter, which tor_provider.rs fills with [BoxedProvider]. *)

From Stdlib Require Import ZArith Lia.
From S2P Require Import Prelude Bson HonkSize Maps HonkSession Str NetAddr Regexes Crypto TorCrypto TorProvider TorAddr.
From S2P Require Import MockTorClient TorConfig TorProcess TorVersion ControlStream TorController LegacyTorClient.
From S2P Require Import HonkWire Context ObjectRegistry CFfi.
From stdpp Require Import prelude strings list.

Open Scope nat_scope.

(** [std::net::IpAddr], [SocketAddr::new] *)
Inductive IpAddr := IP_V4 (octets : list Z) | IP_V6 (segments : list Z).
Definition socket_addr_new (ip : IpAddr) (port : Z) : SocketAddr :=
  match ip with IP_V4 octets => SA_V4 octets port | IP_V6 segments => SA_V6 segments port 0 end.

(** ** Callbacks *)

(** A function pointer that may be null. *)
Abbreviation callback := (option Z).

Record EventCallbacks := mkEventCallbacks {
  tor_bootstrap_status_received_callback : callback;
  tor_bootstrap_completed_callback : callback;
  tor_log_received_callback : callback;
  identity_client_challenge_response_size_callback : callback;
  identity_client_build_challenge_response_callback : callback;
  identity_client_handshake_completed_callback : callback;
  identity_client_handshake_failed_callback : callback;
  identity_server_published_callback : callback;
  identity_server_handshake_started_callback : callback;
  identity_server_client_allowed_callback : callback;
  identity_server_endpoint_supported_callback : callback;
  identity_server_challenge_size_callback : callback;
  identity_server_build_challenge_callback : callback;
  identity_server_verify_challenge_response_callback : callback;
  identity_server_handshake_completed_callback : callback;
  identity_server_handshake_rejected_callback : callback;
  identity_server_handshake_failed_callback : callback;
  endpoint_client_handshake_completed_callback : callback;
  endpoint_client_handshake_failed_callback : callback;
  endpoint_server_published_callback : callback;
  endpoint_server_handshake_started_callback : callback;
  endpoint_server_channel_supported_callback : callback;
  endpoint_server_handshake_completed_callback : callback;
  endpoint_server_handshake_rejected_callback : callback;
  endpoint_server_handshake_failed_callback : callback;
}.

(** [EventCallbacks::default] *)
Definition no_callbacks : EventCallbacks :=
  mkEventCallbacks None None None None None None None None None None None None None None None None None None
    None None None None None None None.

(** ** Tor providers *)

Inductive TorProviderConfig :=
| MockTorClientConfig
| LegacyTorClientConfig_ (config : LegacyTorClientConfig).

(** What the calls of these files fail with. *)
Inductive OtherError `{BL : BsonLib} :=
| OE_TorProvider (err : TorProviderError)
| OE_Proxy (err : ProxyConfigError)
| OE_Transport (err : PluggableTransportConfigError)
| OE_Bridge (err : BridgeLineError)
| OE_Client (err : LCError)
| OE_Context (err : CXError)
| OE_Io (kind : ErrorKind)
| OE_Which
| OE_NotBson.

Section boxed.
Context `{CL : CryptoLib} `{RL : RegexLib} {H Child W RW TL : Type}.

(** [Box<dyn TorProvider>], with the two providers of this interface, and their listeners. *)
Inductive BoxedProvider :=
| BP_Mock (client : MockTorClient (H:=H) (TL:=TL))
| BP_Legacy (client : LegacyTorClient (H:=H) (Child:=Child) (W:=W)).
Inductive BoxedListener :=
| BL_Mock (l : MockListener (TL:=TL))
| BL_Legacy (l : ClientListener (TL:=TL)).

Definition map_listener {A B} (f : A → B) (l : OnionListener A) : OnionListener B :=
  mkOnionListener (f (ol_listener l)) (ol_onion_addr l).

(** A method of the provider in the box. *)
Definition boxed {A} (mock : M (MockTorClient (H:=H) (TL:=TL)) TorProviderError A)
    (legacy : M (LegacyTorClient (H:=H) (Child:=Child) (W:=W)) TorProviderError A) :
    M BoxedProvider TorProviderError A := λ p,
  match p with
  | BP_Mock c =>
      match mock c with Done (c, r) => Done (BP_Mock c, r) | Panicked => Panicked | OutOfFuel => OutOfFuel end
  | BP_Legacy c =>
      match legacy c with Done (c, r) => Done (BP_Legacy c, r) | Panicked => Panicked | OutOfFuel => OutOfFuel end
  end.
Definition map_result {S E A B} (f : A → B) (m : M S E A) : M S E B := λ s,
  match m s with
  | Done (s, Ok a) => Done (s, Ok (f a))
  | Done (s, Err e) => Done (s, Err e)
  | Panicked => Panicked
  | OutOfFuel => OutOfFuel
  end.

Context `{CE : !CurveEq} `{LB : !Loopback H RW TL}.
Context `{PC : ProcessCrypto} `{DL : DomainLib} {File : Type} `{TH : !TorHost H File Child}.
Context `{CS : !ControlSocket W} `{TN : !TorNetwork H RW TL}.

Definition boxed_tor_provider (fuel : nat) : TorProvider BoxedProvider RW BoxedListener :=
  let mock : TorProvider (MockTorClient (H:=H) (TL:=TL)) RW MockListener := mock_tor_provider in
  let legacy : TorProvider (LegacyTorClient (H:=H) (Child:=Child) (W:=W)) RW ClientListener :=
    legacy_tor_provider fuel in {|
  tp_update := boxed tp_update tp_update;
  tp_bootstrap := boxed tp_bootstrap tp_bootstrap;
  tp_add_client_auth id key := boxed (tp_add_client_auth id key) (tp_add_client_auth id key);
  tp_remove_client_auth id := boxed (tp_remove_client_auth id) (tp_remove_client_auth id);
  tp_connect target circuit := boxed (tp_connect target circuit) (tp_connect target circuit);
  tp_listener key port clients :=
    boxed (map_result (map_listener BL_Mock) (tp_listener key port clients))
      (map_result (map_listener BL_Legacy) (tp_listener key port clients));
  tp_generate_token p :=
    match p with
    | BP_Mock c => let '(token, c) := tp_generate_token c in (token, BP_Mock c)
    | BP_Legacy c => let '(token, c) := tp_generate_token c in (token, BP_Legacy c)
    end;
  tp_release_token token p :=
    match p with
    | BP_Mock c => BP_Mock (tp_release_token token c)
    | BP_Legacy c => BP_Legacy (tp_release_token token c)
    end;
  tp_drop_listener l p :=
    match p, ol_listener l with
    | BP_Mock c, BL_Mock tl => BP_Mock (tp_drop_listener (mkOnionListener tl (ol_onion_addr l)) c)
    | BP_Legacy c, BL_Legacy tl => BP_Legacy (tp_drop_listener (mkOnionListener tl (ol_onion_addr l)) c)
    | _, _ => p
    end;
|}.
End boxed.

(** ** The registered types *)

Definition ContextTuple `{BL : BsonLib} `{CL : CryptoLib} (RW TL P : Type) : Type :=
  Context RW TL P * EventCallbacks * option (list (ContextEvent RW)).

Definition gosling_objects `{BL : BsonLib} `{CL : CryptoLib} (RW TL P : Type) : OtherObjects := {|
  C_IpAddr := IpAddr;
  C_TargetAddr := TargetAddr;
  C_ProxyConfig := ProxyConfig;
  C_PluggableTransportConfig := PluggableTransportConfig;
  C_BridgeLine := BridgeLine;
  C_TorProviderConfig := TorProviderConfig;
  C_TorProvider := P;
  C_ContextTuple := ContextTuple RW TL P;
  C_Error := OtherError;
|}.
