(* ===== verification/CUtils.v ===== *)
(** cgosling/src/utils.rs: addresses of the C interface, and the calls of a context that
    connect to them. *)

From Stdlib Require Import ZArith Lia.
From S2P Require Import Prelude Bson HonkSize Maps HonkSession Str NetAddr Regexes Crypto TorCrypto TorProvider TorAddr.
From S2P Require Import HonkWire Context ObjectRegistry CFfi CObjects.
From stdpp Require Import prelude strings list.
From coqutil Require Import Byte.

Open Scope nat_scope.

(** [usize::MAX], which [!0usize] is *)
Definition not_0usize : Z := usize_max.

Section utils.
Context `{BL : BsonLib} `{CL : CryptoLib} {RW TL P : Type}.
#[local] Hint Extern 0 OtherObjects => exact (gosling_objects RW TL P) : typeclass_instances.

(** A value of code that may panic or not return. *)
Definition run {A} (o : outcome A) : F A := λ g,
  match o with Done a => (g, FOk a) | Panicked => (g, FPanic) | OutOfFuel => (g, FDiverge) end.

(** [?] on a result of another crate *)
Definition run_result {E A} (f : E → OtherError) (r : result E A) : F A :=
  match r with Ok a => mret a | Err e => bail (FE_Other (f e)) end.

(** A pointer to a text and its length, neither of which may be zero, and
    [std::str::from_utf8]. *)
Definition c_text (zero : FfiError) (text : option bytes) : F bytes :=
  match text with
  | None => bail FE_Null
  | Some text => _ ← ensure (negb (length text =? 0)) zero; mret text
  end.
Definition utf8_text (text : bytes) : F bytes := _ ← ensure (is_utf8 text) FE_Utf8; mret text.

(** ** Memory *)

Definition gosling_ip_address_free : Z → Library → outcome Library := reg_free (T:=C_IpAddr).
Definition gosling_target_address_free : Z → Library → outcome Library := reg_free (T:=C_TargetAddr).
Definition gosling_ip_address_clone := object_clone (T:=C_IpAddr) Done.
Definition gosling_target_address_clone := object_clone (T:=C_TargetAddr) Done.

(** ** Addresses *)

(** [get_.._registry().insert(v)] and the handle given to the caller. *)
Definition give {T} `{!Registered T} (v : T) : F (option Z) := handle ← reg_insert v; mret (Some handle).

(** [gosling_ip_address_from_ipv4], [gosling_ip_address_from_ipv6] *)
Definition gosling_ip_address_from_ipv4 (out_ip_address : bool) (a b c d : Z) (error : bool) :
    Library → outcome (Library * option Z * option Z) :=
  translate_failures None error (
    _ ← ensure out_ip_address FE_Null;
    give (T:=C_IpAddr) (IP_V4 [a; b; c; d])).
Definition gosling_ip_address_from_ipv6 (out_ip_address : bool) (a b c d e f g h : Z) (error : bool) :
    Library → outcome (Library * option Z * option Z) :=
  translate_failures None error (
    _ ← ensure out_ip_address FE_Null;
    give (T:=C_IpAddr) (IP_V6 [a; b; c; d; e; f; g; h])).

(** [gosling_target_address_from_ip_address] *)
Definition gosling_target_address_from_ip_address (out_target_address : bool) (ip_address port : Z) (error : bool) :
    Library → outcome (Library * option Z * option Z) :=
  translate_failures None error (
    _ ← ensure out_target_address FE_Null;
    _ ← ensure (negb (ip_address =? 0)%Z) FE_Null;
    ip_address ← reg_lookup (T:=C_IpAddr) ip_address;
    give (T:=C_TargetAddr) (TA_Socket (socket_addr_new ip_address port))).

(** [gosling_target_address_from_v3_onion_service_id] *)
Definition gosling_target_address_from_v3_onion_service_id (out_target_address : bool) (service_id port : Z)
    (error : bool) : Library → outcome (Library * option Z * option Z) :=
  translate_failures None error (
    _ ← ensure out_target_address FE_Null;
    _ ← ensure (negb (service_id =? 0)%Z) FE_Null;
    service_id ← reg_lookup (T:=V3OnionServiceId) service_id;
    give (T:=C_TargetAddr) (TA_OnionService (OA_V3 (mkOnionAddrV3 service_id port)))).

Section texts.
Context `{SC : StrCase} `{RL : RegexLib} `{DL : DomainLib}.

(** [gosling_target_address_from_domain] *)
Definition gosling_target_address_from_domain (out_target_address : bool) (domain : option bytes) (port : Z)
    (error : bool) : Library → outcome (Library * option Z * option Z) :=
  translate_failures None error (
    _ ← ensure out_target_address FE_Null;
    domain ← c_text FE_Length domain;
    domain ← utf8_text domain;
    domain ← run_result OE_TorProvider (domain_addr_try_from domain port);
    give (T:=C_TargetAddr) (TA_Domain domain)).

(** [gosling_target_address_from_string] *)
Definition gosling_target_address_from_string (out_target_address : bool) (target_address : option bytes)
    (error : bool) : Library → outcome (Library * option Z * option Z) :=
  translate_failures None error (
    _ ← ensure out_target_address FE_Null;
    target_address ← c_text FE_Length target_address;
    target_address ← utf8_text target_address;
    r ← run (target_addr_from_str target_address);
    target_address ← run_result OE_TorProvider r;
    give (T:=C_TargetAddr) target_address).

(** [gosling_target_address_to_string]: what is written *)
Definition gosling_target_address_to_string (target_address : Z) (out_string : option nat) (error : bool) :
    Library → outcome (Library * option bytes * option Z) :=
  translate_failures None error (
    _ ← ensure (negb (target_address =? 0)%Z) FE_Null;
    match out_string with
    | None => bail FE_Null
    | Some size =>
        target_address ← reg_lookup (T:=C_TargetAddr) target_address;
        let text := target_addr_to_string target_address in
        _ ← ensure (negb (size <=? length text)) FE_Length;
        mret (Some (text ++ [Byte.x00]))
    end).
End texts.

(** ** Contexts *)

Context `{!Stream RW} `{!Sockets RW TL} `{!TorProvider P RW TL} `{!HashOrder V3OnionServiceId}.

(** A method of the context behind a handle, while the registry of contexts is held. *)
Definition on_context {A} (context : Z) (m : M (Context RW TL P) CXError A) : F A :=
  reg_with (T:=C_ContextTuple) context (λ t,
    let '(c, callbacks, events) := (t : ContextTuple RW TL P) in
    match m c with
    | Done (c, r) => Done ((c, callbacks, events) : ContextTuple RW TL P, map_err (λ e, FE_Other (OE_Context e)) r)
    | Panicked => Panicked
    | OutOfFuel => OutOfFuel
    end).

(** [gosling_context_connect]: the stream is handed out *)
Definition gosling_context_connect (context : Z) (out_tcp_socket : bool) (target_address : Z)
    (circuit_token : CircuitToken) (error : bool) : Library → outcome (Library * option RW * option Z) :=
  translate_failures None error (
    _ ← ensure (negb (context =? 0)%Z) FE_Null;
    _ ← ensure out_tcp_socket FE_Null;
    _ ← ensure (negb (target_address =? 0)%Z) FE_Null;
    holding (T:=C_ContextTuple) (
      _ ← reg_lookup (T:=C_ContextTuple) context;
      target_address ← reg_lookup (T:=C_TargetAddr) target_address;
      onion_stream ← on_context context (cx_connect target_address (Some circuit_token));
      mret (Some (os_stream onion_stream)))).

(** [gosling_context_generate_circuit_token] *)
Definition gosling_context_generate_circuit_token (context : Z) (error : bool) :
    Library → outcome (Library * Z * option Z) :=
  translate_failures not_0usize error (
    _ ← ensure (negb (context =? 0)%Z) FE_Null;
    token ← on_context context (λ c, let '(token, c) := generate_circuit_token c in Done (c, Ok token));
    mret (Z.of_nat token)).

(** [gosling_context_release_circuit_token] *)
Definition gosling_context_release_circuit_token (context : Z) (circuit_token : CircuitToken) (error : bool) :
    Library → outcome (Library * unit * option Z) :=
  translate_failures tt error (
    _ ← ensure (negb (context =? 0)%Z) FE_Null;
    on_context context (λ c, Done (release_circuit_token circuit_token c, Ok tt))).
End utils.
