(* ===== verification/CTorProvider.v ===== *)
(** cgosling/src/tor_provider.rs: the settings of a tor provider and the provider itself
    behind the handles of the C interface.

    [canonicalize] and the crate [which] read the file system: they are the class
    [CHost].  A provider starts on a host of its own; what a start that failed left on the
    host is not followed. *)

From Stdlib Require Import ZArith Lia.
From S2P Require Import Prelude Bson HonkSize Maps HonkSession Str NetAddr Regexes Crypto TorCrypto TorProvider TorAddr.
From S2P Require Import MockTorClient TorConfig TorProcess TorVersion ControlStream TorController LegacyTorClient.
From S2P Require Import HonkWire Context ObjectRegistry CFfi CObjects CUtils.
From stdpp Require Import prelude strings list.
From coqutil Require Import Byte.

Open Scope nat_scope.

(** [Path::canonicalize], [which::which] *)
Class CHost (H : Type) : Type := {
  fs_canonicalize : str → H → io_result str;
  which_which : str → H → option str;
}.

Definition comma : Init.Byte.byte := Byte.x2c.

Section tor_provider.
Context `{BL : BsonLib} `{CL : CryptoLib} {RW TL P : Type}.
#[local] Hint Extern 0 OtherObjects => exact (gosling_objects RW TL P) : typeclass_instances.

(** ** Memory *)

Definition gosling_proxy_config_free : Z → Library → outcome Library := reg_free (T:=C_ProxyConfig).
Definition gosling_pluggable_transport_config_free : Z → Library → outcome Library :=
  reg_free (T:=C_PluggableTransportConfig).
Definition gosling_bridge_line_free : Z → Library → outcome Library := reg_free (T:=C_BridgeLine).
Definition gosling_tor_provider_config_free : Z → Library → outcome Library := reg_free (T:=C_TorProviderConfig).
Definition gosling_tor_provider_free : Z → Library → outcome Library := reg_free (T:=C_TorProvider).

(** ** Proxies *)

(** [gosling_proxy_config_new_socks4] *)
Definition gosling_proxy_config_new_socks4 (out_proxy_config : bool) (proxy_address : Z) (error : bool) :
    Library → outcome (Library * option Z * option Z) :=
  translate_failures None error (
    _ ← ensure out_proxy_config FE_Null;
    _ ← ensure (negb (proxy_address =? 0)%Z) FE_Null;
    proxy_address ← reg_lookup (T:=C_TargetAddr) proxy_address;
    proxy_config ← run_result OE_Proxy (socks4_proxy_config_new proxy_address);
    give (T:=C_ProxyConfig) (Proxy_Socks4 proxy_config)).

(** A text that is left out when its pointer is null or its length zero. *)
Definition optional_text (text : option bytes) : F (option str) :=
  match text with
  | None | Some [] => mret None
  | Some text => text ← utf8_text text; mret (Some text)
  end.

(** [gosling_proxy_config_new_socks5] *)
Definition gosling_proxy_config_new_socks5 (out_proxy_config : bool) (proxy_address : Z)
    (username password : option bytes) (error : bool) : Library → outcome (Library * option Z * option Z) :=
  translate_failures None error (
    _ ← ensure out_proxy_config FE_Null;
    _ ← ensure (negb (proxy_address =? 0)%Z) FE_Null;
    proxy_address ← reg_lookup (T:=C_TargetAddr) proxy_address;
    username ← optional_text username;
    password ← optional_text password;
    proxy_config ← run_result OE_Proxy (socks5_proxy_config_new proxy_address username password);
    give (T:=C_ProxyConfig) (Proxy_Socks5 proxy_config)).

(** [gosling_proxy_config_new_https] *)
Definition gosling_proxy_config_new_https (out_proxy_config : bool) (proxy_address : Z)
    (username password : option bytes) (error : bool) : Library → outcome (Library * option Z * option Z) :=
  translate_failures None error (
    _ ← ensure out_proxy_config FE_Null;
    _ ← ensure (negb (proxy_address =? 0)%Z) FE_Null;
    proxy_address ← reg_lookup (T:=C_TargetAddr) proxy_address;
    username ← optional_text username;
    password ← optional_text password;
    proxy_config ← run_result OE_Proxy (https_proxy_config_new proxy_address username password);
    give (T:=C_ProxyConfig) (Proxy_Https proxy_config)).

(** ** Pluggable transports and bridges *)

(** [gosling_pluggable_transport_config_add_cmdline_option] *)
Definition gosling_pluggable_transport_config_add_cmdline_option (pluggable_transport_config : Z)
    (option_ : option bytes) (error : bool) : Library → outcome (Library * unit * option Z) :=
  translate_failures tt error (
    _ ← ensure (negb (pluggable_transport_config =? 0)%Z) FE_Null;
    option_ ← c_text FE_Zero option_;
    option_ ← utf8_text option_;
    reg_with (T:=C_PluggableTransportConfig) pluggable_transport_config (λ config,
      Done (pt_add_option option_ config, Ok tt))).

Section texts.
Context `{RL : RegexLib} {H : Type} `{HO : !CHost H}.

Definition io_text (r : io_result str) : F str :=
  match r with IoOk path => mret path | IoErr kind => bail (FE_Other (OE_Io kind)) end.

(** [gosling_pluggable_transport_config_new], on a host; the path is checked by
    [canonicalize], whose result is not used *)
Definition gosling_pluggable_transport_config_new (h : H) (out_pluggable_transport_config : bool)
    (transports path_to_binary : option bytes) (error : bool) : Library → outcome (Library * option Z * option Z) :=
  translate_failures None error (
    _ ← ensure out_pluggable_transport_config FE_Null;
    transports ← c_text FE_Zero transports;
    path_to_binary ← c_text FE_Zero path_to_binary;
    transports ← utf8_text transports;
    let transports := str_split comma transports in
    path_to_binary ← utf8_text path_to_binary;
    _ ← io_text (fs_canonicalize path_to_binary h);
    r ← run (pluggable_transport_config_new transports path_to_binary);
    pluggable_transport_config ← run_result OE_Transport r;
    give (T:=C_PluggableTransportConfig) pluggable_transport_config).

(** [gosling_bridge_line_from_string] *)
Definition gosling_bridge_line_from_string (out_bridge_line : bool) (bridge_line : option bytes) (error : bool) :
    Library → outcome (Library * option Z * option Z) :=
  translate_failures None error (
    _ ← ensure out_bridge_line FE_Null;
    bridge_line ← c_text FE_Zero bridge_line;
    bridge_line ← utf8_text bridge_line;
    r ← run (bridge_line_from_str bridge_line);
    bridge_line ← run_result OE_Bridge r;
    give (T:=C_BridgeLine) bridge_line).

(** ** Tor provider configs *)

(** The path of the tor binary: a null pointer with its length, or a text. *)
Definition tor_binary (h : H) (tor_bin_path : nat + bytes) : F str :=
  match tor_bin_path with
  | inl _ =>
      match which_which (lit "tor") h with Some path => mret path | None => bail (FE_Other OE_Which) end
  | inr tor_bin_path => tor_bin_path ← utf8_text tor_bin_path; io_text (fs_canonicalize tor_bin_path h)
  end.

(** [gosling_tor_provider_config_new_bundled_legacy_client_config], on a host *)
Definition gosling_tor_provider_config_new_bundled_legacy_client_config (h : H) (out_tor_provider_config : bool)
    (tor_bin_path : nat + bytes) (tor_working_directory : option bytes) (error : bool) :
    Library → outcome (Library * option Z * option Z) :=
  translate_failures None error (
    _ ← ensure out_tor_provider_config FE_Null;
    _ ← ensure (match tor_bin_path with inl n => n =? 0 | inr path => negb (length path =? 0) end) FE_Length;
    tor_working_directory ← c_text FE_Zero tor_working_directory;
    tor_bin_path ← tor_binary h tor_bin_path;
    tor_working_directory ← utf8_text tor_working_directory;
    give (T:=C_TorProviderConfig)
      (LegacyTorClientConfig_ (BundledTor tor_bin_path tor_working_directory None None None None))).
End texts.

(** [gosling_tor_provider_config_new_mock_client_config] *)
Definition gosling_tor_provider_config_new_mock_client_config (out_tor_provider_config : bool) (error : bool) :
    Library → outcome (Library * option Z * option Z) :=
  translate_failures None error (
    _ ← ensure out_tor_provider_config FE_Null;
    give (T:=C_TorProviderConfig) MockTorClientConfig).

(** [gosling_tor_provider_config_new_system_legacy_client_config] *)
Definition gosling_tor_provider_config_new_system_legacy_client_config (out_tor_provider_config : bool)
    (tor_socks_host tor_socks_port tor_control_host tor_control_port : Z) (tor_control_passwd : option bytes)
    (error : bool) : Library → outcome (Library * option Z * option Z) :=
  translate_failures None error (
    _ ← ensure out_tor_provider_config FE_Null;
    _ ← ensure (negb (tor_socks_host =? 0)%Z) FE_Null;
    _ ← ensure (negb (tor_socks_port =? 0)%Z) FE_Zero;
    _ ← ensure (negb (tor_control_host =? 0)%Z) FE_Null;
    _ ← ensure (negb (tor_control_port =? 0)%Z) FE_Zero;
    tor_control_passwd ← c_text FE_Zero tor_control_passwd;
    tor_socks_host ← reg_lookup (T:=C_IpAddr) tor_socks_host;
    tor_control_host ← reg_lookup (T:=C_IpAddr) tor_control_host;
    tor_control_passwd ← utf8_text tor_control_passwd;
    give (T:=C_TorProviderConfig) (LegacyTorClientConfig_ (SystemTor
      (socket_addr_new tor_socks_host tor_socks_port) (socket_addr_new tor_control_host tor_control_port)
      tor_control_passwd))).

(** ** Changes of a config *)

(** The changed settings; none when the config is of another kind. *)
Definition changed (config : LegacyTorClientConfig) : F (option LegacyTorClientConfig) := mret (Some config).
Definition unsupported : F (option LegacyTorClientConfig) := mret None.

(** [get_mut] of a config while its registry is held, and the change of a bundled client's
    settings by [change], which may look into other registries. *)
Definition change_bundled (tor_provider_config : Z)
    (change : LegacyTorClientConfig → F (option LegacyTorClientConfig)) : F unit :=
  holding (T:=C_TorProviderConfig) (
    config ← reg_lookup (T:=C_TorProviderConfig) tor_provider_config;
    match config with
    | LegacyTorClientConfig_ config =>
        new_config ← change config;
        match new_config with
        | Some config =>
            reg_with (T:=C_TorProviderConfig) tor_provider_config (λ _, Done (LegacyTorClientConfig_ config, Ok tt))
        | None => bail FE_Unsupported
        end
    | MockTorClientConfig => bail FE_Unsupported
    end).

(** [gosling_tor_provider_config_set_proxy_config] *)
Definition gosling_tor_provider_config_set_proxy_config (tor_provider_config proxy_config : Z) (error : bool) :
    Library → outcome (Library * unit * option Z) :=
  translate_failures tt error (
    _ ← ensure (negb (tor_provider_config =? 0)%Z) FE_Null;
    _ ← ensure (negb (proxy_config =? 0)%Z) FE_Null;
    change_bundled tor_provider_config (λ config,
      match config with
      | BundledTor tor_bin_path data_directory _ allowed_ports pluggable_transports bridge_lines =>
          proxy_config ← reg_lookup (T:=C_ProxyConfig) proxy_config;
          changed (BundledTor tor_bin_path data_directory (Some proxy_config) allowed_ports
                        pluggable_transports bridge_lines)
      | SystemTor _ _ _ => unsupported
      end)).

(** [gosling_tor_provider_config_set_allowed_ports] *)
Definition gosling_tor_provider_config_set_allowed_ports (tor_provider_config : Z) (allowed_ports : option (list Z))
    (error : bool) : Library → outcome (Library * unit * option Z) :=
  translate_failures tt error (
    _ ← ensure (negb (tor_provider_config =? 0)%Z) FE_Null;
    match allowed_ports with
    | None => bail FE_Null
    | Some allowed_ports_slice =>
        _ ← ensure (negb (length allowed_ports_slice =? 0)) FE_Zero;
        change_bundled tor_provider_config (λ config,
          match config with
          | BundledTor tor_bin_path data_directory proxy_settings _ pluggable_transports bridge_lines =>
              changed (BundledTor tor_bin_path data_directory proxy_settings (Some allowed_ports_slice)
                            pluggable_transports bridge_lines)
          | SystemTor _ _ _ => unsupported
          end)
    end).

(** [gosling_tor_provider_config_add_pluggable_transport_config] *)
Definition gosling_tor_provider_config_add_pluggable_transport_config
    (tor_provider_config pluggable_transport_config : Z) (error : bool) :
    Library → outcome (Library * unit * option Z) :=
  translate_failures tt error (
    _ ← ensure (negb (tor_provider_config =? 0)%Z) FE_Null;
    _ ← ensure (negb (pluggable_transport_config =? 0)%Z) FE_Null;
    change_bundled tor_provider_config (λ config,
      match config with
      | BundledTor tor_bin_path data_directory proxy_settings allowed_ports pluggable_transports bridge_lines =>
          pluggable_transport_config ← reg_lookup (T:=C_PluggableTransportConfig) pluggable_transport_config;
          let pluggable_transports :=
            match pluggable_transports with
            | None => [pluggable_transport_config]
            | Some pluggable_transports => pluggable_transports ++ [pluggable_transport_config]
            end in
          changed (BundledTor tor_bin_path data_directory proxy_settings allowed_ports
                        (Some pluggable_transports) bridge_lines)
      | SystemTor _ _ _ => unsupported
      end)).

(** [gosling_tor_provider_config_add_bridge_line] *)
Definition gosling_tor_provider_config_add_bridge_line (tor_provider_config bridge_line : Z) (error : bool) :
    Library → outcome (Library * unit * option Z) :=
  translate_failures tt error (
    _ ← ensure (negb (tor_provider_config =? 0)%Z) FE_Null;
    _ ← ensure (negb (bridge_line =? 0)%Z) FE_Null;
    change_bundled tor_provider_config (λ config,
      match config with
      | BundledTor tor_bin_path data_directory proxy_settings allowed_ports pluggable_transports bridge_lines =>
          bridge_line ← reg_lookup (T:=C_BridgeLine) bridge_line;
          let bridge_lines :=
            match bridge_lines with None => [bridge_line] | Some bridge_lines => bridge_lines ++ [bridge_line] end in
          changed (BundledTor tor_bin_path data_directory proxy_settings allowed_ports
                        pluggable_transports (Some bridge_lines))
      | SystemTor _ _ _ => unsupported
      end)).
End tor_provider.

(** ** Providers *)

Section providers.
Context `{BL : BsonLib} `{CL : CryptoLib} `{PC : ProcessCrypto} `{RL : RegexLib} `{DL : DomainLib}.
Context {H File Child W RW TL : Type} `{TH : !TorHost H File Child} `{!ControlSocket W} `{!TorNetwork H RW TL}.
Context `{LB : !Loopback H RW TL}.

Abbreviation Provider := (BoxedProvider (H:=H) (Child:=Child) (W:=W) (TL:=TL)).
Abbreviation Listener := (BoxedListener (TL:=TL)).
#[local] Hint Extern 0 OtherObjects => exact (gosling_objects RW Listener Provider) : typeclass_instances.

(** [gosling_tor_provider_from_tor_provider_config], on a host, the mock network and the
    draws of random numbers so far.  The configs are held while the client starts. *)
Definition gosling_tor_provider_from_tor_provider_config (fuel draws : nat) (network : MockTorNetwork) (h : H)
    (out_tor_provider : bool) (tor_provider_config : Z) (error : bool) :
    Library → outcome (Library * option Z * option Z) :=
  translate_failures None error (
    _ ← ensure out_tor_provider FE_Null;
    _ ← ensure (negb (tor_provider_config =? 0)%Z) FE_Null;
    tor_provider ← holding (T:=C_TorProviderConfig) (
      config ← reg_lookup (T:=C_TorProviderConfig) tor_provider_config;
      match config with
      | MockTorClientConfig => client ← run (mock_client_new network h); mret (BP_Mock client)
      | LegacyTorClientConfig_ legacy_tor_config =>
          r ← run (client_new fuel draws legacy_tor_config h);
          client ← run_result OE_Client r.1;
          mret (BP_Legacy client)
      end);
    give (T:=C_TorProvider) tor_provider).
End providers.
