(* ===== verification/CCallbacks.v ===== *)
(** cgosling/src/callbacks.rs: the function pointers the application registers, what each
    is called with and what it answers.

    The code behind a function pointer is the application's: the class [CCode] says what a
    call does.  It may call the library, so it acts on the library as well as on the state
    of the application, and it may not return.  A text is passed with its null byte and
    the number of characters before it; an out buffer is passed as its contents, and the
    answer is what the application left in it. *)

From Stdlib Require Import ZArith Lia.
From S2P Require Import Prelude Bson HonkSize Maps HonkSession Str NetAddr Regexes Crypto TorCrypto TorProvider TorAddr.
From S2P Require Import HonkWire Context ObjectRegistry CFfi CObjects CUtils.
From stdpp Require Import prelude strings list.
From coqutil Require Import Byte.

Open Scope nat_scope.

(** * Calls *)

(** A context, handle of a handshake or of an object is the number the application sees. *)
Abbreviation GoslingContext := Z.
Abbreviation GoslingHandshakeHandle := Z.

Inductive TorCall : Type → Type :=
| TorBootstrapStatusReceived (context : GoslingContext) (progress : Z) (tag : bytes) (tag_length : nat)
    (summary : bytes) (summary_length : nat) : TorCall unit
| TorBootstrapCompleted (context : GoslingContext) : TorCall unit
| TorLogReceived (context : GoslingContext) (line : bytes) (line_length : nat) : TorCall unit.

Inductive IdentityClientCall : Type → Type :=
| ICC_ChallengeResponseSize (context : GoslingContext) (handshake_handle : GoslingHandshakeHandle)
    (challenge_buffer : bytes) : IdentityClientCall Z
| ICC_BuildChallengeResponse (context : GoslingContext) (handshake_handle : GoslingHandshakeHandle)
    (challenge_buffer out_challenge_response_buffer : bytes) : IdentityClientCall bytes
| ICC_HandshakeCompleted (context : GoslingContext) (handshake_handle : GoslingHandshakeHandle)
    (identity_service_id endpoint_service_id : Z) (endpoint_name : bytes) (endpoint_name_length : nat)
    (client_auth_private_key : Z) : IdentityClientCall unit
| ICC_HandshakeFailed (context : GoslingContext) (handshake_handle : GoslingHandshakeHandle) (error : Z) :
    IdentityClientCall unit.

Inductive IdentityServerCall : Type → Type :=
| ISC_Published (context : GoslingContext) : IdentityServerCall unit
| ISC_HandshakeStarted (context : GoslingContext) (handshake_handle : GoslingHandshakeHandle) :
    IdentityServerCall unit
| ISC_ClientAllowed (context : GoslingContext) (handshake_handle : GoslingHandshakeHandle)
    (client_service_id : Z) : IdentityServerCall bool
| ISC_EndpointSupported (context : GoslingContext) (handshake_handle : GoslingHandshakeHandle)
    (endpoint_name : bytes) (endpoint_name_length : nat) : IdentityServerCall bool
| ISC_ChallengeSize (context : GoslingContext) (handshake_handle : GoslingHandshakeHandle) : IdentityServerCall Z
| ISC_BuildChallenge (context : GoslingContext) (handshake_handle : GoslingHandshakeHandle)
    (out_challenge_buffer : bytes) : IdentityServerCall bytes
| ISC_VerifyChallengeResponse (context : GoslingContext) (handshake_handle : GoslingHandshakeHandle)
    (challenge_response_buffer : bytes) : IdentityServerCall bool
| ISC_HandshakeCompleted (context : GoslingContext) (handshake_handle : GoslingHandshakeHandle)
    (endpoint_private_key : Z) (endpoint_name : bytes) (endpoint_name_length : nat)
    (client_service_id client_auth_public_key : Z) : IdentityServerCall unit
| ISC_HandshakeRejected (context : GoslingContext) (handshake_handle : GoslingHandshakeHandle)
    (client_allowed client_requested_endpoint_valid client_proof_signature_valid client_auth_signature_valid
     challenge_response_valid : bool) : IdentityServerCall unit
| ISC_HandshakeFailed (context : GoslingContext) (handshake_handle : GoslingHandshakeHandle) (error : Z) :
    IdentityServerCall unit.

(** [RW] is the stream behind the socket that is handed out. *)
Inductive EndpointClientCall (RW : Type) : Type → Type :=
| ECC_HandshakeCompleted (context : GoslingContext) (handshake_handle : GoslingHandshakeHandle)
    (endpoint_service_id : Z) (channel_name : bytes) (channel_name_length : nat) (stream : RW) :
    EndpointClientCall RW unit
| ECC_HandshakeFailed (context : GoslingContext) (handshake_handle : GoslingHandshakeHandle) (error : Z) :
    EndpointClientCall RW unit.

Inductive EndpointServerCall (RW : Type) : Type → Type :=
| ESC_Published (context : GoslingContext) (endpoint_service_id : Z) (endpoint_name : bytes)
    (endpoint_name_length : nat) : EndpointServerCall RW unit
| ESC_HandshakeStarted (context : GoslingContext) (handshake_handle : GoslingHandshakeHandle) :
    EndpointServerCall RW unit
| ESC_ChannelSupported (context : GoslingContext) (handshake_handle : GoslingHandshakeHandle)
    (client_service_id : Z) (channel_name : bytes) (channel_name_length : nat) : EndpointServerCall RW bool
| ESC_HandshakeCompleted (context : GoslingContext) (handshake_handle : GoslingHandshakeHandle)
    (endpoint_service_id client_service_id : Z) (channel_name : bytes) (channel_name_length : nat) (stream : RW) :
    EndpointServerCall RW unit
| ESC_HandshakeRejected (context : GoslingContext) (handshake_handle : GoslingHandshakeHandle)
    (client_allowed client_requested_channel_valid client_proof_signature_valid : bool) :
    EndpointServerCall RW unit
| ESC_HandshakeFailed (context : GoslingContext) (handshake_handle : GoslingHandshakeHandle) (error : Z) :
    EndpointServerCall RW unit.
Arguments ECC_HandshakeCompleted {RW} _ _ _ _ _ _.
Arguments ECC_HandshakeFailed {RW} _ _ _.
Arguments ESC_Published {RW} _ _ _ _.
Arguments ESC_HandshakeStarted {RW} _ _.
Arguments ESC_ChannelSupported {RW} _ _ _ _ _.
Arguments ESC_HandshakeCompleted {RW} _ _ _ _ _ _ _.
Arguments ESC_HandshakeRejected {RW} _ _ _ _ _.
Arguments ESC_HandshakeFailed {RW} _ _ _.

(** A call through any of the function pointers. *)
Inductive GoslingCall (RW : Type) (A : Type) : Type :=
| GC_Tor (call : TorCall A)
| GC_IdentityClient (call : IdentityClientCall A)
| GC_IdentityServer (call : IdentityServerCall A)
| GC_EndpointClient (call : EndpointClientCall RW A)
| GC_EndpointServer (call : EndpointServerCall RW A).
Arguments GC_Tor {RW A} _.
Arguments GC_IdentityClient {RW A} _.
Arguments GC_IdentityServer {RW A} _.
Arguments GC_EndpointClient {RW A} _.
Arguments GC_EndpointServer {RW A} _.

(** * Registration *)

Definition set_tor_bootstrap_status_received_callback v s := let 'mkEventCallbacks _ x1 x2 x3 x4 x5 x6 x7 x8 x9 x10 x11 x12 x13 x14 x15 x16 x17 x18 x19 x20 x21 x22 x23 x24 := s in mkEventCallbacks v x1 x2 x3 x4 x5 x6 x7 x8 x9 x10 x11 x12 x13 x14 x15 x16 x17 x18 x19 x20 x21 x22 x23 x24.
Definition set_tor_bootstrap_completed_callback v s := let 'mkEventCallbacks x0 _ x2 x3 x4 x5 x6 x7 x8 x9 x10 x11 x12 x13 x14 x15 x16 x17 x18 x19 x20 x21 x22 x23 x24 := s in mkEventCallbacks x0 v x2 x3 x4 x5 x6 x7 x8 x9 x10 x11 x12 x13 x14 x15 x16 x17 x18 x19 x20 x21 x22 x23 x24.
Definition set_tor_log_received_callback v s := let 'mkEventCallbacks x0 x1 _ x3 x4 x5 x6 x7 x8 x9 x10 x11 x12 x13 x14 x15 x16 x17 x18 x19 x20 x21 x22 x23 x24 := s in mkEventCallbacks x0 x1 v x3 x4 x5 x6 x7 x8 x9 x10 x11 x12 x13 x14 x15 x16 x17 x18 x19 x20 x21 x22 x23 x24.
Definition set_identity_client_challenge_response_size_callback v s := let 'mkEventCallbacks x0 x1 x2 _ x4 x5 x6 x7 x8 x9 x10 x11 x12 x13 x14 x15 x16 x17 x18 x19 x20 x21 x22 x23 x24 := s in mkEventCallbacks x0 x1 x2 v x4 x5 x6 x7 x8 x9 x10 x11 x12 x13 x14 x15 x16 x17 x18 x19 x20 x21 x22 x23 x24.
Definition set_identity_client_build_challenge_response_callback v s := let 'mkEventCallbacks x0 x1 x2 x3 _ x5 x6 x7 x8 x9 x10 x11 x12 x13 x14 x15 x16 x17 x18 x19 x20 x21 x22 x23 x24 := s in mkEventCallbacks x0 x1 x2 x3 v x5 x6 x7 x8 x9 x10 x11 x12 x13 x14 x15 x16 x17 x18 x19 x20 x21 x22 x23 x24.
Definition set_identity_client_handshake_completed_callback v s := let 'mkEventCallbacks x0 x1 x2 x3 x4 _ x6 x7 x8 x9 x10 x11 x12 x13 x14 x15 x16 x17 x18 x19 x20 x21 x22 x23 x24 := s in mkEventCallbacks x0 x1 x2 x3 x4 v x6 x7 x8 x9 x10 x11 x12 x13 x14 x15 x16 x17 x18 x19 x20 x21 x22 x23 x24.
Definition set_identity_client_handshake_failed_callback v s := let 'mkEventCallbacks x0 x1 x2 x3 x4 x5 _ x7 x8 x9 x10 x11 x12 x13 x14 x15 x16 x17 x18 x19 x20 x21 x22 x23 x24 := s in mkEventCallbacks x0 x1 x2 x3 x4 x5 v x7 x8 x9 x10 x11 x12 x13 x14 x15 x16 x17 x18 x19 x20 x21 x22 x23 x24.
Definition set_identity_server_published_callback v s := let 'mkEventCallbacks x0 x1 x2 x3 x4 x5 x6 _ x8 x9 x10 x11 x12 x13 x14 x15 x16 x17 x18 x19 x20 x21 x22 x23 x24 := s in mkEventCallbacks x0 x1 x2 x3 x4 x5 x6 v x8 x9 x10 x11 x12 x13 x14 x15 x16 x17 x18 x19 x20 x21 x22 x23 x24.
Definition set_identity_server_handshake_started_callback v s := let 'mkEventCallbacks x0 x1 x2 x3 x4 x5 x6 x7 _ x9 x10 x11 x12 x13 x14 x15 x16 x17 x18 x19 x20 x21 x22 x23 x24 := s in mkEventCallbacks x0 x1 x2 x3 x4 x5 x6 x7 v x9 x10 x11 x12 x13 x14 x15 x16 x17 x18 x19 x20 x21 x22 x23 x24.
Definition set_identity_server_client_allowed_callback v s := let 'mkEventCallbacks x0 x1 x2 x3 x4 x5 x6 x7 x8 _ x10 x11 x12 x13 x14 x15 x16 x17 x18 x19 x20 x21 x22 x23 x24 := s in mkEventCallbacks x0 x1 x2 x3 x4 x5 x6 x7 x8 v x10 x11 x12 x13 x14 x15 x16 x17 x18 x19 x20 x21 x22 x23 x24.
Definition set_identity_server_endpoint_supported_callback v s := let 'mkEventCallbacks x0 x1 x2 x3 x4 x5 x6 x7 x8 x9 _ x11 x12 x13 x14 x15 x16 x17 x18 x19 x20 x21 x22 x23 x24 := s in mkEventCallbacks x0 x1 x2 x3 x4 x5 x6 x7 x8 x9 v x11 x12 x13 x14 x15 x16 x17 x18 x19 x20 x21 x22 x23 x24.
Definition set_identity_server_challenge_size_callback v s := let 'mkEventCallbacks x0 x1 x2 x3 x4 x5 x6 x7 x8 x9 x10 _ x12 x13 x14 x15 x16 x17 x18 x19 x20 x21 x22 x23 x24 := s in mkEventCallbacks x0 x1 x2 x3 x4 x5 x6 x7 x8 x9 x10 v x12 x13 x14 x15 x16 x17 x18 x19 x20 x21 x22 x23 x24.
Definition set_identity_server_build_challenge_callback v s := let 'mkEventCallbacks x0 x1 x2 x3 x4 x5 x6 x7 x8 x9 x10 x11 _ x13 x14 x15 x16 x17 x18 x19 x20 x21 x22 x23 x24 := s in mkEventCallbacks x0 x1 x2 x3 x4 x5 x6 x7 x8 x9 x10 x11 v x13 x14 x15 x16 x17 x18 x19 x20 x21 x22 x23 x24.
Definition set_identity_server_verify_challenge_response_callback v s := let 'mkEventCallbacks x0 x1 x2 x3 x4 x5 x6 x7 x8 x9 x10 x11 x12 _ x14 x15 x16 x17 x18 x19 x20 x21 x22 x23 x24 := s in mkEventCallbacks x0 x1 x2 x3 x4 x5 x6 x7 x8 x9 x10 x11 x12 v x14 x15 x16 x17 x18 x19 x20 x21 x22 x23 x24.
Definition set_identity_server_handshake_completed_callback v s := let 'mkEventCallbacks x0 x1 x2 x3 x4 x5 x6 x7 x8 x9 x10 x11 x12 x13 _ x15 x16 x17 x18 x19 x20 x21 x22 x23 x24 := s in mkEventCallbacks x0 x1 x2 x3 x4 x5 x6 x7 x8 x9 x10 x11 x12 x13 v x15 x16 x17 x18 x19 x20 x21 x22 x23 x24.
Definition set_identity_server_handshake_rejected_callback v s := let 'mkEventCallbacks x0 x1 x2 x3 x4 x5 x6 x7 x8 x9 x10 x11 x12 x13 x14 _ x16 x17 x18 x19 x20 x21 x22 x23 x24 := s in mkEventCallbacks x0 x1 x2 x3 x4 x5 x6 x7 x8 x9 x10 x11 x12 x13 x14 v x16 x17 x18 x19 x20 x21 x22 x23 x24.
Definition set_identity_server_handshake_failed_callback v s := let 'mkEventCallbacks x0 x1 x2 x3 x4 x5 x6 x7 x8 x9 x10 x11 x12 x13 x14 x15 _ x17 x18 x19 x20 x21 x22 x23 x24 := s in mkEventCallbacks x0 x1 x2 x3 x4 x5 x6 x7 x8 x9 x10 x11 x12 x13 x14 x15 v x17 x18 x19 x20 x21 x22 x23 x24.
Definition set_endpoint_client_handshake_completed_callback v s := let 'mkEventCallbacks x0 x1 x2 x3 x4 x5 x6 x7 x8 x9 x10 x11 x12 x13 x14 x15 x16 _ x18 x19 x20 x21 x22 x23 x24 := s in mkEventCallbacks x0 x1 x2 x3 x4 x5 x6 x7 x8 x9 x10 x11 x12 x13 x14 x15 x16 v x18 x19 x20 x21 x22 x23 x24.
Definition set_endpoint_client_handshake_failed_callback v s := let 'mkEventCallbacks x0 x1 x2 x3 x4 x5 x6 x7 x8 x9 x10 x11 x12 x13 x14 x15 x16 x17 _ x19 x20 x21 x22 x23 x24 := s in mkEventCallbacks x0 x1 x2 x3 x4 x5 x6 x7 x8 x9 x10 x11 x12 x13 x14 x15 x16 x17 v x19 x20 x21 x22 x23 x24.
Definition set_endpoint_server_published_callback v s := let 'mkEventCallbacks x0 x1 x2 x3 x4 x5 x6 x7 x8 x9 x10 x11 x12 x13 x14 x15 x16 x17 x18 _ x20 x21 x22 x23 x24 := s in mkEventCallbacks x0 x1 x2 x3 x4 x5 x6 x7 x8 x9 x10 x11 x12 x13 x14 x15 x16 x17 x18 v x20 x21 x22 x23 x24.
Definition set_endpoint_server_handshake_started_callback v s := let 'mkEventCallbacks x0 x1 x2 x3 x4 x5 x6 x7 x8 x9 x10 x11 x12 x13 x14 x15 x16 x17 x18 x19 _ x21 x22 x23 x24 := s in mkEventCallbacks x0 x1 x2 x3 x4 x5 x6 x7 x8 x9 x10 x11 x12 x13 x14 x15 x16 x17 x18 x19 v x21 x22 x23 x24.
Definition set_endpoint_server_channel_supported_callback v s := let 'mkEventCallbacks x0 x1 x2 x3 x4 x5 x6 x7 x8 x9 x10 x11 x12 x13 x14 x15 x16 x17 x18 x19 x20 _ x22 x23 x24 := s in mkEventCallbacks x0 x1 x2 x3 x4 x5 x6 x7 x8 x9 x10 x11 x12 x13 x14 x15 x16 x17 x18 x19 x20 v x22 x23 x24.
Definition set_endpoint_server_handshake_completed_callback v s := let 'mkEventCallbacks x0 x1 x2 x3 x4 x5 x6 x7 x8 x9 x10 x11 x12 x13 x14 x15 x16 x17 x18 x19 x20 x21 _ x23 x24 := s in mkEventCallbacks x0 x1 x2 x3 x4 x5 x6 x7 x8 x9 x10 x11 x12 x13 x14 x15 x16 x17 x18 x19 x20 x21 v x23 x24.
Definition set_endpoint_server_handshake_rejected_callback v s := let 'mkEventCallbacks x0 x1 x2 x3 x4 x5 x6 x7 x8 x9 x10 x11 x12 x13 x14 x15 x16 x17 x18 x19 x20 x21 x22 _ x24 := s in mkEventCallbacks x0 x1 x2 x3 x4 x5 x6 x7 x8 x9 x10 x11 x12 x13 x14 x15 x16 x17 x18 x19 x20 x21 x22 v x24.
Definition set_endpoint_server_handshake_failed_callback v s := let 'mkEventCallbacks x0 x1 x2 x3 x4 x5 x6 x7 x8 x9 x10 x11 x12 x13 x14 x15 x16 x17 x18 x19 x20 x21 x22 x23 _ := s in mkEventCallbacks x0 x1 x2 x3 x4 x5 x6 x7 x8 x9 x10 x11 x12 x13 x14 x15 x16 x17 x18 x19 x20 x21 x22 x23 v.

Section callbacks.
Context `{BL : BsonLib} `{CL : CryptoLib} {RW TL P : Type}.
#[local] Hint Extern 0 OtherObjects => exact (gosling_objects RW TL P) : typeclass_instances.

(** What the code at an address does when it is called on the library and the application;
    [None] when it does not return. *)
Class CCode (App : Type) : Type :=
  c_call : ∀ {A : Type}, Z → GoslingCall RW A → Library * App → option (A * (Library * App)).

(** [impl_callback_setter!] *)
Definition impl_callback_setter (set : callback → EventCallbacks → EventCallbacks) (context : GoslingContext)
    (callback_ : callback) (error : bool) : Library → outcome (Library * unit * option Z) :=
  translate_failures tt error (
    reg_with (T:=C_ContextTuple) context (λ t,
      let '(c, callbacks, events) := (t : ContextTuple RW TL P) in
      Done ((c, set callback_ callbacks, events) : ContextTuple RW TL P, Ok tt))).

Definition gosling_context_set_tor_bootstrap_status_received_callback := impl_callback_setter set_tor_bootstrap_status_received_callback.
Definition gosling_context_set_tor_bootstrap_completed_callback := impl_callback_setter set_tor_bootstrap_completed_callback.
Definition gosling_context_set_tor_log_received_callback := impl_callback_setter set_tor_log_received_callback.
Definition gosling_context_set_identity_client_challenge_response_size_callback := impl_callback_setter set_identity_client_challenge_response_size_callback.
Definition gosling_context_set_identity_client_build_challenge_response_callback := impl_callback_setter set_identity_client_build_challenge_response_callback.
Definition gosling_context_set_identity_client_handshake_completed_callback := impl_callback_setter set_identity_client_handshake_completed_callback.
Definition gosling_context_set_identity_client_handshake_failed_callback := impl_callback_setter set_identity_client_handshake_failed_callback.
Definition gosling_context_set_identity_server_published_callback := impl_callback_setter set_identity_server_published_callback.
Definition gosling_context_set_identity_server_handshake_started_callback := impl_callback_setter set_identity_server_handshake_started_callback.
Definition gosling_context_set_identity_server_client_allowed_callback := impl_callback_setter set_identity_server_client_allowed_callback.
Definition gosling_context_set_identity_server_endpoint_supported_callback := impl_callback_setter set_identity_server_endpoint_supported_callback.
Definition gosling_context_set_identity_server_challenge_size_callback := impl_callback_setter set_identity_server_challenge_size_callback.
Definition gosling_context_set_identity_server_build_challenge_callback := impl_callback_setter set_identity_server_build_challenge_callback.
Definition gosling_context_set_identity_server_verify_challenge_response_callback := impl_callback_setter set_identity_server_verify_challenge_response_callback.
Definition gosling_context_set_identity_server_handshake_completed_callback := impl_callback_setter set_identity_server_handshake_completed_callback.
Definition gosling_context_set_identity_server_handshake_rejected_callback := impl_callback_setter set_identity_server_handshake_rejected_callback.
Definition gosling_context_set_identity_server_handshake_failed_callback := impl_callback_setter set_identity_server_handshake_failed_callback.
Definition gosling_context_set_endpoint_client_handshake_completed_callback := impl_callback_setter set_endpoint_client_handshake_completed_callback.
Definition gosling_context_set_endpoint_client_handshake_failed_callback := impl_callback_setter set_endpoint_client_handshake_failed_callback.
Definition gosling_context_set_endpoint_server_published_callback := impl_callback_setter set_endpoint_server_published_callback.
Definition gosling_context_set_endpoint_server_handshake_started_callback := impl_callback_setter set_endpoint_server_handshake_started_callback.
Definition gosling_context_set_endpoint_server_channel_supported_callback := impl_callback_setter set_endpoint_server_channel_supported_callback.
Definition gosling_context_set_endpoint_server_handshake_completed_callback := impl_callback_setter set_endpoint_server_handshake_completed_callback.
Definition gosling_context_set_endpoint_server_handshake_rejected_callback := impl_callback_setter set_endpoint_server_handshake_rejected_callback.
Definition gosling_context_set_endpoint_server_handshake_failed_callback := impl_callback_setter set_endpoint_server_handshake_failed_callback.
End callbacks.
