(* ===== verification/CContext.v ===== *)
(** cgosling/src/context.rs, its calls: contexts behind handles, the servers and handshakes
    of a context.  The registry of contexts is held while a call works on one, and other
    registries are taken inside it.

    The names of endpoints and channels are the [string]s of the modelled context. *)

From Stdlib Require Import ZArith Lia.
From Stdlib Require String.
From S2P Require Import Prelude Bson HonkSize Maps HonkSession Str NetAddr Regexes Crypto TorCrypto GoslingProto.
From S2P Require Import TorProvider TorAddr HonkWire Context ObjectRegistry CFfi CObjects CUtils.
From stdpp Require Import prelude strings list.
From coqutil Require Import Byte.

Open Scope nat_scope.

(** [Duration::from_secs(60)], the maximum size of a message *)
Definition IDENTITY_TIMEOUT : Duration := (60 * 1000000000)%Z.
Definition IDENTITY_MAX_MESSAGE_SIZE : Z := 4096.

Section contexts.
Context `{BL : BsonLib} `{CL : CryptoLib} {RW TL P : Type}.
Context `{!Stream RW} `{!Sockets RW TL} `{!TorProvider P RW TL} `{!HashOrder V3OnionServiceId}.
#[local] Hint Extern 0 OtherObjects => exact (gosling_objects RW TL P) : typeclass_instances.

(** A name that must be ASCII: the length was checked before, the rest is checked here. *)
Definition ascii_name (name : bytes) : F string :=
  name ← utf8_text name;
  _ ← ensure (is_ascii (String.string_of_list_byte name)) FE_NotAscii;
  mret (String.string_of_list_byte name).

(** [gosling_context_free] *)
Definition gosling_context_free : Z → Library → outcome Library := reg_free (T:=C_ContextTuple).

(** [gosling_context_init], with the draws of random numbers so far *)
Definition gosling_context_init (draws : nat) (out_context : bool)
    (in_tor_provider identity_port endpoint_port identity_private_key : Z) (error : bool) :
    Library → outcome (Library * option Z * option Z) :=
  translate_failures None error (
    _ ← ensure out_context FE_Null;
    _ ← ensure (negb (in_tor_provider =? 0)%Z) FE_Null;
    _ ← ensure (negb (identity_port =? 0)%Z) FE_Zero;
    _ ← ensure (negb (endpoint_port =? 0)%Z) FE_Zero;
    _ ← ensure (negb (identity_private_key =? 0)%Z) FE_Null;
    tor_provider ← reg_take (T:=C_TorProvider) in_tor_provider;
    holding (T:=Ed25519PrivateKey) (
      identity_private_key ← reg_lookup (T:=Ed25519PrivateKey) identity_private_key;
      identity_private_key ← run (ed25519_private_clone identity_private_key);
      let context := context_new tor_provider identity_port endpoint_port IDENTITY_TIMEOUT
        IDENTITY_MAX_MESSAGE_SIZE (Some IDENTITY_TIMEOUT) identity_private_key draws in
      give (T:=C_ContextTuple) ((context, no_callbacks, None) : ContextTuple RW TL P))).

(** [gosling_context_bootstrap_tor] *)
Definition gosling_context_bootstrap_tor (context : Z) (error : bool) : Library → outcome (Library * unit * option Z) :=
  translate_failures tt error (
    _ ← ensure (negb (context =? 0)%Z) FE_Null;
    on_context context cx_bootstrap).

(** [gosling_context_start_identity_server] *)
Definition gosling_context_start_identity_server (context : Z) (error : bool) :
    Library → outcome (Library * unit * option Z) :=
  translate_failures tt error (
    _ ← ensure (negb (context =? 0)%Z) FE_Null;
    on_context context identity_server_start).

(** [gosling_context_stop_identity_server] *)
Definition gosling_context_stop_identity_server (context : Z) (error : bool) :
    Library → outcome (Library * unit * option Z) :=
  translate_failures tt error (
    _ ← ensure (negb (context =? 0)%Z) FE_Null;
    on_context context identity_server_stop).

(** [gosling_context_start_endpoint_server]: the registries of contexts, private keys,
    service ids and public keys are held together *)
Definition gosling_context_start_endpoint_server (context endpoint_private_key : Z) (endpoint_name : option bytes)
    (client_identity client_auth_public_key : Z) (error : bool) : Library → outcome (Library * unit * option Z) :=
  translate_failures tt error (
    _ ← ensure (negb (context =? 0)%Z) FE_Null;
    _ ← ensure (negb (endpoint_private_key =? 0)%Z) FE_Null;
    endpoint_name ← c_text FE_Zero endpoint_name;
    _ ← ensure (negb (client_identity =? 0)%Z) FE_Null;
    _ ← ensure (negb (client_auth_public_key =? 0)%Z) FE_Null;
    holding (T:=C_ContextTuple) (
      _ ← reg_lookup (T:=C_ContextTuple) context;
      endpoint_name ← ascii_name endpoint_name;
      holding (T:=Ed25519PrivateKey) (
        endpoint_private_key ← reg_lookup (T:=Ed25519PrivateKey) endpoint_private_key;
        holding (T:=V3OnionServiceId) (
          client_identity ← reg_lookup (T:=V3OnionServiceId) client_identity;
          holding (T:=X25519PublicKey) (
            client_auth_public_key ← reg_lookup (T:=X25519PublicKey) client_auth_public_key;
            endpoint_private_key ← run (ed25519_private_clone endpoint_private_key);
            on_context context (endpoint_server_start endpoint_private_key endpoint_name client_identity
                                  client_auth_public_key)))))).

(** [gosling_context_stop_endpoint_server] *)
Definition gosling_context_stop_endpoint_server (context endpoint_private_key : Z) (error : bool) :
    Library → outcome (Library * unit * option Z) :=
  translate_failures tt error (
    _ ← ensure (negb (context =? 0)%Z) FE_Null;
    _ ← ensure (negb (endpoint_private_key =? 0)%Z) FE_Null;
    holding (T:=C_ContextTuple) (
      _ ← reg_lookup (T:=C_ContextTuple) context;
      holding (T:=Ed25519PrivateKey) (
        endpoint_private_key ← reg_lookup (T:=Ed25519PrivateKey) endpoint_private_key;
        let endpoint_identity := service_id_from_private_key endpoint_private_key in
        on_context context (endpoint_server_stop endpoint_identity)))).

(** [gosling_context_begin_identity_handshake] *)
Definition gosling_context_begin_identity_handshake (context identity_service_id : Z) (endpoint_name : option bytes)
    (error : bool) : Library → outcome (Library * Z * option Z) :=
  translate_failures not_0usize error (
    _ ← ensure (negb (context =? 0)%Z) FE_Null;
    _ ← ensure (negb (identity_service_id =? 0)%Z) FE_Null;
    endpoint_name ← c_text FE_Zero endpoint_name;
    holding (T:=C_ContextTuple) (
      _ ← reg_lookup (T:=C_ContextTuple) context;
      holding (T:=V3OnionServiceId) (
        identity_service_id ← reg_lookup (T:=V3OnionServiceId) identity_service_id;
        endpoint_name ← ascii_name endpoint_name;
        on_context context (identity_client_begin_handshake identity_service_id endpoint_name)))).

(** [gosling_context_abort_identity_client_handshake] *)
Definition gosling_context_abort_identity_client_handshake (context handshake_handle : Z) (error : bool) :
    Library → outcome (Library * unit * option Z) :=
  translate_failures tt error (
    _ ← ensure (negb (context =? 0)%Z) FE_Null;
    on_context context (identity_client_abort_handshake handshake_handle)).

(** [gosling_context_begin_endpoint_handshake] *)
Definition gosling_context_begin_endpoint_handshake (context endpoint_service_id client_auth_private_key : Z)
    (channel_name : option bytes) (error : bool) : Library → outcome (Library * Z * option Z) :=
  translate_failures not_0usize error (
    _ ← ensure (negb (context =? 0)%Z) FE_Null;
    _ ← ensure (negb (endpoint_service_id =? 0)%Z) FE_Null;
    _ ← ensure (negb (client_auth_private_key =? 0)%Z) FE_Null;
    channel_name ← c_text FE_Zero channel_name;
    holding (T:=C_ContextTuple) (
      _ ← reg_lookup (T:=C_ContextTuple) context;
      holding (T:=V3OnionServiceId) (
        endpoint_service_id ← reg_lookup (T:=V3OnionServiceId) endpoint_service_id;
        holding (T:=X25519PrivateKey) (
          client_auth_private_key ← reg_lookup (T:=X25519PrivateKey) client_auth_private_key;
          channel_name ← ascii_name channel_name;
          on_context context (endpoint_client_begin_handshake endpoint_service_id client_auth_private_key
                                channel_name))))).

(** [gosling_context_abort_endpoint_client_handshake] *)
Definition gosling_context_abort_endpoint_client_handshake (context handshake_handle : Z) (error : bool) :
    Library → outcome (Library * unit * option Z) :=
  translate_failures tt error (
    _ ← ensure (negb (context =? 0)%Z) FE_Null;
    on_context context (endpoint_client_abort_handshake handshake_handle)).
End contexts.
