(* ===== verification/CEvents.v ===== *)
(** cgosling/src/context.rs, its events: what the callbacks of the application are called
    with, what is done with their answers, and [gosling_context_poll_events].

    No registry is held while a callback runs, so a callback may call the library. *)

From Stdlib Require Import ZArith Lia.
From Stdlib Require String.
From S2P Require Import Prelude Bson HonkSize Maps HonkSession Str NetAddr Regexes Crypto TorCrypto GoslingProto.
From S2P Require Import TorProvider TorAddr HonkWire Context ObjectRegistry CFfi CObjects CUtils CCallbacks.
From stdpp Require Import prelude strings list.
From coqutil Require Import Byte.

Open Scope nat_scope.

(** "empty bson document layout" *)
Definition SMALLEST_BSON_DOC_SIZE : Z := 5.

(** [isize::MAX], the most a vector may hold *)
Definition isize_max : Z := 9223372036854775807.

Section events.
Context `{BL : BsonLib} `{CL : CryptoLib} {RW TL P App : Type}.
Context `{!Stream RW} `{!Sockets RW TL} `{!TorProvider P RW TL} `{!HashOrder V3OnionServiceId}.
#[local] Hint Extern 0 OtherObjects => exact (gosling_objects RW TL P) : typeclass_instances.
Context `{CC : !CCode (RW:=RW) (TL:=TL) (P:=P) App}.

(** * Calls that may call the application *)

Definition E (A : Type) : Type := Library * App → (Library * App) * ffi_result A.

#[export] Instance E_ret : MRet E := λ A a w, (w, FOk a).
#[export] Instance E_bind : MBind E := λ A B f m w,
  match m w with
  | (w, FOk a) => f a w
  | (w, FErr e) => (w, FErr e)
  | (w, FPanic) => (w, FPanic)
  | (w, FDiverge) => (w, FDiverge)
  end.

(** What the library does by itself. *)
Definition on_library {A} (m : F A) : E A := λ w,
  let '(g, app) := w in let '(g, r) := m g in ((g, app), r).
Definition refuse {A} (e : FfiError) : E A := on_library (bail e).

(** A call through a function pointer. *)
Definition call {A} (f : Z) (c : GoslingCall RW A) : E A := λ w,
  match c_call f c w with Some (a, w) => (w, FOk a) | None => (w, FDiverge) end.

(** [CString::new(s.as_str()).expect(..)] *)
Definition c_string (s : string) : E bytes :=
  on_library (if bool_decide (Byte.x00 ∈ as_bytes s) then run Panicked else mret (as_bytes s ++ [Byte.x00])).

(** [registry.insert(v)], and [registry.remove(key)] with its result dropped *)
Definition lend {T} `{!Registered T} (v : T) : E Z := on_library (reg_insert v).
Definition reclaim (T : Type) `{!Registered T} (key : Z) : E unit :=
  on_library (λ g,
    match rg_get (T:=T) g with
    | None => (g, FPanic)
    | Some r => (rg_set (Some (registry_remove r key).2) g, FOk tt)
    end).

(** [document.to_writer(&mut buffer).expect(..)] *)
Definition document_bytes (d : Document) : E bytes :=
  on_library (run (match to_writer d with Ok data => Done data | Err _ => Panicked end)).

(** [vec![0u8; size]], of a size that was checked; the buffer after the callback filled it;
    [Document::from_reader] *)
Definition zeroed (size : Z) : E bytes :=
  if (size <? SMALLEST_BSON_DOC_SIZE)%Z then refuse FE_Length
  else on_library (run (if (isize_max <? size)%Z then Panicked else Done (replicate (Z.to_nat size) Byte.x00))).
Definition filled (buffer answer : bytes) : bytes := resize (length buffer) Byte.x00 answer.
Definition document_of (data : bytes) : E Document :=
  on_library (match from_reader data with Ok d => mret d | Err _ => bail (FE_Other OE_NotBson) end).

(** [match get_context_tuple_registry().get_mut(context as usize)] and an answer to the
    context *)
Definition answer (context : GoslingContext) (m : M (Context RW TL P) CXError unit) : E unit :=
  on_library (on_context context m).

(** A callback that need not be registered, or that the event requires. *)
Definition optional (f : callback) (k : Z → E unit) : E unit := match f with Some f => k f | None => mret tt end.
Definition required {A} (f : callback) (k : Z → E A) : E A := match f with Some f => k f | None => refuse FE_Missing end.
Definition required2 {A} (f f' : callback) (k : Z → Z → E A) : E A :=
  match f, f' with Some f, Some f' => k f f' | _, _ => refuse FE_Missing end.

(** The error object a callback is shown. *)
Definition with_error (reason : CXError) (k : Z → E unit) : E unit :=
  key ← lend (T:=FfiError) (FE_Other (OE_Context reason));
  _ ← k key;
  reclaim FfiError key.

(** * Events *)

Section handlers.
Context (context : GoslingContext) (callbacks : EventCallbacks).

(** [TorBootstrapStatusReceived] *)
Definition on_bootstrap_status (progress : Z) (tag summary : string) : E unit :=
  optional (tor_bootstrap_status_received_callback callbacks) (λ f,
    tag0 ← c_string tag;
    summary0 ← c_string summary;
    call f (GC_Tor (TorBootstrapStatusReceived context progress tag0 (String.length tag) summary0
                      (String.length summary)))).

(** [TorLogReceived] *)
Definition on_tor_log (line : string) : E unit :=
  optional (tor_log_received_callback callbacks) (λ f,
    line0 ← c_string line;
    call f (GC_Tor (TorLogReceived context line0 (String.length line)))).

(** [IdentityClientChallengeReceived] *)
Definition on_challenge_received (handle : HandshakeHandle) (endpoint_challenge : Document) : E unit :=
  challenge_response ←
    required2 (identity_client_challenge_response_size_callback callbacks)
      (identity_client_build_challenge_response_callback callbacks) (λ size_callback build_callback,
      endpoint_challenge_buffer ← document_bytes endpoint_challenge;
      size ← call size_callback
        (GC_IdentityClient (ICC_ChallengeResponseSize context handle endpoint_challenge_buffer));
      buffer ← zeroed size;
      data ← call build_callback
        (GC_IdentityClient (ICC_BuildChallengeResponse context handle endpoint_challenge_buffer buffer));
      document_of (filled buffer data));
  answer context (identity_client_handle_challenge_received handle challenge_response).

(** [IdentityClientHandshakeCompleted] *)
Definition on_identity_client_completed (handle : HandshakeHandle)
    (identity_service_id endpoint_service_id : V3OnionServiceId) (endpoint_name : string)
    (client_auth_private_key : X25519PrivateKey) : E unit :=
  required (identity_client_handshake_completed_callback callbacks) (λ f,
    identity_service_id ← lend (T:=V3OnionServiceId) identity_service_id;
    endpoint_service_id ← lend (T:=V3OnionServiceId) endpoint_service_id;
    endpoint_name0 ← c_string endpoint_name;
    client_auth_private_key ← lend (T:=X25519PrivateKey) client_auth_private_key;
    _ ← call f (GC_IdentityClient (ICC_HandshakeCompleted context handle identity_service_id endpoint_service_id
                                     endpoint_name0 (String.length endpoint_name) client_auth_private_key));
    _ ← reclaim V3OnionServiceId identity_service_id;
    _ ← reclaim V3OnionServiceId endpoint_service_id;
    reclaim X25519PrivateKey client_auth_private_key).

(** [IdentityClientHandshakeFailed] *)
Definition on_identity_client_failed (handle : HandshakeHandle) (reason : CXError) : E unit :=
  optional (identity_client_handshake_failed_callback callbacks) (λ f,
    with_error reason (λ key, call f (GC_IdentityClient (ICC_HandshakeFailed context handle key)))).

(** [IdentityServerEndpointRequestReceived]; the handle of the client's service id is not
    taken back *)
Definition on_endpoint_request (handle : HandshakeHandle) (client_service_id : V3OnionServiceId)
    (requested_endpoint : string) : E unit :=
  client_allowed ← required (identity_server_client_allowed_callback callbacks) (λ f,
    client_service_id ← lend (T:=V3OnionServiceId) client_service_id;
    call f (GC_IdentityServer (ISC_ClientAllowed context handle client_service_id)));
  endpoint_supported ← required (identity_server_endpoint_supported_callback callbacks) (λ f,
    requested_endpoint0 ← c_string requested_endpoint;
    call f (GC_IdentityServer (ISC_EndpointSupported context handle requested_endpoint0
                                 (String.length requested_endpoint))));
  endpoint_challenge ←
    required2 (identity_server_challenge_size_callback callbacks) (identity_server_build_challenge_callback callbacks)
      (λ size_callback build_callback,
      size ← call size_callback (GC_IdentityServer (ISC_ChallengeSize context handle));
      buffer ← zeroed size;
      data ← call build_callback (GC_IdentityServer (ISC_BuildChallenge context handle buffer));
      document_of (filled buffer data));
  answer context (identity_server_handle_endpoint_request_received handle client_allowed endpoint_supported
                    endpoint_challenge).

(** [IdentityServerChallengeResponseReceived] *)
Definition on_challenge_response (handle : HandshakeHandle) (challenge_response : Document) : E unit :=
  challenge_response_valid ← required (identity_server_verify_challenge_response_callback callbacks) (λ f,
    challenge_response_buffer ← document_bytes challenge_response;
    call f (GC_IdentityServer (ISC_VerifyChallengeResponse context handle challenge_response_buffer)));
  answer context (identity_server_handle_challenge_response_received handle challenge_response_valid).

(** [IdentityServerHandshakeCompleted] *)
Definition on_identity_server_completed (handle : HandshakeHandle) (endpoint_private_key : Ed25519PrivateKey)
    (endpoint_name : string) (client_service_id : V3OnionServiceId) (client_auth_public_key : X25519PublicKey) : E unit :=
  required (identity_server_handshake_completed_callback callbacks) (λ f,
    endpoint_private_key ← lend (T:=Ed25519PrivateKey) endpoint_private_key;
    endpoint_name0 ← c_string endpoint_name;
    client_service_id ← lend (T:=V3OnionServiceId) client_service_id;
    client_auth_public_key ← lend (T:=X25519PublicKey) client_auth_public_key;
    _ ← call f (GC_IdentityServer (ISC_HandshakeCompleted context handle endpoint_private_key endpoint_name0
                                     (String.length endpoint_name) client_service_id client_auth_public_key));
    _ ← reclaim Ed25519PrivateKey endpoint_private_key;
    _ ← reclaim V3OnionServiceId client_service_id;
    reclaim X25519PublicKey client_auth_public_key).

(** [IdentityServerHandshakeFailed] *)
Definition on_identity_server_failed (handle : HandshakeHandle) (reason : CXError) : E unit :=
  optional (identity_server_handshake_failed_callback callbacks) (λ f,
    with_error reason (λ key, call f (GC_IdentityServer (ISC_HandshakeFailed context handle key)))).

(** [EndpointClientHandshakeCompleted] *)
Definition on_endpoint_client_completed (handle : HandshakeHandle) (endpoint_service_id : V3OnionServiceId)
    (channel_name : string) (stream : RW) : E unit :=
  required (endpoint_client_handshake_completed_callback callbacks) (λ f,
    endpoint_service_id ← lend (T:=V3OnionServiceId) endpoint_service_id;
    channel_name0 ← c_string channel_name;
    _ ← call f (GC_EndpointClient (ECC_HandshakeCompleted context handle endpoint_service_id channel_name0
                                     (String.length channel_name) stream));
    reclaim V3OnionServiceId endpoint_service_id).

(** [EndpointClientHandshakeFailed] *)
Definition on_endpoint_client_failed (handle : HandshakeHandle) (reason : CXError) : E unit :=
  optional (endpoint_client_handshake_failed_callback callbacks) (λ f,
    with_error reason (λ key, call f (GC_EndpointClient (ECC_HandshakeFailed context handle key)))).

(** [EndpointServerPublished] *)
Definition on_endpoint_server_published (endpoint_service_id : V3OnionServiceId) (endpoint_name : string) : E unit :=
  optional (endpoint_server_published_callback callbacks) (λ f,
    endpoint_service_id ← lend (T:=V3OnionServiceId) endpoint_service_id;
    endpoint_name0 ← c_string endpoint_name;
    _ ← call f (GC_EndpointServer (ESC_Published context endpoint_service_id endpoint_name0
                                     (String.length endpoint_name)));
    reclaim V3OnionServiceId endpoint_service_id).

(** [EndpointServerChannelRequestReceived] *)
Definition on_channel_request (handle : HandshakeHandle) (client_service_id : V3OnionServiceId)
    (requested_channel : string) : E unit :=
  channel_supported ← required (endpoint_server_channel_supported_callback callbacks) (λ f,
    client_service_id ← lend (T:=V3OnionServiceId) client_service_id;
    requested_channel0 ← c_string requested_channel;
    channel_supported ← call f (GC_EndpointServer (ESC_ChannelSupported context handle client_service_id
                                                     requested_channel0 (String.length requested_channel)));
    _ ← reclaim V3OnionServiceId client_service_id;
    mret channel_supported);
  answer context (endpoint_server_handle_channel_request_received handle channel_supported).

(** [EndpointServerHandshakeCompleted] *)
Definition on_endpoint_server_completed (handle : HandshakeHandle)
    (endpoint_service_id client_service_id : V3OnionServiceId) (channel_name : string) (stream : RW) : E unit :=
  required (endpoint_server_handshake_completed_callback callbacks) (λ f,
    endpoint_service_id ← lend (T:=V3OnionServiceId) endpoint_service_id;
    client_service_id ← lend (T:=V3OnionServiceId) client_service_id;
    channel_name0 ← c_string channel_name;
    _ ← call f (GC_EndpointServer (ESC_HandshakeCompleted context handle endpoint_service_id client_service_id
                                     channel_name0 (String.length channel_name) stream));
    _ ← reclaim V3OnionServiceId endpoint_service_id;
    reclaim V3OnionServiceId client_service_id).

(** [EndpointServerHandshakeFailed] *)
Definition on_endpoint_server_failed (handle : HandshakeHandle) (reason : CXError) : E unit :=
  optional (endpoint_server_handshake_failed_callback callbacks) (λ f,
    with_error reason (λ key, call f (GC_EndpointServer (ESC_HandshakeFailed context handle key)))).

(** [handle_context_event] *)
Definition handle_context_event (event : ContextEvent RW) : E unit :=
  match event with
  | CE_TorBootstrapStatusReceived progress tag summary => on_bootstrap_status progress tag summary
  | CE_TorBootstrapCompleted =>
      optional (tor_bootstrap_completed_callback callbacks) (λ f, call f (GC_Tor (TorBootstrapCompleted context)))
  | CE_TorLogReceived line => on_tor_log line
  | CE_IdentityClientChallengeReceived handle endpoint_challenge => on_challenge_received handle endpoint_challenge
  | CE_IdentityClientHandshakeCompleted handle identity_service_id endpoint_service_id endpoint_name
      client_auth_private_key =>
      on_identity_client_completed handle identity_service_id endpoint_service_id endpoint_name client_auth_private_key
  | CE_IdentityClientHandshakeFailed handle reason => on_identity_client_failed handle reason
  | CE_IdentityServerPublished =>
      optional (identity_server_published_callback callbacks) (λ f, call f (GC_IdentityServer (ISC_Published context)))
  | CE_IdentityServerHandshakeStarted handle =>
      optional (identity_server_handshake_started_callback callbacks) (λ f,
        call f (GC_IdentityServer (ISC_HandshakeStarted context handle)))
  | CE_IdentityServerEndpointRequestReceived handle client_service_id requested_endpoint =>
      on_endpoint_request handle client_service_id requested_endpoint
  | CE_IdentityServerChallengeResponseReceived handle challenge_response =>
      on_challenge_response handle challenge_response
  | CE_IdentityServerHandshakeCompleted handle endpoint_private_key endpoint_name client_service_id
      client_auth_public_key =>
      on_identity_server_completed handle endpoint_private_key endpoint_name client_service_id client_auth_public_key
  | CE_IdentityServerHandshakeRejected handle client_allowed client_requested_endpoint_valid
      client_proof_signature_valid client_auth_signature_valid challenge_response_valid =>
      optional (identity_server_handshake_rejected_callback callbacks) (λ f,
        call f (GC_IdentityServer (ISC_HandshakeRejected context handle client_allowed client_requested_endpoint_valid
          client_proof_signature_valid client_auth_signature_valid challenge_response_valid)))
  | CE_IdentityServerHandshakeFailed handle reason => on_identity_server_failed handle reason
  | CE_EndpointClientHandshakeCompleted handle endpoint_service_id channel_name stream =>
      on_endpoint_client_completed handle endpoint_service_id channel_name stream
  | CE_EndpointClientHandshakeFailed handle reason => on_endpoint_client_failed handle reason
  | CE_EndpointServerPublished endpoint_service_id endpoint_name =>
      on_endpoint_server_published endpoint_service_id endpoint_name
  | CE_EndpointServerHandshakeStarted handle =>
      optional (endpoint_server_handshake_started_callback callbacks) (λ f,
        call f (GC_EndpointServer (ESC_HandshakeStarted context handle)))
  | CE_EndpointServerChannelRequestReceived handle client_service_id requested_channel =>
      on_channel_request handle client_service_id requested_channel
  | CE_EndpointServerHandshakeCompleted handle endpoint_service_id client_service_id channel_name stream =>
      on_endpoint_server_completed handle endpoint_service_id client_service_id channel_name stream
  | CE_EndpointServerHandshakeRejected handle client_allowed client_requested_channel_valid
      client_proof_signature_valid =>
      optional (endpoint_server_handshake_rejected_callback callbacks) (λ f,
        call f (GC_EndpointServer (ESC_HandshakeRejected context handle client_allowed client_requested_channel_valid
          client_proof_signature_valid)))
  | CE_EndpointServerHandshakeFailed handle reason => on_endpoint_server_failed handle reason
  end.
End handlers.

(** * Polling *)

(** The first block of [gosling_context_poll_events]: the context is updated while the
    registry is held; its new events follow those it had kept. *)
Definition take_events (fuel : nat) (context : GoslingContext) : F (list (ContextEvent RW) * EventCallbacks) :=
  reg_with (T:=C_ContextTuple) context (λ t,
    let '(c, callbacks, kept) := (t : ContextTuple RW TL P) in
    match cx_update fuel c with
    | Done (c, Ok new_events) =>
        Done ((c, callbacks, None) : ContextTuple RW TL P, Ok (default [] kept ++ new_events, callbacks))
    | Done (c, Err e) => Done ((c, callbacks, kept) : ContextTuple RW TL P, Err (FE_Other (OE_Context e)))
    | Panicked => Panicked
    | OutOfFuel => OutOfFuel
    end).

(** "if we have remaining events to consume, save them off on the context" *)
Definition keep_events (context : GoslingContext) (rest : list (ContextEvent RW)) : F unit := λ g,
  match rest with
  | [] => (g, FOk tt)
  | _ =>
      match rg_get (T:=C_ContextTuple) g with
      | None => (g, FPanic)
      | Some r =>
          match registry_get r context with
          | None => (g, FOk tt)
          | Some t =>
              let '(c, callbacks, _) := (t : ContextTuple RW TL P) in
              (rg_set (T:=C_ContextTuple)
                 (Some (registry_set r context ((c, callbacks, Some rest) : ContextTuple RW TL P))) g, FOk tt)
          end
      end
  end.

(** "consume the events and trigger any callbacks" *)
Fixpoint consume_events (context : GoslingContext) (callbacks : EventCallbacks) (events : list (ContextEvent RW)) :
    E unit := λ w,
  match events with
  | [] => (w, FOk tt)
  | event :: events =>
      match handle_context_event context callbacks event w with
      | (w, FOk _) => consume_events context callbacks events w
      | (w, FErr e) => (_ ← on_library (keep_events context events); refuse e) w
      | x => x
      end
  end.

(** [translate_failures], around a closure that may call the application: how the call ends
    when its closure ended so. *)
Definition translate_on_app (error : bool) (x : (Library * App) * ffi_result unit) :
    outcome ((Library * App) * option Z) :=
  let '((g, app), r) := x in
  match translate_failures tt error (λ g, (g, r)) g with
  | Done (g, _, e) => Done ((g, app), e)
  | Panicked => Panicked
  | OutOfFuel => OutOfFuel
  end.

(** [gosling_context_poll_events] *)
Definition gosling_context_poll_events (fuel : nat) (context : GoslingContext) (error : bool) (w : Library * App) :
    outcome ((Library * App) * option Z) :=
  translate_on_app error
    (('(context_events, callbacks) ← on_library (take_events fuel context);
      consume_events context callbacks context_events) w).
End events.
