(* ===== verification/CLocks.v ===== *)
(** The locks of cgosling: which registries a call takes, in which order, and which it holds
    while it takes others.  Calls of several threads are interleaved lock by lock, which the
    models of the calls themselves (CFfi and the files after it) do not do.

    A guard that is bound with [let] is held to the end of the closure of the call, one that
    is a temporary to the end of its statement.  The callbacks of a poll run with no lock
    held; what they call are calls of their own. *)

From Stdlib Require Import ZArith Lia.
From S2P Require Import Prelude.
From stdpp Require Import prelude list relations.

Open Scope nat_scope.

(** * Locks *)

(** The registries, in the order in which all calls but one nest them. *)
Inductive Lock :=
| L_ContextTuple
| L_TorProviderConfig
| L_TorProvider
| L_Ed25519PrivateKey
| L_V3OnionServiceId
| L_X25519PrivateKey
| L_X25519PublicKey
| L_TargetAddr
| L_IpAddr
| L_ProxyConfig
| L_PluggableTransportConfig
| L_BridgeLine
| L_Error.
#[export] Instance lock_eq_dec : EqDecision Lock.
Proof. solve_decision. Defined.

Definition rank (l : Lock) : nat :=
  match l with
  | L_ContextTuple => 0 | L_TorProviderConfig => 1 | L_TorProvider => 2 | L_Ed25519PrivateKey => 3
  | L_V3OnionServiceId => 4 | L_X25519PrivateKey => 5 | L_X25519PublicKey => 6 | L_TargetAddr => 7
  | L_IpAddr => 8 | L_ProxyConfig => 9 | L_PluggableTransportConfig => 10 | L_BridgeLine => 11 | L_Error => 12
  end.

Inductive LockStep := Take (l : Lock) | Release (l : Lock).

(** [f] while a guard of [l] is held. *)
Definition under (l : Lock) (f : list LockStep) : list LockStep := Take l :: f ++ [Release l].
(** A temporary guard. *)
Definition touch (l : Lock) : list LockStep := under l [].

(** * Calls *)

(** The error object that a call leaves when it fails, after its guards are gone. *)
Definition translate_failures_locks : list LockStep := touch L_Error.

Definition context_init_locks : list LockStep :=
  touch L_TorProvider ++ under L_Ed25519PrivateKey (touch L_ContextTuple).
(** [bootstrap_tor], [start_identity_server], [stop_identity_server], the two aborts, the
    setters of callbacks, and the calls on circuit tokens *)
Definition on_context_locks : list LockStep := touch L_ContextTuple.
Definition start_endpoint_server_locks : list LockStep :=
  under L_ContextTuple (under L_Ed25519PrivateKey (under L_V3OnionServiceId (touch L_X25519PublicKey))).
Definition stop_endpoint_server_locks : list LockStep :=
  under L_ContextTuple (touch L_Ed25519PrivateKey).
Definition begin_identity_handshake_locks : list LockStep :=
  under L_ContextTuple (touch L_V3OnionServiceId).
Definition begin_endpoint_handshake_locks : list LockStep :=
  under L_ContextTuple (under L_V3OnionServiceId (touch L_X25519PrivateKey)).
Definition connect_locks : list LockStep := under L_ContextTuple (touch L_TargetAddr).
(** [poll_events]: an event makes objects for its callback and removes them, and its answer
    goes to the context *)
Definition poll_locks (objects : list Lock) : list LockStep :=
  touch L_ContextTuple ++ concat (map touch objects) ++ touch L_ContextTuple.
(** the change of a config by an object *)
Definition config_locks (object : Lock) : list LockStep := under L_TorProviderConfig (touch object).
(** clones, conversions and constructors: one registry after another *)
Definition object_locks (used made : list Lock) : list LockStep := concat (map touch (used ++ made)).

(** A call that returns early: what it holds is released. *)
Fixpoint held_after (held : list Lock) (steps : list LockStep) : list Lock :=
  match steps with
  | [] => held
  | Take l :: steps => held_after (l :: held) steps
  | Release l :: steps => held_after (filter (λ h, h ≠ l) held) steps
  end.
Definition returning_after (n : nat) (call : list LockStep) : list LockStep :=
  take n call ++ map Release (held_after [] (take n call)).

(** The calls that take more than one lock at a time, or several after one another, all but
    [gosling_context_init]; each may return early, and leave an error. *)
Inductive other_call : list LockStep → Prop :=
| oc_on_context : other_call on_context_locks
| oc_start_endpoint_server : other_call start_endpoint_server_locks
| oc_stop_endpoint_server : other_call stop_endpoint_server_locks
| oc_begin_identity_handshake : other_call begin_identity_handshake_locks
| oc_begin_endpoint_handshake : other_call begin_endpoint_handshake_locks
| oc_connect : other_call connect_locks
| oc_poll objects : other_call (poll_locks objects)
| oc_config object : object ∈ [L_ProxyConfig; L_PluggableTransportConfig; L_BridgeLine] → other_call (config_locks object)
| oc_object used made : other_call (object_locks used made)
| oc_early n call : other_call call → other_call (returning_after n call ++ translate_failures_locks)
| oc_then call call' : other_call call → other_call call' → other_call (call ++ call').

(** * Threads *)

(** A thread in the middle of its calls: the locks it holds and what it has left to do. *)
Record Thread := mkThread { th_held : list Lock; th_todo : list LockStep }.
Definition free (threads : list Thread) (l : Lock) : Prop := Forall (λ t, l ∉ th_held t) threads.

(** One thread takes a lock that no thread holds (not itself either), or releases one. *)
Inductive lock_step : list Thread → list Thread → Prop :=
| ls_take threads i held l todo :
    threads !! i = Some (mkThread held (Take l :: todo)) → free threads l →
    lock_step threads (<[i := mkThread (l :: held) todo]> threads)
| ls_release threads i held l todo :
    threads !! i = Some (mkThread held (Release l :: todo)) →
    lock_step threads (<[i := mkThread (filter (λ h, h ≠ l) held) todo]> threads).

Definition starting (calls : list (list LockStep)) : list Thread := map (mkThread []) calls.
Definition all_done (threads : list Thread) : Prop := Forall (λ t, th_todo t = []) threads.
(** No thread can go on, but not all are done. *)
Definition deadlocked (threads : list Thread) : Prop :=
  ¬ all_done threads ∧ ∀ threads', ¬ lock_step threads threads'.

(** * Ordered calls do not deadlock *)

(** Locks are taken in the order of their ranks, and all are released at the end. *)
Fixpoint ordered (held : list Lock) (todo : list LockStep) : Prop :=
  match todo with
  | [] => held = []
  | Take l :: todo => Forall (λ h, rank h < rank l) held ∧ ordered (l :: held) todo
  | Release l :: todo => ordered (filter (λ h, h ≠ l) held) todo
  end.

Lemma ordered_app held todo todo' : ordered held todo → ordered [] todo' → ordered held (todo ++ todo').
Proof.
  revert held. induction todo as [|[l|l] todo IH]; intros held; simpl; [by intros ->|intros [? ?]; split; auto|auto].
Qed.

Lemma release_all held : ordered held (map Release held).
Proof.
  enough (∀ held' : list Lock, (∀ l, l ∈ held' → l ∈ held) → ordered held' (map Release held)) as H by by apply H.
  induction held as [|l held IH]; intros held' Hsub; simpl.
  - destruct held' as [|l held']; [done|]. by destruct (not_elem_of_nil l (Hsub l (list_elem_of_here _ _))).
  - apply IH. intros l' [Hne Hin]%list_elem_of_filter. by apply Hsub, elem_of_cons in Hin as [->|].
Qed.

Lemma ordered_early held n todo :
  ordered held todo → ordered held (take n todo ++ map Release (held_after held (take n todo))).
Proof.
  revert held n. induction todo as [|[l|l] todo IH]; intros held [|n]; simpl.
  - intros ->. done.
  - intros ->. done.
  - intros _. apply release_all.
  - intros [? ?]. split; [done|]. by apply IH.
  - intros _. apply release_all.
  - intros ?. by apply IH.
Qed.

Lemma touches_ordered ls : ordered [] (concat (map touch ls)).
Proof.
  induction ls as [|l ls IH]; [done|]. simpl. split; [constructor|].
  rewrite filter_cons_False by (intros H; by apply H). done.
Qed.

Lemma other_call_ordered call : other_call call → ordered [] call.
Proof.
  induction 1 as [| | | | | |objects|object Ho|used made|n call _ IH|call call' _ IH1 _ IH2].
  7: { unfold poll_locks, touch, under. simpl. split; [constructor|]. apply ordered_app; [apply touches_ordered|].
       simpl. split; [constructor|done]. }
  8: { apply touches_ordered. }
  8: { apply ordered_app; [by apply ordered_early|]. simpl. split; [constructor|done]. }
  8: { by apply ordered_app. }
  7: { unfold config_locks, touch, under. simpl. split_and!; [constructor|repeat constructor; simpl; set_unfold; naive_solver lia|].
       set_unfold. destruct Ho as [->|[->|[->|[]]]]; done. }
  all: unfold on_context_locks, start_endpoint_server_locks, stop_endpoint_server_locks, begin_identity_handshake_locks,
    begin_endpoint_handshake_locks, connect_locks, touch, under; simpl; repeat split; repeat constructor; simpl; lia.
Qed.

Definition thread_ordered (t : Thread) : Prop := ordered (th_held t) (th_todo t).

Lemma lock_step_ordered threads threads' :
  Forall thread_ordered threads → lock_step threads threads' → Forall thread_ordered threads'.
Proof.
  intros Ho Hs. destruct Hs as [threads i held l todo Hi _|threads i held l todo Hi];
    (apply Forall_insert; [done|]); pose proof (Forall_lookup_1 _ _ _ _ Ho Hi) as Ht; unfold thread_ordered in *; simpl in *.
  - tauto.
  - done.
Qed.

(** A thread that waits for a lock of at least this rank. *)
Definition waits_above (threads : list Thread) (n : nat) : Prop :=
  ∃ i held l todo, threads !! i = Some (mkThread held (Take l :: todo)) ∧ n ≤ rank l.

Lemma rank_bound l : rank l ≤ 12.
Proof. destruct l; simpl; lia. Qed.

(** While nothing can go on, the holder of a lock waits for one of a higher rank. *)
Lemma blocked_holder threads i held l todo :
  Forall thread_ordered threads → (∀ threads', ¬ lock_step threads threads') →
  threads !! i = Some (mkThread held (Take l :: todo)) → waits_above threads (S (rank l)).
Proof.
  intros Ho Hn Hi. assert (¬ free threads l) as Hl by (intros Hf; by eapply Hn, ls_take).
  apply not_Forall_Exists in Hl; [|intros t; apply _]. apply Exists_exists in Hl as (t & [j Hj]%list_elem_of_lookup & Ht).
  destruct (decide (l ∈ th_held t)) as [Hin|]; [|done]. destruct t as [held' [|[l'|l'] todo']]; simpl in *.
  - pose proof (Forall_lookup_1 _ _ _ _ Ho Hj) as Hd. unfold thread_ordered in Hd. simpl in Hd. subst. by apply not_elem_of_nil in Hin.
  - pose proof (Forall_lookup_1 _ _ _ _ Ho Hj) as [Hr _]. simpl in Hr. exists j, held', l', todo'. split; [done|].
    by apply (proj1 (Forall_forall _ _) Hr).
  - by destruct (Hn _ (ls_release threads j held' l' todo' Hj)).
Qed.

Lemma ordered_not_deadlocked threads : Forall thread_ordered threads → ¬ deadlocked threads.
Proof.
  intros Ho [Hd Hn]. assert (waits_above threads 0) as Hw.
  { apply not_Forall_Exists in Hd; [|intros t; apply _]. apply Exists_exists in Hd as (t & [i Hi]%list_elem_of_lookup & Ht).
    destruct t as [held [|[l|l] todo]]; simpl in *; [done| |].
    - exists i, held, l, todo. split; [done|lia].
    - by destruct (Hn _ (ls_release threads i held l todo Hi)). }
  assert (∀ n, waits_above threads n) as Hall.
  { induction n as [|n (i & held & l & todo & Hi & Hr)]; [done|].
    destruct (blocked_holder _ _ _ _ _ Ho Hn Hi) as (j & held' & l' & todo' & Hj & Hr'). exists j, held', l', todo'. split; [done|lia]. }
  destruct (Hall 13) as (i & held & l & todo & _ & Hr). pose proof (rank_bound l). lia.
Qed.

(** Every step brings the end nearer. *)
Definition steps_left (threads : list Thread) : nat := sum_list (map (λ t, length (th_todo t)) threads).

Lemma lock_step_left threads threads' : lock_step threads threads' → steps_left threads = S (steps_left threads').
Proof.
  assert (∀ ts i held s todo held', ts !! i = Some (mkThread held (s :: todo)) →
    steps_left ts = S (steps_left (<[i := mkThread held' todo]> ts))) as H.
  { induction ts as [|t ts IH]; intros [|i] held s todo held' Hi; simpl in *; try done.
    - injection Hi as ->. done.
    - unfold steps_left in *. simpl. rewrite (IH _ _ _ _ held' Hi). lia. }
  intros []; by eapply H.
Qed.

(** ** Runs *)

Lemma starting_ordered calls : Forall other_call calls → Forall thread_ordered (starting calls).
Proof. induction 1 as [|call calls Hc _ IH]; constructor; [by apply other_call_ordered|done]. Qed.

Lemma other_calls_go_on calls n threads :
  Forall other_call calls → nsteps lock_step n (starting calls) threads →
  ¬ deadlocked threads ∧ n + steps_left threads = steps_left (starting calls).
Proof.
  intros Hc%starting_ordered Hn. induction Hn as [x|n x y z Hs _ IH]; [by split; [apply ordered_not_deadlocked|]|].
  apply lock_step_left in Hs as Hl. destruct IH as [Hd Hleft]; [by eapply lock_step_ordered|]. split; [done|lia].
Qed.

(** Each thread waits for a lock that the other holds. *)
Lemma crossed_deadlock l1 l2 todo1 todo2 :
  deadlocked [mkThread [l1] (Take l2 :: todo1); mkThread [l2] (Take l1 :: todo2)].
Proof.
  split.
  - intros Hd. by apply Forall_cons_1 in Hd as [Hd _].
  - intros threads' Hs. inversion Hs as [ts i held l todo Hi Hf|ts i held l todo Hi]; subst.
    + apply Forall_cons_1 in Hf as [H1 Hf]. apply Forall_cons_1 in Hf as [H2 _].
      destruct i as [|[|i]]; simpl in Hi; simplify_eq/=; [apply H2|apply H1]; by left.
    + by destruct i as [|[|i]].
Qed.

(** Taking the lock that is next, in a run from left to right. *)
Lemma take_next threads i held l todo threads' :
  threads !! i = Some (mkThread held (Take l :: todo)) → free threads l →
  threads' = <[i := mkThread (l :: held) todo]> threads → lock_step threads threads'.
Proof. intros Hi Hf ->. by apply ls_take. Qed.
Lemma release_next threads i held l todo threads' :
  threads !! i = Some (mkThread held (Release l :: todo)) →
  threads' = <[i := mkThread (filter (λ h, h ≠ l) held) todo]> threads → lock_step threads threads'.
Proof. intros Hi ->. by apply ls_release. Qed.

Lemma init_deadlocks :
  Forall (λ call, ∃ threads, rtc lock_step (starting [context_init_locks; call]) threads ∧ deadlocked threads)
    [start_endpoint_server_locks; stop_endpoint_server_locks].
Proof.
  repeat constructor; (eexists; split;
    [eapply rtc_l; [eapply (take_next _ 0); [reflexivity|repeat constructor; apply not_elem_of_nil|reflexivity]|];
     eapply rtc_l; [eapply (release_next _ 0); reflexivity|];
     eapply rtc_l; [eapply (take_next _ 0); [reflexivity|repeat constructor; apply not_elem_of_nil|reflexivity]|];
     eapply rtc_l; [eapply (take_next _ 1);
       [reflexivity|repeat constructor; [intros H%list_elem_of_singleton; discriminate H|apply not_elem_of_nil]|reflexivity]|];
     apply rtc_refl
    |apply crossed_deadlock]).
Qed.
