(* ===== verification/CFfiProps.v ===== *)
(** The properties of the C interface: its handles, its errors, and the life of the objects
    behind them. *)

From Stdlib Require Import ZArith Lia.
From S2P Require Import Prelude Maps Str Crypto TorCrypto CryptoModel ObjectRegistry CFfi.
From stdpp Require Import prelude strings list.
From coqutil Require Import Byte.

Open Scope nat_scope.

(** * Registries *)

(** C23. A registry hands out keys that identify its objects.  In any registry reached from
    [new] by insertions, removals and changes, with a tag that fits its bits: an insertion
    panics exactly when the counter is used up; otherwise its key is not null, fits a
    [usize], was never handed out before (not for removed objects either), carries the tag
    in its low bits, so that keys of registries with different tags differ, and maps to the
    object, while all other keys map to what they did; a removal removes that key alone. *)
Theorem registry_keys {T} (TAG TAG_BITS : Z) issued (r : ObjectRegistry T) (v : T) :
  tag_ok TAG TAG_BITS → reg_reachable TAG TAG_BITS issued r →
  (or_counter r = COUNTER_MAX TAG_BITS → registry_insert TAG TAG_BITS r v = Panicked) ∧
  (or_counter r ≠ COUNTER_MAX TAG_BITS → ∃ key r', registry_insert TAG TAG_BITS r v = Done (key, r') ∧
     (0 < key ≤ usize_max)%Z ∧ key ∉ issued ∧ (key mod 2 ^ TAG_BITS)%Z = TAG ∧
     ∀ k, registry_get r' k = if (k =? key)%Z then Some v else registry_get r k) ∧
  (∀ key, (registry_remove r key).1 = registry_get r key ∧
     ∀ k, registry_get (registry_remove r key).2 k = if (k =? key)%Z then None else registry_get r k).
Proof.
  intros Hok Hr. pose proof (reg_reachable_inv _ _ Hok _ _ Hr) as Hi.
  pose proof (registry_insert_spec _ _ Hok _ _ v Hi) as Hs. pose proof (ri_counter _ _ _ _ Hi) as Hc. split_and!.
  - intros Heq. rewrite Heq, Z.ltb_irrefl in Hs. done.
  - intros Hne. destruct (Z.ltb_spec (or_counter r) (COUNTER_MAX TAG_BITS)) as [Hlt|]; [|lia].
    destruct Hs as (r' & Hins & _ & _ & Hget). exists (key_of TAG TAG_BITS (or_counter r + 1)), r'. split_and!.
    + done.
    + destruct Hok as [Hb Ht]. unfold key_of. pose proof (Z.pow_pos_nonneg 2 TAG_BITS ltac:(lia) ltac:(lia)). nia.
    + by apply key_range; [|lia].
    + by apply fresh_key.
    + by apply key_of_tag; [|lia].
    + done.
  - intros key. destruct (registry_remove_spec _ _ _ _ key Hi) as (H1 & _ & _ & H2). by split.
Qed.

Definition demo_registry : ObjectRegistry nat := mkObjectRegistry None 0.

Lemma registry_keys_witness :
  ∃ key r', registry_insert 5 4 demo_registry 7 = Done (key, r') ∧ (0 < key ≤ usize_max)%Z ∧ key ∉ @nil Z ∧
    (key mod 2 ^ 4)%Z = 5%Z ∧ ∀ k, registry_get r' k = if (k =? key)%Z then Some 7 else registry_get demo_registry k.
Proof.
  destruct (registry_keys 5 4 [] demo_registry 7) as (_ & H & _).
  - split; unfold USIZE_BITS; lia.
  - constructor. reflexivity.
  - apply H. vm_compute. discriminate.
Defined.

(** * Objects behind handles *)

Section ffi.
Context `{CL : CryptoLib} `{OO : OtherObjects}.
Implicit Types (g : Library).

(** The lock of a type is a field of its own, and its tag fits. *)
Class RegisteredLaws (T : Type) `{RT : !Registered T} : Prop := {
  rg_get_set (l : lock T) g : rg_get (rg_set l g) = l;
  rg_tag_ok : tag_ok rg_tag REGISTRY_TAG_BITS;
}.

(** A type's registry in a library is free and reached; these keys were handed out. *)
Definition registered (T : Type) `{RT : !Registered T} (issued : list Z) g : Prop :=
  ∃ r, rg_get g = Some r ∧ reg_reachable rg_tag REGISTRY_TAG_BITS issued r.

Definition has_room (T : Type) `{RT : !Registered T} g : Prop :=
  ∀ r, rg_get (T:=T) g = Some r → (or_counter r ≠ COUNTER_MAX REGISTRY_TAG_BITS)%Z.

Lemma registry_get_set {T} (r : ObjectRegistry T) k k' v :
  is_Some (registry_get r k) →
  registry_get (registry_set r k v) k' = if (k' =? k)%Z then Some v else registry_get r k'.
Proof.
  unfold registry_get, registry_set. destruct r as [[m|] c]; simpl; [|by intros []].
  intros [? Hm]. rewrite bt_get_set. by rewrite Hm.
Qed.

(** What is behind a handle, and the library with something else behind it. *)
Definition object_at {T : Type} `{RT : !Registered T} (handle : Z) g : option T :=
  match rg_get g with Some r => registry_get r handle | None => None end.
Definition with_object {T : Type} `{RT : !Registered T} (handle : Z) (v : T) g : Library :=
  match rg_get g with Some r => rg_set (Some (registry_set r handle v)) g | None => g end.

Section object.
Context {T : Type} `{RT : !Registered T} `{RTL : !RegisteredLaws T}.

Lemma object_at_with handle (v v' : T) g :
  object_at handle g = Some v' →
  ∀ k, object_at k (with_object handle v g) = if (k =? handle)%Z then Some v else object_at k g.
Proof.
  unfold object_at, with_object. destruct (rg_get g) as [r|] eqn:Hr; [|done]. intros Ht k.
  rewrite rg_get_set. apply registry_get_set. by exists v'.
Qed.

Lemma reg_lookup_at handle (v : T) g : object_at handle g = Some v → reg_lookup handle g = (g, FOk v).
Proof. unfold object_at, reg_lookup. destruct (rg_get g) as [r|]; [|done]. by intros ->. Qed.

Lemma reg_lookup_none handle g :
  rg_get (T:=T) g ≠ None → object_at (T:=T) handle g = None → reg_lookup (T:=T) handle g = (g, FErr FE_InvalidHandle).
Proof. unfold object_at, reg_lookup. destruct (rg_get g) as [r|]; [|done]. by intros _ ->. Qed.

(** A change of an object while its registry is held. *)
Lemma reg_with_at {A} handle (v : T) (f : T → outcome (T * result FfiError A)) g :
  object_at handle g = Some v →
  reg_with handle f g =
    match f v with
    | Done (v', Ok a) => (with_object handle v' g, FOk a)
    | Done (v', Err e) => (with_object handle v' g, FErr e)
    | Panicked => (rg_set (None : lock T) g, FPanic)
    | OutOfFuel => (g, FDiverge)
    end.
Proof. unfold object_at, reg_with, with_object. destruct (rg_get g) as [r|]; [|done]. by intros ->. Qed.

Lemma holding_at {A} handle (v : T) (m : F A) g g' x :
  object_at handle g = Some v → m g = (g', x) → x ≠ FPanic → holding (T:=T) m g = (g', x).
Proof. unfold object_at, holding. destruct (rg_get g); [|done]. intros _ -> Hx. by destruct x. Qed.

Lemma reg_insert_ok issued g (v : T) :
  registered T issued g → has_room T g →
  ∃ key r', reg_insert v g = (rg_set (Some r') g, FOk key) ∧
    (0 < key ≤ usize_max)%Z ∧ key ∉ issued ∧ (key mod 16)%Z = rg_tag ∧
    reg_reachable rg_tag REGISTRY_TAG_BITS (key :: issued) r' ∧ registry_get r' key = Some v.
Proof.
  intros (r & Hg & Hr) Hroom. specialize (Hroom _ Hg). pose proof (rg_tag_ok (T:=T)) as Hok.
  pose proof (reg_reachable_inv _ _ Hok _ _ Hr) as Hi. pose proof (ri_counter _ _ _ _ Hi) as Hc.
  pose proof (registry_insert_spec _ _ Hok _ _ v Hi) as Hs.
  destruct (Z.ltb_spec (or_counter r) (COUNTER_MAX REGISTRY_TAG_BITS)) as [Hlt|]; [|lia].
  destruct Hs as (r' & Hins & _ & _ & Hget). exists (key_of rg_tag REGISTRY_TAG_BITS (or_counter r + 1)), r'. split_and!.
  - unfold reg_insert. by rewrite Hg, Hins.
  - unfold key_of. destruct Hok as [_ Ht]. unfold REGISTRY_TAG_BITS in *. lia.
  - by apply key_range; [|lia].
  - by apply fresh_key.
  - by apply (key_of_tag _ _ Hok); lia.
  - by eapply reg_reach_insert.
  - by rewrite Hget, Z.eqb_refl.
Qed.

(** A handle of another tag is refused. *)
Lemma reg_lookup_other issued g handle :
  registered T issued g → (handle mod 16)%Z ≠ rg_tag → reg_lookup (T:=T) handle g = (g, FErr FE_InvalidHandle).
Proof.
  intros (r & Hg & Hr) Hne. unfold reg_lookup. rewrite Hg.
  destruct (registry_get r handle) as [v|] eqn:Hv; [|done]. exfalso. apply Hne.
  pose proof (rg_tag_ok (T:=T)) as Hok. pose proof (reg_reachable_inv _ _ Hok _ _ Hr) as Hi.
  assert (handle ∈ issued) as Hin by (apply (ri_map _ _ _ _ Hi); by rewrite Hv).
  apply (ri_issued _ _ _ _ Hi) in Hin as (c & Hc & ->). apply (key_of_tag _ _ Hok). lia.
Qed.

(** After an object was freed, its handle is refused. *)
Lemma reg_free_lookup issued g handle :
  registered T issued g → handle ≠ 0%Z →
  ∃ g', reg_free (T:=T) handle g = Done g' ∧ registered T issued g' ∧
    reg_lookup (T:=T) handle g' = (g', FErr FE_InvalidHandle).
Proof.
  intros (r & Hg & Hr) Hne. unfold reg_free. destruct (Z.eqb_spec handle 0); [done|]. rewrite Hg.
  exists (rg_set (Some (registry_remove r handle).2) g). split; [done|]. unfold registered, reg_lookup. rewrite rg_get_set.
  split; [eexists; split; [done|]; by apply reg_reach_remove|].
  pose proof (rg_tag_ok (T:=T)) as Hok. pose proof (reg_reachable_inv _ _ Hok _ _ Hr) as Hi.
  destruct (registry_remove_spec _ _ _ _ handle Hi) as (_ & _ & _ & Hget). by rewrite Hget, Z.eqb_refl.
Qed.
End object.

#[export] Instance error_laws : RegisteredLaws FfiError.
Proof. split; [by intros l []|split; done]. Qed.
#[export] Instance ed25519_private_key_laws : RegisteredLaws Ed25519PrivateKey.
Proof. split; [by intros l []|split; done]. Qed.
#[export] Instance x25519_private_key_laws : RegisteredLaws X25519PrivateKey.
Proof. split; [by intros l []|split; done]. Qed.
#[export] Instance x25519_public_key_laws : RegisteredLaws X25519PublicKey.
Proof. split; [by intros l []|split; done]. Qed.
#[export] Instance v3_onion_service_id_laws : RegisteredLaws V3OnionServiceId.
Proof. split; [by intros l []|split; done]. Qed.

#[export] Instance ip_addr_laws : RegisteredLaws C_IpAddr.
Proof. split; [by intros l []|split; done]. Qed.
#[export] Instance target_addr_laws : RegisteredLaws C_TargetAddr.
Proof. split; [by intros l []|split; done]. Qed.
#[export] Instance proxy_config_laws : RegisteredLaws C_ProxyConfig.
Proof. split; [by intros l []|split; done]. Qed.
#[export] Instance pluggable_transport_config_laws : RegisteredLaws C_PluggableTransportConfig.
Proof. split; [by intros l []|split; done]. Qed.
#[export] Instance bridge_line_laws : RegisteredLaws C_BridgeLine.
Proof. split; [by intros l []|split; done]. Qed.
#[export] Instance tor_provider_config_laws : RegisteredLaws C_TorProviderConfig.
Proof. split; [by intros l []|split; done]. Qed.
#[export] Instance tor_provider_laws : RegisteredLaws C_TorProvider.
Proof. split; [by intros l []|split; done]. Qed.
#[export] Instance context_tuple_laws : RegisteredLaws C_ContextTuple.
Proof. split; [by intros l []|split; done]. Qed.

(** C30. Objects of the C interface live as long as their handles.  Whenever a text of the
    right length is read into an object, the call succeeds with a new handle that is not
    null and has the tag of its type; printing through the handle gives the text of the
    object and a null byte, given room for both; every other type refuses the handle; and
    once the object is freed its own type refuses it as well.  When the text cannot be
    read, the call returns no handle and changes nothing, except that it leaves an error
    object when the caller asked for one. *)
Theorem ffi_object_life {T} `{RT : !Registered T} `{RTL : !RegisteredLaws T} (n : nat)
    (parse : bytes → result CryptoError T) (print : T → bytes) g issued errors text error :
  registered T issued g → has_room T g → registered FfiError errors g → has_room FfiError g →
  length text = n → is_utf8 text = true →
  match parse text with
  | Ok v =>
      length (print v) = n →
      ∃ g' handle, object_from_text n parse true (Some text) error g = Done (g', Some handle, None) ∧
      (0 < handle ≤ usize_max)%Z ∧ handle ∉ issued ∧ (handle mod 16)%Z = rg_tag ∧
      (∀ size, n < size →
         object_to_text n print handle (Some size) error g' = Done (g', Some (print v ++ [Byte.x00]), None)) ∧
      (∀ T' (RT' : Registered T') (RTL' : RegisteredLaws T') issued', registered T' issued' g' →
         rg_tag (T:=T') ≠ rg_tag (T:=T) → reg_lookup (T:=T') handle g' = (g', FErr FE_InvalidHandle)) ∧
      (∃ g'', reg_free (T:=T) handle g' = Done g'' ∧ registered T (handle :: issued) g'' ∧
         reg_lookup (T:=T) handle g'' = (g'', FErr FE_InvalidHandle))
  | Err e =>
      if error then ∃ g' key, object_from_text n parse true (Some text) true g = Done (g', None, Some key) ∧
        g' = rg_set (rg_get (T:=FfiError) g') g ∧ gosling_error_get_message key g' = Done (Some (FE_Crypto e))
      else object_from_text n parse true (Some text) false g = Done (g, None, None)
  end.
Proof.
  intros Hreg Hroom Herr Heroom Hlen Hu. unfold object_from_text, translate_failures.
  destruct (parse text) as [v|e] eqn:Hp.
  - intros Hprint. destruct (reg_insert_ok issued g v Hreg Hroom) as (key & r' & Hins & Hk & Hn & Ht & Hr & Hget).
    exists (rg_set (Some r') g), key. split_and!; try done; try lia.
    + unfold mbind, F_bind, ensure, mret, F_ret. simpl. rewrite bool_decide_eq_true_2 by done. rewrite Hu. simpl. try rewrite Hp. simpl. by rewrite Hins.
    + intros size Hsize. unfold object_to_text, translate_failures, mbind, F_bind, ensure, mret, F_ret.
      destruct (Z.eqb_spec key 0); [lia|]. destruct (Nat.ltb_spec size (n + 1)); [lia|]. simpl.
      unfold reg_lookup. rewrite rg_get_set, Hget. by rewrite take_ge by lia.
    + intros T' RT' RTL' issued' Hreg' Hne. eapply reg_lookup_other; [done|]. congruence.
    + apply reg_free_lookup; [|lia]. exists r'. by rewrite rg_get_set.
  - destruct error; unfold mbind, F_bind, ensure, mret, F_ret; simpl; rewrite bool_decide_eq_true_2 by done; rewrite Hu; simpl;
      try rewrite Hp; simpl; [|done].
    destruct (reg_insert_ok errors g (FE_Crypto e) Herr Heroom) as (key & r' & Hins & Hk & _ & _ & _ & Hget).
    rewrite Hins. exists (rg_set (Some r') g), key. split; [done|]. split; [by destruct g|].
    unfold gosling_error_get_message. destruct (Z.eqb_spec key 0); [lia|]. destruct g. simpl.
    unfold contains_key. unfold registry_get in *. destruct (or_map r'); [|done]. by rewrite Hget.
Qed.
End ffi.

(** A library that has just been initialised, and the text of a service id. *)
Definition no_objects : OtherObjects := {|
  C_IpAddr := unit; C_TargetAddr := unit; C_ProxyConfig := unit; C_PluggableTransportConfig := unit;
  C_BridgeLine := unit; C_TorProviderConfig := unit; C_TorProvider := unit; C_ContextTuple := unit;
  C_Error := unit |}.
#[local] Existing Instance no_objects.

Definition empty_lock {T} : lock T := Some (mkObjectRegistry None 0).
Definition demo_library : Library :=
  mkLibrary true empty_lock empty_lock empty_lock empty_lock empty_lock empty_lock empty_lock empty_lock
    empty_lock empty_lock empty_lock empty_lock empty_lock.
Definition demo_id : V3OnionServiceId := service_id_from_private_key (ed25519_generate (os_random 3 32)).
Definition parse_id (s : bytes) : result CryptoError V3OnionServiceId :=
  service_id_from_string (String.string_of_list_byte s).

(** The registry of public keys is as it was. *)
Definition untouched (o : outcome (Library * option Z * option Z)) : bool :=
  match o with
  | Done (g, _, _) =>
      match g_x25519_public_key g with Some (mkObjectRegistry None counter) => (counter =? 0)%Z | _ => false end
  | _ => false
  end.

Lemma ffi_object_life_witness :
  ∃ g' handle, gosling_v3_onion_service_id_from_string true (Some (sid_data demo_id)) true demo_library =
      Done (g', Some handle, None) ∧
    gosling_v3_onion_service_id_to_string handle (Some 57) true g' = Done (g', Some (sid_data demo_id ++ [Byte.x00]), None) ∧
    reg_lookup (T:=X25519PublicKey) handle g' = (g', FErr FE_InvalidHandle) ∧
    ∃ g'', reg_free (T:=V3OnionServiceId) handle g' = Done g'' ∧
      reg_lookup (T:=V3OnionServiceId) handle g'' = (g'', FErr FE_InvalidHandle).
Proof.
  assert (parse_id (sid_data demo_id) = Ok demo_id) as Hp by by_eval.
  pose proof (ffi_object_life 56 parse_id sid_data demo_library [] [] (sid_data demo_id) true) as H.
  rewrite Hp in H. destruct H as (g' & handle & H1 & _ & _ & _ & H2 & H3 & g'' & H4 & _ & H5).
  - eexists. split; [reflexivity|]. constructor. reflexivity.
  - intros r [= <-]. vm_compute. discriminate.
  - eexists. split; [reflexivity|]. constructor. reflexivity.
  - intros r [= <-]. vm_compute. discriminate.
  - by_eval.
  - by_eval.
  - by_eval.
  - exists g', handle. split; [exact H1|]. split; [apply H2; lia|]. split; [|exists g''; by split].
    apply (H3 _ _ _ []); [|discriminate].
    assert (untouched (object_from_text 56 parse_id true (Some (sid_data demo_id)) true demo_library) = true) as Hu
      by by_eval.
    rewrite H1 in Hu. unfold untouched in Hu. eexists. split.
    + simpl. destruct (g_x25519_public_key g') as [[[] counter]|]; [done| |done]. apply Z.eqb_eq in Hu as ->. reflexivity.
    + constructor. reflexivity.
Defined.
