(* ===== verification/CContextProps.v ===== *)
(** The properties of contexts behind the C interface: the order in which events reach the
    application, what its panics cost, and how providers get from their settings to a
    context. *)

From Stdlib Require Import ZArith Lia.
From Stdlib Require String.
From S2P Require Import Prelude Bson HonkSize Maps HonkSession Str NetAddr Regexes Crypto TorCrypto GoslingProto.
From S2P Require Import TorProvider TorAddr HonkWire Context ObjectRegistry CFfi CObjects CUtils CCallbacks CContext.
From S2P Require Import HonkRead HonkWrite HonkUpdate EndpointClient GoslingProps CEvents CFfiProps CLocks.
From S2P Require Import BsonModel CryptoModel HonkScript Handshake TorScript.
From stdpp Require Import prelude strings list relations.
From coqutil Require Import Byte.

Open Scope nat_scope.

Section props.
Context `{BL : BsonLib} `{CL : CryptoLib} {RW TL P App : Type}.
Context `{!Stream RW} `{!Sockets RW TL} `{!TorProvider P RW TL} `{!HashOrder V3OnionServiceId}.
#[local] Hint Extern 0 OtherObjects => exact (gosling_objects RW TL P) : typeclass_instances.
Context `{CC : !CCode (RW:=RW) (TL:=TL) (P:=P) App}.
Implicit Types (g : Library) (app : App) (w : Library * App) (event : ContextEvent RW) (t : ContextTuple RW TL P).

Abbreviation contexts g := (rg_get (T:=C_ContextTuple) g).

(** * Delivery of events *)

(** What is behind the handle of a context. *)
Definition tuple_at (context : Z) g : option (ContextTuple RW TL P) := object_at (T:=C_ContextTuple) context g.
Definition with_tuple (context : Z) t g : Library := with_object (T:=C_ContextTuple) context t g.

Lemma tuple_at_with context t t' g : tuple_at context g = Some t' → tuple_at context (with_tuple context t g) = Some t.
Proof. intros Ht. unfold tuple_at, with_tuple. by rewrite (object_at_with _ _ _ _ Ht), Z.eqb_refl. Qed.

(** These events were handled one after the other, each without an error. *)
Inductive delivered (context : Z) (callbacks : EventCallbacks) :
    list (ContextEvent RW) → Library * App → Library * App → Prop :=
| delivered_nil w : delivered context callbacks [] w w
| delivered_cons event events w w1 w2 :
    handle_context_event context callbacks event w = (w1, FOk tt) →
    delivered context callbacks events w1 w2 → delivered context callbacks (event :: events) w w2.

Lemma consume_events_spec context callbacks events w :
  ∃ before rest w1, events = before ++ rest ∧ delivered context callbacks before w w1 ∧
    match rest with
    | [] => consume_events context callbacks events w = (w1, FOk tt)
    | event :: later =>
        match handle_context_event context callbacks event w1 with
        | (_, FOk _) => False
        | (w2, FErr e) =>
            consume_events context callbacks events w = (_ ← on_library (keep_events context later); refuse e) w2
        | x => consume_events context callbacks events w = x
        end
    end.
Proof.
  revert w. induction events as [|event events IH]; intros w.
  - exists [], [], w. split_and!; [done|constructor|done].
  - cbn [consume_events]. destruct (handle_context_event context callbacks event w) as [w' [[]|e| |]] eqn:Hh.
    + destruct (IH w') as (before & rest & w1 & -> & Hd & Hr). exists (event :: before), rest, w1.
      split_and!; [done|by econstructor|done].
    + exists [], (event :: events), w. split_and!; [done|constructor|by rewrite Hh].
    + exists [], (event :: events), w. split_and!; [done|constructor|by rewrite Hh].
    + exists [], (event :: events), w. split_and!; [done|constructor|by rewrite Hh].
Qed.

Lemma keep_events_spec context later g c callbacks kept :
  tuple_at context g = Some (c, callbacks, kept) →
  ∃ g', keep_events context later g = (g', FOk tt) ∧ g' = rg_set (contexts g') g ∧
    tuple_at context g' = Some (c, callbacks, match later with [] => kept | _ => Some later end).
Proof.
  intros Ht. destruct later as [|event later].
  - exists g. split_and!; [done|by destruct g|done].
  - exists (with_tuple context (c, callbacks, Some (event :: later)) g). split_and!.
    + unfold keep_events, with_tuple, tuple_at, with_object, object_at in *. destruct (contexts g) as [r|]; [|done]. by rewrite Ht.
    + unfold with_tuple, with_object. destruct (contexts g); by destruct g.
    + by eapply tuple_at_with.
Qed.

Lemma take_events_spec fuel context g c callbacks kept :
  tuple_at context g = Some (c, callbacks, kept) →
  take_events fuel context g =
    match cx_update fuel c with
    | Done (c1, Ok new) => (with_tuple context (c1, callbacks, None) g, FOk (default [] kept ++ new, callbacks))
    | Done (c1, Err e) => (with_tuple context (c1, callbacks, kept) g, FErr (FE_Other (OE_Context e)))
    | Panicked => (rg_set (None : lock C_ContextTuple) g, FPanic)
    | OutOfFuel => (g, FDiverge)
    end.
Proof.
  intros Ht. unfold take_events. rewrite (reg_with_at _ _ _ _ Ht). by destruct (cx_update fuel c) as [[c1 [new|e]]| |].
Qed.

(** C11. Events reach the application in order, and an error costs one event.  A poll of a
    context hands the events that were kept, then the new ones, to the callbacks one after
    the other.  When all are handled it succeeds; when one fails, the poll fails with its
    error, that event is gone, and the later ones are kept on the context (unless the
    application freed it) and come first in the next poll.  When the update of the context
    fails, nothing is delivered and what was kept stays; a panic in the update poisons the
    registry of contexts; a panic while an event is handled loses the later events. *)
Theorem poll_delivers_in_order fuel context error g app c callbacks kept :
  tuple_at context g = Some (c, callbacks, kept) →
  match cx_update fuel c with
  | Done (c1, Ok new) =>
      ∃ before rest w1, default [] kept ++ new = before ++ rest ∧
        delivered context callbacks before (with_tuple context (c1, callbacks, None) g, app) w1 ∧
        match rest with
        | [] => gosling_context_poll_events fuel context error (g, app) = Done (w1, None)
        | event :: later =>
            match handle_context_event context callbacks event w1 with
            | (_, FOk _) => False
            | ((g2, app2), FErr e) =>
                match tuple_at context g2 with
                | Some (c2, callbacks2, kept2) => ∃ g3,
                    gosling_context_poll_events fuel context error (g, app) =
                      translate_on_app error ((g3, app2), FErr e) ∧
                    g3 = rg_set (contexts g3) g2 ∧
                    tuple_at context g3 = Some (c2, callbacks2, match later with [] => kept2 | _ => Some later end)
                | None => contexts g2 ≠ None →
                    gosling_context_poll_events fuel context error (g, app) =
                      translate_on_app error ((g2, app2), FErr e)
                end
            | x => gosling_context_poll_events fuel context error (g, app) = translate_on_app error x
            end
        end
  | Done (c1, Err e) =>
      gosling_context_poll_events fuel context error (g, app) =
        translate_on_app error ((with_tuple context (c1, callbacks, kept) g, app), FErr (FE_Other (OE_Context e)))
  | Panicked =>
      gosling_context_poll_events fuel context error (g, app) =
        translate_on_app error ((rg_set (None : lock C_ContextTuple) g, app), FPanic)
  | OutOfFuel => gosling_context_poll_events fuel context error (g, app) = OutOfFuel
  end.
Proof.
  intros Ht. pose proof (take_events_spec fuel _ _ _ _ _ Ht) as Htake.
  unfold gosling_context_poll_events, mbind, E_bind, on_library. rewrite Htake.
  destruct (cx_update fuel c) as [[c1 [new|e]]| |]; [|done..].
  destruct (consume_events_spec context callbacks (default [] kept ++ new) (with_tuple context (c1, callbacks, None) g, app))
    as (before & rest & w1 & Heq & Hd & Hr).
  exists before, rest, w1. split_and!; [done|done|]. destruct rest as [|event later].
  { rewrite Hr. by destruct w1. }
  destruct (handle_context_event context callbacks event w1) as [[g2 app2] [a|e| |]]; [done| |by rewrite Hr..].
  rewrite Hr. destruct (tuple_at context g2) as [[[c2 callbacks2] kept2]|] eqn:Ht2.
  - destruct (keep_events_spec context later g2 c2 callbacks2 kept2 Ht2) as (g3 & Hk & Hg3 & Ht3).
    exists g3. split_and!; [|done|done]. unfold mbind, E_bind, on_library. by rewrite Hk.
  - intros Hne. unfold mbind, E_bind, on_library, keep_events. destruct later; [done|].
    unfold tuple_at, object_at in Ht2. destruct (contexts g2); [|done]. by rewrite Ht2.
Qed.

(** * What a panic costs *)

(** A call that panics, and says so when it is asked. *)
Definition panics {A} (value : A) (error : bool) : Library → outcome (Library * A * option Z) :=
  translate_failures value error (λ g, (g, FPanic)).

Lemma reg_with_poisoned {A} context (f : ContextTuple RW TL P → outcome (ContextTuple RW TL P * result FfiError A)) g :
  contexts g = None → reg_with (T:=C_ContextTuple) context f g = (g, FPanic).
Proof. intros Hn. unfold reg_with. by rewrite Hn. Qed.

Lemma on_context_poisoned {A} context (m : M (Context RW TL P) CXError A) g :
  contexts g = None → on_context context m g = (g, FPanic).
Proof. apply reg_with_poisoned. Qed.

Lemma holding_poisoned {A} (m : F A) g : contexts g = None → holding (T:=C_ContextTuple) m g = (g, FPanic).
Proof. intros Hn. unfold holding. by rewrite Hn. Qed.

Lemma translate_congr {A} (value : A) error (m m' : F A) g : m g = m' g → translate_failures value error m g = translate_failures value error m' g.
Proof. intros Hm. unfold translate_failures. by rewrite Hm. Qed.

(** The checks on the arguments come first. *)
Lemma handle_checked {A} handle e (m : F A) g : handle ≠ 0%Z → (_ ← ensure (negb (handle =? 0)%Z) e; m) g = m g.
Proof. intros Hh. by destruct (Z.eqb_spec handle 0). Qed.
Lemma text_checked {A} zero text (m : bytes → F A) g : text ≠ [] → (t ← c_text zero (Some text); m t) g = m text g.
Proof. by destruct text. Qed.

Ltac poisoned :=
  unfold panics; apply translate_congr;
  repeat first [rewrite handle_checked by done|rewrite text_checked by done];
  first [by apply on_context_poisoned|by apply holding_poisoned|by apply reg_with_poisoned
        |unfold mbind, F_bind; by rewrite on_context_poisoned].

(** Every call on a context, once the registry of contexts is poisoned. *)
Lemma calls_poisoned context key id public private handshake token target name set callback error g :
  contexts g = None → context ≠ 0%Z → key ≠ 0%Z → id ≠ 0%Z → public ≠ 0%Z → private ≠ 0%Z → target ≠ 0%Z → name ≠ [] →
  Forall (λ call : bool → Library → outcome (Library * unit * option Z), call error g = panics tt error g)
    [gosling_context_bootstrap_tor context; gosling_context_start_identity_server context;
     gosling_context_stop_identity_server context;
     gosling_context_start_endpoint_server context key (Some name) id public;
     gosling_context_stop_endpoint_server context key;
     gosling_context_abort_identity_client_handshake context handshake;
     gosling_context_abort_endpoint_client_handshake context handshake;
     gosling_context_release_circuit_token context token;
     impl_callback_setter set context callback] ∧
  Forall (λ call : bool → Library → outcome (Library * Z * option Z), call error g = panics not_0usize error g)
    [gosling_context_begin_identity_handshake context id (Some name);
     gosling_context_begin_endpoint_handshake context id private (Some name);
     gosling_context_generate_circuit_token context] ∧
  gosling_context_connect context true target token error g = panics None error g ∧
  (∀ fuel app, gosling_context_poll_events fuel context error (g, app) = translate_on_app error ((g, app), FPanic)) ∧
  gosling_context_free context g = Panicked.
Proof.
  intros Hn Hc Hk Hi Hpu Hpr Ht Hname. split_and!; [repeat constructor; poisoned..| | |].
  - unfold gosling_context_connect, panics. apply translate_congr. rewrite handle_checked by done.
    unfold mbind at 1, F_bind at 1, ensure. simpl. destruct (Z.eqb_spec target 0); [done|]. by apply holding_poisoned.
  - intros fuel app. unfold gosling_context_poll_events, mbind, E_bind, on_library, take_events.
    by rewrite reg_with_poisoned.
  - unfold gosling_context_free, reg_free. destruct (Z.eqb_spec context 0); [done|]. by rewrite Hn.
Qed.

(** The report of a panic does not repair the registry. *)
Lemma panics_stays {A} (value : A) error g g' r e :
  contexts g = None → panics value error g = Done (g', r, e) → contexts g' = None.
Proof.
  intros Hn. unfold panics, translate_failures. destruct error; [|by intros [= <- _ _]].
  unfold reg_insert. destruct (rg_get (T:=FfiError) g) as [er|]; [|done].
  destruct (registry_insert _ _ _ _) as [[key er']| |]; [|done..]. intros [= <- _ _]. by destruct g.
Qed.

(** A name with a null byte, which every peer may choose. *)
Lemma nul_name_panics context callbacks f handle id name later g app issued :
  endpoint_server_channel_supported_callback callbacks = Some f → Byte.x00 ∈ as_bytes name →
  registered V3OnionServiceId issued g → has_room V3OnionServiceId g →
  ∃ g2 key, consume_events context callbacks (CE_EndpointServerChannelRequestReceived handle id name :: later) (g, app) =
      ((g2, app), FPanic) ∧
    g2 = rg_set (rg_get (T:=V3OnionServiceId) g2) g ∧
    registered V3OnionServiceId (key :: issued) g2 ∧ key ∉ issued ∧ reg_lookup key g2 = (g2, FOk id).
Proof.
  intros Hf Hnul Hreg Hroom. destruct (reg_insert_ok issued g id Hreg Hroom) as (key & r' & Hins & _ & Hn & _ & Hr & Hget).
  exists (rg_set (Some r') g), key. split_and!; [|by destruct g| |done|].
  - cbn [consume_events handle_context_event]. unfold on_channel_request, required. rewrite Hf.
    unfold mbind, E_bind, lend, on_library. rewrite Hins. unfold c_string. by rewrite bool_decide_eq_true_2.
  - exists r'. by rewrite rg_get_set.
  - unfold reg_lookup. by rewrite rg_get_set, Hget.
Qed.
End props.

Section panic_props.
Context `{BL : BsonLaws} `{CL : CryptoLib} {RW TL P App : Type}.
Context `{SL : StreamLaws RW} `{!Sockets RW TL} `{!TorProvider P RW TL} `{!HashOrder V3OnionServiceId}.
#[local] Hint Extern 0 OtherObjects => exact (gosling_objects RW TL P) : typeclass_instances.
Context `{CC : !CCode (RW:=RW) (TL:=TL) (P:=P) App}.
Implicit Types (g : Library) (app : App).

(** C28. Panics are caught, but what they leave behind is not repaired.  A channel name that
    does not fit in a message makes the endpoint client panic.  A panic in the update of a
    context is reported and poisons the registry of contexts; from then on every call on
    every context fails with a panic of its own and leaves the registry poisoned, and
    freeing a context aborts.  A null byte in the name that a peer asks for makes the
    handler panic outside of the registry: the poll reports it, all later events are lost,
    and the handle made for the peer's service id is never freed. *)
Theorem panics_are_not_contained :
  (∀ (client : EndpointClient RW) rpc,
     ec_rpc client = Some rpc → outbound_ok rpc → MIN_MESSAGE_SIZE ≤ max_message_size rpc →
     ¬ fits (max_message_size rpc) (section_into (ec_begin_request client (next_cookie rpc))) →
     ec_begin client = Panicked) ∧
  (∀ fuel context error g app c callbacks kept,
     tuple_at context g = Some (c, callbacks, kept) → cx_update fuel c = Panicked →
     ∃ g', gosling_context_poll_events fuel context error (g, app) = translate_on_app error ((g', app), FPanic) ∧
       rg_get (T:=C_ContextTuple) g' = None) ∧
  (∀ context key id public private handshake token target name set callback error g,
     rg_get (T:=C_ContextTuple) g = None → context ≠ 0%Z → key ≠ 0%Z → id ≠ 0%Z → public ≠ 0%Z → private ≠ 0%Z →
     target ≠ 0%Z → name ≠ [] →
     Forall (λ call : bool → Library → outcome (Library * unit * option Z), call error g = panics tt error g)
       [gosling_context_bootstrap_tor context; gosling_context_start_identity_server context;
        gosling_context_stop_identity_server context;
        gosling_context_start_endpoint_server context key (Some name) id public;
        gosling_context_stop_endpoint_server context key;
        gosling_context_abort_identity_client_handshake context handshake;
        gosling_context_abort_endpoint_client_handshake context handshake;
        gosling_context_release_circuit_token context token;
        impl_callback_setter set context callback] ∧
     Forall (λ call : bool → Library → outcome (Library * Z * option Z), call error g = panics not_0usize error g)
       [gosling_context_begin_identity_handshake context id (Some name);
        gosling_context_begin_endpoint_handshake context id private (Some name);
        gosling_context_generate_circuit_token context] ∧
     gosling_context_connect context true target token error g = panics None error g ∧
     (∀ fuel app, gosling_context_poll_events fuel context error (g, app) = translate_on_app error ((g, app), FPanic)) ∧
     gosling_context_free context g = Panicked) ∧
  (∀ A (value : A) error g g' r e, rg_get (T:=C_ContextTuple) g = None → panics value error g = Done (g', r, e) →
     rg_get (T:=C_ContextTuple) g' = None) ∧
  (∀ fuel context error g app c callbacks kept c1 new f handle id name later issued,
     tuple_at context g = Some (c, callbacks, kept) → cx_update fuel c = Done (c1, Ok new) →
     default [] kept ++ new = CE_EndpointServerChannelRequestReceived handle id name :: later →
     endpoint_server_channel_supported_callback callbacks = Some f → Byte.x00 ∈ as_bytes name →
     registered V3OnionServiceId issued g → has_room V3OnionServiceId g →
     ∃ g' key, gosling_context_poll_events fuel context error (g, app) = translate_on_app error ((g', app), FPanic) ∧
       tuple_at context g' = Some (c1, callbacks, None) ∧
       registered V3OnionServiceId (key :: issued) g' ∧ key ∉ issued ∧ reg_lookup key g' = (g', FOk id)).
Proof.
  split_and!; [by apply ec_begin_long_name| |by apply calls_poisoned|by intros; eapply panics_stays|].
  - intros fuel context error g app c callbacks kept Ht Hu. exists (rg_set (None : lock C_ContextTuple) g).
    split; [|by destruct g]. unfold gosling_context_poll_events, mbind, E_bind, on_library.
    by rewrite (take_events_spec fuel _ _ _ _ _ Ht), Hu.
  - intros fuel context error g app c callbacks kept c1 new f handle id name later issued Ht Hu Hev Hf Hnul [r [Hg Hr]] Hroom.
    set (g1 := with_tuple context (c1, callbacks, None) g).
    assert (rg_get (T:=V3OnionServiceId) g1 = rg_get (T:=V3OnionServiceId) g) as Hids.
    { unfold g1, with_tuple, with_object. destruct (rg_get (T:=C_ContextTuple) g); by destruct g. }
    destruct (nul_name_panics context callbacks f handle id name later g1 app issued) as (g2 & key & Hc & Hg2 & Hreg & Hn & Hl);
      [done|done|exists r; by rewrite Hids|unfold has_room; by rewrite Hids|].
    exists g2, key. split_and!; [| |done|done|done].
    + unfold gosling_context_poll_events, mbind, E_bind, on_library.
      rewrite (take_events_spec fuel _ _ _ _ _ Ht), Hu, Hev. fold g1. by rewrite Hc.
    + rewrite Hg2. pose proof (tuple_at_with context (c1, callbacks, None) _ g Ht) as Ht1.
      fold g1 in Ht1. clear -Ht1. by destruct g1.
Qed.
End panic_props.

(** * Locks *)

Section lock_props.
Context `{BL : BsonLib} `{CL : CryptoLib} {RW TL P App : Type}.
Context `{!Stream RW} `{!Sockets RW TL} `{!TorProvider P RW TL} `{!HashOrder V3OnionServiceId}.
#[local] Hint Extern 0 OtherObjects => exact (gosling_objects RW TL P) : typeclass_instances.
Implicit Types (g : Library).

(** [gosling_context_init] holds the private keys while it takes the contexts: a panic
    there poisons the private keys. *)
Lemma init_nests draws provider port port' key tor k g :
  rg_get (T:=C_ContextTuple) g = None → object_at (T:=C_TorProvider) provider g = Some tor →
  object_at (T:=Ed25519PrivateKey) key g = Some k →
  provider ≠ 0%Z → port ≠ 0%Z → port' ≠ 0%Z → key ≠ 0%Z →
  ∃ g', gosling_context_init draws true provider port port' key false g = Done (g', None, None) ∧
    rg_get (T:=Ed25519PrivateKey) g' = None.
Proof.
  intros Hn Ht Hk Hp1 Hp2 Hp3 Hk0. unfold gosling_context_init, translate_failures.
  assert (∀ A (m : F A), (_ ← ensure true FE_Null; m) g = m g) as Htrue by done. rewrite Htrue.
  rewrite !handle_checked by done. unfold object_at in Ht, Hk. unfold mbind at 1, F_bind at 1, reg_take.
  destruct (rg_get (T:=C_TorProvider) g) as [r|] eqn:Hr; [|done]. unfold registry_remove, registry_get in *.
  destruct (or_map r) as [m|]; [|done]. rewrite Ht. set (g1 := rg_set _ g).
  assert (rg_get (T:=Ed25519PrivateKey) g1 = rg_get (T:=Ed25519PrivateKey) g) as He by by destruct g.
  assert (rg_get (T:=C_ContextTuple) g1 = None) as Hc by by destruct g.
  clearbody g1. unfold holding. rewrite He. destruct (rg_get (T:=Ed25519PrivateKey) g) as [rk|] eqn:Hrk; [|done].
  unfold mbind, F_bind, reg_lookup. rewrite He, ?Hrk. unfold registry_get. rewrite Hk.
  unfold run. destruct (ed25519_private_clone k) as [k'| |] eqn:Hclone.
  - unfold give, mbind, F_bind, reg_insert. rewrite Hc. eexists. split; [done|]. by destruct g1.
  - eexists. split; [done|]. by destruct g1.
  - unfold ed25519_private_clone in Hclone. by destruct (ed25519_private_from_raw _).
Qed.

(** [gosling_context_start_endpoint_server] holds the contexts while it takes the private
    keys. *)
Lemma start_endpoint_server_nests context key id public name t g :
  rg_get (T:=Ed25519PrivateKey) g = None → object_at (T:=C_ContextTuple) context g = Some t →
  context ≠ 0%Z → key ≠ 0%Z → id ≠ 0%Z → public ≠ 0%Z → name ≠ [] →
  is_utf8 name = true → is_ascii (String.string_of_list_byte name) = true →
  ∃ g', gosling_context_start_endpoint_server context key (Some name) id public false g = Done (g', tt, None) ∧
    rg_get (T:=C_ContextTuple) g' = None.
Proof.
  intros Hn Ht Hc Hk Hi Hp Hname Hu Ha. unfold gosling_context_start_endpoint_server, translate_failures.
  repeat first [rewrite handle_checked by done|rewrite text_checked by done].
  assert (ascii_name name g = (g, FOk (String.string_of_list_byte name))) as Hname'.
  { unfold ascii_name, utf8_text. unfold mbind, F_bind. rewrite Hu. unfold ensure, mret, F_ret. cbv beta iota. by rewrite Ha. }
  assert (reg_lookup (T:=C_ContextTuple) context g = (g, FOk t)) as Hlook.
  { unfold object_at in Ht. unfold reg_lookup. destruct (rg_get (T:=C_ContextTuple) g); [|done]. by rewrite Ht. }
  unfold holding at 1. unfold object_at in Ht. destruct (rg_get (T:=C_ContextTuple) g) as [r|]; [|done].
  unfold mbind, F_bind. rewrite Hlook, Hname'. unfold holding. rewrite Hn. eexists. split; [done|]. by destruct g.
Qed.

(** C13. Locks.  Calls of several threads, all but [gosling_context_init], do not deadlock: in
    whatever order they take and release their locks, and wherever they return early, some
    call can go on until all are done, and they are done after as many steps as they have.
    [gosling_context_init] nests two locks the other way: with a call that starts or stops
    an endpoint server on another thread it can reach a state in which neither ever
    goes on.  The models of the two calls nest the locks in these orders: when the inner
    lock is poisoned, the call poisons the outer one. *)
Theorem lock_orders :
  (∀ calls n threads, Forall other_call calls → nsteps lock_step n (starting calls) threads →
     ¬ deadlocked threads ∧ n + steps_left threads = steps_left (starting calls)) ∧
  Forall (λ call, ∃ threads, rtc lock_step (starting [context_init_locks; call]) threads ∧ deadlocked threads)
    [start_endpoint_server_locks; stop_endpoint_server_locks] ∧
  (∀ draws provider port port' key tor k g,
     rg_get (T:=C_ContextTuple) g = None → object_at (T:=C_TorProvider) provider g = Some tor →
     object_at (T:=Ed25519PrivateKey) key g = Some k →
     provider ≠ 0%Z → port ≠ 0%Z → port' ≠ 0%Z → key ≠ 0%Z →
     ∃ g', gosling_context_init draws true provider port port' key false g = Done (g', None, None) ∧
       rg_get (T:=Ed25519PrivateKey) g' = None) ∧
  (∀ context key id public name t g,
     rg_get (T:=Ed25519PrivateKey) g = None → object_at (T:=C_ContextTuple) context g = Some t →
     context ≠ 0%Z → key ≠ 0%Z → id ≠ 0%Z → public ≠ 0%Z → name ≠ [] →
     is_utf8 name = true → is_ascii (String.string_of_list_byte name) = true →
     ∃ g', gosling_context_start_endpoint_server context key (Some name) id public false g = Done (g', tt, None) ∧
       rg_get (T:=C_ContextTuple) g' = None).
Proof.
  split_and!; [apply other_calls_go_on|apply init_deadlocks|apply init_nests|apply start_endpoint_server_nests].
Qed.
End lock_props.

(** * An application *)

(** It writes down which function pointers are called, and agrees to everything. *)
Definition tor_answer {A} (c : TorCall A) : A :=
  match c with TorBootstrapStatusReceived _ _ _ _ _ _ | TorBootstrapCompleted _ | TorLogReceived _ _ _ => tt end.
Definition identity_client_answer {A} (c : IdentityClientCall A) : A :=
  match c with
  | ICC_ChallengeResponseSize _ _ _ => 5%Z
  | ICC_BuildChallengeResponse _ _ _ buffer => buffer
  | ICC_HandshakeCompleted _ _ _ _ _ _ _ | ICC_HandshakeFailed _ _ _ => tt
  end.
Definition identity_server_answer {A} (c : IdentityServerCall A) : A :=
  match c with
  | ISC_ClientAllowed _ _ _ | ISC_EndpointSupported _ _ _ _ | ISC_VerifyChallengeResponse _ _ _ => true
  | ISC_ChallengeSize _ _ => 5%Z
  | ISC_BuildChallenge _ _ buffer => buffer
  | ISC_Published _ | ISC_HandshakeStarted _ _ | ISC_HandshakeCompleted _ _ _ _ _ _ _
  | ISC_HandshakeRejected _ _ _ _ _ _ _ | ISC_HandshakeFailed _ _ _ => tt
  end.
Definition endpoint_client_answer {RW A} (c : EndpointClientCall RW A) : A :=
  match c with ECC_HandshakeCompleted _ _ _ _ _ _ | ECC_HandshakeFailed _ _ _ => tt end.
Definition endpoint_server_answer {RW A} (c : EndpointServerCall RW A) : A :=
  match c with
  | ESC_ChannelSupported _ _ _ _ _ => true
  | ESC_Published _ _ _ _ | ESC_HandshakeStarted _ _ | ESC_HandshakeCompleted _ _ _ _ _ _ _
  | ESC_HandshakeRejected _ _ _ _ _ | ESC_HandshakeFailed _ _ _ => tt
  end.
Definition answer_to {RW A} (c : GoslingCall RW A) : A :=
  match c with
  | GC_Tor c => tor_answer c
  | GC_IdentityClient c => identity_client_answer c
  | GC_IdentityServer c => identity_server_answer c
  | GC_EndpointClient c => endpoint_client_answer c
  | GC_EndpointServer c => endpoint_server_answer c
  end.

#[local] Hint Extern 0 OtherObjects => exact (gosling_objects Script ScriptListener ScriptTor) : typeclass_instances.
#[local] Instance demo_code : CCode (RW:=Script) (TL:=ScriptListener) (P:=ScriptTor) (list Z) :=
  λ A f c w, Some (answer_to c, (w.1, w.2 ++ [f])).

(** A library with these providers, keys and ids. *)
Definition demo_objects (tor : C_TorProvider) : Library :=
  g_set_tor_provider (Some (mkObjectRegistry (Some [(28%Z, tor)]) 1))
  (g_set_ed25519_private_key (Some (mkObjectRegistry (Some [(18%Z, demo_server_key)]) 1))
  (g_set_x25519_private_key (Some (mkObjectRegistry (Some [(19%Z, x25519_generate (os_random 5 32))]) 1))
  (g_set_v3_onion_service_id (Some (mkObjectRegistry (Some [(21%Z, demo_server_id)]) 1))
  (mkLibrary true empty_lock empty_lock empty_lock empty_lock empty_lock empty_lock empty_lock empty_lock
     empty_lock empty_lock empty_lock empty_lock empty_lock)))).

(** The library after a call. *)
Definition after {A} (call : Library → outcome (Library * A * option Z)) (g : Library) : Library :=
  match call g with Done (g, _, _) => g | _ => g end.
Definition after_poll (context : Z) (g : Library) : Library :=
  match gosling_context_poll_events 10 context false (g, []) with Done ((g, _), _) => g | _ => g end.

(** ** A failing callback *)

(** The context of handle 29 kept a channel request, for which nothing is registered, and a
    line of the log. *)
Definition demo_kept : list (ContextEvent Script) :=
  [CE_EndpointServerChannelRequestReceived 7 demo_server_id "chat"; CE_TorLogReceived "hello"].
Definition demo_idle_context : Context Script ScriptListener ScriptTor :=
  context_new (mkScriptTor [] [] [] []) 420 420 DEFAULT_ENDPOINT_TIMEOUT 4096 None demo_server_key 100.
Definition demo_tuple : C_ContextTuple := (demo_idle_context, no_callbacks, Some demo_kept).
Definition demo_kept_library : Library :=
  g_set_context_tuple (Some (mkObjectRegistry (Some [(29%Z, demo_tuple)]) 1)) (demo_objects (mkScriptTor [] [] [] [])).

Lemma poll_delivers_in_order_witness :
  ∃ g3, gosling_context_poll_events 10 29 false (demo_kept_library, []) = Done ((g3, []), None) ∧
    tuple_at 29 g3 = Some (demo_idle_context, no_callbacks, Some [CE_TorLogReceived "hello"]).
Proof.
  assert (cx_update 10 demo_idle_context = Done (demo_idle_context, Ok [])) as Hu by by_eval.
  pose proof (poll_delivers_in_order 10 29 false demo_kept_library [] demo_idle_context no_callbacks (Some demo_kept)
    eq_refl) as H.
  rewrite Hu in H. destruct H as (before & rest & w1 & Heq & Hd & H).
  remember (with_tuple 29 (demo_idle_context, no_callbacks, None) demo_kept_library, []) as w0 eqn:Hw.
  destruct Hd as [w|event events w w1 w2 Hh Hd]; subst w.
  - simpl in Heq. subst rest. hnf in H.
    destruct H as (g3 & Hp & _ & Ht). exists g3. split; [exact Hp|exact Ht].
  - exfalso. pose proof (f_equal (λ l, match l with e :: _ => e | [] => event end) Heq) as He. simpl in He.
    subst event. discriminate Hh.
Defined.

(** ** A long channel name *)

(** A context bootstraps and is asked for a channel with a name of 200 characters; then it
    is polled. *)
Definition demo_connecting : C_TorProvider := mkScriptTor [Ok [TE_BootstrapComplete]] [script_of [] []] [] [].
Definition demo_long_name : bytes := repeat Byte.x61 200.
Definition demo_g1 : Library := after (gosling_context_init 100 true 28 420 420 18 false) (demo_objects demo_connecting).
Definition demo_g2 : Library := after_poll 29 demo_g1.
Definition demo_begin := gosling_context_begin_endpoint_handshake (RW:=Script) (TL:=ScriptListener) (P:=ScriptTor)
  29 21 19 (Some demo_long_name) false.
Definition demo_g3 : Library := after demo_begin demo_g2.
Definition demo_g4 : Library := after_poll 29 demo_g3.

Definition is_poisoned (g : Library) : bool := match rg_get (T:=C_ContextTuple) g with None => true | Some _ => false end.

Lemma panics_are_not_contained_witness :
  is_poisoned demo_g3 = false ∧ (match demo_begin demo_g2 with Done (_, handle, None) => handle =? 0 | _ => false end)%Z = true ∧
  is_poisoned demo_g4 = true ∧
  gosling_context_generate_circuit_token 29 true demo_g4 = panics not_0usize true demo_g4 ∧
  gosling_context_free 29 demo_g4 = Panicked.
Proof.
  split; [by_eval|]. split; [by_eval|]. split; [by_eval|].
  destruct (panics_are_not_contained (RW:=Script) (TL:=ScriptListener) (P:=ScriptTor) (App:=list Z)) as (_ & _ & H & _).
  assert (rg_get (T:=C_ContextTuple) demo_g4 = None) as Hn.
  { assert (is_poisoned demo_g4 = true) as Hp by by_eval. unfold is_poisoned in Hp.
    destruct (rg_get (T:=C_ContextTuple) demo_g4); [discriminate Hp|reflexivity]. }
  destruct (H 29%Z 18%Z 21%Z 20%Z 19%Z 0%Z 0 1%Z demo_long_name set_tor_log_received_callback None true demo_g4 Hn)
    as (_ & Hf & _ & _ & Hfree); [discriminate..|]. split; [|exact Hfree].
  apply Forall_cons_1 in Hf as [_ Hf]. apply Forall_cons_1 in Hf as [_ Hf]. by apply Forall_cons_1 in Hf as [Hf _].
Defined.

(** ** Locks in two orders *)

(** A thread starts an endpoint server and another one connects; the contexts are poisoned
    when a context is made, and the keys when one starts an endpoint server. *)
Definition demo_no_contexts : Library := g_set_context_tuple None (demo_objects demo_connecting).
Definition demo_no_keys : Library := g_set_ed25519_private_key None demo_kept_library.

Lemma lock_orders_witness :
  ¬ deadlocked (starting [start_endpoint_server_locks; connect_locks]) ∧
  (∃ g', gosling_context_init 100 true 28 420 420 18 false demo_no_contexts = Done (g', None, None) ∧
     rg_get (T:=Ed25519PrivateKey) g' = None) ∧
  (∃ g', gosling_context_start_endpoint_server 29 18 (Some (repeat Byte.x61 4)) 21 20 false demo_no_keys =
     Done (g', tt, None) ∧ rg_get (T:=C_ContextTuple) g' = None).
Proof.
  destruct (lock_orders (RW:=Script) (TL:=ScriptListener) (P:=ScriptTor)) as (Hgo & _ & Hinit & Hstart). split_and!.
  - apply (Hgo [start_endpoint_server_locks; connect_locks] 0); [repeat constructor|constructor].
  - by eapply Hinit.
  - by eapply Hstart.
Defined.
