(* ===== verification/CProviderProps.v ===== *)
(** The way of the settings of a tor provider behind the C interface into a context. *)

From Stdlib Require Import ZArith Lia.
From S2P Require Import Prelude Bson HonkSize Maps HonkSession Str NetAddr Regexes Crypto TorCrypto TorProvider TorAddr.
From S2P Require Import MockTorClient TorConfig TorProcess TorVersion ControlStream TorController LegacyTorClient.
From S2P Require Import HonkWire Context ObjectRegistry CFfi CObjects CUtils CTorProvider CContext CFfiProps.
From S2P Require Import BsonModel CryptoModel ControlScript TorProps.
From stdpp Require Import prelude strings list.

Open Scope nat_scope.

Section settings.
Context `{BL : BsonLib} `{CL : CryptoLib} `{PC : ProcessCrypto} `{RL : RegexLib} `{DL : DomainLib}.
Context {H File Child W RW TL : Type} `{TH : !TorHost H File Child} `{CS : !ControlSocket W} `{TN : !TorNetwork H RW TL}.
Context `{LB : !Loopback H RW TL}.

Abbreviation Provider := (BoxedProvider (H:=H) (Child:=Child) (W:=W) (TL:=TL)).
Abbreviation Listener := (BoxedListener (TL:=TL)).
#[local] Hint Extern 0 OtherObjects => exact (gosling_objects RW Listener Provider) : typeclass_instances.
Implicit Types (g : Library).

Definition config_at (handle : Z) g : option C_TorProviderConfig := object_at (T:=C_TorProviderConfig) handle g.

Definition set_config (handle : Z) (config : C_TorProviderConfig) g : Library := with_object handle config g.

(** Only the config behind this handle is another. *)
Definition config_becomes (handle : Z) (config : TorProviderConfig) g g' : Prop :=
  g' = rg_set (rg_get (T:=C_TorProviderConfig) g') g ∧
  ∀ k, config_at k g' = if (k =? handle)%Z then Some config else config_at k g.

(** A call that changes the config, or that fails and changes nothing. *)
Definition changes_config (handle : Z) (config : TorProviderConfig) g
    (o : outcome (Library * unit * option Z)) : Prop :=
  ∃ g', o = Done (g', tt, None) ∧ config_becomes handle config g g'.
Definition fails_with (e : FfiError) (error : bool) g (o : outcome (Library * unit * option Z)) : Prop :=
  o = translate_failures tt error (bail e) g.

Lemma change_bundled_ok handle config config' change error g :
  config_at handle g = Some (LegacyTorClientConfig_ config) → change config g = (g, FOk (Some config')) →
  changes_config handle (LegacyTorClientConfig_ config') g
    (translate_failures tt error (change_bundled handle change) g).
Proof.
  unfold config_at. intros Hc Hch. exists (set_config handle (LegacyTorClientConfig_ config') g).
  assert (change_bundled handle change g =
    (set_config handle (LegacyTorClientConfig_ config') g, FOk tt)) as Heq.
  { unfold change_bundled. eapply holding_at; [exact Hc| |done].
    unfold mbind, F_bind. rewrite (reg_lookup_at _ _ _ Hc), Hch.
    by rewrite (reg_with_at _ _ _ _ Hc). }
  split; [unfold translate_failures; by rewrite Heq|]. split.
  - unfold set_config, with_object. destruct (rg_get (T:=C_TorProviderConfig) g); by destruct g.
  - exact (object_at_with _ _ _ _ Hc).
Qed.

(** The settings only a bundled client has. *)
Definition is_bundled (config : TorProviderConfig) : bool :=
  match config with LegacyTorClientConfig_ (BundledTor _ _ _ _ _ _) => true | _ => false end.

Lemma change_bundled_unsupported handle config change g :
  config_at handle g = Some config → is_bundled config = false →
  (∀ a b c, change (SystemTor a b c) = unsupported) →
  change_bundled handle change g = (g, FErr FE_Unsupported).
Proof.
  unfold config_at. intros Hc Hb Hch. unfold change_bundled. eapply holding_at; [exact Hc| |done].
  unfold mbind, F_bind. rewrite (reg_lookup_at _ _ _ Hc).
  destruct config as [|[]]; [done|done|by rewrite Hch].
Qed.
(** Where the provider of a config comes from: what a start gives. *)
Definition started (fuel draws : nat) (network : MockTorNetwork) (h : H) (config : TorProviderConfig) :
    outcome (result LCError Provider) :=
  match config with
  | MockTorClientConfig =>
      match mock_client_new network h with
      | Done client => Done (Ok (BP_Mock client))
      | Panicked => Panicked
      | OutOfFuel => OutOfFuel
      end
  | LegacyTorClientConfig_ config =>
      match client_new fuel draws config h with
      | Done (Ok client, _) => Done (Ok (BP_Legacy client))
      | Done (Err e, _) => Done (Err e)
      | Panicked => Panicked
      | OutOfFuel => OutOfFuel
      end
  end.

Definition provider_at (handle : Z) g : option C_TorProvider := object_at (T:=C_TorProvider) handle g.
Definition provider_from (fuel draws : nat) (network : MockTorNetwork) (h : H) (handle : Z) (error : bool) g :=
  gosling_tor_provider_from_tor_provider_config (RW:=RW) fuel draws network h true handle error g.

Lemma give_provider issued (provider : C_TorProvider) g :
  registered C_TorProvider issued g → has_room C_TorProvider g →
  ∃ g' key, give provider g = (g', FOk (Some key)) ∧ (0 < key ≤ usize_max)%Z ∧ key ∉ issued ∧
    provider_at key g' = Some provider ∧ g' = rg_set (rg_get (T:=C_TorProvider) g') g.
Proof.
  intros Hreg Hroom.
  destruct (reg_insert_ok issued g provider Hreg Hroom) as (key & r' & Hins & Hk & Hn & _ & _ & Hget).
  exists (rg_set (T:=C_TorProvider) (Some r') g), key. unfold give, mbind, F_bind. rewrite Hins.
  split_and!; [done|lia..|done| |by destruct g]. unfold provider_at, object_at. by rewrite rg_get_set.
Qed.

Lemma provider_from_config fuel draws network h handle config issued error g :
  handle ≠ 0%Z → config_at handle g = Some config → registered C_TorProvider issued g → has_room C_TorProvider g →
  match started fuel draws network h config with
  | Done (Ok provider) =>
      ∃ g' key, provider_from fuel draws network h handle error g = Done (g', Some key, None) ∧
        (0 < key ≤ usize_max)%Z ∧ key ∉ issued ∧ provider_at key g' = Some provider ∧
        g' = rg_set (rg_get (T:=C_TorProvider) g') g
  | Done (Err e) =>
      provider_from fuel draws network h handle error g =
        translate_failures None error (bail (FE_Other (OE_Client e))) g
  | Panicked =>
      provider_from fuel draws network h handle error g =
        translate_failures None error (λ g, (rg_set (None : lock C_TorProviderConfig) g, FPanic)) g
  | OutOfFuel => provider_from fuel draws network h handle error g = OutOfFuel
  end.
Proof.
  intros Hh Hc Hreg Hroom. unfold provider_from, gosling_tor_provider_from_tor_provider_config, config_at in *.
  pose proof (reg_lookup_at _ _ _ Hc) as Hl.
  assert (∃ r, rg_get (T:=C_TorProviderConfig) g = Some r) as [r Hr].
  { unfold object_at in Hc. destruct (rg_get (T:=C_TorProviderConfig) g) as [r|]; [by exists r|done]. }
  unfold translate_failures, mbind, F_bind, ensure, holding. simpl. destruct (Z.eqb_spec handle 0) as [|_]; [done|]. simpl.
  simpl in Hr. rewrite Hr. simpl in Hl. rewrite Hl. unfold started.
  destruct config as [|config]; unfold run.
  - destruct (mock_client_new network h) as [client| |]; simpl; [|done..].
    destruct (give_provider issued (BP_Mock client) g Hreg Hroom) as (g' & key & Hgive & Hk).
    exists g', key. simpl in Hgive. rewrite Hgive. by split.
  - destruct (client_new fuel draws config h) as [[[client|e] h']| |]; simpl; [|done..].
    destruct (give_provider issued (BP_Legacy client) g Hreg Hroom) as (g' & key & Hgive & Hk).
    exists g', key. simpl in Hgive. rewrite Hgive. by split.
Qed.
Definition key_at (handle : Z) g : option Ed25519PrivateKey := object_at (T:=Ed25519PrivateKey) handle g.
Definition context_at (handle : Z) g : option C_ContextTuple := object_at (T:=C_ContextTuple) handle g.

(** The provider is taken out of its registry before the key is looked up. *)
Lemma take_provider issued handle (provider : C_TorProvider) g :
  registered C_TorProvider issued g → provider_at handle g = Some provider →
  ∃ g', reg_take handle g = (g', FOk provider) ∧ provider_at handle g' = None ∧
    g' = rg_set (rg_get (T:=C_TorProvider) g') g.
Proof.
  intros (r & Hg & Hr) Hp. unfold provider_at, object_at in *. rewrite Hg in Hp.
  destruct (registry_remove_spec _ _ _ _ handle (reg_reachable_inv _ _ (rg_tag_ok (T:=C_TorProvider)) _ _ Hr))
    as (H1 & _ & _ & H2).
  exists (rg_set (T:=C_TorProvider) (Some (registry_remove r handle).2) g). split_and!; [| |by destruct g].
  - unfold reg_take. rewrite Hg. rewrite Hp in H1. destruct (registry_remove r handle) as [o r']. simpl in *. by rewrite H1.
  - rewrite rg_get_set, H2. by rewrite Z.eqb_refl.
Qed.

(** A context as [gosling_context_init] leaves it. *)
Definition fresh_context (draws : nat) (provider : Provider) (identity_port endpoint_port : Z)
    (key : Ed25519PrivateKey) : C_ContextTuple :=
  (context_new provider identity_port endpoint_port IDENTITY_TIMEOUT IDENTITY_MAX_MESSAGE_SIZE
     (Some IDENTITY_TIMEOUT) key draws, no_callbacks, None).

Definition init (draws : nat) (in_tor_provider identity_port endpoint_port key : Z) (error : bool) g :=
  gosling_context_init (RW:=RW) (TL:=Listener) (P:=Provider) draws true in_tor_provider identity_port endpoint_port key error g.

Lemma init_consumes draws provider_handle identity_port endpoint_port key_handle provider providers contexts error g :
  provider_handle ≠ 0%Z → identity_port ≠ 0%Z → endpoint_port ≠ 0%Z → key_handle ≠ 0%Z →
  registered C_TorProvider providers g → provider_at provider_handle g = Some provider →
  registered C_ContextTuple contexts g → has_room C_ContextTuple g → rg_get (T:=Ed25519PrivateKey) g ≠ None →
  match key_at key_handle g with
  | None => ∃ g1, provider_at provider_handle g1 = None ∧
      init draws provider_handle identity_port endpoint_port key_handle error g =
        translate_failures None error (λ _, (g1, FErr FE_InvalidHandle)) g
  | Some key => ∀ key', ed25519_private_clone key = Done key' →
      ∃ g' context, init draws provider_handle identity_port endpoint_port key_handle error g =
          Done (g', Some context, None) ∧
        context ∉ contexts ∧ provider_at provider_handle g' = None ∧
        context_at context g' = Some (fresh_context draws provider identity_port endpoint_port key')
  end.
Proof.
  intros Hp Hi He Hk Hprov Hpa Hctx Hroom Hkeys.
  destruct (take_provider _ _ _ _ Hprov Hpa) as (g1 & Htake & Hnone & Hg1).
  assert (rg_get (T:=Ed25519PrivateKey) g1 = rg_get (T:=Ed25519PrivateKey) g) as Hk1 by (rewrite Hg1; by destruct g).
  assert (rg_get (T:=C_ContextTuple) g1 = rg_get (T:=C_ContextTuple) g) as Hc1 by (rewrite Hg1; by destruct g).
  assert (∀ m : F (option Z),
    (_ ← ensure true FE_Null; _ ← ensure (negb (provider_handle =? 0)%Z) FE_Null;
     _ ← ensure (negb (identity_port =? 0)%Z) FE_Zero; _ ← ensure (negb (endpoint_port =? 0)%Z) FE_Zero;
     _ ← ensure (negb (key_handle =? 0)%Z) FE_Null; m) g = m g) as Hargs.
  { intros m. unfold mbind, F_bind, ensure. by rewrite !(proj2 (Z.eqb_neq _ _)) by done. }
  unfold init, gosling_context_init. destruct (rg_get (T:=Ed25519PrivateKey) g) as [r|] eqn:Hr; [|done].
  unfold key_at, object_at. rewrite Hr. destruct (registry_get r key_handle) as [key|] eqn:Hkey.
  - intros key' Hclone. destruct Hctx as (cr & Hcr & Hreach).
    set (t := fresh_context draws provider identity_port endpoint_port key').
    destruct (reg_insert_ok contexts g1 t) as (context & r' & Hins & _ & Hn & _ & _ & Hget).
    { exists cr. rewrite Hc1. by split. }
    { unfold has_room. rewrite Hc1. exact Hroom. }
    exists (rg_set (T:=C_ContextTuple) (Some r') g1), context. split_and!; [|done| |].
    + unfold translate_failures. rewrite Hargs. unfold give, mbind, F_bind, holding, reg_lookup, run. rewrite Htake, Hk1, Hkey, Hclone.
      change (reg_insert _ g1) with (reg_insert t g1). by rewrite Hins.
    + rewrite <- Hnone. unfold provider_at, object_at. by destruct g1.
    + unfold context_at, object_at. rewrite rg_get_set. exact Hget.
  - exists g1. split; [exact Hnone|]. unfold translate_failures. rewrite Hargs.
    unfold mbind, F_bind, holding, reg_lookup. by rewrite Htake, Hk1, Hkey.
Qed.
(** ** The changes, on each kind of config *)

Definition proxy_at (handle : Z) g : option C_ProxyConfig := object_at (T:=C_ProxyConfig) handle g.
Definition transport_at (handle : Z) g : option C_PluggableTransportConfig :=
  object_at (T:=C_PluggableTransportConfig) handle g.
Definition bridge_at (handle : Z) g : option C_BridgeLine := object_at (T:=C_BridgeLine) handle g.

(** An appended setting. *)
Definition added {A} (l : option (list A)) (x : A) : option (list A) := Some (default [] l ++ [x]).

Abbreviation set_proxy handle proxy error g :=
  (gosling_tor_provider_config_set_proxy_config (RW:=RW) (TL:=Listener) (P:=Provider) handle proxy error g).
Abbreviation set_ports handle ports error g :=
  (gosling_tor_provider_config_set_allowed_ports (RW:=RW) (TL:=Listener) (P:=Provider) handle (Some ports) error g).
Abbreviation add_transport handle transport error g :=
  (gosling_tor_provider_config_add_pluggable_transport_config (RW:=RW) (TL:=Listener) (P:=Provider) handle transport error g).
Abbreviation add_bridge handle bridge error g :=
  (gosling_tor_provider_config_add_bridge_line (RW:=RW) (TL:=Listener) (P:=Provider) handle bridge error g).

Lemma nonzero {A} handle (m : F A) : handle ≠ 0%Z → (_ ← ensure (negb (handle =? 0)%Z) FE_Null; m) = m.
Proof. intros Hh. by rewrite (proj2 (Z.eqb_neq _ _) Hh). Qed.

Lemma bundled_settings handle b d px ports pts bls error g :
  handle ≠ 0%Z → config_at handle g = Some (LegacyTorClientConfig_ (BundledTor b d px ports pts bls)) →
  (∀ h v, h ≠ 0%Z → proxy_at h g = Some v →
     changes_config handle (LegacyTorClientConfig_ (BundledTor b d (Some v) ports pts bls)) g (set_proxy handle h error g)) ∧
  (∀ l, l ≠ [] →
     changes_config handle (LegacyTorClientConfig_ (BundledTor b d px (Some l) pts bls)) g (set_ports handle l error g)) ∧
  (∀ h v, h ≠ 0%Z → transport_at h g = Some v →
     changes_config handle (LegacyTorClientConfig_ (BundledTor b d px ports (added pts v) bls)) g
       (add_transport handle h error g)) ∧
  (∀ h v, h ≠ 0%Z → bridge_at h g = Some v →
     changes_config handle (LegacyTorClientConfig_ (BundledTor b d px ports pts (added bls v))) g
       (add_bridge handle h error g)).
Proof.
  intros Hh Hc. split_and!.
  - intros h v Hne Hv. unfold gosling_tor_provider_config_set_proxy_config. rewrite !nonzero by done.
    eapply change_bundled_ok; [exact Hc|]. unfold mbind, F_bind. by rewrite (reg_lookup_at _ _ _ Hv).
  - intros l Hl. unfold gosling_tor_provider_config_set_allowed_ports. rewrite nonzero by done.
    destruct l; [done|]. by eapply change_bundled_ok; [exact Hc|].
  - intros h v Hne Hv. unfold gosling_tor_provider_config_add_pluggable_transport_config. rewrite !nonzero by done.
    eapply change_bundled_ok; [exact Hc|]. unfold mbind, F_bind. rewrite (reg_lookup_at _ _ _ Hv). by destruct pts.
  - intros h v Hne Hv. unfold gosling_tor_provider_config_add_bridge_line. rewrite !nonzero by done.
    eapply change_bundled_ok; [exact Hc|]. unfold mbind, F_bind. rewrite (reg_lookup_at _ _ _ Hv). by destruct bls.
Qed.

Lemma other_settings handle config error g :
  handle ≠ 0%Z → config_at handle g = Some config → is_bundled config = false →
  (∀ h, h ≠ 0%Z → fails_with FE_Unsupported error g (set_proxy handle h error g) ∧
     fails_with FE_Unsupported error g (add_transport handle h error g) ∧
     fails_with FE_Unsupported error g (add_bridge handle h error g)) ∧
  (∀ l, l ≠ [] → fails_with FE_Unsupported error g (set_ports handle l error g)).
Proof.
  intros Hh Hc Hb.
  assert (∀ change, (∀ a b c, change (SystemTor a b c) = unsupported) →
    fails_with FE_Unsupported error g (translate_failures tt error (change_bundled handle change) g)) as Hfail.
  { intros change Hch. unfold fails_with, translate_failures. by rewrite (change_bundled_unsupported _ _ change _ Hc Hb Hch). }
  split.
  - intros h Hne. unfold gosling_tor_provider_config_set_proxy_config,
      gosling_tor_provider_config_add_pluggable_transport_config, gosling_tor_provider_config_add_bridge_line.
    rewrite !nonzero by done. split_and!; by apply Hfail.
  - intros l Hl. unfold gosling_tor_provider_config_set_allowed_ports. rewrite nonzero by done.
    destruct l; [done|]. by apply Hfail.
Qed.
(** C10. Settings reach the provider they are for, and the provider its context.  On the
    config of a bundled tor, setting the proxy or the allowed ports replaces them, adding a
    transport or a bridge appends it to those already there, and no other config changes; on
    every other config the same calls fail and change nothing.  A provider is started with
    exactly the settings of the config, which stays as it was, and gets a new handle; an
    error of the start is reported, a panic of it poisons the registry of configs.  A
    context takes the provider out of its registry, also when the call then fails on the
    handle of the key; otherwise it starts with this provider, ports and key, without
    callbacks and without events. *)
Theorem settings_reach_the_context :
  (∀ handle b d px ports pts bls error g,
     handle ≠ 0%Z → config_at handle g = Some (LegacyTorClientConfig_ (BundledTor b d px ports pts bls)) →
     (∀ h v, h ≠ 0%Z → proxy_at h g = Some v →
        changes_config handle (LegacyTorClientConfig_ (BundledTor b d (Some v) ports pts bls)) g
          (set_proxy handle h error g)) ∧
     (∀ l, l ≠ [] →
        changes_config handle (LegacyTorClientConfig_ (BundledTor b d px (Some l) pts bls)) g
          (set_ports handle l error g)) ∧
     (∀ h v, h ≠ 0%Z → transport_at h g = Some v →
        changes_config handle (LegacyTorClientConfig_ (BundledTor b d px ports (added pts v) bls)) g
          (add_transport handle h error g)) ∧
     (∀ h v, h ≠ 0%Z → bridge_at h g = Some v →
        changes_config handle (LegacyTorClientConfig_ (BundledTor b d px ports pts (added bls v))) g
          (add_bridge handle h error g))) ∧
  (∀ handle config error g,
     handle ≠ 0%Z → config_at handle g = Some config → is_bundled config = false →
     (∀ h, h ≠ 0%Z → fails_with FE_Unsupported error g (set_proxy handle h error g) ∧
        fails_with FE_Unsupported error g (add_transport handle h error g) ∧
        fails_with FE_Unsupported error g (add_bridge handle h error g)) ∧
     (∀ l, l ≠ [] → fails_with FE_Unsupported error g (set_ports handle l error g))) ∧
  (∀ fuel draws network h handle config issued error g,
     handle ≠ 0%Z → config_at handle g = Some config → registered C_TorProvider issued g → has_room C_TorProvider g →
     match started fuel draws network h config with
     | Done (Ok provider) =>
         ∃ g' key, provider_from fuel draws network h handle error g = Done (g', Some key, None) ∧
           (0 < key ≤ usize_max)%Z ∧ key ∉ issued ∧ provider_at key g' = Some provider ∧
           g' = rg_set (rg_get (T:=C_TorProvider) g') g
     | Done (Err e) =>
         provider_from fuel draws network h handle error g =
           translate_failures None error (bail (FE_Other (OE_Client e))) g
     | Panicked =>
         provider_from fuel draws network h handle error g =
           translate_failures None error (λ g, (rg_set (None : lock C_TorProviderConfig) g, FPanic)) g
     | OutOfFuel => provider_from fuel draws network h handle error g = OutOfFuel
     end) ∧
  (∀ draws provider_handle identity_port endpoint_port key_handle provider providers contexts error g,
     provider_handle ≠ 0%Z → identity_port ≠ 0%Z → endpoint_port ≠ 0%Z → key_handle ≠ 0%Z →
     registered C_TorProvider providers g → provider_at provider_handle g = Some provider →
     registered C_ContextTuple contexts g → has_room C_ContextTuple g → rg_get (T:=Ed25519PrivateKey) g ≠ None →
     match key_at key_handle g with
     | None => ∃ g1, provider_at provider_handle g1 = None ∧
         init draws provider_handle identity_port endpoint_port key_handle error g =
           translate_failures None error (λ _, (g1, FErr FE_InvalidHandle)) g
     | Some key => ∀ key', ed25519_private_clone key = Done key' →
         ∃ g' context, init draws provider_handle identity_port endpoint_port key_handle error g =
             Done (g', Some context, None) ∧
           context ∉ contexts ∧ provider_at provider_handle g' = None ∧
           context_at context g' = Some (fresh_context draws provider identity_port endpoint_port key')
     end).
Proof.
  split_and!; [apply bundled_settings|apply other_settings|apply provider_from_config|apply init_consumes].
Qed.
End settings.

(** Sockets that always work, and a library with the config of a bundled tor, a bridge, the
    config of a mock client and a key. *)
#[local] Existing Instances demo_process_crypto demo_host demo_network.
#[local] Instance demo_loopback : Loopback unit unit unit := {|
  lb_connect _ h := (IoOk tt, h); lb_bind _ h := (IoOk tt, h);
  lb_local_addr _ := IoOk (SA_V4 [127; 0; 0; 1]%Z 4000) |}.

Abbreviation DemoProvider := (BoxedProvider (H:=unit) (Child:=unit) (W:=ControlWire) (TL:=unit)).
Abbreviation DemoListener := (BoxedListener (TL:=unit)).
#[local] Hint Extern 0 OtherObjects => exact (gosling_objects unit DemoListener DemoProvider) : typeclass_instances.

Definition demo_bridge (port : Z) : C_BridgeLine := mkBridgeLine (lit "obfs4") (SA_V4 [192; 0; 2; 1]%Z port) (lit "") [].
Definition demo_bundled (bridges : list BridgeLine) : C_TorProviderConfig :=
  LegacyTorClientConfig_ (BundledTor (lit "/bin/tor") (lit "/tmp") None None None (Some bridges)).
Definition demo_mock_config : C_TorProviderConfig := MockTorClientConfig.
Definition demo_settings : Library :=
  g_set_ed25519_private_key (Some (mkObjectRegistry (Some [(18%Z, ed25519_generate (os_random 1 32))]) 1))
  (g_set_bridge_line (Some (mkObjectRegistry (Some [(26%Z, demo_bridge 2)]) 1))
  (g_set_tor_provider_config
     (Some (mkObjectRegistry (Some [(27%Z, demo_bundled [demo_bridge 1]); (43%Z, demo_mock_config)]) 2))
     (mkLibrary true empty_lock empty_lock empty_lock empty_lock empty_lock empty_lock empty_lock empty_lock
        empty_lock empty_lock empty_lock empty_lock empty_lock))).

Lemma settings_reach_the_context_witness :
  changes_config 27 (demo_bundled [demo_bridge 1; demo_bridge 2]) demo_settings
    (gosling_tor_provider_config_add_bridge_line 27 26 true demo_settings) ∧
  fails_with FE_Unsupported true demo_settings
    (gosling_tor_provider_config_set_allowed_ports 43 (Some [80%Z]) true demo_settings) ∧
  ∃ g' key provider, provider_from (RW:=unit) 5 0 mock_network_new tt 43 true demo_settings = Done (g', Some key, None) ∧
    provider_at key g' = Some provider.
Proof.
  destruct (settings_reach_the_context (H:=unit) (File:=unit) (Child:=unit) (W:=ControlWire) (RW:=unit) (TL:=unit))
    as (H1 & H2 & H3 & _).
  split; [|split].
  - destruct (H1 27%Z (lit "/bin/tor") (lit "/tmp") None None None (Some [demo_bridge 1]) true demo_settings) as (_ & _ & _ & Hb);
      [discriminate|reflexivity|]. apply (Hb 26%Z (demo_bridge 2)); [discriminate|reflexivity].
  - destruct (H2 43%Z demo_mock_config true demo_settings) as (_ & Hp); [discriminate|reflexivity|reflexivity|].
    apply Hp. discriminate.
  - specialize (H3 5 0 mock_network_new tt 43%Z demo_mock_config [] true demo_settings).
    destruct H3 as (g' & key & Heq & _ & _ & Hat & _).
    + discriminate.
    + reflexivity.
    + eexists. split; [reflexivity|]. constructor. reflexivity.
    + intros r [= <-]. discriminate.
    + exists g', key. eexists. split; [exact Heq|exact Hat].
Defined.
